(* ===== verification/_CoqProject ===== *)
-Q . S2P
Prelude.v
Bytes.v
ByteBuffer.v
NetBuffer.v
Channel.v
TcpConnection.v
TcpConnectionFacts.v
TcpConnectionSteps.v
EventLoop.v
Poller.v
PollerFacts.v
LoopLifetime.v
Text.v
CountDownLatch.v
Singleton.v
EventLoopThread.v
Acceptor.v
TcpServer.v
TcpServerFacts.v
ConnectionLifetime.v
Calendar.v
Timestamp.v
TimerQueue.v
TimerQueueFacts.v
StdMap.v
HttpContext.v
HttpContextFacts.v
HttpServer.v
TcpApplication.v
ExampleServers.v
Json.v
Auth.v
AuthFacts.v
LoginServer.v
LoginServerFacts.v
Amf0.v
RtmpTypes.v
ChunkWriter.v
ChunkParser.v
ChunkParserFacts.v
ChunkRoundtrip.v
RtmpHandshake.v
RtmpCommand.v
RtmpSession.v
RtmpConnectionContext.v
RtmpServer.v
RtmpServerFacts.v
RtmpServerSystem.v
SessionRace.v
JoinRace.v
RtmpConcurrency.v
TeacherBackend.v
Programs.v
RtmpRelay.v
RtmpTyping.v
RtmpNetwork.v
