(* ===== verification/Prelude.v ===== *)
(** * rmuduo: verification development (root file)

    rmuduo is a multi-threaded network library of the one-loop-per-thread kind
    (src/net) with an HTTP server (src/http), an RTMP live-streaming server
    (src/rtmp), authentication with tokens and stream tickets (src/auth,
    src/api), and the servers built from them (src/example).  The library here
    models the servers file by file and proves what makes them correct.  Names
    of definitions are those of the source; a file opens with the sources it
    models.

    ** How the program works

    The base loop's [Acceptor] takes connections and hands them to [TcpServer],
    which gives each a [TcpConnection] in the next I/O loop of
    [EventLoopThreadPool].  An [EventLoop] asks its poller for active [Channel]s,
    runs their callbacks, then the functors that other threads posted; an
    eventfd wakes it up, a timerfd drives its [TimerQueue].  A [TcpConnection]
    reads into a [Buffer] and calls the message callback of the application:
    [HttpServer] parses requests with an [HttpContext]; [RtmpServer] drives
    handshake, chunk parser, AMF0 commands and sessions, and writes with the
    chunk writer.  The teacher backend (login_server.cc) routes HTTP requests to
    handlers over [AuthService], and the RTMP server asks its tickets.

    ** Files

    - Prelude, Bytes, Text, StdMap: results of fallible code, tactics and hint
      databases, generic lemmas; integers as big-endian bytes; the parts of
      <cctype>, <charconv> and std::format the code uses; std::map as a sorted
      association list.  Calendar: the Gregorian calendar of <chrono>.
    - ByteBuffer: the interface (a class with laws) through which decoders use a
      buffer; NetBuffer: net/Buffer, an instance of it, and the refinement of a
      byte queue.  Decoders and connections are proved for every instance.
    - Channel, TcpConnection, TcpConnectionFacts, TcpConnectionSteps: net/Channel
      and net/TcpConnection.  The kernel answers writes from a list, callbacks are
      programs of calls; a step is one call of the loop or of the user.
      ConnectionLifetime: who keeps a connection alive, with send() and shutdown()
      of other threads cut into test, store and post.
    - TcpApplication, ExampleServers: applications as callbacks of that
      connection: HttpServer, echo_server.cc, test.cpp, Httpserver_test.cc.
    - EventLoop: net/EventLoop, cut wherever another thread can get in between,
      with the functors its own thread posts before loop().  Poller, PollerFacts:
      net/Poller and net/EPollPoller over an interface to the kernel, whose
      epoll_ctl may fail.  LoopLifetime: the constructor and the destructor of
      EventLoop over that poller.  Timestamp, TimerQueue, TimerQueueFacts:
      net/Timestamp, net/Timer, net/TimerId, net/TimerQueue, with timers as
      objects at addresses and other threads in addTimer().
    - CountDownLatch, EventLoopThread: mutexes and condition variables, the latch
      for any number of threads, and the start of a loop in its thread (net/Thread,
      net/CurrentThread, net/EventLoopThread) as interleaved steps.  Singleton:
      Singleton of net/global for any number of threads.
    - Acceptor: net/InetAddress, net/Socket, net/util, net/Acceptor over the table
      of descriptors, with the rest of the process; the calls of the branch for
      EMFILE are steps of their own.  TcpServer, TcpServerFacts:
      net/EventLoopThreadPool and net/TcpServer, every connection a whole
      TcpConnection, tasks travelling between the loops.
    - HttpContext, HttpContextFacts, HttpServer: src/http.
    - Json, Auth, AuthFacts: src/api and src/auth.  LoginServer, LoginServerFacts:
      api/Router and example/login_server.cc.
    - Amf0, RtmpTypes, ChunkWriter, ChunkParser, ChunkParserFacts, ChunkRoundtrip,
      RtmpHandshake, RtmpCommand, RtmpSession, RtmpConnectionContext, RtmpServer,
      RtmpServerFacts, RtmpServerSystem: src/rtmp, from the codecs to the server
      with all its connections.  RtmpTyping: the ranges of its integers.
      SessionRace: the loop of RtmpSession::broadcastMessage with its iterator,
      while other loops add and remove players.  JoinRace: a player joins and gets
      the cache while the publisher's loop goes on.  RtmpConcurrency: the handlers
      in several loops, cut where they let go of the mutex and between the test
      and the assignment of setPublisher.
    - RtmpNetwork: RtmpServer as the callbacks of modelled TcpConnections in any
      number of loops.  RtmpRelay: from the bytes of a publisher to the parsers of
      its players.  TeacherBackend: the HTTP and the RTMP server of
      login_server.cc on the state they share.  Programs: what main() makes of its
      arguments, for every program of src/example.

    ** What is shown

    - Codecs: AMF0 and chunk streams round-trip through any segmentation, except
      messages of several chunks with an extended timestamp; the chunk parser is
      memory safe on arbitrary input; handshake and HTTP parsing
      depend only on the concatenated bytes; JSON and HTTP requests round-trip.
    - Buffers and connections: Buffer refines a queue; what a connection took on
      reaches the kernel once, in order (a message whose write fails at once with
      EPIPE or ECONNRESET is dropped); shutdown waits for it and completes; the
      callbacks follow the life cycle; HTTP end to end on the wire.
    - Loops: posted functors run once, in order, with no lost wake-up but for those
      the loop's own thread posts before loop(); channels and kernel agree at every
      descriptor for which epoll_ctl has not failed; timers run when due, never
      after they were cancelled, and only the read of the sequence number after
      addTimer() has posted can touch a deleted timer; a thread's loop is published
      exactly when startLoop() returns, and startLoop() returns after a bounded
      number of steps of the two threads outside loop().  A loop
      watches its timerfd and its eventfd from its constructor to its destructor,
      which leaves nothing registered.
    - Server: each descriptor has one owner; each connection is established and
      destroyed once, in its loop; while the server exists no functor that was
      posted in time meets a deleted connection.
    - RTMP: one publisher per stream, authorised; media go to exactly the players
      of the stream; late joiners get a decodable stream; closing cleans up; on
      the network a client decodes what the server sent it, and the frames of a
      publisher arrive at each player, as far as the chunk writer's messages can
      be parsed and no write failed.  With handlers interleaved, publishers
      exclude each other and an attached connection stays attached, unless a
      session left the table under a handler or changed its publisher between the
      test and the assignment of setPublisher; examples show both windows.  A
      broadcast between whose rounds other loops change the players reaches
      whoever stays exactly once, if its iterator is not invalidated; alone, the
      loop is the function on the map.  A player that joins meanwhile misses no
      message of the cache, if its iterators are not invalidated; it may get a
      frame twice, as an example shows.
    - Authentication: token and ticket managers refine maps with expiry; in the
      whole backend, publishing or playing needs a ticket that a logged-in user
      asked for.
    - Where the code does not do what it means to, the theorem states what it
      does: quit() never stops a loop, so that the destructor of a started
      EventLoopThread never returns; the branch for EMFILE never sheds a
      connection; and the lemmas that the findings name.

    ** Bounds and fuel

    Integers are [Z] with the wrap-around of their type, or with the overflow as
    an error ([None]) where it is undefined.  A function with fuel has the bound
    in its definition and a lemma that it is enough: the chunk parser and the HTTP
    parser need at most the bytes in the buffer plus a constant, the AMF0 decoder
    the length of its input, the chunk writer the length of the payload (for a
    positive chunk size: with 0 the loop of the source does not end), the
    handshake a constant.  The latch and startLoop() are bounded by a measure: 32
    steps of the two threads outside loop(), and two for each spurious wake-up,
    suffice for startLoop(), five for a call of Singleton::GetInstance.

    ** Not modelled

    - Log output (net/Logger), noncopyable (net/global), the function types of
      net/Callbacks; the data base of time zones, which is a parameter of
      Timestamp::toFormattedString.
    - The build files and the documents.
    - Threads: handlers run one at a time in RtmpServer, RtmpNetwork and
      TeacherBackend; RtmpConcurrency cuts them where they let go of the mutex and
      in setPublisher, and takes every other method of RtmpSession as one step.
      Sessions are not locked: SessionRace and JoinRace cut the broadcast and the
      replay between the rounds of their loops, and what two threads do to one
      object at once is not defined in C++.  In TcpConnection and TcpServer,
      send() and shutdown() of another thread test the state and post in one step
      (ConnectionLifetime cuts them), and the loops of TcpServer take whole tasks
      as steps.  Threads that post to a loop while it is destroyed are not
      modelled: no loop that runs ends.
    - Reads of raw memory are checked against the bounds in the chunk parser;
      elsewhere the prefix of the buffer that is there is taken.
    - The clock is a sequence of readings that does not go back, and stands for
      CLOCK_MONOTONIC as well as for the system clock. *)

From stdpp Require Export base list gmap strings fin_maps.
From coqutil Require Export Byte.
From Stdlib Require Export ZArith Lia.

#[global] Set Default Goal Selector "!".
#[global] Set Warnings "-clear-no-such-hyp,-register-all".

(** ** Results of fallible code

    A C++ function that returns [bool] and fills an [error_message] is a
    function into [result]: [Ok a] is [true] with the out-parameters in [a],
    [Err m] is [false] with the message.  [NoFuel] is only for loops and
    recursions whose termination is proved separately: every such function has
    a theorem that its own fuel excludes [NoFuel]. *)
Inductive result (A : Type) : Type :=
| Ok (a : A)
| Err (msg : string)
| NoFuel.
Arguments Ok {A} a.
Arguments Err {A} msg.
Arguments NoFuel {A}.

Definition result_bind {A B} (r : result A) (k : A -> result B) : result B :=
  match r with
  | Ok a => k a
  | Err m => Err m
  | NoFuel => NoFuel
  end.

Declare Scope rmuduo_scope.
Delimit Scope rmuduo_scope with rm.
Notation "'let*' p ':=' e 'in' k" := (result_bind e (fun p => k))
  (at level 10, p pattern, e at level 100, k at level 200) : rmuduo_scope.

(** The order on results given by adding fuel: a result that is not [NoFuel]
    stays what it is. *)
Definition result_le {A} (r1 r2 : result A) : Prop := r1 = NoFuel \/ r1 = r2.

#[export] Instance result_le_preorder {A} : PreOrder (@result_le A).
Proof.
  split.
  - intros r. by right.
  - intros r1 r2 r3 [->| ->] H; [by left|done].
Qed.

Lemma result_bind_le {A B} (r1 r2 : result A) (k1 k2 : A -> result B) :
  result_le r1 r2 -> (forall a, result_le (k1 a) (k2 a)) ->
  result_le (result_bind r1 k1) (result_bind r2 k2).
Proof.
  intros [->| ->] Hk; [by left|]. destruct r2; cbn; [apply Hk|by right|by right].
Qed.

Lemma result_le_ok {A} (r1 r2 : result A) a : result_le r1 r2 -> r1 = Ok a -> r2 = Ok a.
Proof. intros [->| ->] H; congruence. Qed.

(** ** Tactics of the development *)

(** Split the hypotheses' conjunctions and existentials. *)
Ltac dest :=
  repeat match goal with
  | H : _ /\ _ |- _ => destruct H
  | H : exists _, _ |- _ => destruct H
  end.

(** Case analysis on the innermost [match]/[if] of the goal or a hypothesis,
    with its equation, then the obvious clean-up. *)
Ltac case_inner t k :=
  match t with
  | context [match ?x with _ => _ end] => case_inner x k
  | _ => k t
  end.

Ltac step_case :=
  match goal with
  | |- context [match ?x with _ => _ end] =>
      case_inner x ltac:(fun y => let E := fresh "E" in destruct y eqn:E)
  end; simplify_eq/=.

Ltac step_case_in H :=
  match type of H with
  | context [match ?x with _ => _ end] =>
      case_inner x ltac:(fun y => let E := fresh "E" in destruct y eqn:E)
  end; simplify_eq/=.

(** Turn the boolean comparisons of the hypotheses into propositions. *)
Ltac bool_hyps :=
  repeat match goal with
  | H : negb _ = true |- _ => apply negb_true_iff in H
  | H : negb _ = false |- _ => apply negb_false_iff in H
  | H : andb _ _ = true |- _ => apply andb_true_iff in H as [? ?]
  | H : orb _ _ = false |- _ => apply orb_false_iff in H as [? ?]
  | H : bool_decide _ = true |- _ => apply bool_decide_eq_true in H
  | H : bool_decide _ = false |- _ => apply bool_decide_eq_false in H
  | H : Nat.ltb _ _ = true |- _ => apply Nat.ltb_lt in H
  | H : Nat.ltb _ _ = false |- _ => apply Nat.ltb_ge in H
  | H : Nat.leb _ _ = true |- _ => apply Nat.leb_le in H
  | H : Nat.leb _ _ = false |- _ => apply Nat.leb_gt in H
  | H : Nat.eqb _ _ = true |- _ => apply Nat.eqb_eq in H
  | H : Nat.eqb _ _ = false |- _ => apply Nat.eqb_neq in H
  | H : Z.ltb _ _ = true |- _ => apply Z.ltb_lt in H
  | H : Z.ltb _ _ = false |- _ => apply Z.ltb_ge in H
  | H : Z.leb _ _ = true |- _ => apply Z.leb_le in H
  | H : Z.leb _ _ = false |- _ => apply Z.leb_gt in H
  | H : Z.eqb _ _ = true |- _ => apply Z.eqb_eq in H
  | H : Z.eqb _ _ = false |- _ => apply Z.eqb_neq in H
  end.

(** ** Hint databases *)

(** [lens]: rewriting lengths of lists to arithmetic. *)
Create Rewrite HintDb lens.
#[export] Hint Rewrite @length_app @length_take @length_drop @length_replicate
  @length_cons @length_nil @length_insert @length_fmap : lens.
Ltac lens := autorewrite with lens in *; cbn [length] in *.
Ltac len_lia := lens; lia.

(** ** Generic lemmas on lists *)

Section lists.
Context {A : Type}.
Implicit Types l k : list A.

Lemma drop_app_exact l k n : n = length l -> drop n (l ++ k) = k.
Proof. intros ->. apply drop_app_length. Qed.

Lemma take_app_exact l k n : n = length l -> take n (l ++ k) = l.
Proof. intros ->. apply take_app_length. Qed.

Lemma drop_empty l n : length l <= n -> drop n l = [].
Proof. apply drop_ge. Qed.

Lemma take_full l n : length l <= n -> take n l = l.
Proof. apply take_ge. Qed.

Lemma drop_nonempty_length l n : n < length l -> drop n l <> [].
Proof. intros H E. apply (f_equal length) in E. len_lia. Qed.

Lemma not_nil_length l : l <> [] <-> 0 < length l.
Proof. destruct l; cbn; split; intros; try done; lia. Qed.

Lemma take_drop_add l n m : take n l ++ take m (drop n l) = take (n + m) l.
Proof. by rewrite take_take_drop. Qed.

End lists.

(** ** Fixed-width integers *)

(** The unsigned types as [Z] with their wrap-around. *)
Definition u8 (z : Z) : Z := z mod 2 ^ 8.
Definition u16 (z : Z) : Z := z mod 2 ^ 16.
Definition u32 (z : Z) : Z := z mod 2 ^ 32.
Definition u64 (z : Z) : Z := z mod 2 ^ 64.

Lemma u32_range z : (0 <= u32 z < 2 ^ 32)%Z.
Proof. apply Z.mod_pos_bound. lia. Qed.

Lemma u32_small z : (0 <= z < 2 ^ 32)%Z -> u32 z = z.
Proof. apply Z.mod_small. Qed.

Lemma u16_small z : (0 <= z < 2 ^ 16)%Z -> u16 z = z.
Proof. apply Z.mod_small. Qed.
