(* ===== verification/Bytes.v ===== *)
(** * Bytes and the integer codecs of the wire formats

    A C++ [char]/[uint8_t] is a [byte], a [std::string], a [std::string_view]
    and a readable memory range are [list byte].  The big- and little-endian
    readers and writers, which the sources repeat file by file, are here once,
    with their round trips. *)

From S2P Require Import Prelude.
From coqutil Require Import Word.LittleEndianList.
From Stdlib Require Strings.String.
From Stdlib Require Import Btauto.

Local Open Scope Z_scope.

Abbreviation bytes := (list byte).

#[export] Instance byte_eq_dec : EqDecision byte := Byte.byte_eq_dec.
#[export] Instance byte_inhabited : Inhabited byte := populate Byte.x00.
#[export] Program Instance byte_countable : Countable byte :=
  inj_countable Byte.to_N Byte.of_N Byte.of_to_N.

(** A string literal of the source, as the bytes it denotes. *)
Definition str (s : String.string) : bytes := String.list_byte_of_string s.
Arguments str s%_string_scope.

(** [static_cast<uint8_t>(data[i])]; reads are guarded by the callers' length
    tests, so the value beyond the end is never looked at. *)
Definition at8 (data : bytes) (i : nat) : Z := byte.unsigned (data !!! i).

(** [static_cast<char>(v)] *)
Definition chr (v : Z) : byte := byte.of_Z v.

(** ** Readers *)

Definition ReadUint16BE (data : bytes) : Z :=
  Z.lor (Z.shiftl (at8 data 0) 8) (at8 data 1).

Definition ReadUint24BE (data : bytes) : Z :=
  Z.lor (Z.lor (Z.shiftl (at8 data 0) 16) (Z.shiftl (at8 data 1) 8)) (at8 data 2).

Definition ReadUint32BE (data : bytes) : Z :=
  Z.lor (Z.lor (Z.lor (Z.shiftl (at8 data 0) 24) (Z.shiftl (at8 data 1) 16))
               (Z.shiftl (at8 data 2) 8))
        (at8 data 3).

Definition ReadUint32LE (data : bytes) : Z :=
  Z.lor (Z.lor (Z.lor (Z.shiftl (at8 data 3) 24) (Z.shiftl (at8 data 2) 16))
               (Z.shiftl (at8 data 1) 8))
        (at8 data 0).

(** The [double] is its 64-bit pattern: the source moves it with [memcpy]. *)
Definition ReadDoubleBE (data : bytes) : Z :=
  Z.lor (Z.lor (Z.lor (Z.lor (Z.lor (Z.lor (Z.lor
    (Z.shiftl (at8 data 0) 56) (Z.shiftl (at8 data 1) 48))
    (Z.shiftl (at8 data 2) 40)) (Z.shiftl (at8 data 3) 32))
    (Z.shiftl (at8 data 4) 24)) (Z.shiftl (at8 data 5) 16))
    (Z.shiftl (at8 data 6) 8)) (at8 data 7).

(** ** Writers: [push_back] of the shifted and masked bytes *)

Definition byte_of (value : Z) (shift : Z) : byte :=
  chr (Z.land (Z.shiftr value shift) 0xFF).

Definition appendUint16BE (value : Z) (out : bytes) : bytes :=
  out ++ [byte_of value 8; byte_of value 0].

Definition appendUint24BE (value : Z) (out : bytes) : bytes :=
  out ++ [byte_of value 16; byte_of value 8; byte_of value 0].

Definition appendUint32BE (value : Z) (out : bytes) : bytes :=
  out ++ [byte_of value 24; byte_of value 16; byte_of value 8; byte_of value 0].

Definition appendUint32LE (value : Z) (out : bytes) : bytes :=
  out ++ [byte_of value 0; byte_of value 8; byte_of value 16; byte_of value 24].

Definition appendDoubleBE (bits : Z) (out : bytes) : bytes :=
  out ++ [byte_of bits 56; byte_of bits 48; byte_of bits 40; byte_of bits 32;
          byte_of bits 24; byte_of bits 16; byte_of bits 8; byte_of bits 0].

(** ** Lemmas *)

Lemma unsigned_range b : 0 <= byte.unsigned b < 256.
Proof. exact (byte.unsigned_range b). Qed.

Lemma at8_range data i : 0 <= at8 data i < 256.
Proof. apply unsigned_range. Qed.

Lemma unsigned_chr v : byte.unsigned (chr v) = v mod 256.
Proof. exact (byte.unsigned_of_Z v). Qed.

Lemma unsigned_chr_small v : 0 <= v < 256 -> byte.unsigned (chr v) = v.
Proof. intros. rewrite unsigned_chr. by apply Z.mod_small. Qed.

Lemma chr_unsigned b : chr (byte.unsigned b) = b.
Proof. exact (byte.of_Z_unsigned b). Qed.

Lemma byte_of_split v k : byte_of v k = byte.of_Z (Z.shiftr v k).
Proof.
  apply byte.unsigned_inj. unfold byte_of, chr. rewrite !byte.unsigned_of_Z.
  unfold byte.wrap. change 0xFF with (Z.ones 8).
  rewrite Z.land_ones by lia. apply Z.mod_mod. lia.
Qed.

(** The writers are the little-endian splits of the library, reversed for the
    big-endian ones. *)
Ltac split_tac :=
  rewrite !byte_of_split; cbv [le_split rev app];
  rewrite ?Z.shiftr_shiftr, ?Z.shiftr_0_r by lia; done.

Lemma le_split_2 v : [byte_of v 8; byte_of v 0] = rev (le_split 2 v).
Proof. split_tac. Qed.
Lemma le_split_3 v : [byte_of v 16; byte_of v 8; byte_of v 0] = rev (le_split 3 v).
Proof. split_tac. Qed.
Lemma le_split_4 v :
  [byte_of v 24; byte_of v 16; byte_of v 8; byte_of v 0] = rev (le_split 4 v).
Proof. split_tac. Qed.
Lemma le_split_4_le v :
  [byte_of v 0; byte_of v 8; byte_of v 16; byte_of v 24] = le_split 4 v.
Proof. split_tac. Qed.
Lemma le_split_8 v :
  [byte_of v 56; byte_of v 48; byte_of v 40; byte_of v 32;
   byte_of v 24; byte_of v 16; byte_of v 8; byte_of v 0] = rev (le_split 8 v).
Proof. split_tac. Qed.

(** The readers are the little-endian combination of the bytes they read. *)
Ltac norm_shifts :=
  repeat match goal with
  | |- context [Z.add (Zpos ?a) (Zpos ?b)] =>
      let c := eval cbv in (Z.add (Zpos a) (Zpos b)) in
      change (Z.add (Zpos a) (Zpos b)) with c
  end.
Ltac combine_tac :=
  cbv [le_combine];
  rewrite ?Z.shiftl_0_l, ?Z.lor_0_r;
  repeat (rewrite Z.shiftl_lor || rewrite Z.shiftl_shiftl by lia);
  norm_shifts;
  apply Z.bits_inj'; intros ? ?; rewrite ?Z.lor_spec; btauto.

Lemma ReadUint16BE_combine data :
  ReadUint16BE data = le_combine [data !!! 1; data !!! 0]%nat.
Proof. unfold ReadUint16BE, at8. combine_tac. Qed.

Lemma ReadUint24BE_combine data :
  ReadUint24BE data = le_combine [data !!! 2; data !!! 1; data !!! 0]%nat.
Proof. unfold ReadUint24BE, at8. combine_tac. Qed.

Lemma ReadUint32BE_combine data :
  ReadUint32BE data = le_combine [data !!! 3; data !!! 2; data !!! 1; data !!! 0]%nat.
Proof. unfold ReadUint32BE, at8. combine_tac. Qed.

Lemma ReadUint32LE_combine data :
  ReadUint32LE data = le_combine [data !!! 0; data !!! 1; data !!! 2; data !!! 3]%nat.
Proof. unfold ReadUint32LE, at8. combine_tac. Qed.

Lemma ReadDoubleBE_combine data :
  ReadDoubleBE data =
  le_combine [data !!! 7; data !!! 6; data !!! 5; data !!! 4;
              data !!! 3; data !!! 2; data !!! 1; data !!! 0]%nat.
Proof. unfold ReadDoubleBE, at8. combine_tac. Qed.

(** Round trips: writing then reading reduces modulo the width. *)
Lemma read_write_16BE v rest :
  ReadUint16BE (appendUint16BE v [] ++ rest) = v mod 2 ^ 16.
Proof.
  rewrite ReadUint16BE_combine. unfold appendUint16BE. cbn.
  change [byte_of v 0; byte_of v 8] with (rev [byte_of v 8; byte_of v 0]).
  rewrite le_split_2, rev_involutive. apply le_combine_split.
Qed.

Lemma read_write_24BE v rest :
  ReadUint24BE (appendUint24BE v [] ++ rest) = v mod 2 ^ 24.
Proof.
  rewrite ReadUint24BE_combine. unfold appendUint24BE. cbn.
  change [byte_of v 0; byte_of v 8; byte_of v 16]
    with (rev [byte_of v 16; byte_of v 8; byte_of v 0]).
  rewrite le_split_3, rev_involutive. apply le_combine_split.
Qed.

Lemma read_write_32BE v rest :
  ReadUint32BE (appendUint32BE v [] ++ rest) = v mod 2 ^ 32.
Proof.
  rewrite ReadUint32BE_combine. unfold appendUint32BE. cbn.
  change [byte_of v 0; byte_of v 8; byte_of v 16; byte_of v 24]
    with (rev [byte_of v 24; byte_of v 16; byte_of v 8; byte_of v 0]).
  rewrite le_split_4, rev_involutive. apply le_combine_split.
Qed.

Lemma read_write_32LE v rest :
  ReadUint32LE (appendUint32LE v [] ++ rest) = v mod 2 ^ 32.
Proof.
  rewrite ReadUint32LE_combine. unfold appendUint32LE. cbn.
  rewrite le_split_4_le. apply le_combine_split.
Qed.

Lemma read_write_double v rest :
  ReadDoubleBE (appendDoubleBE v [] ++ rest) = v mod 2 ^ 64.
Proof.
  rewrite ReadDoubleBE_combine. unfold appendDoubleBE. cbn.
  change [byte_of v 0; byte_of v 8; byte_of v 16; byte_of v 24;
          byte_of v 32; byte_of v 40; byte_of v 48; byte_of v 56]
    with (rev [byte_of v 56; byte_of v 48; byte_of v 40; byte_of v 32;
               byte_of v 24; byte_of v 16; byte_of v 8; byte_of v 0]).
  rewrite le_split_8, rev_involutive. apply le_combine_split.
Qed.

(** Ranges of what is read. *)
Lemma ReadUint16BE_range data : 0 <= ReadUint16BE data < 2 ^ 16.
Proof. rewrite ReadUint16BE_combine. exact (le_combine_bound [_; _]). Qed.
Lemma ReadUint24BE_range data : 0 <= ReadUint24BE data < 2 ^ 24.
Proof. rewrite ReadUint24BE_combine. exact (le_combine_bound [_; _; _]). Qed.
Lemma ReadUint32BE_range data : 0 <= ReadUint32BE data < 2 ^ 32.
Proof. rewrite ReadUint32BE_combine. exact (le_combine_bound [_; _; _; _]). Qed.
Lemma ReadUint32LE_range data : 0 <= ReadUint32LE data < 2 ^ 32.
Proof. rewrite ReadUint32LE_combine. exact (le_combine_bound [_; _; _; _]). Qed.
Lemma ReadDoubleBE_range data : 0 <= ReadDoubleBE data < 2 ^ 64.
Proof. rewrite ReadDoubleBE_combine. exact (le_combine_bound [_; _; _; _; _; _; _; _]). Qed.

(** The writers only append. *)
Lemma appendUint16BE_app v out : appendUint16BE v out = out ++ appendUint16BE v [].
Proof. done. Qed.
Lemma appendUint24BE_app v out : appendUint24BE v out = out ++ appendUint24BE v [].
Proof. done. Qed.
Lemma appendUint32BE_app v out : appendUint32BE v out = out ++ appendUint32BE v [].
Proof. done. Qed.
Lemma appendUint32LE_app v out : appendUint32LE v out = out ++ appendUint32LE v [].
Proof. done. Qed.
Lemma appendDoubleBE_app v out : appendDoubleBE v out = out ++ appendDoubleBE v [].
Proof. done. Qed.

Lemma length_append16 v out : length (appendUint16BE v out) = (length out + 2)%nat.
Proof. apply length_app. Qed.
Lemma length_append24 v out : length (appendUint24BE v out) = (length out + 3)%nat.
Proof. apply length_app. Qed.
Lemma length_append32 v out : length (appendUint32BE v out) = (length out + 4)%nat.
Proof. apply length_app. Qed.
Lemma length_append32LE v out : length (appendUint32LE v out) = (length out + 4)%nat.
Proof. apply length_app. Qed.
Lemma length_appendDouble v out : length (appendDoubleBE v out) = (length out + 8)%nat.
Proof. apply length_app. Qed.
#[export] Hint Rewrite length_append16 length_append24 length_append32 length_append32LE
  length_appendDouble : lens.

(** The readers look at a prefix only: they do not see what follows it. *)
Lemma at8_app data rest i : (i < length data)%nat -> at8 (data ++ rest) i = at8 data i.
Proof.
  intros H. unfold at8. f_equal. apply list_lookup_total_correct.
  rewrite lookup_app_l by done. by apply list_lookup_lookup_total_lt.
Qed.

Lemma at8_app_r l1 l2 i : at8 (l1 ++ l2) (length l1 + i) = at8 l2 i.
Proof.
  unfold at8. f_equal. rewrite !list_lookup_total_alt, lookup_app_r by lia.
  do 2 f_equal. lia.
Qed.

Lemma at8_app_r0 l1 l2 : at8 (l1 ++ l2) (length l1) = at8 l2 0.
Proof. rewrite <- (at8_app_r l1 l2 0). f_equal. lia. Qed.

Lemma at8_drop l n i : (n <= length l)%nat -> at8 (drop n l) i = at8 l (n + i).
Proof.
  intros H. rewrite <- (take_drop n l) at 2.
  rewrite <- (at8_app_r (take n l) (drop n l) i). f_equal. rewrite length_take. lia.
Qed.

Lemma ReadUint16BE_app data rest :
  (2 <= length data)%nat -> ReadUint16BE (data ++ rest) = ReadUint16BE data.
Proof. intros. unfold ReadUint16BE. by rewrite !at8_app by lia. Qed.
Lemma ReadUint24BE_app data rest :
  (3 <= length data)%nat -> ReadUint24BE (data ++ rest) = ReadUint24BE data.
Proof. intros. unfold ReadUint24BE. by rewrite !at8_app by lia. Qed.
Lemma ReadUint32BE_app data rest :
  (4 <= length data)%nat -> ReadUint32BE (data ++ rest) = ReadUint32BE data.
Proof. intros. unfold ReadUint32BE. by rewrite !at8_app by lia. Qed.
Lemma ReadUint32LE_app data rest :
  (4 <= length data)%nat -> ReadUint32LE (data ++ rest) = ReadUint32LE data.
Proof. intros. unfold ReadUint32LE. by rewrite !at8_app by lia. Qed.
Lemma ReadDoubleBE_app data rest :
  (8 <= length data)%nat -> ReadDoubleBE (data ++ rest) = ReadDoubleBE data.
Proof. intros. unfold ReadDoubleBE. by rewrite !at8_app by lia. Qed.

#[export] Hint Resolve unsigned_range at8_range ReadUint16BE_range ReadUint24BE_range
  ReadUint32BE_range ReadUint32LE_range ReadDoubleBE_range : core.
