(* ===== verification/ByteBuffer.v ===== *)
(** * The byte-queue interface

    What the protocol decoders rely on when they are handed a [Buffer*]: how
    many bytes are readable, which they are, and how to consume some of them.
    [ByteBuffer] is the record of operations, [ByteBufferLaws] the contract.
    The decoders (RtmpHandshake, ChunkParser, HttpContext) are written
    and proved against the interface; NetBuffer proves that the
    storage/reader/writer-index implementation of src/net/Buffer.cc meets it.
    The instance on [bytes] below is the reference implementation: a FIFO
    queue. *)

From S2P Require Import Prelude Bytes.

Class ByteBuffer (B : Type) : Type := {
  buf_wf : B -> Prop;
  buf_new : B;
  readableBytes : B -> nat;
  (** the bytes in [peek(), peek() + readableBytes()) *)
  peek : B -> bytes;
  retrieve : nat -> B -> B;
  append : bytes -> B -> B;
}.

Class ByteBufferLaws (B : Type) `{ByteBuffer B} : Prop := {
  wf_new : buf_wf buf_new;
  peek_new : peek buf_new = [];
  readable_peek b : buf_wf b -> readableBytes b = length (peek b);
  wf_retrieve n b : buf_wf b -> buf_wf (retrieve n b);
  (** asking for more than is readable takes everything *)
  peek_retrieve n b : buf_wf b -> peek (retrieve n b) = drop n (peek b);
  wf_append s b : buf_wf b -> buf_wf (append s b);
  peek_append s b : buf_wf b -> peek (append s b) = peek b ++ s;
}.

#[export] Hint Resolve wf_new wf_retrieve wf_append : core.

(** The reference queue. *)
#[export] Instance queue_buffer : ByteBuffer bytes := {
  buf_wf _ := True;
  buf_new := [];
  readableBytes := length;
  peek b := b;
  retrieve := drop;
  append s b := b ++ s;
}.

#[export] Instance queue_buffer_laws : ByteBufferLaws bytes.
Proof. by split. Qed.

(** ** std::find and std::search on a range

    Pointers into the readable range are offsets from [peek()]; the end
    iterator (not found) is [None]. *)
Fixpoint find_byte (c : byte) (l : bytes) : option nat :=
  match l with
  | [] => None
  | x :: l' => if decide (x = c) then Some 0 else S <$> find_byte c l'
  end.

Fixpoint search (pat l : bytes) : option nat :=
  if decide (take (length pat) l = pat) then Some 0
  else match l with
       | [] => None
       | _ :: l' => S <$> search pat l'
       end.

(** [std::copy] of [src] over a vector or string from index [pos]; [None] when
    it would write past the end. *)
Definition copy_into (dst : bytes) (pos : nat) (src : bytes) : option bytes :=
  if pos + length src <=? length dst
  then Some (take pos dst ++ src ++ drop (pos + length src) dst)
  else None.

(** ** Lemmas *)

Lemma find_byte_Some c l i :
  find_byte c l = Some i <-> l !! i = Some c /\ c ∉ take i l.
Proof.
  revert i. induction l as [|x l IH]; intros i; cbn; [set_solver|].
  destruct (decide (x = c)) as [->|Hne].
  - split; [intros [= <-]; cbn; set_solver|].
    intros [H1 H2]. destruct i; [done|]. cbn in H2. set_solver.
  - rewrite fmap_Some. destruct i as [|i]; cbn.
    + split; [by intros (? & ? & ?)|]. intros [[= ?] _]. done.
    + split.
      * intros (j & Hj & [= ->]). apply IH in Hj as [? ?]. set_solver.
      * intros [H1 H2]. exists i. split; [|done]. apply IH. set_solver.
Qed.

Lemma find_byte_None c l : find_byte c l = None <-> c ∉ l.
Proof.
  induction l as [|x l IH]; cbn; [set_solver|].
  destruct (decide (x = c)) as [->|Hne]; [set_solver|].
  rewrite fmap_None, IH. set_solver.
Qed.

Lemma find_byte_lt c l i : find_byte c l = Some i -> i < length l.
Proof. intros [H _]%find_byte_Some. by eapply lookup_lt_Some. Qed.

Lemma find_byte_app_not c l1 l2 :
  c ∉ l1 -> find_byte c (l1 ++ c :: l2) = Some (length l1).
Proof.
  intros H. apply find_byte_Some. split.
  - by rewrite lookup_app_r, Nat.sub_diag by lia.
  - by rewrite take_app_length.
Qed.

(** [search] returns the first occurrence. *)
Lemma search_Some pat l i :
  search pat l = Some i ->
  take (length pat) (drop i l) = pat /\
  forall j, j < i -> take (length pat) (drop j l) <> pat.
Proof.
  revert i. induction l as [|x l IH]; intros i H; cbn [search] in H.
  - case_decide as Hd; simplify_eq. split; [done|lia].
  - case_decide as Hd; simplify_eq; [split; [done|lia]|].
    apply fmap_Some in H as (k & Hk & ->). destruct (IH _ Hk) as [H1 H2].
    split; [done|]. intros [|j] Hj; [done|]. cbn. apply H2. lia.
Qed.

Lemma search_None pat l :
  search pat l = None -> forall i, take (length pat) (drop i l) <> pat.
Proof.
  induction l as [|x l IH]; intros H i; cbn [search] in H; case_decide as Hd; try done.
  - by rewrite drop_nil.
  - apply fmap_None in H. destruct i; [done|]. cbn. by apply IH.
Qed.

Lemma search_bound pat l i :
  pat <> [] -> search pat l = Some i -> i + length pat <= length l.
Proof.
  intros Hp [H _]%search_Some. apply (f_equal length) in H. lens.
  destruct pat; [done|cbn [length] in *; lia].
Qed.

Lemma copy_into_Some dst pos src :
  pos + length src <= length dst ->
  copy_into dst pos src = Some (take pos dst ++ src ++ drop (pos + length src) dst).
Proof. intros. unfold copy_into. by rewrite (proj2 (Nat.leb_le _ _)). Qed.

Lemma length_copy_into dst pos src v :
  copy_into dst pos src = Some v -> length v = length dst.
Proof.
  unfold copy_into. destruct (Nat.leb_spec (pos + length src) (length dst)); intros [= <-].
  len_lia.
Qed.
