(* ===== verification/NetBuffer.v ===== *)
(** * src/net/Buffer.h, src/net/Buffer.cc

    The input and output buffer of a connection: a vector of bytes with a
    reader and a writer index and [kCheapPrepend] spare bytes in front.
    An operation that would write outside the vector is [None]; the
    theorems show that this never happens from a well-formed buffer. *)

From S2P Require Import Prelude Bytes ByteBuffer.

Module Buffer.

Definition kCheapPrepend : nat := 8.
Definition kInitialSize : nat := 1024.
Definition kCRLF : bytes := [Byte.x0d; Byte.x0a].

Record t := mk {
  buffer_ : bytes;
  readerIndex_ : nat;
  writerIndex_ : nat;
}.

(** [explicit Buffer(size_t initialSize)] *)
Definition make (initialSize : nat) : t :=
  mk (replicate (kCheapPrepend + initialSize) Byte.x00) kCheapPrepend kCheapPrepend.

Definition readableBytes (b : t) : nat := writerIndex_ b - readerIndex_ b.
Definition writableBytes (b : t) : nat := length (buffer_ b) - writerIndex_ b.
Definition prependableByte (b : t) : nat := readerIndex_ b.

(** The bytes from [peek()] on, up to [beginWrite()]. *)
Definition peek (b : t) : bytes :=
  take (readableBytes b) (drop (readerIndex_ b) (buffer_ b)).

Definition retrieveAll (b : t) : t := mk (buffer_ b) kCheapPrepend kCheapPrepend.

Definition retrieve (len : nat) (b : t) : t :=
  if len <=? readableBytes b
  then mk (buffer_ b) (readerIndex_ b + len) (writerIndex_ b)
  else retrieveAll b.

(** [end] is an offset from [peek()]. *)
Definition retrieveUntil (end_ : nat) (b : t) : t := retrieve end_ b.

(** [std::string res(peek(), len)] reads [len] bytes of the vector from the
    reader index; [None] when that runs past the end of the vector. *)
Definition retrieveAsString (len : nat) (b : t) : option (bytes * t) :=
  if readerIndex_ b + len <=? length (buffer_ b)
  then Some (take len (drop (readerIndex_ b) (buffer_ b)), retrieve len b)
  else None.

Definition retrieveAllAsString (b : t) : option (bytes * t) :=
  retrieveAsString (readableBytes b) b.

(** [vector::resize]: truncates or appends zeros. *)
Definition resize_vec (n : nat) (v : bytes) : bytes :=
  take n v ++ replicate (n - length v) Byte.x00.

Definition makeSpace (len : nat) (b : t) : option t :=
  if writableBytes b + prependableByte b <? len + kCheapPrepend
  then Some (mk (resize_vec (writerIndex_ b + len) (buffer_ b)) (readerIndex_ b) (writerIndex_ b))
  else
    let readable := readableBytes b in
    v ← copy_into (buffer_ b) kCheapPrepend (peek b);
    Some (mk v kCheapPrepend (kCheapPrepend + readable)).

Definition ensureWritableBytes (len : nat) (b : t) : option t :=
  if writableBytes b <? len then makeSpace len b else Some b.

Definition append (data : bytes) (b : t) : option t :=
  b1 ← ensureWritableBytes (length data) b;
  v ← copy_into (buffer_ b1) (writerIndex_ b1) data;
  Some (mk v (readerIndex_ b1) (writerIndex_ b1 + length data)).

(** [findCRLF()] and [findCRLF(start)]: offsets from [peek()]. *)
Definition findCRLF (b : t) : option nat := search kCRLF (peek b).
Definition findCRLF_from (start : nat) (b : t) : option nat :=
  i ← search kCRLF (drop start (peek b)); Some (start + i).

(** What [::readv] and [::write] answer: an error with its [errno], or the
    bytes delivered / the number of bytes taken. *)
Inductive read_result := ReadErr (errno : Z) | ReadData (data : bytes).
Inductive write_result := WriteErr (errno : Z) | Written (n : nat).

Definition extrabuf_size : nat := Z.to_nat 65536.

(** The room of the [iovec]s handed to [::readv]. *)
Definition readFd_capacity (b : t) : nat :=
  let writable := writableBytes b in
  let iovcnt := if writable <? extrabuf_size then 2 else 1 in
  if iovcnt =? 2 then writable + extrabuf_size else writable.

(** [readFd]: returns [n] and [*saveErrno] with the new buffer.  The kernel fills
    the free space of the vector first and [extrabuf] with the rest. *)
Definition readFd (res : read_result) (b : t) : option (Z * option Z * t) :=
  let writable := writableBytes b in
  match res with
  | ReadErr errno => Some (-1, Some errno, b)%Z
  | ReadData data =>
      let n := length data in
      v ← copy_into (buffer_ b) (writerIndex_ b) (take writable data);
      let extrabuf := drop writable data in
      if n <=? writable
      then Some (Z.of_nat n, None, mk v (readerIndex_ b) (writerIndex_ b + n))
      else
        b' ← append (take (n - writable) extrabuf) (mk v (readerIndex_ b) (length v));
        Some (Z.of_nat n, None, b')
  end.

(** [writeFd] hands [peek()] to [::write]; the caller retrieves what was taken. *)
Definition writeFd (res : write_result) (b : t) : Z * option Z :=
  match res with
  | WriteErr errno => (-1, Some errno)%Z
  | Written n => (Z.of_nat n, None)
  end.

(** ** Well-formedness *)

Definition wf (b : t) : Prop :=
  kCheapPrepend <= readerIndex_ b /\ readerIndex_ b <= writerIndex_ b /\
  writerIndex_ b <= length (buffer_ b).

(** ** Runs of operations

    The specification is the FIFO queue of bytes; a run performs a list of
    operations and collects what they return. *)

Inductive op :=
| OpAppend (data : bytes)
| OpRetrieve (len : nat)
| OpRetrieveAll
| OpRetrieveUntil (end_ : nat)
| OpRetrieveAsString (len : nat)
| OpRetrieveAllAsString
| OpReadFd (res : read_result).

Inductive output :=
| OutNone
| OutString (s : bytes)
| OutRead (n : Z) (saveErrno : option Z).

Definition exec (o : op) (b : t) : option (output * t) :=
  match o with
  | OpAppend data => b' ← append data b; Some (OutNone, b')
  | OpRetrieve len => Some (OutNone, retrieve len b)
  | OpRetrieveAll => Some (OutNone, retrieveAll b)
  | OpRetrieveUntil e => Some (OutNone, retrieveUntil e b)
  | OpRetrieveAsString len =>
      '(s, b') ← retrieveAsString len b; Some (OutString s, b')
  | OpRetrieveAllAsString => '(s, b') ← retrieveAllAsString b; Some (OutString s, b')
  | OpReadFd res => '(n, e, b') ← readFd res b; Some (OutRead n e, b')
  end.

Definition spec (o : op) (q : bytes) : output * bytes :=
  match o with
  | OpAppend data => (OutNone, q ++ data)
  | OpRetrieve len => (OutNone, drop len q)
  | OpRetrieveAll => (OutNone, [])
  | OpRetrieveUntil e => (OutNone, drop e q)
  | OpRetrieveAsString len => (OutString (take len q), drop len q)
  | OpRetrieveAllAsString => (OutString q, [])
  | OpReadFd (ReadErr e) => (OutRead (-1) (Some e), q)
  | OpReadFd (ReadData d) => (OutRead (Z.of_nat (length d)) None, q ++ d)
  end.

Fixpoint run (os : list op) (b : t) : option (list output * t) :=
  match os with
  | [] => Some ([], b)
  | o :: os' => '(x, b1) ← exec o b; '(xs, b2) ← run os' b1; Some (x :: xs, b2)
  end.

Fixpoint run_spec (os : list op) (q : bytes) : list output * bytes :=
  match os with
  | [] => ([], q)
  | o :: os' => let '(x, q1) := spec o q in let '(xs, q2) := run_spec os' q1 in (x :: xs, q2)
  end.

(** What the callers and the kernel respect: [retrieveAsString] is asked for
    readable bytes only, and [::readv] delivers at most what fits its iovecs. *)
Definition legal_op (o : op) (b : t) : bool :=
  match o with
  | OpRetrieveAsString len => len <=? readableBytes b
  | OpReadFd (ReadData d) => length d <=? readFd_capacity b
  | _ => true
  end.

Fixpoint legal (os : list op) (b : t) : bool :=
  match os with
  | [] => true
  | o :: os' => legal_op o b && match exec o b with Some (_, b') => legal os' b' | None => true end
  end.

#[local] Arguments readFd : simpl never.

(** ** Lemmas *)

Lemma wf_make n : wf (make n).
Proof.
  unfold wf, make; cbn [buffer_ readerIndex_ writerIndex_].
  rewrite length_replicate. lia.
Qed.

Lemma peek_make n : peek (make n) = [].
Proof. unfold peek, readableBytes, make; cbn. done. Qed.

Lemma length_peek b : wf b -> length (peek b) = readableBytes b.
Proof. unfold wf, peek, readableBytes. intros. len_lia. Qed.

Lemma wf_retrieve n b : wf b -> wf (retrieve n b).
Proof.
  unfold wf, retrieve, retrieveAll, readableBytes. intros H.
  destruct (Nat.leb_spec n (writerIndex_ b - readerIndex_ b)); cbn; unfold kCheapPrepend in *; lia.
Qed.

Lemma peek_retrieve n b : wf b -> peek (retrieve n b) = drop n (peek b).
Proof.
  intros H. pose proof (length_peek b H) as Hl. unfold retrieve.
  destruct (Nat.leb_spec n (readableBytes b)) as [Hn|Hn].
  - unfold peek, readableBytes in *; cbn. rewrite skipn_firstn_comm, drop_drop.
    by rewrite Nat.sub_add_distr.
  - rewrite (drop_ge (peek b)) by lia. unfold peek, readableBytes; cbn. done.
Qed.

(** Writing [src] at [pos] and reading a range that ends with it. *)
Lemma peek_after_write (dst : bytes) r pos (src : bytes) :
  r <= pos -> pos + length src <= length dst ->
  take (pos + length src - r) (drop r (take pos dst ++ src ++ drop (pos + length src) dst))
  = take (pos - r) (drop r dst) ++ src.
Proof.
  intros Hr Hl. rewrite drop_app_le by len_lia.
  rewrite skipn_firstn_comm.
  rewrite (assoc_L (++) _ src).
  rewrite take_app_le by len_lia. apply take_ge. len_lia.
Qed.

Lemma length_resize_vec n v : length (resize_vec n v) = n.
Proof. unfold resize_vec. len_lia. Qed.

Lemma peek_resize n v r w :
  r <= w -> w <= length v -> w <= n ->
  take (w - r) (drop r (resize_vec n v)) = take (w - r) (drop r v).
Proof.
  intros Hr Hw Hn. unfold resize_vec.
  rewrite drop_app_le by len_lia. rewrite take_app_le by len_lia.
  rewrite skipn_firstn_comm, take_take. f_equal. lia.
Qed.

(** [makeSpace] keeps the readable bytes and makes room, inside the vector. *)
Lemma makeSpace_spec len b :
  wf b -> writableBytes b < len ->
  exists b', makeSpace len b = Some b' /\ wf b' /\ peek b' = peek b /\
             len <= writableBytes b'.
Proof.
  intros Hwf Hlt. pose proof (length_peek b Hwf) as Hlp.
  unfold makeSpace. destruct (Nat.ltb_spec (writableBytes b + prependableByte b)
                                            (len + kCheapPrepend)) as [Hs|Hs].
  - eexists; split; [done|]. unfold wf, peek, readableBytes, writableBytes in *; cbn.
    rewrite length_resize_vec. split; [lia|]. split; [|lia].
    apply peek_resize; lia.
  - unfold wf, readableBytes, writableBytes, prependableByte in *.
    rewrite copy_into_Some by lia. eexists; split; [done|].
    cbn [buffer_ readerIndex_ writerIndex_].
    split; [|split].
    + len_lia.
    + unfold peek at 1, readableBytes. cbn [buffer_ readerIndex_ writerIndex_].
      rewrite <- Hlp, Nat.add_comm, Nat.add_sub.
      rewrite drop_app_exact by (len_lia). by rewrite take_app_length.
    + len_lia.
Qed.

Lemma ensureWritable_spec len b :
  wf b -> exists b', ensureWritableBytes len b = Some b' /\ wf b' /\ peek b' = peek b /\
                     len <= writableBytes b'.
Proof.
  intros Hwf. unfold ensureWritableBytes.
  destruct (Nat.ltb_spec (writableBytes b) len); [by apply makeSpace_spec|].
  by exists b.
Qed.

Lemma append_spec data b :
  wf b -> exists b', append data b = Some b' /\ wf b' /\ peek b' = peek b ++ data.
Proof.
  intros Hwf. unfold append.
  destruct (ensureWritable_spec (length data) b Hwf) as (b1 & -> & Hwf1 & Hp1 & Hlen).
  cbn. unfold wf, writableBytes in *. rewrite copy_into_Some by lia. cbn.
  eexists; split; [done|]. cbn. split; [len_lia|].
  rewrite <- Hp1. unfold peek, readableBytes; cbn. apply peek_after_write; lia.
Qed.

Lemma retrieveAsString_spec n b :
  wf b -> n <= readableBytes b ->
  retrieveAsString n b = Some (take n (peek b), retrieve n b).
Proof.
  intros Hwf Hn. unfold retrieveAsString, peek, wf, readableBytes in *.
  rewrite (proj2 (Nat.leb_le _ _)) by lia. by rewrite take_take, Nat.min_l by lia.
Qed.

Lemma readFd_spec data b :
  wf b -> length data <= readFd_capacity b ->
  exists b', readFd (ReadData data) b = Some (Z.of_nat (length data), None, b') /\
             wf b' /\ peek b' = peek b ++ data.
Proof.
  intros Hwf Hcap. pose proof Hwf as (H1 & H2 & H3). unfold readFd.
  rewrite copy_into_Some by (unfold writableBytes in *; len_lia).
  cbn [mbind option_bind]. set (w := writableBytes b) in *.
  set (v := take (writerIndex_ b) (buffer_ b) ++ _).
  assert (length v = length (buffer_ b)) as Hv by (subst v w; unfold writableBytes; len_lia).
  assert (peek (mk v (readerIndex_ b) (writerIndex_ b + length (take w data)))
          = peek b ++ take w data) as Hp.
  { unfold peek, readableBytes; cbn. apply peek_after_write; [done|].
    subst w. unfold writableBytes. len_lia. }
  destruct (Nat.leb_spec (length data) w) as [Hn|Hn].
  - rewrite take_ge in Hp by lia. eexists; split; [done|]. split; [|done].
    unfold wf; cbn. subst w. unfold writableBytes in *. lia.
  - rewrite length_take, Nat.min_l in Hp by lia.
    replace (writerIndex_ b + w) with (length v) in Hp by (subst w; unfold writableBytes; lia).
    destruct (append_spec (take (length data - w) (drop w data))
                (mk v (readerIndex_ b) (length v))) as (b' & -> & Hwf' & Hp').
    { unfold wf; cbn. lia. }
    cbn. eexists; split; [done|]. split; [done|].
    rewrite Hp', Hp, <- app_assoc. f_equal.
    rewrite (take_ge (drop w data)) by len_lia. apply take_drop.
Qed.

Lemma peek_retrieveAll b : peek (retrieveAll b) = [].
Proof. unfold peek, readableBytes, retrieveAll; cbn. done. Qed.

Lemma wf_retrieveAll b : wf b -> wf (retrieveAll b).
Proof. unfold wf, retrieveAll; cbn. unfold kCheapPrepend. lia. Qed.

Lemma exec_spec o b :
  wf b -> legal_op o b = true ->
  exists b', exec o b = Some (fst (spec o (peek b)), b') /\ wf b' /\
             peek b' = snd (spec o (peek b)).
Proof.
  intros Hwf Hl. pose proof (length_peek b Hwf) as Hlen.
  destruct o as [d|n| |n|n| |[e|d]]; cbn in Hl |- *; try apply Nat.leb_le in Hl.
  - destruct (append_spec d b Hwf) as (b' & -> & ? & ?). eauto.
  - eexists; split_and!; eauto using wf_retrieve, peek_retrieve.
  - eexists; split_and!; eauto using wf_retrieveAll, peek_retrieveAll.
  - eexists; split_and!; [done| |]; unfold retrieveUntil; eauto using wf_retrieve, peek_retrieve.
  - rewrite retrieveAsString_spec by (done || lia).
    eexists; split_and!; eauto using wf_retrieve, peek_retrieve.
  - unfold retrieveAllAsString. rewrite retrieveAsString_spec by (done || lia).
    rewrite take_ge by lia. eexists; split; [done|]. split; [by apply wf_retrieve|].
    rewrite peek_retrieve by done. apply drop_ge. lia.
  - eauto.
  - destruct (readFd_spec d b Hwf) as (b' & -> & ? & ?); [done|eauto].
Qed.

Lemma run_refines os b :
  wf b -> legal os b = true ->
  exists b', run os b = Some (fst (run_spec os (peek b)), b') /\ wf b' /\
             peek b' = snd (run_spec os (peek b)).
Proof.
  revert b. induction os as [|o os IH]; intros b Hwf Hl; [by exists b|].
  cbn [legal] in Hl. apply andb_true_iff in Hl as [Hl1 Hl2].
  destruct (exec_spec o b Hwf Hl1) as (b1 & He & Hwf1 & Hp1).
  rewrite He in Hl2. destruct (IH b1 Hwf1 Hl2) as (b2 & Hr & Hwf2 & Hp2).
  exists b2. cbn [run run_spec]. rewrite He. cbn. rewrite Hr. cbn.
  rewrite Hp1 in *. destruct (spec o (peek b)) as [x q1]; cbn in *.
  by destruct (run_spec os q1).
Qed.

End Buffer.

(** ** The buffer meets the interface *)

#[export] Instance net_buffer : ByteBuffer Buffer.t := {
  buf_wf := Buffer.wf;
  buf_new := Buffer.make Buffer.kInitialSize;
  readableBytes := Buffer.readableBytes;
  peek := Buffer.peek;
  retrieve := Buffer.retrieve;
  append s b := default b (Buffer.append s b);
}.

#[export] Instance net_buffer_laws : ByteBufferLaws Buffer.t.
Proof.
  split.
  - exact (Buffer.wf_make _).
  - exact (Buffer.peek_make _).
  - intros b H. symmetry. exact (Buffer.length_peek b H).
  - exact Buffer.wf_retrieve.
  - exact Buffer.peek_retrieve.
  - intros s b H. cbn. by destruct (Buffer.append_spec s b H) as (b' & -> & ? & ?).
  - intros s b H. cbn. by destruct (Buffer.append_spec s b H) as (b' & -> & ? & ?).
Qed.

(** ** Properties *)

(** C18 Refinement: every sequence of buffer operations, started on a fresh
    buffer of any initial size, behaves exactly like a FIFO queue of bytes and
    never touches memory outside the vector, however often the vector is grown
    or compacted by [makeSpace]. *)
Theorem buffer_refines_queue (n : nat) (os : list Buffer.op) :
  Buffer.legal os (Buffer.make n) = true ->
  exists b', Buffer.run os (Buffer.make n) = Some (fst (Buffer.run_spec os []), b') /\
             Buffer.wf b' /\ Buffer.peek b' = snd (Buffer.run_spec os []).
Proof.
  intros Hl. rewrite <- (Buffer.peek_make n).
  by apply Buffer.run_refines; [apply Buffer.wf_make|].
Qed.

Lemma buffer_refines_queue_witness :
  let os := [Buffer.OpAppend (str "hello"); Buffer.OpRetrieve 2;
             Buffer.OpReadFd (Buffer.ReadData (str "world")); Buffer.OpAppend (str "!");
             Buffer.OpRetrieveAsString 4; Buffer.OpRetrieveAllAsString] in
  exists b', Buffer.run os (Buffer.make 3) =
             Some ([Buffer.OutNone; Buffer.OutNone; Buffer.OutRead 5 None; Buffer.OutNone;
                    Buffer.OutString (str "llow"); Buffer.OutString (str "orld!")], b') /\
             Buffer.peek b' = [].
Proof.
  intros os. destruct (buffer_refines_queue 3 os) as (b' & H1 & _ & H3).
  - vm_compute. reflexivity.
  - exists b'. exact (conj H1 H3).
Defined.

(** [readFd] with any amount the two iovecs can take, more than the free
    space included: the data lands after the readable bytes, [n] is returned and
    nothing is written outside the vector; an error changes nothing. *)
Theorem readFd_appends (b : Buffer.t) (data : bytes) (errno : Z) :
  Buffer.wf b -> length data <= Buffer.readFd_capacity b ->
  (exists b', Buffer.readFd (Buffer.ReadData data) b =
                Some (Z.of_nat (length data), None, b') /\
              Buffer.wf b' /\ Buffer.peek b' = Buffer.peek b ++ data) /\
  Buffer.readFd (Buffer.ReadErr errno) b = Some (-1, Some errno, b)%Z.
Proof. intros. split; [by apply Buffer.readFd_spec|done]. Qed.

Lemma readFd_appends_witness :
  exists b', Buffer.readFd (Buffer.ReadData (str "0123456789")) (Buffer.make 4) =
               Some (10%Z, None, b') /\ Buffer.peek b' = str "0123456789".
Proof.
  destruct (readFd_appends (Buffer.make 4) (str "0123456789") 11) as [(b' & H1 & _ & H2) _].
  - apply Buffer.wf_make.
  - unfold Buffer.readFd_capacity, Buffer.extrabuf_size, Buffer.writableBytes.
    cbn [Buffer.make Buffer.buffer_ Buffer.writerIndex_]. rewrite length_replicate.
    destruct (Nat.ltb_spec (Buffer.kCheapPrepend + 4 - Buffer.kCheapPrepend) (Z.to_nat 65536));
      cbn [Nat.eqb length str]; cbn; lia.
  - exists b'. exact (conj H1 H2).
Defined.
