(* ===== verification/Channel.v ===== *)
(** * src/net/Channel.h, src/net/Channel.cc

    The events a file descriptor is interested in, those the poller reported,
    and the dispatch to the callbacks.  [loop_->updateChannel] and
    [loop_->removeChannel] are the poller's. *)

From S2P Require Import Prelude.

Local Open Scope Z_scope.

(** sys/epoll.h *)
Definition EPOLLIN : Z := 1.
Definition EPOLLPRI : Z := 2.
Definition EPOLLOUT : Z := 4.
Definition EPOLLERR : Z := 8.
Definition EPOLLHUP : Z := 16.

Definition has (events mask : Z) : bool := negb (Z.land events mask =? 0).

Module Channel.

Definition kNoneEvent : Z := 0.
Definition kReadEvent : Z := Z.lor EPOLLIN EPOLLPRI.
Definition kWriteEvent : Z := EPOLLOUT.

Record t := mk {
  fd_ : Z;
  events_ : Z;
  revents_ : Z;
  index_ : Z;
  tied_ : bool;
  added2Loop_ : bool;
}.

Definition make (fd : Z) : t := mk fd 0 0 (-1) false false.

Definition set_events (v : Z) (c : t) : t := mk (fd_ c) v (revents_ c) (index_ c) (tied_ c) (added2Loop_ c).
Definition set_revents (v : Z) (c : t) : t := mk (fd_ c) (events_ c) v (index_ c) (tied_ c) (added2Loop_ c).
Definition set_index (v : Z) (c : t) : t := mk (fd_ c) (events_ c) (revents_ c) v (tied_ c) (added2Loop_ c).
Definition set_added (v : bool) (c : t) : t := mk (fd_ c) (events_ c) (revents_ c) (index_ c) (tied_ c) v.

Definition isNonEvent (c : t) : bool := events_ c =? kNoneEvent.
Definition isReading (c : t) : bool := has (events_ c) kReadEvent.
Definition isWriting (c : t) : bool := has (events_ c) kWriteEvent.

(** [update()] and [remove()] up to the call into the loop. *)
Definition update (c : t) : t := set_added true c.
Definition remove (c : t) : t := set_added false c.

Definition enableReading (c : t) : t := update (set_events (Z.lor (events_ c) kReadEvent) c).
Definition disableReading (c : t) : t := update (set_events (Z.land (events_ c) (Z.lnot kReadEvent)) c).
Definition enableWriting (c : t) : t := update (set_events (Z.lor (events_ c) kWriteEvent) c).
Definition disableWriting (c : t) : t := update (set_events (Z.land (events_ c) (Z.lnot kWriteEvent)) c).
Definition disableAll (c : t) : t := update (set_events kNoneEvent c).

(** The callbacks [handleEventWithGuard] makes, in order. *)
Inductive callback := CloseCallback | ErrorCallback | ReadCallback | WriteCallback.

Definition handleEventWithGuard (c : t) : list callback :=
  (if has (revents_ c) EPOLLHUP && negb (has (revents_ c) EPOLLIN) then [CloseCallback] else []) ++
  (if has (revents_ c) EPOLLERR then [ErrorCallback] else []) ++
  (if has (revents_ c) (Z.lor EPOLLIN EPOLLPRI) then [ReadCallback] else []) ++
  (if has (revents_ c) EPOLLOUT then [WriteCallback] else []).

(** Which object the weak pointer is to does not matter, but whether it is alive. *)
Definition tie (c : t) : t := mk (fd_ c) (events_ c) (revents_ c) (index_ c) true (added2Loop_ c).

Definition handleEvent (alive : bool) (c : t) : list callback :=
  if tied_ c then (if alive then handleEventWithGuard c else []) else handleEventWithGuard c.

Lemma handleEvent_alive c : handleEvent true c = handleEventWithGuard c.
Proof. unfold handleEvent. by destruct (tied_ c). Qed.

(** A channel whose object is gone is silent. *)
Lemma handleEvent_gone c : tied_ c = true -> handleEvent false c = [].
Proof. unfold handleEvent. by intros ->. Qed.

(** ** The bits *)

Lemma has_bit n e : 0 <= n -> has e (2 ^ n) = Z.testbit e n.
Proof.
  intros Hn. unfold has. destruct (Z.testbit e n) eqn:E.
  - apply negb_true_iff, Z.eqb_neq. intros Hz. apply (f_equal (fun z => Z.testbit z n)) in Hz.
    rewrite Z.land_spec, E, Z.pow2_bits_true, Z.bits_0 in Hz by done. done.
  - apply negb_false_iff, Z.eqb_eq. apply Z.bits_inj'. intros m Hm. rewrite Z.land_spec, Z.bits_0.
    destruct (Z.eq_dec m n) as [->|Hne]; [by rewrite E|].
    by rewrite Z.pow2_bits_false, andb_false_r by done.
Qed.

Lemma isWriting_bit c : isWriting c = Z.testbit (events_ c) 2.
Proof. unfold isWriting, kWriteEvent, EPOLLOUT. by rewrite <- (has_bit 2) by done. Qed.

Ltac events :=
  unfold enableReading, enableWriting, disableWriting, disableAll, update;
  cbn [events_ set_added set_events].

Lemma isWriting_enable c : isWriting (enableWriting c) = true.
Proof. rewrite isWriting_bit. events. by rewrite Z.lor_spec, orb_true_r. Qed.
Lemma isWriting_disable c : isWriting (disableWriting c) = false.
Proof. rewrite isWriting_bit. events. by rewrite Z.land_spec, andb_false_r. Qed.
Lemma isWriting_enableReading c : isWriting (enableReading c) = isWriting c.
Proof. rewrite !isWriting_bit. events. by rewrite Z.lor_spec, orb_false_r. Qed.
Lemma isWriting_disableAll c : isWriting (disableAll c) = false.
Proof. by rewrite isWriting_bit. Qed.

Lemma isReading_bits c : isReading c = Z.testbit (events_ c) 0 || Z.testbit (events_ c) 1.
Proof.
  unfold isReading, has. change kReadEvent with (Z.lor (2 ^ 0) (2 ^ 1)).
  rewrite Z.land_lor_distr_r.
  rewrite <- (has_bit 0), <- (has_bit 1) by done. unfold has.
  destruct (Z.eqb_spec (Z.land (events_ c) (2 ^ 0)) 0) as [->|H0];
    destruct (Z.eqb_spec (Z.land (events_ c) (2 ^ 1)) 0) as [->|H1]; cbn [negb orb]; try done;
    apply negb_true_iff, Z.eqb_neq; intros [? ?]%Z.lor_eq_0_iff; done.
Qed.

Lemma isReading_enable c : isReading (enableReading c) = true.
Proof. rewrite isReading_bits. events. by rewrite Z.lor_spec, orb_true_r. Qed.
Lemma isReading_enableWriting c : isReading (enableWriting c) = isReading c.
Proof. rewrite !isReading_bits. events. by rewrite !Z.lor_spec, !orb_false_r. Qed.
Lemma isReading_disableWriting c : isReading (disableWriting c) = isReading c.
Proof. rewrite !isReading_bits. events. by rewrite !Z.land_spec, !andb_true_r. Qed.

Lemma isWriting_tie c : isWriting (tie c) = isWriting c.
Proof. done. Qed.

Lemma isReading_tie c : isReading (tie c) = isReading c.
Proof. done. Qed.

End Channel.

Create Rewrite HintDb channel.
#[export] Hint Rewrite Channel.isWriting_enable Channel.isWriting_disable Channel.isWriting_enableReading
  Channel.isWriting_disableAll Channel.isReading_enable Channel.isReading_enableWriting
  Channel.isReading_disableWriting Channel.isWriting_tie Channel.isReading_tie : channel.
