(* ===== verification/TcpConnection.v ===== *)
(** * src/net/TcpConnection.h, src/net/TcpConnection.cc

    One connection in its I/O loop: the state, the channel, both buffers, the
    functors it has queued in the loop, and everything it does to the outside in
    the order it does it.  The user's callbacks are programs of calls on the
    connection; the kernel's answers to [::write] are a list that is consumed. *)

From S2P Require Import Prelude Bytes ByteBuffer NetBuffer Channel.

Module TcpConnection.

Inductive StateE := kDisconnected | kConnecting | kConnected | kDisconnecting.

#[global] Instance StateE_eq_dec : EqDecision StateE.
Proof. solve_decision. Defined.

(** errno *)
Definition EWOULDBLOCK : Z := 11.
Definition EPIPE : Z := 32.
Definition ECONNRESET : Z := 104.

(** What a callback does with the connection. *)
Inductive action := Send (data : bytes) | Shutdown.

(** What waits in the loop's queue. *)
Inductive functor :=
| SendInLoop (data : bytes)
| ShutdownInLoop
| WriteComplete
| HighWaterMark (len : nat).

(** What the connection does to the outside. *)
Inductive effect :=
| Wrote (data : bytes)              (** bytes the kernel took *)
| Accepted (data : bytes)           (** history: a message sendInLoop took on *)
| Dropped (data : bytes)            (** history: one it gave up after EPIPE or ECONNRESET *)
| ShutdownWrite
| CalledConnection (connected : bool)
| CalledMessage
| CalledWriteComplete
| CalledHighWaterMark (len : nat)
| CalledClose.

Section connection.
Context {B U : Type} `{ByteBuffer B}.

(** The callbacks; [U] is what the user keeps in [context_]. *)
Record callbacks := mkCallbacks {
  connectionCallback_ : bool -> U -> U * list action;
  messageCallback_ : U -> B -> U * B * list action;
  writeCompleteCallback_ : option (U -> U * list action);
  highWaterMarkCallback_ : option (nat -> U -> U * list action);
}.

Record t := mk {
  state_ : StateE;
  channel_ : Channel.t;
  inputBuffer_ : B;
  outputBuffer_ : B;
  highWaterMark_ : Z;
  context_ : U;
  kernel : list Buffer.write_result;
  queue : list functor;
  log : list effect;
}.

Definition make (sockfd : Z) (context : U) (kernel : list Buffer.write_result) : t :=
  mk kConnecting (Channel.make sockfd) buf_new buf_new (64 * 1024 * 1024) context kernel [] [].

Definition connected (c : t) : bool := bool_decide (state_ c = kConnected).

Definition setState (v : StateE) (c : t) : t :=
  mk v (channel_ c) (inputBuffer_ c) (outputBuffer_ c) (highWaterMark_ c) (context_ c) (kernel c)
     (queue c) (log c).
Definition set_channel (f : Channel.t -> Channel.t) (c : t) : t :=
  mk (state_ c) (f (channel_ c)) (inputBuffer_ c) (outputBuffer_ c) (highWaterMark_ c) (context_ c)
     (kernel c) (queue c) (log c).
Definition set_input (v : B) (c : t) : t :=
  mk (state_ c) (channel_ c) v (outputBuffer_ c) (highWaterMark_ c) (context_ c) (kernel c)
     (queue c) (log c).
Definition set_output (v : B) (c : t) : t :=
  mk (state_ c) (channel_ c) (inputBuffer_ c) v (highWaterMark_ c) (context_ c) (kernel c)
     (queue c) (log c).
Definition setContext (v : U) (c : t) : t :=
  mk (state_ c) (channel_ c) (inputBuffer_ c) (outputBuffer_ c) (highWaterMark_ c) v (kernel c)
     (queue c) (log c).
Definition set_kernel (v : list Buffer.write_result) (c : t) : t :=
  mk (state_ c) (channel_ c) (inputBuffer_ c) (outputBuffer_ c) (highWaterMark_ c) (context_ c) v
     (queue c) (log c).
Definition set_queue (v : list functor) (c : t) : t :=
  mk (state_ c) (channel_ c) (inputBuffer_ c) (outputBuffer_ c) (highWaterMark_ c) (context_ c)
     (kernel c) v (log c).
Definition queueInLoop (f : functor) (c : t) : t := set_queue (queue c ++ [f]) c.
Definition emit (e : effect) (c : t) : t :=
  mk (state_ c) (channel_ c) (inputBuffer_ c) (outputBuffer_ c) (highWaterMark_ c) (context_ c)
     (kernel c) (queue c) (log c ++ [e]).
(** [::write]: the next answer of the kernel, which never takes more than it is
    given; without an answer the socket is full. *)
Definition write (data : bytes) (c : t) : Buffer.write_result * t :=
  match kernel c with
  | [] => (Buffer.WriteErr EWOULDBLOCK, c)
  | Buffer.WriteErr e :: ks => (Buffer.WriteErr e, set_kernel ks c)
  | Buffer.Written n :: ks =>
      let n := n `min` length data in
      (Buffer.Written n, emit (Wrote (take n data)) (set_kernel ks c))
  end.

Section with_callbacks.
Context (cbs : callbacks).

Definition has_write_complete : bool := match writeCompleteCallback_ cbs with Some _ => true | None => false end.
Definition has_high_water : bool := match highWaterMarkCallback_ cbs with Some _ => true | None => false end.

(** The second half of sendInLoop: what was not written goes to the buffer. *)
Definition saveRemaining (rest : bytes) (c : t) : t :=
  let remaining := length rest in
  let oldLen := readableBytes (outputBuffer_ c) in
  let c :=
    if (highWaterMark_ c <=? Z.of_nat (oldLen + remaining))%Z && (Z.of_nat oldLen <? highWaterMark_ c)%Z && has_high_water
    then queueInLoop (HighWaterMark (oldLen + remaining)) c else c in
  let c := set_output (append rest (outputBuffer_ c)) c in
  if negb (Channel.isWriting (channel_ c)) then set_channel Channel.enableWriting c else c.

Definition sendInLoop (data : bytes) (c : t) : t :=
  if bool_decide (state_ c = kDisconnected) then c
  else
    let '(nwrote, faultError, c) :=
      if negb (Channel.isWriting (channel_ c)) && (readableBytes (outputBuffer_ c) =? 0) then
        match write data c with
        | (Buffer.Written n, c) =>
            let remaining := length data - n in
            (n, false,
             if (remaining =? 0) && has_write_complete then queueInLoop WriteComplete c else c)
        | (Buffer.WriteErr e, c) =>
            (0, negb (e =? EWOULDBLOCK)%Z && ((e =? EPIPE)%Z || (e =? ECONNRESET)%Z), c)
        end
      else (0, false, c) in
    let remaining := length data - nwrote in
    let c := emit (if faultError then Dropped data else Accepted data) c in
    if negb faultError && (0 <? remaining) then saveRemaining (drop nwrote data) c else c.

Definition shutdownInLoop (c : t) : t :=
  if negb (Channel.isWriting (channel_ c)) then emit ShutdownWrite c else c.

(** Called in the loop's thread, or in another one. *)
Definition send (inLoopThread : bool) (data : bytes) (c : t) : t :=
  if bool_decide (state_ c = kConnected) then
    if inLoopThread then sendInLoop data c else queueInLoop (SendInLoop data) c
  else c.

Definition shutdown (inLoopThread : bool) (c : t) : t :=
  if bool_decide (state_ c = kConnected) then
    let c := setState kDisconnecting c in
    if inLoopThread then shutdownInLoop c else queueInLoop ShutdownInLoop c
  else c.

(** The calls a callback makes, in order, in the loop's thread. *)
Fixpoint perform (acts : list action) (c : t) : t :=
  match acts with
  | [] => c
  | Send data :: acts => perform acts (send true data c)
  | Shutdown :: acts => perform acts (shutdown true c)
  end.

Definition call_connection (c : t) : t :=
  let '(u, acts) := connectionCallback_ cbs (connected c) (context_ c) in
  perform acts (emit (CalledConnection (connected c)) (setContext u c)).

Definition handleClose (c : t) : t :=
  let c := setState kDisconnected c in
  let c := set_channel Channel.disableAll c in
  let c := call_connection c in
  emit CalledClose c.

(** Only logs. *)
Definition handleError (c : t) : t := c.

Definition handleRead (res : Buffer.read_result) (c : t) : t :=
  match res with
  | Buffer.ReadErr e => handleError c
  | Buffer.ReadData [] => handleClose c
  | Buffer.ReadData data =>
      let c := set_input (append data (inputBuffer_ c)) c in
      let '(u, buf, acts) := messageCallback_ cbs (context_ c) (inputBuffer_ c) in
      perform acts (emit CalledMessage (set_input buf (setContext u c)))
  end.

Definition handleWrite (c : t) : t :=
  if Channel.isWriting (channel_ c) then
    match write (peek (outputBuffer_ c)) c with
    | (Buffer.Written n, c) =>
        if 0 <? n then
          let c := set_output (retrieve n (outputBuffer_ c)) c in
          if readableBytes (outputBuffer_ c) =? 0 then
            let c := set_channel Channel.disableWriting c in
            let c := if has_write_complete then queueInLoop WriteComplete c else c in
            if bool_decide (state_ c = kDisconnecting) then shutdownInLoop c else c
          else c
        else c
    | (Buffer.WriteErr e, c) => c
    end
  else c.

Definition connectEstablished (c : t) : t :=
  let c := setState kConnected c in
  let c := set_channel Channel.tie c in
  let c := set_channel Channel.enableReading c in
  call_connection c.

Definition connectDestroyed (c : t) : t :=
  let c :=
    if bool_decide (state_ c = kConnected) then
      let c := setState kDisconnected c in
      let c := set_channel Channel.disableAll c in
      call_connection c
    else c in
  set_channel Channel.remove c.

(** ** The loop drives the connection *)

Definition run_callback (res : Buffer.read_result) (cb : Channel.callback) (c : t) : t :=
  match cb with
  | Channel.CloseCallback => handleClose c
  | Channel.ErrorCallback => handleError c
  | Channel.ReadCallback => handleRead res c
  | Channel.WriteCallback => handleWrite c
  end.

(** The poller reported [revents]; [res] is what a read gives. *)
Definition handleEvent (revents : Z) (res : Buffer.read_result) (c : t) : t :=
  let c := set_channel (Channel.set_revents revents) c in
  foldl (fun c cb => run_callback res cb c) c (Channel.handleEvent true (channel_ c)).

Definition call (r : U * list action) (c : t) : t := perform r.2 (setContext r.1 c).

Definition run_functor (f : functor) (c : t) : t :=
  match f with
  | SendInLoop data => sendInLoop data c
  | ShutdownInLoop => shutdownInLoop c
  | WriteComplete =>
      match writeCompleteCallback_ cbs with
      | Some cb => call (cb (context_ c)) (emit CalledWriteComplete c)
      | None => c
      end
  | HighWaterMark len =>
      match highWaterMarkCallback_ cbs with
      | Some cb => call (cb len (context_ c)) (emit (CalledHighWaterMark len) c)
      | None => c
      end
  end.

Inductive event :=
| Established
| Polled (revents : Z) (res : Buffer.read_result)
| UserSend (inLoopThread : bool) (data : bytes)
| UserShutdown (inLoopThread : bool)
| RunFunctor
| Destroyed.

(** connectEstablished runs once, before the channel is polled; the poller
    reports only channels that are registered with some event, and the kernel
    does not report a hang-up with urgent data but nothing to read. *)
Definition enabled (e : event) (c : t) : bool :=
  match e with
  | Established => bool_decide (state_ c = kConnecting)
  | Polled revents _ =>
      Channel.added2Loop_ (channel_ c) && negb (Channel.isNonEvent (channel_ c)) &&
      negb (has revents EPOLLHUP && negb (has revents EPOLLIN) && has revents EPOLLPRI)
  | Destroyed => negb (bool_decide (state_ c = kConnecting))
  | _ => true
  end.

Definition step (e : event) (c : t) : t :=
  match e with
  | Established => connectEstablished c
  | Polled revents res => handleEvent revents res c
  | UserSend inLoop data => send inLoop data c
  | UserShutdown inLoop => shutdown inLoop c
  | RunFunctor =>
      match queue c with
      | [] => c
      | f :: fs => run_functor f (set_queue fs c)
      end
  | Destroyed => connectDestroyed c
  end.

Inductive reachable : t -> Prop :=
| reach_make sockfd u ks : reachable (make sockfd u ks)
| reach_step e c : reachable c -> enabled e c = true -> reachable (step e c).

End with_callbacks.
End connection.

(** What an event leaves of the queue before it adds to it. *)
Definition remaining (e : event) (q : list functor) : list functor :=
  match e with RunFunctor => tail q | _ => q end.

(** How often the close callback has been called. *)
Definition closes (log : list effect) : nat :=
  length (omap (fun e => match e with CalledClose => Some () | _ => None end) log).

End TcpConnection.

Arguments TcpConnection.callbacks B U : clear implicits.
Arguments TcpConnection.t B U : clear implicits.
