(* ===== verification/TcpConnectionFacts.v ===== *)
(** * Properties of a TCP connection

    The bytes a connection takes on (all it is given, but for a message whose
    write fails at once with EPIPE or ECONNRESET) reach the kernel in order,
    without loss or repetition; closing waits for them; the callbacks follow the life cycle. *)

From S2P Require Import Prelude Bytes ByteBuffer NetBuffer Channel TcpConnection.
Import TcpConnection.

(** ** What the log says *)

Definition wire (log : list effect) : bytes :=
  concat (omap (fun e => match e with Wrote d => Some d | _ => None end) log).

(** The messages that sendInLoop took on, those it gave up, and both. *)
Definition accepted (log : list effect) : list bytes :=
  omap (fun e => match e with Accepted d => Some d | _ => None end) log.
Definition dropped (log : list effect) : list bytes :=
  omap (fun e => match e with Dropped d => Some d | _ => None end) log.
Definition given (log : list effect) : list bytes :=
  omap (fun e => match e with Accepted d | Dropped d => Some d | _ => None end) log.

Definition taken (log : list effect) : bytes := concat (accepted log).

Inductive phase := Up | Message | Down | Closed.
Definition phases (log : list effect) : list phase :=
  omap (fun e => match e with
                 | CalledConnection b => Some (if b : bool then Up else Down)
                 | CalledMessage => Some Message
                 | CalledClose => Some Closed
                 | _ => None
                 end) log.

#[local] Arguments wire : simpl never.
#[local] Arguments taken : simpl never.
#[local] Arguments phases : simpl never.

Lemma wire_app l1 l2 : wire (l1 ++ l2) = wire l1 ++ wire l2.
Proof. unfold wire. by rewrite omap_app, concat_app. Qed.
Lemma taken_app l1 l2 : taken (l1 ++ l2) = taken l1 ++ taken l2.
Proof. unfold taken, accepted. by rewrite omap_app, concat_app. Qed.
Lemma accepted_app l1 l2 : accepted (l1 ++ l2) = accepted l1 ++ accepted l2.
Proof. apply omap_app. Qed.
Lemma given_app l1 l2 : given (l1 ++ l2) = given l1 ++ given l2.
Proof. apply omap_app. Qed.

(** Without a drop everything was taken on. *)
Lemma given_accepted l : dropped l = [] -> given l = accepted l.
Proof. unfold given, accepted, dropped. induction l as [|[] l IH]; cbn; intros Hd; rewrite ?IH by done; done. Qed.

(** What was taken on is what was given, in its order, without the drops. *)
Lemma accepted_given l : accepted l `sublist_of` given l.
Proof. unfold given, accepted. induction l as [|[] l IH]; cbn; by try constructor. Qed.
Lemma phases_app l1 l2 : phases (l1 ++ l2) = phases l1 ++ phases l2.
Proof. apply omap_app. Qed.

(** When the writing side is shut down, everything taken on before has been
    written, unless the connection was down already. *)
Definition graceful (log : list effect) : Prop :=
  forall pre post, log = pre ++ ShutdownWrite :: post ->
    wire pre = taken pre \/ Down ∈ phases pre.

Lemma graceful_emit log e :
  graceful log -> (e = ShutdownWrite -> wire log = taken log \/ Down ∈ phases log) ->
  graceful (log ++ [e]).
Proof.
  intros Hg He pre post. destruct post as [|x post _] using rev_ind.
  - intros [-> [= ->]]%app_inj_2; [|done]. by apply He.
  - rewrite (app_comm_cons post), app_assoc. intros [-> _]%app_inj_2; [|done]. by eapply Hg.
Qed.

Section facts.
Context {B U : Type} `{ByteBufferLaws B} (cbs : callbacks B U).
#[local] Abbreviation t := (TcpConnection.t B U).
Implicit Types c : t.

#[local] Abbreviation pending c := (peek (outputBuffer_ c)).
#[local] Abbreviation writing c := (Channel.isWriting (channel_ c)).

(** What the life cycle looks like in each state. *)
Definition lifecycle (s : StateE) (l : list phase) : Prop :=
  match s with
  | kConnecting => l = []
  | kConnected | kDisconnecting => exists n, l = Up :: replicate n Message
  | kDisconnected => exists n (closed : bool), l = Up :: replicate n Message ++ Down :: (if closed then [Closed] else [])
  end.

(** Everything but the channel's bits. *)
Record flow c : Prop := {
  flow_output : buf_wf (outputBuffer_ c);
  flow_bytes : wire (log c) ++ pending c = taken (log c);
  flow_graceful : graceful (log c);
  flow_life : lifecycle (state_ c) (phases (log c));
}.

Record core c : Prop := {
  core_flow : flow c;
  (** bytes wait exactly when the channel waits to write them *)
  core_writing : state_ c <> kDisconnected -> writing c = negb (bool_decide (pending c = []));
  core_connecting : state_ c = kConnecting -> queue c = [] /\ channel_ c = Channel.make (Channel.fd_ (channel_ c));
  core_down : state_ c = kDisconnected -> Channel.events_ (channel_ c) = 0%Z;
}.

(** A shutdown that was asked for has happened, or waits for the buffer to
    drain, or for its turn in the loop. *)
Definition closing c : Prop :=
  ShutdownWrite ∈ log c \/ writing c = true \/ ShutdownInLoop ∈ queue c.

Record inv c : Prop := {
  inv_core : core c;
  inv_closing : state_ c = kDisconnecting -> closing c;
}.

Lemma inv_make sockfd u ks : inv (make sockfd u ks).
Proof.
  split; [|done]. split; cbn; try done.
  - split; cbn; auto; [by rewrite peek_new|]. intros [|] ?; done.
  - intros _. by rewrite peek_new.
Qed.

(** Effects of writing, and those the flow does not see. *)
Definition plain (e : effect) : bool :=
  match e with
  | Wrote _ | Accepted _ | Dropped _ | CalledWriteComplete | CalledHighWaterMark _ => true
  | _ => false
  end.

Lemma plain_phases es : forallb plain es = true -> phases es = [].
Proof.
  induction es as [|e es IH]; [done|]. cbn. intros [He Hes]%andb_true_iff. unfold phases. cbn.
  destruct e; try done; by apply IH.
Qed.

Lemma graceful_plain log es : forallb plain es = true -> graceful log -> graceful (log ++ es).
Proof.
  revert log. induction es as [|e es IH]; intros log; [by rewrite app_nil_r|].
  cbn. intros [He Hes]%andb_true_iff Hg. rewrite cons_middle, app_assoc. apply IH; [done|].
  apply graceful_emit; [done|]. by intros ->.
Qed.

(** What writing and queueing bytes have in common. *)
Lemma flow_extend es c c' :
  flow c -> forallb plain es = true -> log c' = log c ++ es ->
  wire es ++ pending c' = pending c ++ taken es ->
  state_ c' = state_ c -> buf_wf (outputBuffer_ c') -> flow c'.
Proof.
  intros [H2 H3 H4 H5] Hes Hlog Hbytes Hst Hw. split.
  - done.
  - rewrite Hlog, wire_app, taken_app, <- app_assoc, Hbytes, app_assoc. by rewrite H3.
  - rewrite Hlog. by apply graceful_plain.
  - by rewrite Hlog, phases_app, (plain_phases es), app_nil_r, Hst by done.
Qed.

Lemma closing_mono c c' fs es :
  queue c' = queue c ++ fs -> log c' = log c ++ es -> (writing c = true -> writing c' = true) ->
  closing c -> closing c'.
Proof.
  intros Q L W [?|[?|?]]; unfold closing; rewrite Q, L, !elem_of_app; auto.
Qed.

Lemma inv_emit_silent e c :
  e = CalledWriteComplete \/ (exists n, e = CalledHighWaterMark n) -> inv c -> inv (emit e c).
Proof.
  intros He [[H1 H2 H3 H4] H5]. split; [split; cbn; try done|].
  - apply (flow_extend [e] c); try done; try apply H1.
    + destruct He as [->|[n ->]]; done.
    + by destruct He as [->|[n ->]]; unfold wire, taken; cbn; rewrite app_nil_r.
  - intros Hs. apply (closing_mono c _ [] [e]); [by rewrite app_nil_r|done|done|by apply H5].
Qed.

Lemma inv_setContext u c : inv c -> inv (setContext u c).
Proof. intros [[[] ? ? ?] ?]. by split; [split; [split|..]|]. Qed.

Lemma inv_queueInLoop f c : state_ c <> kConnecting -> inv c -> inv (queueInLoop f c).
Proof.
  intros Hne [[[] ? ? ?] H3]. split; [split; [by split|done..]|].
  intros Hs. apply (closing_mono c _ [f] []); [done|by rewrite app_nil_r|done|by apply H3].
Qed.

(** ** The kernel *)

Lemma write_spec data c r c' :
  write data c = (r, c') ->
  exists ks, match r with
             | Buffer.Written n => n <= length data /\ c' = emit (Wrote (take n data)) (set_kernel ks c)
             | Buffer.WriteErr _ => c' = set_kernel ks c
             end.
Proof.
  unfold write. destruct (kernel c) as [|[e|n] ks] eqn:E; intros [= <- <-].
  - exists []. destruct c; cbn in *. by subst.
  - by exists ks.
  - exists ks. split; [lia|done].
Qed.

Lemma readable_zero c : flow c -> (readableBytes (outputBuffer_ c) =? 0) = bool_decide (pending c = []).
Proof.
  intros Hf. rewrite readable_peek by apply Hf. destruct (pending c); [done|]. by rewrite bool_decide_eq_false_2.
Qed.

(** ** sendInLoop *)

(** What sendInLoop leaves in the output buffer: nothing, or the rest of the
    message behind what was there, with the channel waiting to write. *)
Definition stored (rest : bytes) c c' : Prop :=
  outputBuffer_ c' = (if decide (rest = []) then outputBuffer_ c else append rest (outputBuffer_ c)) /\
  writing c' = (if decide (rest = []) then writing c else true).

(** What both halves leave alone. *)
Definition frame c c' : Prop :=
  state_ c' = state_ c /\ (exists fs, queue c' = queue c ++ fs).

Lemma saveRemaining_spec rest c :
  rest <> [] ->
  let c' := saveRemaining cbs rest c in
  frame c c' /\ log c' = log c /\ stored rest c c'.
Proof.
  intros Hr. unfold saveRemaining, stored, frame. rewrite !decide_False by done.
  destruct (_ && has_high_water cbs); cbn [set_output channel_ queueInLoop set_queue];
    destruct (writing c) eqn:E; cbn; rewrite ?E;
    split_and!; try done; try apply Channel.isWriting_enable; first [by eexists|by exists []; rewrite app_nil_r].
Qed.

Lemma sendInLoop_cases data c :
  flow c -> state_ c <> kDisconnected -> writing c = negb (bool_decide (pending c = [])) ->
  let c' := sendInLoop cbs data c in
  frame c c' /\
  ((exists n, n <= length data /\ pending c = [] /\
      log c' = log c ++ [Wrote (take n data); Accepted data] /\ stored (drop n data) c c') \/
   (log c' = log c ++ [Accepted data] /\ stored data c c') \/
   (log c' = log c ++ [Dropped data] /\ stored [] c c')).
Proof.
  intros Hf Hne Hw. unfold sendInLoop. rewrite bool_decide_eq_false_2 by done.
  rewrite readable_zero by done. rewrite Hw, negb_involutive, andb_diag.
  assert (forall n c1, frame c c1 -> stored [] c c1 -> n <= length data ->
    let c' := if 0 <? length data - n then saveRemaining cbs (drop n data) c1 else c1 in
    frame c c' /\ log c' = log c1 /\ stored (drop n data) c c') as Hrest.
  { intros n c1 Hfr [Hout Hwr] Hn. cbv zeta. cbn in Hout, Hwr. destruct (Nat.ltb_spec 0 (length data - n)).
    - destruct (saveRemaining_spec (drop n data) c1) as (Hfr1 & Hlog & Hst); [by apply drop_nonempty_length; lia|].
      split_and!; [|done|].
      + destruct Hfr as (S1 & q1 & Q1), Hfr1 as (S2 & q2 & Q2).
        split_and!; [congruence..|exists (q1 ++ q2)]. rewrite app_assoc. congruence.
      + unfold stored in *. by rewrite Hout, Hwr in Hst.
    - split_and!; [done..|]. unfold stored. by rewrite !decide_True by (apply drop_ge; lia). }
  assert (forall ks, frame c (set_kernel ks c)) as Hk by (intros; split_and!; [done..|by exists []; rewrite app_nil_r]).
  case_bool_decide as Hp; rewrite ?Hp in *.
  - destruct (write data c) as [[e|n] c1] eqn:Ew; apply write_spec in Ew as (ks & Hks).
    + subst c1. destruct (negb (e =? EWOULDBLOCK)%Z && _); cbn [negb andb].
      * split; [apply Hk|]. by right; right.
      * destruct (Hrest 0 (emit (Accepted data) (set_kernel ks c))) as (F & L & S); [apply Hk|done|lia|].
        split; [done|]. right; left. split; [done|]. by rewrite drop_0 in S.
    + destruct Hks as [Hn ->]. cbn [negb andb].
      set (c2 := emit (Accepted data) _).
      destruct (Hrest n c2) as (F & L & S); [|unfold c2; by destruct (_ && _)|done|].
      * unfold c2. destruct (_ && _); (split_and!; [done..|]); [by eexists|by exists []; rewrite app_nil_r].
      * split; [done|]. left. exists n. split_and!; [done|done| |done]. rewrite L. unfold c2.
        destruct (_ && _); cbn; by rewrite <- app_assoc.
  - cbn [negb andb]. destruct (Hrest 0 (emit (Accepted data) c)) as (F & L & S); [|done|lia|].
    + split_and!; [done..|by exists []; rewrite app_nil_r].
    + split; [done|]. right; left. split; [done|]. by rewrite drop_0 in S.
Qed.

Lemma stored_pending rest c c' :
  flow c -> stored rest c c' -> buf_wf (outputBuffer_ c') /\ pending c' = pending c ++ rest.
Proof.
  intros Hf [-> _]. case_decide as Hr; [|split; [apply wf_append, Hf|apply peek_append, Hf]].
  subst rest. rewrite app_nil_r. split; [apply Hf|done].
Qed.

(** A list of plain effects, and what waits in the end. *)
Lemma inv_extend es c c' :
  inv c -> state_ c <> kDisconnected -> state_ c <> kConnecting -> frame c c' ->
  forallb plain es = true -> log c' = log c ++ es ->
  wire es ++ pending c' = pending c ++ taken es -> buf_wf (outputBuffer_ c') ->
  writing c' = negb (bool_decide (pending c' = [])) ->
  (writing c = true -> writing c' = true) -> inv c'.
Proof.
  intros [[H1 H2 H3 H4] H5] Hd Hc (S & q & Q) Hes Hlog Hb Hw Hwr Hsh.
  split; [split|]; rewrite ?S; try done.
  - by apply (flow_extend es c).
  - intros Hs. apply (closing_mono c _ q es); auto.
Qed.

Lemma inv_sendInLoop data c : state_ c <> kConnecting -> inv c -> inv (sendInLoop cbs data c).
Proof.
  intros Hc Hi. destruct (decide (state_ c = kDisconnected)) as [Hd|Hd].
  { unfold sendInLoop. by rewrite bool_decide_eq_true_2. }
  pose proof (core_flow c (inv_core c Hi)) as Hf. pose proof (core_writing c (inv_core c Hi) Hd) as Hw.
  destruct (sendInLoop_cases data c Hf Hd Hw) as [Hfr Hcases].
  assert (forall rest es, stored rest c (sendInLoop cbs data c) -> forallb plain es = true ->
    log (sendInLoop cbs data c) = log c ++ es -> wire es ++ pending c ++ rest = pending c ++ taken es ->
    inv (sendInLoop cbs data c)) as Hgen.
  { intros rest es Hst Hes Hlog Hb. destruct (stored_pending _ _ _ Hf Hst) as [Hwf Hpk].
    apply (inv_extend es c); try done.
    - by rewrite Hpk.
    - rewrite Hpk. destruct Hst as [_ ->]. case_decide as Hr.
      + subst rest. by rewrite app_nil_r.
      + rewrite bool_decide_eq_false_2; [done|]. by intros [_ ?]%app_eq_nil.
    - intros Hwt. destruct Hst as [_ ->]. by case_decide. }
  destruct Hcases as [(n & Hn & Hp & Hlog & Hst)|[[Hlog Hst]|[Hlog Hst]]].
  - apply (Hgen (drop n data) [Wrote (take n data); Accepted data]); try done.
    rewrite Hp. unfold wire, taken. cbn. by rewrite !app_nil_r, take_drop.
  - apply (Hgen data [Accepted data]); try done. unfold wire, taken. cbn. by rewrite app_nil_r.
  - by apply (Hgen [] [Dropped data]).
Qed.

Lemma sendInLoop_state data c : inv c -> state_ (sendInLoop cbs data c) = state_ c.
Proof.
  intros Hi. destruct (decide (state_ c = kDisconnected)) as [Hd|Hd].
  - unfold sendInLoop. by rewrite bool_decide_eq_true_2.
  - by destruct (sendInLoop_cases data c (core_flow c (inv_core c Hi)) Hd (core_writing c (inv_core c Hi) Hd)) as [[? _] _].
Qed.

(** ** Shutting down *)

Lemma flow_shutdownWrite c :
  flow c -> pending c = [] \/ Down ∈ phases (log c) -> flow (emit ShutdownWrite c).
Proof.
  intros [H2 H3 H4 H5] Hp. split; cbn; try done.
  - rewrite wire_app, taken_app. unfold wire at 2, taken at 2. cbn. by rewrite !app_nil_r.
  - apply graceful_emit; [done|]. intros _. destruct Hp as [Hp|]; [left|by right].
    by rewrite Hp, app_nil_r in H3.
  - rewrite phases_app. unfold phases at 2. cbn. by rewrite app_nil_r.
Qed.

Lemma lifecycle_down l : lifecycle kDisconnected l -> Down ∈ l.
Proof. intros (n & b & ->). set_solver. Qed.

(** Shutting down in the loop settles the request. *)
Lemma inv_shutdownInLoop c : core c -> inv (shutdownInLoop c).
Proof.
  intros Hc. unfold shutdownInLoop. destruct (writing c) eqn:E; cbn [negb]; [by split; [|right; left]|].
  destruct Hc as [H1 H2 H3 H4]. split; [split; try done|left; cbn; set_solver].
  apply flow_shutdownWrite; [done|]. destruct (decide (state_ c = kDisconnected)) as [Hd|Hd].
  - right. apply lifecycle_down. rewrite <- Hd. apply H1.
  - left. rewrite H2 in E by done. by apply negb_false_iff, bool_decide_eq_true in E.
Qed.

Lemma inv_send inLoop data c : inv c -> inv (send cbs inLoop data c).
Proof.
  intros Hi. unfold send. case_bool_decide as Hs; [|done].
  destruct inLoop; [apply inv_sendInLoop|apply inv_queueInLoop]; (done || by rewrite Hs).
Qed.

Lemma core_disconnecting c : state_ c = kConnected -> core c -> core (setState kDisconnecting c).
Proof.
  intros Hs [[F2 F3 F4 F5] H2 H3 H4]. rewrite Hs in *. split; [by split|intros _; by apply H2|done|done].
Qed.

Lemma inv_shutdown inLoop c : inv c -> inv (shutdown inLoop c).
Proof.
  intros Hi. unfold shutdown. case_bool_decide as Hs; [|done].
  pose proof (core_disconnecting c Hs (inv_core c Hi)) as Hd.
  destruct inLoop; [by apply inv_shutdownInLoop|].
  split; [|intros _; right; right; cbn; set_solver].
  destruct Hd as [[] H2 H3 H4]. split; [by split|exact H2|done|done].
Qed.

Lemma inv_perform acts c : inv c -> inv (perform cbs acts c).
Proof.
  revert c. induction acts as [|[data|] acts IH]; intros c Hi; cbn; [done|apply IH, inv_send, Hi|apply IH, inv_shutdown, Hi].
Qed.

(** Nothing the user calls brings a connection that is down back. *)
Lemma perform_down acts c : state_ c = kDisconnected -> perform cbs acts c = c.
Proof.
  intros Hs. induction acts as [|[data|] acts IH]; cbn; [done|..].
  - unfold send. by rewrite bool_decide_eq_false_2 by (by rewrite Hs).
  - unfold shutdown. by rewrite bool_decide_eq_false_2 by (by rewrite Hs).
Qed.

(** ** The handlers *)

Definition up c : Prop := state_ c = kConnected \/ state_ c = kDisconnecting.

Lemma not_up_down c : up c -> state_ c <> kDisconnected /\ state_ c <> kConnecting.
Proof. by intros [-> | ->]. Qed.

(** The connection goes down: its callback is told, and what the user does
    then has no effect. *)
Definition down (u : U) c : t :=
  emit (CalledConnection false) (setContext u (set_channel Channel.disableAll (setState kDisconnected c))).

Lemma life_down u c :
  up c -> inv c -> exists n, phases (log (down u c)) = Up :: replicate n Message ++ [Down].
Proof.
  intros Hup [[[_ _ _ F5] _ _ _] _].
  assert (exists n, phases (log c) = Up :: replicate n Message) as [n Hn] by (destruct Hup as [E|E]; by rewrite E in F5).
  exists n. cbn. by rewrite phases_app, Hn.
Qed.

Lemma inv_goes_down u c : up c -> inv c -> inv (down u c).
Proof.
  intros Hup Hi. pose proof (life_down u c Hup Hi) as [n Hn]. destruct Hi as [[[F2 F3 F4 F5] H2 H3 H4] H5].
  split; [split|]; cbn; try done.
  split; cbn.
  - done.
  - rewrite wire_app, taken_app. unfold wire at 2, taken at 2. cbn. by rewrite !app_nil_r.
  - by apply graceful_emit.
  - by exists n, false.
Qed.

Lemma call_connection_down c :
  exists u, call_connection cbs (set_channel Channel.disableAll (setState kDisconnected c)) = down u c.
Proof.
  unfold call_connection, connected. cbn [setState set_channel state_ context_].
  rewrite bool_decide_eq_false_2 by done.
  destruct (connectionCallback_ cbs false (context_ c)) as [u acts]. exists u. by apply perform_down.
Qed.

Lemma inv_handleClose c : up c -> inv c -> inv (handleClose cbs c).
Proof.
  intros Hup Hi. unfold handleClose. destruct (call_connection_down c) as [u ->].
  pose proof (life_down u c Hup Hi) as [n Hn]. pose proof (inv_goes_down u c Hup Hi) as [[[F2 F3 F4 F5] H2 H3 H4] H5].
  split; [split|]; cbn in *; try done.
  split; cbn.
  - done.
  - rewrite wire_app, taken_app. unfold wire at 2, taken at 2. cbn. by rewrite !app_nil_r.
  - by apply graceful_emit.
  - exists n, true. rewrite phases_app, Hn. unfold phases. cbn. by rewrite <- app_assoc.
Qed.

Lemma inv_message u buf c :
  up c -> inv c -> inv (emit CalledMessage (set_input buf (setContext u c))).
Proof.
  intros Hup [[[F2 F3 F4 F5] H2 H3 H4] H5].
  split; [split; try done|].
  - split; cbn; try done.
    + rewrite wire_app, taken_app. unfold wire at 2, taken at 2. cbn. by rewrite !app_nil_r.
    + by apply graceful_emit.
    + rewrite phases_app. unfold phases at 2. cbn.
      destruct Hup as [E|E]; rewrite E in *; destruct F5 as [n ->]; exists (S n);
        by rewrite replicate_S_end.
  - intros Hs. apply (closing_mono c _ [] [CalledMessage]); [by rewrite app_nil_r|done|done|by apply H5].
Qed.

Lemma inv_set_input buf c : inv c -> inv (set_input buf c).
Proof. intros [[[] ? ? ?] ?]. by split; [split; [split|..]|]. Qed.

Lemma inv_handleRead res c : up c -> inv c -> inv (handleRead cbs res c).
Proof.
  intros Hup Hi. destruct res as [e|[|b data]]; cbn [handleRead]; [done|by apply inv_handleClose|].
  destruct (messageCallback_ cbs _ _) as [[u buf] acts]. apply inv_perform.
  apply (inv_message u buf (set_input _ c)); [done|by apply inv_set_input].
Qed.

Lemma writing_up c : core c -> writing c = true -> up c.
Proof.
  intros [H1 H2 H3 H4] Hw. unfold up. destruct (state_ c) eqn:E; auto.
  - rewrite Channel.isWriting_bit, H4 in Hw by done. done.
  - destruct (H3 eq_refl) as [_ Hc]. by rewrite Hc in Hw.
Qed.

(** The kernel takes a part of what waits. *)
Lemma flow_write n c ks :
  flow c -> n <= length (pending c) ->
  flow (set_output (retrieve n (outputBuffer_ c)) (emit (Wrote (take n (pending c))) (set_kernel ks c))).
Proof.
  intros Hf Hn. apply (flow_extend [Wrote (take n (pending c))] c); try done.
  - cbn. rewrite peek_retrieve by apply Hf. unfold wire, taken. cbn. by rewrite !app_nil_r, take_drop.
  - cbn. apply wf_retrieve, Hf.
Qed.

Lemma inv_handleWrite c : inv c -> inv (handleWrite cbs c).
Proof.
  intros Hi. unfold handleWrite. destruct (writing c) eqn:Ew; [|done].
  pose proof Hi as [Hcore Hclosing]. pose proof (writing_up c Hcore Ew) as Hup.
  destruct (not_up_down c Hup) as [Hd Hc]. pose proof Hcore as [Hf Hwr _ _].
  assert (forall ks, inv (set_kernel ks c)) as Hk.
  { intros ks. destruct Hi as [[[] ? ? ?] ?]. by split; [split; [split|..]|]. }
  destruct (write (peek (outputBuffer_ c)) c) as [[e|n] c1] eqn:E; apply write_spec in E as (ks & E); [by subst c1|].
  destruct E as [Hn ->]. cbn [emit set_kernel outputBuffer_].
  destruct (Nat.ltb_spec 0 n) as [Hpos|Hz].
  2: { assert (n = 0) as -> by lia. apply (inv_extend [Wrote []] c); try done.
       - split_and!; [done|by exists []; rewrite app_nil_r].
       - cbn. by rewrite app_nil_r.
       - apply Hf.
       - by apply Hwr. }
  pose proof (flow_write n c ks Hf Hn) as Hf1. set (c1 := set_output _ _) in *.
  pose proof (readable_zero c1 Hf1) as Hz. cbn [c1 set_output outputBuffer_] in Hz. unfold c1 at 1.
  cbn [set_output outputBuffer_]. rewrite Hz. case_bool_decide as Hp.
  - assert (core (set_channel Channel.disableWriting c1)) as Hcore2.
    { split; [by destruct Hf1|..]; cbn; try done. intros _. rewrite Channel.isWriting_disable.
      by rewrite bool_decide_eq_true_2. }
    set (c2 := set_channel Channel.disableWriting c1) in *.
    set (c3 := if has_write_complete cbs then queueInLoop WriteComplete c2 else c2).
    assert (core c3) as Hcore3.
    { unfold c3. destruct (has_write_complete cbs); [|done]. destruct Hcore2 as [[] ? ? ?]. by split; [split|..]. }
    assert (state_ c3 = state_ c) as Hs3 by (unfold c3; by destruct (has_write_complete cbs)).
    destruct (bool_decide (state_ c3 = kDisconnecting)) eqn:Hs; [by apply inv_shutdownInLoop|].
    apply bool_decide_eq_false in Hs. by split.
  - apply (inv_extend [Wrote (take n (pending c))] c); try done.
    + split_and!; [done|by exists []; rewrite app_nil_r].
    + cbn. rewrite peek_retrieve by apply Hf. unfold wire, taken. cbn. by rewrite !app_nil_r, take_drop.
    + apply Hf1.
    + change (writing c1) with (writing c). rewrite Ew. by rewrite bool_decide_eq_false_2.
Qed.

(** The connection comes up, before the user acts on it. *)
Definition comes_up (u : U) c : t :=
  emit (CalledConnection true) (setContext u (set_channel Channel.enableReading (set_channel Channel.tie (setState kConnected c)))).

Lemma inv_comes_up u c : state_ c = kConnecting -> inv c -> inv (comes_up u c).
Proof.
  intros Hs [[[F2 F3 F4 F5] H2 H3 H4] H5]. rewrite Hs in *. split; [split|]; cbn; try done.
  - split; cbn; try done.
    + rewrite wire_app, taken_app. unfold wire at 2, taken at 2. cbn. by rewrite !app_nil_r.
    + by apply graceful_emit.
    + exists 0. by rewrite phases_app, F5.
  - intros _. rewrite Channel.isWriting_enableReading, Channel.isWriting_tie. by apply H2.
Qed.

Lemma connectEstablished_up c :
  exists u acts, connectEstablished cbs c = perform cbs acts (comes_up u c).
Proof.
  unfold connectEstablished, call_connection, connected. cbn [setState set_channel state_ context_].
  rewrite bool_decide_eq_true_2 by done.
  destruct (connectionCallback_ cbs true (context_ c)) as [u acts]. by exists u, acts.
Qed.

Lemma inv_connectEstablished c : state_ c = kConnecting -> inv c -> inv (connectEstablished cbs c).
Proof.
  intros Hs Hi. destruct (connectEstablished_up c) as (u & acts & ->). by apply inv_perform, inv_comes_up.
Qed.

(** Changes of the channel that leave its interest alone. *)
Lemma inv_set_channel f c :
  state_ c <> kConnecting -> (forall ch, Channel.events_ (f ch) = Channel.events_ ch) -> inv c ->
  inv (set_channel f c).
Proof.
  intros Hs Hf [[[] H2 H3 H4] H5].
  assert (forall ch, Channel.isWriting (f ch) = Channel.isWriting ch) as Hw
    by (intros; unfold Channel.isWriting; by rewrite Hf).
  split; [split; [by split|..]|]; cbn; rewrite ?Hw, ?Hf; try done.
  intros Hd. unfold closing. cbn. rewrite Hw. by apply H5.
Qed.

Lemma inv_connectDestroyed c : state_ c <> kConnecting -> inv c -> inv (connectDestroyed cbs c).
Proof.
  intros Hs Hi. unfold connectDestroyed. case_bool_decide as Hc; [|by apply inv_set_channel].
  destruct (call_connection_down c) as [u ->].
  apply inv_set_channel; [done|done|by apply inv_goes_down; [left|]].
Qed.

Lemma handleClose_down c : state_ (handleClose cbs c) = kDisconnected.
Proof. unfold handleClose. by destruct (call_connection_down c) as [u ->]. Qed.

(** A connection that is polled is up. *)
Lemma polled_up revents res c : enabled (Polled revents res) c = true -> inv c -> up c.
Proof.
  intros [[Hadd Hev%negb_true_iff]%andb_true_iff _]%andb_true_iff [[H1 H2 H3 H4] H5].
  unfold up. destruct (state_ c); auto.
  - unfold Channel.isNonEvent in Hev. by rewrite H4 in Hev.
  - destruct (H3 eq_refl) as [_ Hch]. by rewrite Hch in Hadd.
Qed.

(** Induction over the callbacks one event makes: reading never follows a
    close. *)
Lemma handleEvent_ind (P : t -> Prop) revents res c :
  enabled (Polled revents res) c = true -> up c ->
  (forall c, P c -> P (handleWrite cbs c)) ->
  (forall c, up c -> P c -> P (handleClose cbs c)) ->
  (forall c, up c -> P c -> P (handleRead cbs res c)) ->
  P (set_channel (Channel.set_revents revents) c) -> P (handleEvent cbs revents res c).
Proof.
  intros [_ Hsane%negb_true_iff]%andb_true_iff Hup Pwrite Pclose Pread Hi.
  unfold handleEvent. set (c1 := set_channel _ c) in *. assert (up c1) as Hup1 by exact Hup.
  assert (Channel.handleEvent true (channel_ c1) =
          Channel.handleEventWithGuard (Channel.set_revents revents (channel_ c))) as -> by apply Channel.handleEvent_alive.
  unfold Channel.handleEventWithGuard. cbn [Channel.revents_ Channel.set_revents].
  clearbody c1. clear Hup c. rewrite !foldl_app.
  assert (forall (b : bool) c, P c ->
    P (foldl (fun c cb => run_callback cbs res cb c) c (if b then [Channel.WriteCallback] else []))) as Hwrite
    by (intros [] c' Hc'; cbn; [by apply Pwrite|done]).
  apply Hwrite.
  destruct (has revents EPOLLHUP && negb (has revents EPOLLIN)) eqn:Eclose.
  - assert (has revents (Z.lor EPOLLIN EPOLLPRI) = false) as ->.
    { apply andb_true_iff in Eclose as [_ Ein%negb_true_iff]. cbn [andb] in Hsane.
      unfold has in *. apply negb_false_iff, Z.eqb_eq. apply negb_false_iff, Z.eqb_eq in Ein, Hsane.
      by rewrite Z.land_lor_distr_r, Ein, Hsane. }
    cbn. destruct (has revents EPOLLERR); cbn; by apply Pclose.
  - destruct (has revents EPOLLERR), (has revents (Z.lor EPOLLIN EPOLLPRI)); cbn; try done; by apply Pread.
Qed.

Lemma inv_handleEvent revents res c :
  enabled (Polled revents res) c = true -> inv c -> inv (handleEvent cbs revents res c).
Proof.
  intros He Hi. pose proof (polled_up revents res c He Hi) as Hup.
  apply handleEvent_ind; try done; [apply inv_handleWrite|apply inv_handleClose|apply inv_handleRead|].
  apply inv_set_channel; [by apply not_up_down|done|done].
Qed.

Lemma inv_pop f fs c :
  queue c = f :: fs -> inv c -> core (set_queue fs c) /\ (f <> ShutdownInLoop -> inv (set_queue fs c)).
Proof.
  intros Hq [[[] H2 H3 H4] H5].
  assert (state_ c <> kConnecting) as Hs by (intros Hs; destruct (H3 Hs); congruence).
  assert (core (set_queue fs c)) as Hc by (split; [by split|done..]).
  split; [done|]. intros Hf. split; [done|]. intros Hd. destruct (H5 Hd) as [?|[?|Hin]]; [by left|by right; left|].
  right; right. cbn. rewrite Hq in Hin. apply elem_of_cons in Hin as [Hin|Hin]; [congruence|exact Hin].
Qed.

Lemma inv_run_functor f fs c : queue c = f :: fs -> inv c -> inv (run_functor cbs f (set_queue fs c)).
Proof.
  intros Hq Hi. destruct (inv_pop f fs c Hq Hi) as [Hcore Hinv].
  assert (state_ c <> kConnecting) as Hs by (intros Hs; destruct (core_connecting c (inv_core c Hi) Hs); congruence).
  destruct f as [data| | |n]; cbn [run_functor].
  - by apply inv_sendInLoop, Hinv.
  - by apply inv_shutdownInLoop.
  - destruct (writeCompleteCallback_ cbs); [|by apply Hinv]. apply inv_perform, inv_setContext.
    apply inv_emit_silent; [by left|by apply Hinv].
  - destruct (highWaterMarkCallback_ cbs); [|by apply Hinv]. apply inv_perform, inv_setContext.
    apply inv_emit_silent; [by right; eexists|by apply Hinv].
Qed.

Lemma inv_step e c : enabled e c = true -> inv c -> inv (step cbs e c).
Proof.
  destruct e as [|revents res|inLoop data|inLoop| |]; cbn [step]; intros He Hi.
  - apply inv_connectEstablished; [by apply bool_decide_eq_true in He|done].
  - by apply inv_handleEvent.
  - by apply inv_send.
  - by apply inv_shutdown.
  - destruct (queue c) eqn:Eq; [done|]. by apply inv_run_functor.
  - apply inv_connectDestroyed; [|done]. by apply negb_true_iff, bool_decide_eq_false in He.
Qed.

Lemma inv_reachable c : reachable cbs c -> inv c.
Proof. induction 1; [apply inv_make|by apply inv_step]. Qed.

(** ** Draining *)

Fixpoint exec (es : list event) c : option t :=
  match es with
  | [] => Some c
  | e :: es => if enabled e c then exec es (step cbs e c) else None
  end.

Lemma handleEvent_writable res c :
  handleEvent cbs EPOLLOUT res c = handleWrite cbs (set_channel (Channel.set_revents EPOLLOUT) c).
Proof. unfold handleEvent. by rewrite Channel.handleEvent_alive. Qed.

Lemma pending_nonempty c : core c -> writing c = true -> 0 < length (pending c).
Proof.
  intros Hc Hw. pose proof (core_writing c Hc (proj1 (not_up_down c (writing_up c Hc Hw)))) as Hp.
  rewrite Hw in Hp. destruct (pending c); [by specialize (Hp)|cbn; lia].
Qed.

Definition drained c : Prop := pending c = [] /\ ShutdownWrite ∈ log c.

(** One report of a writable socket while [m] bytes fit. *)
Lemma handleWrite_drains m ks c :
  core c -> state_ c = kDisconnecting -> writing c = true -> 0 < m -> kernel c = Buffer.Written m :: ks ->
  let c' := handleWrite cbs c in
  drained c' \/
  (pending c' = drop m (pending c) /\ state_ c' = kDisconnecting /\ kernel c' = ks /\
   writing c' = true /\ Channel.added2Loop_ (channel_ c') = Channel.added2Loop_ (channel_ c)).
Proof.
  intros Hi Hs Hw Hm Hk. pose proof (core_flow c Hi) as Hf. pose proof (pending_nonempty c Hi Hw) as Hlen.
  unfold handleWrite. rewrite Hw. unfold write. rewrite Hk.
  set (n := m `min` length (pending c)). assert (n <= length (pending c)) as Hn by lia.
  rewrite (proj2 (Nat.ltb_lt 0 n)) by lia.
  pose proof (flow_write n c ks Hf Hn) as Hf1. cbn [set_kernel emit set_output outputBuffer_] in *.
  set (c1 := set_output _ _) in *. pose proof (readable_zero c1 Hf1) as Hz.
  cbn [c1 set_output outputBuffer_] in Hz. unfold c1 at 1. cbn [set_output outputBuffer_]. rewrite Hz.
  case_bool_decide as Hp.
  - left. set (c2 := set_channel Channel.disableWriting c1).
    assert (forall c3, c3 = c2 \/ c3 = queueInLoop WriteComplete c2 ->
      drained (if bool_decide (state_ c3 = kDisconnecting) then shutdownInLoop c3 else c3)) as Hdone.
    { intros c3 [->| ->]; rewrite bool_decide_eq_true_2 by done; unfold shutdownInLoop; cbn;
        rewrite Channel.isWriting_disable; (split; [exact Hp|cbn; set_solver]). }
    apply Hdone. destruct (has_write_complete cbs); auto.
  - right. split_and!; [|done..]. cbn. rewrite peek_retrieve by apply Hf. unfold n.
    destruct (Nat.le_ge_cases m (length (pending c))); [by rewrite Nat.min_l|by rewrite Nat.min_r, !drop_ge by lia].
Qed.

Lemma writing_interested ch : Channel.isWriting ch = true -> Channel.isNonEvent ch = false.
Proof.
  intros Hw. unfold Channel.isNonEvent, Channel.kNoneEvent. apply Z.eqb_neq. intros Hz.
  by rewrite Channel.isWriting_bit, Hz in Hw.
Qed.

Lemma exec_writable res es c :
  Channel.added2Loop_ (channel_ c) = true -> writing c = true ->
  exec (Polled EPOLLOUT res :: es) c =
  exec es (handleWrite cbs (set_channel (Channel.set_revents EPOLLOUT) c)).
Proof.
  intros Ha Hw. cbn [exec enabled]. rewrite Ha, (writing_interested (channel_ c) Hw). by rewrite <- (handleEvent_writable res).
Qed.

Lemma exec_drain k m res c :
  inv c -> state_ c = kDisconnecting -> writing c = true -> Channel.added2Loop_ (channel_ c) = true ->
  0 < m -> kernel c = replicate k (Buffer.Written m) -> length (pending c) <= k * m ->
  exists n c', n <= k /\ exec (replicate n (Polled EPOLLOUT res)) c = Some c' /\ drained c'.
Proof.
  revert c. induction k as [|k IH]; intros c Hi Hs Hw Ha Hm Hk Hlen.
  - pose proof (pending_nonempty c (inv_core c Hi) Hw). lia.
  - set (c1 := set_channel (Channel.set_revents EPOLLOUT) c).
    assert (inv c1) as Hi1 by (apply inv_set_channel; [by rewrite Hs|done|done]).
    destruct (handleWrite_drains m (replicate k (Buffer.Written m)) c1) as [Hd|(Hp & Hs' & Hk' & Hw' & Ha')];
      try done; [by apply inv_core|..].
    + exists 1, (handleWrite cbs c1). split_and!; [lia| |done]. cbn [replicate]. by rewrite exec_writable.
    + destruct (IH (handleWrite cbs c1)) as (n & c' & Hn & Hrun & Hd); try done.
      * by apply inv_handleWrite.
      * by rewrite Ha'.
      * rewrite Hp, length_drop. change (pending c1) with (pending c). lia.
      * exists (S n), c'. split_and!; [lia| |done]. cbn [replicate]. by rewrite exec_writable.
Qed.

(** ** The properties *)

(** C16.  In every reachable state, whatever the kernel answered and whatever the
    callbacks and other threads asked for, the bytes the kernel took followed by
    the bytes waiting in the output buffer are exactly the messages sendInLoop
    took on, in order and complete; and until the connection is down the channel
    waits for a writable socket exactly when bytes are waiting. *)
Theorem tcp_byte_stream c :
  reachable cbs c ->
  wire (log c) ++ peek (outputBuffer_ c) = taken (log c) /\
  (state_ c <> kDisconnected ->
   Channel.isWriting (channel_ c) = negb (bool_decide (peek (outputBuffer_ c) = []))).
Proof.
  intros [Hc _]%inv_reachable. split; [apply (core_flow c Hc)|apply (core_writing c Hc)].
Qed.

(** C33.  The writing side of a connection is shut down only after everything that
    was taken on has been written, or when the connection is down; and a shutdown
    that was asked for is never forgotten: it has happened, or the channel waits
    to write, or it waits in the loop's queue. *)
Theorem tcp_graceful_shutdown c :
  reachable cbs c ->
  (forall pre post, log c = pre ++ ShutdownWrite :: post -> wire pre = taken pre \/ Down ∈ phases pre) /\
  (state_ c = kDisconnecting ->
   ShutdownWrite ∈ log c \/ Channel.isWriting (channel_ c) = true \/ ShutdownInLoop ∈ queue c).
Proof.
  intros [Hc Hclosing]%inv_reachable. split; [apply (core_flow c Hc)|exact Hclosing].
Qed.

(** C36.  A connection that waits to write after shutdown() drains: when the
    kernel takes [m > 0] bytes each time and [k * m] covers what waits, at most
    [k] reports of a writable socket empty the buffer and shut the writing
    side down. *)
Theorem tcp_shutdown_completes k m res c :
  reachable cbs c -> state_ c = kDisconnecting -> Channel.isWriting (channel_ c) = true ->
  Channel.added2Loop_ (channel_ c) = true ->
  0 < m -> kernel c = replicate k (Buffer.Written m) -> length (peek (outputBuffer_ c)) <= k * m ->
  exists n c', n <= k /\ exec (replicate n (Polled EPOLLOUT res)) c = Some c' /\
    peek (outputBuffer_ c') = [] /\ ShutdownWrite ∈ log c'.
Proof. intros Hr%inv_reachable. by apply exec_drain. Qed.

(** C25.  The callbacks follow the life of the connection: the connection
    callback is told once that it is up, then come the messages, then it is told
    once that it is down, then at most once the server is told to drop it, and
    nothing after that. *)
Theorem tcp_lifecycle c : reachable cbs c -> lifecycle (state_ c) (phases (log c)).
Proof. intros [Hc _]%inv_reachable. apply (core_flow c Hc). Qed.
End facts.

(** ** A connection *)

(** Echoes what it reads and then shuts down; never more than two bytes at a
    time reach the kernel. *)
Definition echo : callbacks bytes unit :=
  mkCallbacks (fun _ u => (u, [])) (fun u buf => (u, [], [Send buf; Shutdown])) None None.

Definition echo_sample : TcpConnection.t bytes unit :=
  step echo (Polled EPOLLIN (Buffer.ReadData [Byte.x61; Byte.x62; Byte.x63; Byte.x64; Byte.x65]))
    (step echo Established (make 7%Z tt (replicate 3 (Buffer.Written 2)))).

Lemma echo_reachable : reachable echo echo_sample.
Proof. repeat (apply reach_step; [|reflexivity]). apply reach_make. Qed.

Lemma tcp_byte_stream_witness :
  reachable echo echo_sample /\
  wire (log echo_sample) ++ peek (outputBuffer_ echo_sample) = taken (log echo_sample) /\
  taken (log echo_sample) = [Byte.x61; Byte.x62; Byte.x63; Byte.x64; Byte.x65].
Proof.
  split; [apply echo_reachable|]. split; [|reflexivity].
  apply (tcp_byte_stream echo echo_sample), echo_reachable.
Defined.

Lemma tcp_graceful_shutdown_witness :
  state_ echo_sample = kDisconnecting /\
  (ShutdownWrite ∈ log echo_sample \/ Channel.isWriting (channel_ echo_sample) = true \/ ShutdownInLoop ∈ queue echo_sample).
Proof.
  split; [reflexivity|]. by apply (tcp_graceful_shutdown echo echo_sample); [apply echo_reachable|].
Defined.

Lemma tcp_shutdown_completes_witness :
  exists n c', n <= 2 /\ exec echo (replicate n (Polled EPOLLOUT (Buffer.ReadErr 0))) echo_sample = Some c' /\
    peek (outputBuffer_ c') = [] /\ ShutdownWrite ∈ log c'.
Proof.
  apply (tcp_shutdown_completes echo 2 2 (Buffer.ReadErr 0) echo_sample);
    [apply echo_reachable|reflexivity|reflexivity|reflexivity|lia|reflexivity|vm_compute; lia].
Defined.

Lemma tcp_lifecycle_witness :
  reachable echo echo_sample /\ lifecycle kDisconnecting (phases (log echo_sample)) /\ phases (log echo_sample) = [Up; Message].
Proof.
  split; [apply echo_reachable|]. split; [|reflexivity].
  apply (tcp_lifecycle echo echo_sample), echo_reachable.
Defined.
