(* ===== verification/TcpConnectionSteps.v ===== *)
(** * What a server relies on from its connections

    One step of a connection at a time: the queue of functors and the log only
    grow, a connection that is up stays up or tells the server to close it, and
    one that is down does nothing any more. *)

From S2P Require Import Prelude Bytes ByteBuffer NetBuffer Channel TcpConnection TcpConnectionFacts.
Import TcpConnection.

Section steps.
Context {B U : Type} `{ByteBufferLaws B} (cbs : callbacks B U).
#[local] Abbreviation t := (TcpConnection.t B U).
Implicit Types c : t.

(** ** Growing *)

Definition grows c c' : Prop := queue c `prefix_of` queue c' /\ log c `prefix_of` log c'.

#[local] Instance grows_preorder : PreOrder grows.
Proof.
  split; [by split|]. intros c1 c2 c3 [Q1 L1] [Q2 L2]. split; [by trans (queue c2)|by trans (log c2)].
Qed.

(** Changes that leave both alone, or add to them. *)
Lemma grows_same c c' : queue c' = queue c -> log c' = log c -> grows c c'.
Proof. intros Q L. split; by rewrite ?Q, ?L. Qed.

Lemma grows_emit e c c' : grows c c' -> grows c (emit e c').
Proof. intros [Q L]. split; [done|]. by apply prefix_app_r. Qed.

Lemma grows_queue f c c' : grows c c' -> grows c (queueInLoop f c').
Proof. intros [Q L]. split; [|done]. by apply prefix_app_r. Qed.

Lemma grows_set c c' d : grows c d -> queue c' = queue d -> log c' = log d -> grows c c'.
Proof. intros Hd Q L. trans d; [done|by apply grows_same]. Qed.

Create HintDb grows.
#[local] Hint Resolve grows_emit grows_queue : grows.
#[local] Hint Extern 1 (grows ?c ?c) => reflexivity : grows.

Ltac grow := first [by apply grows_same|eauto with grows].

Lemma grows_write data c : grows c (write data c).2.
Proof.
  unfold write. destruct (kernel c) as [|[e|n] ks]; cbn; [reflexivity|by apply grows_same|].
  apply grows_emit. by apply grows_same.
Qed.

Lemma grows_saveRemaining rest c : grows c (saveRemaining cbs rest c).
Proof.
  unfold saveRemaining. destruct (_ && has_high_water cbs); destruct (negb _);
    (split; cbn; first [done|by apply prefix_app_r]).
Qed.

Lemma grows_sendInLoop data c : grows c (sendInLoop cbs data c).
Proof.
  unfold sendInLoop. destruct (bool_decide _); [reflexivity|].
  pose proof (grows_write data c) as Hw.
  assert (forall n (b : bool) c1, grows c c1 ->
    let c2 := emit (if b then Dropped data else Accepted data) c1 in
    grows c (if negb b && (0 <? length data - n) then saveRemaining cbs (drop n data) c2 else c2)) as Hrest.
  { intros n b c1 Hc1 c2. assert (grows c c2) as Hc2 by (by apply grows_emit).
    destruct (_ && _); [|done]. trans c2; [done|apply grows_saveRemaining]. }
  destruct (_ && _); [|by apply (Hrest 0 false c)].
  destruct (write data c) as [[e|n] c1]; cbn in Hw; [by apply (Hrest 0 _ c1)|].
  apply (Hrest n false). destruct (_ && _); [by apply grows_queue|done].
Qed.

Lemma grows_shutdownInLoop c : grows c (shutdownInLoop c).
Proof. unfold shutdownInLoop. destruct (negb _); grow. Qed.

Lemma grows_send inLoop data c : grows c (send cbs inLoop data c).
Proof. unfold send. destruct (bool_decide _), inLoop; try grow. apply grows_sendInLoop. Qed.

Lemma grows_shutdown inLoop c : grows c (shutdown inLoop c).
Proof.
  unfold shutdown. destruct (bool_decide _), inLoop; try grow.
  - trans (setState kDisconnecting c); [by apply grows_same|apply grows_shutdownInLoop].
  - apply grows_queue. by apply grows_same.
Qed.

Lemma grows_perform acts c : grows c (perform cbs acts c).
Proof.
  revert c. induction acts as [|[data|] acts IH]; intros c; cbn; [reflexivity|..].
  - trans (send cbs true data c); [apply grows_send|apply IH].
  - trans (shutdown true c); [apply grows_shutdown|apply IH].
Qed.

Lemma grows_call_connection c : grows c (call_connection cbs c).
Proof.
  unfold call_connection. destruct (connectionCallback_ cbs _ _) as [u acts].
  trans (emit (CalledConnection (connected c)) (setContext u c)); [|apply grows_perform].
  apply grows_emit. by apply grows_same.
Qed.

Lemma grows_handleClose c : grows c (handleClose cbs c).
Proof.
  unfold handleClose. apply grows_emit.
  trans (set_channel Channel.disableAll (setState kDisconnected c)); [by apply grows_same|apply grows_call_connection].
Qed.

Lemma grows_handleRead res c : grows c (handleRead cbs res c).
Proof.
  destruct res as [e|[|b data]]; cbn [handleRead]; [reflexivity|apply grows_handleClose|].
  destruct (messageCallback_ cbs _ _) as [[u buf] acts]. etrans; [|apply grows_perform].
  apply grows_emit. by apply grows_same.
Qed.

Lemma grows_handleWrite c : grows c (handleWrite cbs c).
Proof.
  unfold handleWrite. destruct (Channel.isWriting _); [|reflexivity].
  pose proof (grows_write (peek (outputBuffer_ c)) c) as Hw. destruct (write _ c) as [[e|n] c1]; cbn in Hw; [done|].
  destruct (0 <? n); [|done]. set (c2 := set_output _ c1).
  assert (grows c c2) as Hc2 by (trans c1; [done|by apply grows_same]).
  destruct (_ =? 0); [|done].
  set (c3 := set_channel _ c2). assert (grows c c3) as Hc3 by (trans c2; [done|by apply grows_same]).
  assert (grows c (if has_write_complete cbs then queueInLoop WriteComplete c3 else c3)) as Hc4
    by (destruct (has_write_complete cbs); [by apply grows_queue|done]).
  destruct (bool_decide _); [|done]. etrans; [exact Hc4|apply grows_shutdownInLoop].
Qed.

Lemma grows_run_callback res cb c : grows c (run_callback cbs res cb c).
Proof. destruct cb; [apply grows_handleClose|reflexivity|apply grows_handleRead|apply grows_handleWrite]. Qed.

Lemma grows_handleEvent revents res c : grows c (handleEvent cbs revents res c).
Proof.
  unfold handleEvent. set (c1 := set_channel _ c). assert (grows c c1) as Hc by (by apply grows_same).
  generalize (Channel.handleEvent true (channel_ c1)). intros cbl.
  clearbody c1. revert c1 Hc. induction cbl as [|cb cbl IH]; intros c1 Hc; cbn; [done|].
  apply IH. trans c1; [done|apply grows_run_callback].
Qed.

Lemma grows_call r c : grows c (call cbs r c).
Proof. unfold call. etrans; [|apply grows_perform]. by apply grows_same. Qed.

Lemma grows_run_functor f c : grows c (run_functor cbs f c).
Proof.
  destruct f as [data| | |n]; cbn [run_functor]; [apply grows_sendInLoop|apply grows_shutdownInLoop|..].
  - destruct (writeCompleteCallback_ cbs); [|reflexivity]. etrans; [|apply grows_call]. grow.
  - destruct (highWaterMarkCallback_ cbs); [|reflexivity]. etrans; [|apply grows_call]. grow.
Qed.

Lemma step_grows e c :
  remaining e (queue c) `prefix_of` queue (step cbs e c) /\ log c `prefix_of` log (step cbs e c).
Proof.
  destruct e as [|revents res|inLoop data|inLoop| |]; cbn [step remaining].
  - change (grows c (connectEstablished cbs c)). etrans; [|apply grows_call_connection]. by apply grows_same.
  - apply grows_handleEvent.
  - apply grows_send.
  - apply grows_shutdown.
  - destruct (queue c) as [|f fs] eqn:E; [by rewrite E|]. cbn [tail].
    apply (grows_run_functor f (set_queue fs c)).
  - change (grows c (connectDestroyed cbs c)). unfold connectDestroyed.
    destruct (bool_decide _); [|by apply grows_same].
    eapply (grows_set _ _ (call_connection cbs _)); [|done..]. etrans; [|apply grows_call_connection]. by apply grows_same.
Qed.

(** ** Up and down *)

Lemma closes_phases l :
  closes l = length (omap (fun p => match p with Closed => Some () | _ => None end) (phases l)).
Proof.
  induction l as [|e l IH]; [done|]. unfold closes, phases in *. destruct e as [| | | |[]| | | |]; cbn; congruence.
Qed.

Lemma closes_up c : inv c -> up c -> closes (log c) = 0.
Proof.
  intros [[[_ _ _ Hl] _ _ _] _] Hup. rewrite closes_phases.
  assert (exists n, phases (log c) = Up :: replicate n Message) as [n ->] by (destruct Hup as [E|E]; by rewrite E in Hl).
  cbn. by induction n.
Qed.

Lemma closes_down c :
  inv c -> state_ c = kDisconnected -> Closed ∈ phases (log c) -> closes (log c) = 1.
Proof.
  intros [[[_ _ _ Hl] _ _ _] _] Hs Hin. rewrite closes_phases. rewrite Hs in Hl. destruct Hl as (n & b & E).
  rewrite E in Hin |- *. destruct b; [cbn; clear; by induction n|].
  rewrite elem_of_cons, elem_of_app, elem_of_replicate, list_elem_of_singleton in Hin. by destruct Hin as [|[[? _]|]].
Qed.

Lemma up_send inLoop data c : inv c -> up c -> up (send cbs inLoop data c).
Proof.
  intros Hi Hup. unfold send. destruct (bool_decide _), inLoop; try done.
  unfold up. by rewrite sendInLoop_state.
Qed.

Lemma up_shutdown inLoop c : up c -> up (shutdown inLoop c).
Proof.
  intros Hup. unfold shutdown. destruct (bool_decide _), inLoop; [|by right|done..].
  unfold shutdownInLoop. destruct (negb _); by right.
Qed.

Lemma up_perform acts c : inv c -> up c -> up (perform cbs acts c).
Proof.
  revert c. induction acts as [|[data|] acts IH]; intros c Hi Hup; cbn; [done|..]; apply IH.
  - by apply inv_send.
  - by apply up_send.
  - by apply inv_shutdown.
  - by apply up_shutdown.
Qed.

(** Up, or the server has been told. *)
Definition told c : Prop := inv c /\ (up c \/ (state_ c = kDisconnected /\ Closed ∈ phases (log c))).

Lemma told_up c : inv c -> up c -> told c.
Proof. by split; [|left]. Qed.

Lemma phases_grows c c' p : grows c c' -> p ∈ phases (log c) -> p ∈ phases (log c').
Proof. intros [_ [l ->]] Hp. rewrite phases_app. set_solver. Qed.

Lemma told_grows c c' : inv c' -> grows c c' -> state_ c' = state_ c -> told c -> told c'.
Proof.
  intros Hi Hg Hs [_ [Hup|[Hd Hp]]]; split; try done.
  - left. unfold up. by rewrite Hs.
  - right. rewrite Hs. split; [done|by eapply phases_grows].
Qed.

Lemma told_handleClose c : up c -> told c -> told (handleClose cbs c).
Proof.
  intros Hup [Hi _]. split; [by apply inv_handleClose|]. right. split; [apply handleClose_down|].
  unfold handleClose. cbn [emit log]. rewrite phases_app. set_solver.
Qed.

Lemma handleWrite_state c : state_ (handleWrite cbs c) = state_ c.
Proof.
  unfold handleWrite. destruct (Channel.isWriting _); [|done].
  assert (state_ (write (peek (outputBuffer_ c)) c).2 = state_ c) as Hw
    by (unfold write; by destruct (kernel c) as [|[]]).
  destruct (write _ c) as [[e|n] c1]; cbn in Hw; [done|]. destruct (0 <? n); [|done].
  destruct (_ =? 0); [|done]. destruct (bool_decide _); unfold shutdownInLoop; destruct (has_write_complete cbs);
    cbn; try done; by destruct (negb _).
Qed.

Lemma told_handleWrite c : told c -> told (handleWrite cbs c).
Proof.
  intros Ht. apply (told_grows c); [by apply inv_handleWrite, Ht|apply grows_handleWrite|apply handleWrite_state|done].
Qed.

Lemma told_handleRead res c : up c -> told c -> told (handleRead cbs res c).
Proof.
  intros Hup Ht. destruct res as [e|[|b data]]; cbn [handleRead]; [done|by apply told_handleClose|].
  destruct (messageCallback_ cbs _ _) as [[u buf] acts].
  assert (inv (emit CalledMessage (set_input buf (setContext u (set_input (append (b :: data) (inputBuffer_ c)) c))))) as Hi
    by (apply inv_message; [done|by apply inv_set_input, Ht]).
  by apply told_up; [apply inv_perform|apply up_perform].
Qed.

Lemma run_functor_told f fs c : queue c = f :: fs -> inv c -> up c -> told (run_functor cbs f (set_queue fs c)).
Proof.
  intros Hq Hi Hup. apply told_up; [by apply inv_run_functor|].
  destruct (inv_pop f fs c Hq Hi) as [Hcore Hinv]. destruct f as [data| | |n]; cbn [run_functor].
  - unfold up. rewrite sendInLoop_state; [exact Hup|by apply Hinv].
  - unfold shutdownInLoop. by destruct (negb _).
  - destruct (writeCompleteCallback_ cbs); [|done]. apply up_perform; [|done]. apply inv_setContext.
    apply inv_emit_silent; [by left|by apply Hinv].
  - destruct (highWaterMarkCallback_ cbs); [|done]. apply up_perform; [|done]. apply inv_setContext.
    apply inv_emit_silent; [by right; eexists|by apply Hinv].
Qed.

(** A connection that is up stays up, or goes down and tells the server, once. *)
Lemma step_up e c :
  inv c -> up c -> enabled e c = true -> e <> Established -> e <> Destroyed ->
  let c' := step cbs e c in
  (up c' /\ closes (log c') = 0) \/ (state_ c' = kDisconnected /\ closes (log c') = 1).
Proof.
  intros Hi Hup He Hne Hnd. cbv zeta. assert (told (step cbs e c)) as [Hi' Ht].
  { destruct e as [|revents res|inLoop data|inLoop| |]; cbn [step]; try done.
    - apply handleEvent_ind; try done;
        [apply told_handleWrite|apply told_handleClose|apply told_handleRead|].
      apply told_up; [|done]. apply inv_set_channel; [by apply not_up_down|done|done].
    - apply told_up; [by apply inv_send|by apply up_send].
    - apply told_up; [by apply inv_shutdown|by apply up_shutdown].
    - destruct (queue c) as [|f fs] eqn:Eq; [by apply told_up|by apply run_functor_told]. }
  destruct Ht as [?|[Hs Hp]]; [left|right]; (split; [done|]); [by apply closes_up|by apply closes_down].
Qed.

(** A connection that is down does nothing: it queues nothing and calls nobody
    but the callbacks that were queued before. *)
Lemma step_down e c :
  inv c -> state_ c = kDisconnected -> enabled e c = true ->
  let c' := step cbs e c in
  state_ c' = kDisconnected /\ queue c' = remaining e (queue c) /\ closes (log c') = closes (log c).
Proof.
  intros Hi Hs He. destruct e as [|revents res|inLoop data|inLoop| |]; cbn [step remaining].
  - cbn in He. apply bool_decide_eq_true in He. congruence.
  - destruct (polled_up _ _ _ He Hi); congruence.
  - unfold send. by rewrite bool_decide_eq_false_2 by congruence.
  - unfold shutdown. by rewrite bool_decide_eq_false_2 by congruence.
  - destruct (queue c) as [|f fs] eqn:Eq; [by rewrite Eq|]. cbn [tail].
    assert (closes (log c ++ [ShutdownWrite]) = closes (log c) /\
            closes (log c ++ [CalledWriteComplete]) = closes (log c) /\
            forall n, closes (log c ++ [CalledHighWaterMark n]) = closes (log c)) as (E1 & E2 & E3)
      by (unfold closes; setoid_rewrite omap_app; setoid_rewrite length_app; cbn; repeat split; lia).
    destruct f as [data| | |n]; cbn [run_functor].
    + unfold sendInLoop. by rewrite bool_decide_eq_true_2.
    + unfold shutdownInLoop. by destruct (negb _).
    + destruct (writeCompleteCallback_ cbs); [|done]. unfold call. rewrite perform_down by done. by split_and!.
    + destruct (highWaterMarkCallback_ cbs); [|done]. unfold call. rewrite perform_down by done. split_and!; [done|done|apply E3].
  - unfold connectDestroyed. by rewrite bool_decide_eq_false_2 by congruence.
Qed.

(** Before it is established nothing happens to a connection. *)
Lemma step_connecting e c :
  inv c -> state_ c = kConnecting -> enabled e c = true -> e <> Established -> step cbs e c = c.
Proof.
  intros Hi Hs He Hne. destruct (core_connecting c (inv_core c Hi) Hs) as [Hq Hc].
  destruct e as [|revents res|inLoop data|inLoop| |]; cbn [step]; try done.
  - destruct (polled_up _ _ _ He Hi); congruence.
  - unfold send. by rewrite bool_decide_eq_false_2 by congruence.
  - unfold shutdown. by rewrite bool_decide_eq_false_2 by congruence.
  - by rewrite Hq.
  - cbn in He. by rewrite bool_decide_eq_true_2 in He.
Qed.

Lemma step_established c :
  inv c -> state_ c = kConnecting ->
  let c' := step cbs Established c in up c' /\ closes (log c') = 0.
Proof.
  intros Hi Hs. cbv zeta. cbn [step]. assert (inv (connectEstablished cbs c)) as Hi' by (by apply inv_connectEstablished).
  assert (up (connectEstablished cbs c)) as Hup.
  { destruct (connectEstablished_up cbs c) as (u & acts & ->). apply up_perform; [by apply inv_comes_up|by left]. }
  split; [done|by apply closes_up].
Qed.
End steps.
