(* ===== verification/EventLoop.v ===== *)
(** * src/net/EventLoop.h, src/net/EventLoop.cc

    One loop: the queue of functors, the eventfd that wakes the poller, and the
    program of [loop()] cut at every point where another thread can get in
    between.  The loop's thread moves with [loop_step]; before it calls loop() it
    may run other code that uses the loop (ThreadInitCallback of EventLoopThread
    does); other threads post a functor and, later, wake the loop up. *)

From S2P Require Import Prelude.

Module EventLoop.

(** What code that runs in the loop's thread does with the loop.  A functor is
    its name and what it calls. *)
Inductive call :=
| RunInLoop (id : nat) (body : list call)
| QueueInLoop (id : nat) (body : list call)
| Quit.

Definition Functor : Type := nat * list call.

(** What [poll] puts into [activeChannels_]. *)
Inductive active := WakeupChannel | UserChannel (body : list call).

(** Where the loop's thread is in [loop()]. *)
Inductive phase :=
| NotLooping
| AtTop
| Polling
| Handling (activeChannels_ : list active)
| Swapping
| Calling (functors : list Functor)
| Stopped.

Inductive effect :=
| Posted (f : Functor)   (** emplaced into [pendingFunctors_] *)
| PostedEarly (f : Functor)   (** by the loop's own thread, before loop() *)
| Ran (f : Functor)      (** run by doPendingFunctors *)
| Direct (id : nat).     (** run by runInLoop at once *)

Record t := mk {
  looping_ : bool;
  quit_ : bool;
  eventHandling_ : bool;
  callingPendingFunctors_ : bool;
  pendingFunctors_ : list Functor;
  wakeupFd_ : Z;       (** the eventfd's counter *)
  pc : phase;
  waking : nat;        (** threads that still have to call wakeup() *)
  log : list effect;
}.

Definition make : t := mk false false false false [] 0 NotLooping 0 [].

Definition set_looping (v : bool) (s : t) : t :=
  mk v (quit_ s) (eventHandling_ s) (callingPendingFunctors_ s) (pendingFunctors_ s) (wakeupFd_ s)
     (pc s) (waking s) (log s).
Definition set_quit (v : bool) (s : t) : t :=
  mk (looping_ s) v (eventHandling_ s) (callingPendingFunctors_ s) (pendingFunctors_ s) (wakeupFd_ s)
     (pc s) (waking s) (log s).
Definition set_eventHandling (v : bool) (s : t) : t :=
  mk (looping_ s) (quit_ s) v (callingPendingFunctors_ s) (pendingFunctors_ s) (wakeupFd_ s)
     (pc s) (waking s) (log s).
Definition set_calling (v : bool) (s : t) : t :=
  mk (looping_ s) (quit_ s) (eventHandling_ s) v (pendingFunctors_ s) (wakeupFd_ s)
     (pc s) (waking s) (log s).
Definition set_pending (v : list Functor) (s : t) : t :=
  mk (looping_ s) (quit_ s) (eventHandling_ s) (callingPendingFunctors_ s) v (wakeupFd_ s)
     (pc s) (waking s) (log s).
Definition set_wakeupFd (v : Z) (s : t) : t :=
  mk (looping_ s) (quit_ s) (eventHandling_ s) (callingPendingFunctors_ s) (pendingFunctors_ s) v
     (pc s) (waking s) (log s).
Definition set_pc (v : phase) (s : t) : t :=
  mk (looping_ s) (quit_ s) (eventHandling_ s) (callingPendingFunctors_ s) (pendingFunctors_ s)
     (wakeupFd_ s) v (waking s) (log s).
Definition set_waking (v : nat) (s : t) : t :=
  mk (looping_ s) (quit_ s) (eventHandling_ s) (callingPendingFunctors_ s) (pendingFunctors_ s)
     (wakeupFd_ s) (pc s) v (log s).
Definition emit (e : effect) (s : t) : t :=
  mk (looping_ s) (quit_ s) (eventHandling_ s) (callingPendingFunctors_ s) (pendingFunctors_ s)
     (wakeupFd_ s) (pc s) (waking s) (log s ++ [e]).

(** An eventfd counts up to 2^64 - 2; a write that does not fit fails with
    EAGAIN, and so does a read of zero (EFD_NONBLOCK). *)
Definition eventfd_max : Z := 2 ^ 64 - 2.

Definition wakeup (s : t) : t :=
  if (wakeupFd_ s <? eventfd_max)%Z then set_wakeupFd (wakeupFd_ s + 1) s else s.

Definition handleRead (s : t) : t := set_wakeupFd 0 s.

(** The critical section of queueInLoop. *)
Definition emplace (early : bool) (f : Functor) (s : t) : t :=
  emit (if early then PostedEarly f else Posted f) (set_pending (pendingFunctors_ s ++ [f]) s).

(** Called in the loop's thread: it wakes itself only while it runs functors. *)
Definition queueInLoop (f : Functor) (s : t) : t :=
  let s := emplace (negb (looping_ s)) f s in
  if callingPendingFunctors_ s then wakeup s else s.

Definition quit (s : t) : t := set_quit false s.

(** Calls made in the loop's thread. *)
Fixpoint exec_call (s : t) (c : call) : t :=
  match c with
  | RunInLoop id body => foldl exec_call (emit (Direct id) s) body
  | QueueInLoop id body => queueInLoop (id, body) s
  | Quit => quit s
  end.

Definition exec (body : list call) (s : t) : t := foldl exec_call s body.

Definition handleEvent (ch : active) (s : t) : t :=
  match ch with
  | WakeupChannel => handleRead s
  | UserChannel body => exec body s
  end.

(** What epoll may report: the eventfd only when it is readable, and nothing
    when the time is over or a signal came. *)
Definition may_report (chs : list active) (s : t) : bool :=
  forallb (fun ch => match ch with WakeupChannel => (0 <? wakeupFd_ s)%Z | _ => true end) chs.

(** One step of the loop's thread; [chs] is what the poller reports, when it is
    asked.  [None]: the thread cannot move like this. *)
Definition loop_step (chs : list active) (s : t) : option t :=
  match pc s with
  | NotLooping => Some (set_pc AtTop (set_quit false (set_looping true s)))
  | AtTop => Some (set_pc (if quit_ s then Stopped else Polling) s)
  | Polling =>
      if may_report chs s then Some (set_pc (Handling chs) (set_eventHandling true s)) else None
  | Handling (ch :: chs) => Some (handleEvent ch (set_pc (Handling chs) s))
  | Handling [] => Some (set_pc Swapping (set_calling true (set_eventHandling false s)))
  | Swapping => Some (set_pc (Calling (pendingFunctors_ s)) (set_pending [] s))
  | Calling (f :: fs) => Some (exec f.2 (emit (Ran f) (set_pc (Calling fs) s)))
  | Calling [] => Some (set_pc AtTop (set_calling false s))
  | Stopped => None
  end.

(** The loop's thread in loop(), and with other code before; what other threads
    do: the two halves of queueInLoop, and quit(). *)
Inductive event := Loop (chs : list active) | Before (body : list call) | Post (f : Functor) | Wake | QuitElsewhere.

Definition step (e : event) (s : t) : option t :=
  match e with
  | Loop chs => loop_step chs s
  | Before body => match pc s with NotLooping => Some (exec body s) | _ => None end
  | Post f => Some (set_waking (S (waking s)) (emplace false f s))
  | Wake => match waking s with 0 => None | S n => Some (wakeup (set_waking n s)) end
  | QuitElsewhere => Some (set_waking (S (waking s)) (quit s))
  end.

Inductive reachable : t -> Prop :=
| reach_make : reachable make
| reach_step e s s' : reachable s -> step e s = Some s' -> reachable s'.

(** The loop's thread alone, while the poller answers at once: it reports the
    eventfd when it is readable and blocks otherwise. *)
Fixpoint run (n : nat) (s : t) : option t :=
  match n with
  | 0 => Some s
  | S n =>
      match pc s with
      | Polling => if (0 <? wakeupFd_ s)%Z then loop_step [WakeupChannel] s ≫= run n else None
      | _ => loop_step [] s ≫= run n
      end
  end.

(** ** What happened *)

Definition posted (l : list effect) : list Functor :=
  omap (fun e => match e with Posted f | PostedEarly f => Some f | _ => None end) l.
Definition early (l : list effect) : list Functor :=
  omap (fun e => match e with PostedEarly f => Some f | _ => None end) l.
Definition ran (l : list effect) : list Functor :=
  omap (fun e => match e with Ran f => Some f | _ => None end) l.

(** Functors doPendingFunctors has taken out but not run yet. *)
Definition swapped (p : phase) : list Functor := match p with Calling fs => fs | _ => [] end.

(** The loop goes on to the next swap without asking the poller. *)
Definition before_swap (p : phase) : bool :=
  match p with Handling _ | Swapping => true | _ => false end.
Definition calling (p : phase) : bool :=
  match p with Swapping | Calling _ => true | _ => false end.
Definition handling (p : phase) : bool := match p with Handling _ => true | _ => false end.

(** Nothing was ever posted but by the loop's own thread before loop(), and all
    of it is still pending: nobody has written to the eventfd for it. *)
Definition only_early (s : t) : Prop :=
  posted (log s) = early (log s) /\ pendingFunctors_ s = posted (log s).

(** In that state the poller sleeps although functors are pending. *)
Definition unwoken (s : t) : Prop :=
  before_swap (pc s) = false /\ wakeupFd_ s = 0%Z /\ pendingFunctors_ s <> [] /\ only_early s.

#[local] Arguments posted : simpl never.
#[local] Arguments ran : simpl never.
#[local] Arguments early : simpl never.

Lemma posted_app l1 l2 : posted (l1 ++ l2) = posted l1 ++ posted l2.
Proof. apply omap_app. Qed.
Lemma early_app l1 l2 : early (l1 ++ l2) = early l1 ++ early l2.
Proof. apply omap_app. Qed.
Lemma early_none l : posted l = [] -> early l = [].
Proof. unfold posted, early. induction l as [|[] l IH]; cbn; auto; done. Qed.
Lemma ran_app l1 l2 : ran (l1 ++ l2) = ran l1 ++ ran l2.
Proof. apply omap_app. Qed.

Record inv (s : t) : Prop := {
  inv_queue : ran (log s) ++ swapped (pc s) ++ pendingFunctors_ s = posted (log s);
  inv_wake : pendingFunctors_ s <> [] -> before_swap (pc s) = false ->
             (0 < wakeupFd_ s)%Z \/ 0 < waking s \/ only_early s;
  inv_before : pc s = NotLooping -> pendingFunctors_ s = posted (log s);
  inv_fd : (0 <= wakeupFd_ s)%Z;
  inv_quit : quit_ s = false;
  inv_stopped : pc s <> Stopped;
  inv_calling : callingPendingFunctors_ s = calling (pc s);
  inv_handling : eventHandling_ s = handling (pc s);
  inv_looping : looping_ s = match pc s with NotLooping => false | _ => true end;
}.

(** User code in the loop's thread: it posts functors behind the others, and
    wakes the loop when it is called from doPendingFunctors. *)
Record ext (s s' : t) : Prop := {
  ext_posts : exists fs, pendingFunctors_ s' = pendingFunctors_ s ++ fs /\
                         posted (log s') = posted (log s) ++ fs /\
                         early (log s') = early (log s) ++ (if looping_ s then [] else fs) /\
                         (fs <> [] -> callingPendingFunctors_ s = true -> (0 < wakeupFd_ s')%Z);
  ext_fd : (0 <= wakeupFd_ s -> wakeupFd_ s <= wakeupFd_ s')%Z;
  ext_ran : ran (log s') = ran (log s);
  ext_quit : quit_ s = false -> quit_ s' = false;
  ext_pc : pc s' = pc s;
  ext_calling : callingPendingFunctors_ s' = callingPendingFunctors_ s;
  ext_handling : eventHandling_ s' = eventHandling_ s;
  ext_looping : looping_ s' = looping_ s;
  ext_waking : waking s' = waking s;
}.

#[local] Instance ext_preorder : PreOrder ext.
Proof.
  split.
  - intros s. split; try done. exists []. by destruct (looping_ s); rewrite !app_nil_r.
  - intros s1 s2 s3 [(f1 & P1 & L1 & E1 & W1) F1 R1 Q1 ? C1 ? O1 ?] [(f2 & P2 & L2 & E2 & W2) F2 R2 Q2 ? C2 ? ? ?].
    split; try (congruence || lia || by auto).
    exists (f1 ++ f2). rewrite P2, P1, L2, L1, E2, E1, O1, !app_assoc.
    split_and!; [done|done|by destruct (looping_ s1); rewrite <- !app_assoc|].
    intros Hne Hc. destruct f2 as [|f f2].
    + rewrite app_nil_r in Hne. specialize (W1 Hne Hc). lia.
    + apply W2; [done|congruence].
Qed.

Lemma wakeup_fd s : (0 <= wakeupFd_ s)%Z -> (0 < wakeupFd_ (wakeup s))%Z.
Proof. intros Hs. unfold wakeup. destruct (Z.ltb_spec (wakeupFd_ s) eventfd_max); cbn; unfold eventfd_max in *; lia. Qed.

Lemma wakeup_mono s : (wakeupFd_ s <= wakeupFd_ (wakeup s))%Z.
Proof. unfold wakeup. destruct (Z.ltb_spec (wakeupFd_ s) eventfd_max); cbn; lia. Qed.

(** What [emplace] logs. *)
Lemma logged_posting b f l :
  let e := if b : bool then PostedEarly f else Posted f in
  posted (l ++ [e]) = posted l ++ [f] /\ early (l ++ [e]) = early l ++ (if negb b then [] else [f]) /\
  ran (l ++ [e]) = ran l.
Proof. destruct b; cbn; rewrite posted_app, early_app, ran_app, !app_nil_r; done. Qed.

Lemma ext_queueInLoop f s : (0 <= wakeupFd_ s)%Z -> ext s (queueInLoop f s).
Proof.
  intros Hs. unfold queueInLoop. destruct (logged_posting (negb (looping_ s)) f (log s)) as (Hp & He & Hr).
  rewrite negb_involutive in He.
  assert (ext s (emplace (negb (looping_ s)) f s) \/ callingPendingFunctors_ s = true) as Hq.
  { destruct (callingPendingFunctors_ s) eqn:Hc; [by right|left].
    split; cbn; try done. exists [f]. rewrite Hc. by split_and!. }
  change (callingPendingFunctors_ (emplace (negb (looping_ s)) f s)) with (callingPendingFunctors_ s).
  destruct (callingPendingFunctors_ s) eqn:Hc; [|by destruct Hq].
  pose proof (wakeup_fd (emplace (negb (looping_ s)) f s) Hs). pose proof (wakeup_mono (emplace (negb (looping_ s)) f s)).
  unfold wakeup in *. destruct (_ <? _)%Z; cbn in *; split; cbn; try done; try lia.
  all: exists [f]; by split_and!.
Qed.

Lemma ext_emit_direct id s : ext s (emit (Direct id) s).
Proof.
  split; cbn; try done; [|by rewrite ran_app, app_nil_r].
  exists []. rewrite posted_app, early_app, !app_nil_r. by destruct (looping_ s); rewrite ?app_nil_r; split_and!.
Qed.

(** Induction over calls and the calls of the functors they run. *)
Lemma call_ind' (P : call -> Prop) :
  (forall id body, Forall P body -> P (RunInLoop id body)) ->
  (forall id body, P (QueueInLoop id body)) -> P Quit -> forall c, P c.
Proof.
  intros Hrun Hqueue Hquit. fix IH 1. intros [id body|id body|]; [|apply Hqueue|apply Hquit].
  apply Hrun. induction body as [|c body IHb]; constructor; [apply IH|apply IHb].
Qed.

Lemma ext_fd_nonneg s s' : ext s s' -> (0 <= wakeupFd_ s)%Z -> (0 <= wakeupFd_ s')%Z.
Proof. intros E Hs. pose proof (ext_fd s s' E Hs). lia. Qed.

Lemma ext_fold body s :
  Forall (fun c => forall s, (0 <= wakeupFd_ s)%Z -> ext s (exec_call s c)) body ->
  (0 <= wakeupFd_ s)%Z -> ext s (exec body s).
Proof.
  intros Hb. revert s. induction Hb as [|c body Hc Hb IH]; intros s Hs; cbn; [reflexivity|].
  transitivity (exec_call s c); [by apply Hc|]. eapply IH, ext_fd_nonneg; [by apply Hc|done].
Qed.

Lemma ext_exec_call c s : (0 <= wakeupFd_ s)%Z -> ext s (exec_call s c).
Proof.
  revert s. induction c as [id body IH|id body|] using call_ind'; intros s Hs; cbn [exec_call].
  - transitivity (emit (Direct id) s); [apply ext_emit_direct|]. by apply ext_fold.
  - by apply ext_queueInLoop.
  - split; cbn; try done. exists []. by destruct (looping_ s); rewrite !app_nil_r.
Qed.

Lemma ext_exec body s : (0 <= wakeupFd_ s)%Z -> ext s (exec body s).
Proof. apply ext_fold. apply Forall_forall. intros c _ s'. apply ext_exec_call. Qed.

(** ** The loop cannot be stopped *)

(** Whatever is called, in any thread and before or in [loop()]: the flag is
    down, so that the loop goes on. *)
Record unstoppable (s : t) : Prop := {
  unstoppable_quit : quit_ s = false;
  unstoppable_pc : pc s <> Stopped;
  unstoppable_fd : (0 <= wakeupFd_ s)%Z;
}.

Lemma unstoppable_make : unstoppable make.
Proof. by split. Qed.

Lemma unstoppable_quit_call s : unstoppable s -> unstoppable (quit s).
Proof. intros [? ? ?]. by split. Qed.

Lemma unstoppable_wakeup s : unstoppable s -> unstoppable (wakeup s).
Proof.
  intros [? ? ?]. pose proof (wakeup_mono s). unfold wakeup in *.
  destruct (_ <? _)%Z; split; cbn in *; try done; lia.
Qed.

Lemma unstoppable_exec body s : unstoppable s -> unstoppable (exec body s).
Proof.
  intros [Hq Hp Hf]. pose proof (ext_exec body s Hf) as E.
  split; [by apply E|by rewrite (ext_pc _ _ E)|by eapply ext_fd_nonneg].
Qed.

Lemma unstoppable_step e s s' : step e s = Some s' -> unstoppable s -> unstoppable s'.
Proof.
  intros Hs Hu. pose proof Hu as [Hq Hp Hf]. destruct e as [chs|body|f| |]; cbn in Hs.
  - unfold loop_step in Hs. destruct (pc s) as [| | |[|[|body] l]| |[|f fs]|]; try done.
    all: try (injection Hs as <-; rewrite ?Hq; by split).
    + destruct (may_report chs s); [|done]. injection Hs as <-. by split.
    + injection Hs as <-. apply unstoppable_exec. by split.
    + injection Hs as <-. apply unstoppable_exec. by split.
  - destruct (pc s); try done. injection Hs as <-. by apply unstoppable_exec.
  - injection Hs as <-. by split.
  - destruct (waking s); [done|]. injection Hs as <-. apply unstoppable_wakeup. by split.
  - injection Hs as <-. by split.
Qed.

(** ** The invariant *)

Lemma inv_initial : inv make.
Proof. by split. Qed.

(** User code in loop() keeps the invariant wherever it runs. *)
Lemma inv_ext s s' :
  ext s s' -> pc s <> NotLooping -> (before_swap (pc s) = false -> calling (pc s) = true) -> inv s -> inv s'.
Proof.
  intros [(fs & P & L & Ee & W) F R Q E C Hh Lo Wk] Hpc Hcall [I1 I2 I0 I3 I4 I5 I6 I7 I8].
  split; unfold only_early; rewrite ?E, ?C, ?Hh, ?Lo, ?P, ?L, ?R, ?Wk; try done; [|..].
  - rewrite <- I1. by rewrite <- !app_assoc.
  - intros Hne Hb. destruct fs as [|f fs].
    + rewrite app_nil_r in Hne. rewrite Ee. unfold only_early in I2.
      destruct (I2 Hne Hb) as [|[|[O1 O2]]]; [left; lia|by right; left|right; right].
      destruct (looping_ s); rewrite !app_nil_r; done.
    + left. apply W; [done|]. rewrite I6. by apply Hcall.
  - lia.
  - by apply Q.
Qed.

(** And the code before loop(). *)
Lemma inv_ext_before s s' : ext s s' -> pc s = NotLooping -> inv s -> inv s'.
Proof.
  intros [(fs & P & L & Ee & W) F R Q E C Hh Lo Wk] Hpc [I1 I2 I0 I3 I4 I5 I6 I7 I8].
  specialize (I0 Hpc). rewrite Hpc in I8. rewrite I8 in Ee.
  split; unfold only_early; rewrite ?E, ?C, ?Hh, ?Lo, ?P, ?L, ?R, ?Wk, ?Ee; try done.
  - rewrite <- I1. by rewrite <- !app_assoc.
  - intros _ _. destruct (decide (pendingFunctors_ s = [])) as [Hp|Hp].
    + right; right. rewrite I0 in Hp. by rewrite I0, Hp, (early_none _ Hp).
    + destruct (I2 Hp) as [|[|[O1 O2]]]; [by rewrite Hpc|left; lia|by right; left|]. right; right. by rewrite I0, O1.
  - intros _. by rewrite I0.
  - lia.
  - by apply Q.
  - by rewrite Hpc.
Qed.

Lemma inv_loop_step chs s s' : loop_step chs s = Some s' -> inv s -> inv s'.
Proof.
  intros Hs Hi. pose proof Hi as [I1 I2 I0 I3 I4 I5 I6 I7 I8]. unfold loop_step in Hs.
  destruct (pc s) as [| | |[|ch l]| |[|f fs]|] eqn:Epc; try done; cbn in *.
  - injection Hs as <-. by split.
  - injection Hs as <-. rewrite I4. by split.
  - destruct (may_report chs s); [|done]. injection Hs as <-. by split.
  - injection Hs as <-. by split.
  - injection Hs as <-. set (s1 := set_pc (Handling l) s).
    assert (inv s1) as Hi1 by (by split).
    destruct ch as [|body]; cbn.
    + by split.
    + eapply inv_ext; [by apply ext_exec|done..].
  - injection Hs as <-. split; cbn; try done. by rewrite app_nil_r.
  - injection Hs as <-. by split.
  - injection Hs as <-. set (s1 := emit (Ran f) (set_pc (Calling fs) s)).
    assert (inv s1) as Hi1.
    { split; cbn; try done.
      - rewrite ran_app, posted_app, app_nil_r, <- app_assoc. exact I1.
      - unfold only_early. cbn. rewrite posted_app, early_app, !app_nil_r. exact I2. }
    eapply inv_ext; [by apply ext_exec|done..].
Qed.

Lemma loop_inv_step e s s' : step e s = Some s' -> inv s -> inv s'.
Proof.
  destruct e as [chs|body|f| |]; cbn.
  - apply inv_loop_step.
  - destruct (pc s) eqn:Epc; try done. intros [= <-] Hi. by eapply inv_ext_before; [apply ext_exec, Hi|..].
  - intros [= <-] [I1 I2 I0 I3 I4 I5 I6 I7 I8]. split; cbn; try done.
    + rewrite ran_app, posted_app, app_nil_r, <- I1, <- !app_assoc. done.
    + lia.
    + intros Hpc. rewrite posted_app. by rewrite I0.
  - destruct (waking s) as [|n] eqn:Ew; [done|]. intros [= <-] [I1 I2 I0 I3 I4 I5 I6 I7 I8].
    pose proof (wakeup_fd (set_waking n s) I3).
    unfold wakeup in *. destruct (_ <? _)%Z; cbn in *; split; cbn; auto; lia.
  - intros [= <-] [I1 I2 I0 I3 I4 I5 I6 I7 I8]. split; cbn; try done. lia.
Qed.

Lemma loop_inv_reachable s : reachable s -> inv s.
Proof. induction 1; [apply inv_initial|by eapply loop_inv_step]. Qed.

(** ** Pending functors run *)

(** The loop's thread gets from [s] to [s'] without waiting in the poller. *)
Definition runs (s s' : t) : Prop :=
  (exists n, run n s = Some s') /\ (inv s -> inv s') /\ waking s' = waking s /\
  posted (log s) `prefix_of` posted (log s').

Lemma run_add n m s s' : run n s = Some s' -> run (n + m) s = run m s'.
Proof.
  revert s. induction n as [|n IH]; intros s; cbn; [by intros [= ->]|].
  assert (forall o, o ≫= run n = Some s' -> o ≫= run (n + m) = run m s') as Hbind
    by (intros [s1|]; [apply IH|done]).
  destruct (pc s); try apply Hbind. case_match; [apply Hbind|done].
Qed.

#[local] Instance runs_preorder : PreOrder runs.
Proof.
  split.
  - intros s. split_and!; try done. by exists 0.
  - intros s1 s2 s3 ([n Hn] & I1 & W1 & P1) ([m Hm] & I2 & W2 & P2). split_and!; [|auto|congruence|by trans (posted (log s2))].
    exists (n + m). by rewrite (run_add n m s1 s2).
Qed.

Lemma waking_loop_step chs s s' :
  loop_step chs s = Some s' -> (0 <= wakeupFd_ s)%Z ->
  waking s' = waking s /\ posted (log s) `prefix_of` posted (log s').
Proof.
  intros Hs H0. unfold loop_step in Hs.
  assert (forall body s1, (0 <= wakeupFd_ s1)%Z ->
    waking (exec body s1) = waking s1 /\ posted (log s1) `prefix_of` posted (log (exec body s1))) as Hexec.
  { intros body s1 H1. destruct (ext_exec body s1 H1) as [(fs & _ & -> & _) _ _ _ _ _ _ _ ->].
    split; [done|by apply prefix_app_r]. }
  destruct (pc s) as [| | |[|[|body] l]| |[|f fs]|]; try done.
  all: try (injection Hs as <-; done).
  - by destruct (may_report chs s); [injection Hs as <-|].
  - injection Hs as <-. by apply (Hexec body (set_pc (Handling l) s)).
  - injection Hs as <-. destruct (Hexec f.2 (emit (Ran f) (set_pc (Calling fs) s)) H0) as [-> Hp].
    split; [done|]. cbn [emit log set_pc] in Hp. by rewrite posted_app, app_nil_r in Hp.
Qed.

Lemma runs_step chs s s' :
  inv s -> loop_step chs s = Some s' ->
  chs = (if pc s is Polling then [WakeupChannel] else []) ->
  (pc s = Polling -> (0 < wakeupFd_ s)%Z) -> runs s s'.
Proof.
  intros Hi Hs -> Hp. pose proof (waking_loop_step _ _ _ Hs (inv_fd s Hi)) as [Hw Hpre].
  split_and!; [|by intros; eapply inv_loop_step|done|done].
  exists 1. cbn. destruct (pc s); try (by rewrite Hs).
  rewrite (proj2 (Z.ltb_lt 0 (wakeupFd_ s))) by auto. by rewrite Hs.
Qed.
Lemma run_functors fs s :
  inv s -> pc s = Calling fs ->
  exists s', runs s s' /\ pc s' = AtTop /\ ran (log s') = ran (log s) ++ fs.
Proof.
  revert s. induction fs as [|f fs IH]; intros s Hi Hpc.
  - exists (set_pc AtTop (set_calling false s)). split_and!; [|done|by rewrite app_nil_r].
    apply (runs_step []); [done|unfold loop_step; by rewrite Hpc|by rewrite Hpc..].
  - set (s1 := exec f.2 (emit (Ran f) (set_pc (Calling fs) s))).
    assert (runs s s1) as H1
      by (apply (runs_step []); [done|unfold loop_step; by rewrite Hpc|by rewrite Hpc..]).
    assert (ext (emit (Ran f) (set_pc (Calling fs) s)) s1) as E1 by apply ext_exec, Hi.
    destruct (IH s1) as (s' & H2 & Htop & Hran); [by apply H1|by rewrite (ext_pc _ _ E1)|].
    exists s'. split_and!; [by trans s1|done|]. rewrite Hran, (ext_ran _ _ E1). cbn.
    by rewrite ran_app, <- app_assoc.
Qed.

Lemma run_handlers chs s :
  inv s -> pc s = Handling chs -> exists s', runs s s' /\ pc s' = Swapping.
Proof.
  revert s. induction chs as [|ch chs IH]; intros s Hi Hpc.
  - eexists. split; [apply (runs_step []); [done|unfold loop_step; by rewrite Hpc|by rewrite Hpc..]|done].
  - set (s1 := handleEvent ch (set_pc (Handling chs) s)).
    assert (runs s s1) as H1
      by (apply (runs_step []); [done|unfold loop_step; by rewrite Hpc|by rewrite Hpc..]).
    destruct (IH s1) as (s' & H2 & Hsw); [by apply H1| |by exists s'; split; [trans s1|]].
    unfold s1. destruct ch as [|body]; [done|]. cbn. by rewrite (ext_pc _ _ (ext_exec body (set_pc (Handling chs) s) (inv_fd s Hi))).
Qed.

(** Everything posted so far. *)
Definition served (s s' : t) : Prop := runs s s' /\ posted (log s) `prefix_of` ran (log s').

Lemma served_before s1 s2 s3 : runs s1 s2 -> served s2 s3 -> served s1 s3.
Proof. intros H1 [H2 Hp]. split; [by trans s2|]. trans (posted (log s2)); [apply H1|done]. Qed.

Lemma serve_swapping s : inv s -> pc s = Swapping -> exists s', served s s'.
Proof.
  intros Hi Hpc. set (s1 := set_pc (Calling (pendingFunctors_ s)) (set_pending [] s)).
  assert (runs s s1) as H1
    by (apply (runs_step []); [done|unfold loop_step; by rewrite Hpc|by rewrite Hpc..]).
  destruct (run_functors (pendingFunctors_ s) s1) as (s' & H2 & _ & Hran); [by apply H1|done|].
  exists s'. split; [by trans s1|]. rewrite Hran. cbn. pose proof (inv_queue s Hi) as Hq.
  rewrite Hpc in Hq. by rewrite <- Hq.
Qed.

Lemma serve_handling chs s : inv s -> pc s = Handling chs -> exists s', served s s'.
Proof.
  intros Hi Hpc. destruct (run_handlers chs s Hi Hpc) as (s1 & H1 & Hsw).
  destruct (serve_swapping s1) as (s' & H2); [by apply H1|done|]. exists s'. by eapply served_before.
Qed.

Lemma serve_polling s : inv s -> waking s = 0 -> ~ unwoken s -> pc s = Polling -> exists s', served s s'.
Proof.
  intros Hi Hw Ho Hpc. destruct (decide (pendingFunctors_ s = [])) as [Hp|Hp].
  - exists s. split; [done|]. rewrite <- (inv_queue s Hi), Hp, Hpc. cbn. by rewrite app_nil_r.
  - assert (0 < wakeupFd_ s)%Z as Hfd.
    { destruct (inv_wake s Hi Hp) as [|[|]]; [by rewrite Hpc|done|lia|].
      destruct (decide (wakeupFd_ s = 0%Z)); [|pose proof (inv_fd s Hi); lia].
      destruct Ho. by split_and!; rewrite ?Hpc. }
    set (s1 := set_pc (Handling [WakeupChannel]) (set_eventHandling true s)).
    assert (runs s s1) as H1.
    { apply (runs_step [WakeupChannel]); [done| |by rewrite Hpc|done]. unfold loop_step. rewrite Hpc.
      cbn. by rewrite (proj2 (Z.ltb_lt 0 (wakeupFd_ s))). }
    destruct (serve_handling [WakeupChannel] s1) as (s' & H2); [by apply H1|done|].
    exists s'. by eapply served_before.
Qed.

Lemma serve_top s : inv s -> waking s = 0 -> ~ unwoken s -> pc s = AtTop -> exists s', served s s'.
Proof.
  intros Hi Hw Ho Hpc. set (s1 := set_pc Polling s).
  assert (runs s s1) as H1.
  { apply (runs_step []); [done| |by rewrite Hpc..]. unfold loop_step. by rewrite Hpc, (inv_quit s Hi). }
  destruct (serve_polling s1) as (s' & H2); [by apply H1|done|by intros [? ?]; apply Ho; split; [rewrite Hpc|]|done|]. exists s'. by eapply served_before.
Qed.

Lemma serve s : inv s -> waking s = 0 -> ~ unwoken s -> exists s', served s s'.
Proof.
  intros Hi Hw Ho. destruct (pc s) as [| | |chs| |[|f fs]|] eqn:Hpc.
  - set (s1 := set_pc AtTop (set_quit false (set_looping true s))).
    assert (runs s s1) as H1
      by (apply (runs_step []); [done|unfold loop_step; by rewrite Hpc|by rewrite Hpc..]).
    destruct (serve_top s1) as (s' & H2); [by apply H1|done|by intros [? ?]; apply Ho; split; [rewrite Hpc|]|done|].
    exists s'. by eapply served_before.
  - by apply serve_top.
  - by apply serve_polling.
  - by eapply serve_handling.
  - by apply serve_swapping.
  - set (s1 := set_pc AtTop (set_calling false s)).
    assert (runs s s1) as H1
      by (apply (runs_step []); [done|unfold loop_step; by rewrite Hpc|by rewrite Hpc..]).
    destruct (serve_top s1) as (s' & H2); [by apply H1|done|by intros [? ?]; apply Ho; split; [rewrite Hpc|]|done|].
    exists s'. by eapply served_before.
  - destruct (run_functors (f :: fs) s Hi Hpc) as (s1 & H1 & Htop & Hran).
    destruct (serve_top s1) as (s' & H2); [by apply H1| | |done|].
    + destruct H1 as (_ & _ & Hw1 & _). congruence.
    + intros (_ & _ & _ & _ & Hp). destruct H1 as (_ & H1 & _). specialize (H1 Hi).
      pose proof (inv_queue s1 H1) as Hq. rewrite Hran, Htop, <- Hp in Hq. cbn in Hq.
      apply (f_equal length) in Hq. rewrite !length_app in Hq. cbn in Hq. lia.
    + exists s'. by eapply served_before.
  - by destruct (inv_stopped s Hi).
Qed.

(** ** The properties *)

(** C31.  Functors are run in the order in which queueInLoop took them, each
    exactly once: at every moment the functors that were posted are those that
    ran, then those doPendingFunctors holds, then those that are pending. *)
Theorem functors_fifo_once s :
  reachable s -> ran (log s) ++ swapped (pc s) ++ pendingFunctors_ s = posted (log s).
Proof. intros H%loop_inv_reachable. apply H. Qed.

(** C20.  No wakeup is lost but for functors posted by the loop's own thread before
    loop(): whenever the loop's thread is about to ask the poller and functors
    are pending, the eventfd is readable, or a thread that has just posted is
    still going to write to it, or every functor that was ever posted was posted
    by the loop's own thread before it called loop(), and all of them wait
    (queueInLoop then writes to nothing). *)
Theorem no_lost_wakeup s :
  reachable s -> pc s = Polling -> pendingFunctors_ s <> [] ->
  (0 < wakeupFd_ s)%Z \/ 0 < waking s \/
  (posted (log s) = early (log s) /\ pendingFunctors_ s = posted (log s)).
Proof. intros H%loop_inv_reachable Hpc Hp. by apply (inv_wake s H); [|rewrite Hpc]. Qed.

(** C1.  quit() stops no loop: it stores false into [quit_], so that, whoever
    calls it and however often, [loop()] never returns. *)
Theorem quit_never_stops s : reachable s -> quit_ s = false /\ pc s <> Stopped.
Proof. intros H%loop_inv_reachable. split; apply H. Qed.

(** C32.  Every functor that was posted runs: once the threads that posted have
    woken the loop up, the loop's thread gets by itself, without ever waiting
    in the poller, to a moment at which all functors posted so far have run.
    The one exception is [unwoken]: the eventfd is zero and every functor there
    ever was comes from the loop's own thread before loop(); the poller then
    sleeps on them. *)
Theorem pending_functors_run s :
  reachable s -> waking s = 0 -> ~ unwoken s ->
  exists n s', run n s = Some s' /\ posted (log s) `prefix_of` ran (log s').
Proof.
  intros Hr%loop_inv_reachable Hw Ho. destruct (serve s Hr Hw Ho) as (s' & ([n Hn] & _) & Hp). eauto.
Qed.

(** ** A loop *)

(** Another thread posts two functors, the first of which posts a third, while
    the loop polls; the first wakeup has been written. *)
Definition sample_events : list event :=
  [Loop []; Loop []; Post (1, [QueueInLoop 3 []]); Post (2, [Quit]); Wake; QuitElsewhere; Wake; Wake].

Definition exec_events (es : list event) (s : t) : option t :=
  foldl (fun o e => o ≫= step e) (Some s) es.

Lemma exec_events_reachable es s s' : reachable s -> exec_events es s = Some s' -> reachable s'.
Proof.
  unfold exec_events. revert s. induction es as [|e es IH]; cbn; intros s Hs; [by intros [= <-]|].
  destruct (step e s) as [s1|] eqn:E; [apply IH; by eapply reach_step|].
  assert (forall l, foldl (fun o e => o ≫= step e) None l = None) as -> by (by induction l). done.
Qed.

Definition sample_loop : t := default make (exec_events sample_events make).

Lemma sample_loop_reachable : reachable sample_loop.
Proof. apply (exec_events_reachable sample_events make); [apply reach_make|vm_compute; reflexivity]. Qed.

Lemma functors_fifo_once_witness :
  reachable sample_loop /\ ran (log sample_loop) ++ swapped (pc sample_loop) ++ pendingFunctors_ sample_loop = posted (log sample_loop) /\
  posted (log sample_loop) = [(1, [QueueInLoop 3 []]); (2, [Quit])].
Proof.
  split; [apply sample_loop_reachable|]. split; [exact (functors_fifo_once sample_loop sample_loop_reachable)|vm_compute; reflexivity].
Defined.

(** The exception of the two: the loop's thread posts before loop(), as a
    ThreadInitCallback may; the loop then waits in the poller with the functor
    pending and nobody is going to wake it. *)
Definition early_loop : t := default make (exec_events [Before [QueueInLoop 1 []]; Loop []; Loop []] make).

Example early_functor_sleeps :
  reachable early_loop /\ pc early_loop = Polling /\ waking early_loop = 0 /\ unwoken early_loop /\
  run 1 early_loop = None.
Proof.
  split_and!; try (vm_compute; reflexivity); [|by split_and!].
  apply (exec_events_reachable [Before [QueueInLoop 1 []]; Loop []; Loop []] make); [apply reach_make|vm_compute; reflexivity].
Qed.

Lemma no_lost_wakeup_witness :
  pc sample_loop = Polling /\
  ((0 < wakeupFd_ sample_loop)%Z \/ 0 < waking sample_loop \/
   (posted (log sample_loop) = early (log sample_loop) /\ pendingFunctors_ sample_loop = posted (log sample_loop))).
Proof. split; [reflexivity|]. apply (no_lost_wakeup sample_loop sample_loop_reachable); [reflexivity|discriminate]. Defined.

Lemma quit_never_stops_witness : reachable sample_loop /\ quit_ sample_loop = false /\ pc sample_loop <> Stopped.
Proof. split; [apply sample_loop_reachable|]. exact (quit_never_stops sample_loop sample_loop_reachable). Defined.

Lemma pending_functors_run_witness :
  exists n s', run n sample_loop = Some s' /\ posted (log sample_loop) `prefix_of` ran (log s').
Proof.
  apply (pending_functors_run sample_loop sample_loop_reachable eq_refl).
  intros (_ & H & _). vm_compute in H. discriminate H.
Defined.

End EventLoop.
