(* ===== verification/Poller.v ===== *)
(** * src/net/Poller.h, src/net/Poller.cc, src/net/EPollPoller.h,
      src/net/EPollPoller.cc, src/net/DefaultPoller.cc

    The poller of a loop: the table of channels, the state each channel is in
    with respect to epoll ([index_]), and the calls that keep the kernel's
    interest list in step.  Channels are objects at addresses; the kernel is an
    interface whose laws are those of epoll_ctl(2). *)

From S2P Require Import Prelude Channel.

(** ** The kernel's interest list *)

(** The address of a Channel. *)
Abbreviation loc := nat.

Inductive ctl := EPOLL_CTL_ADD | EPOLL_CTL_DEL | EPOLL_CTL_MOD.

#[export] Instance ctl_eq_dec : EqDecision ctl.
Proof. solve_decision. Defined.

Class Epoll (E : Type) : Type := {
  epoll_create : E;
  (** what is registered for a descriptor: the events and the user's pointer *)
  interest : E -> gmap Z (Z * loc);
  (** also whether the call succeeded *)
  epoll_ctl : ctl -> Z -> Z -> loc -> E -> E * bool;
  (** the kernel has a reason to refuse the call whatever the list holds:
      EBADF, EPERM, EINVAL, ENOMEM, ENOSPC *)
  refuses : ctl -> Z -> E -> Prop;
}.

(** EEXIST and ENOENT: the call does not fit what is registered. *)
Definition misfit (op : ctl) (registered : option (Z * loc)) : Prop :=
  match op with EPOLL_CTL_ADD => registered <> None | _ => registered = None end.

(** What a call that succeeds makes of the list. *)
Definition ctl_effect (op : ctl) (fd ev : Z) (l : loc) (e : gmap Z (Z * loc)) : gmap Z (Z * loc) :=
  match op with EPOLL_CTL_DEL => delete fd e | _ => <[fd := (ev, l)]> e end.

(** A call succeeds only where it fits, and then changes the list; a call that
    fails leaves the list alone, and either does not fit or is refused. *)
Class EpollLaws (E : Type) `{Epoll E} : Prop := {
  interest_create : interest epoll_create = ∅;
  ctl_success op fd ev l e e' : epoll_ctl op fd ev l e = (e', true) ->
    ~ misfit op (interest e !! fd) /\ interest e' = ctl_effect op fd ev l (interest e);
  ctl_failure op fd ev l e e' : epoll_ctl op fd ev l e = (e', false) ->
    (misfit op (interest e !! fd) \/ refuses op fd e) /\ interest e' = interest e;
}.

(** The interest list itself; it refuses what is no descriptor, like the -1 of a
    failed call of eventfd or timerfd_create. *)
Definition table_ctl (op : ctl) (fd ev : Z) (l : loc) (e : gmap Z (Z * loc)) : gmap Z (Z * loc) * bool :=
  if (fd <? 0)%Z then (e, false) else
  match op, e !! fd with
  | EPOLL_CTL_ADD, None | EPOLL_CTL_MOD, Some _ | EPOLL_CTL_DEL, Some _ => (ctl_effect op fd ev l e, true)
  | _, _ => (e, false)
  end.

#[export] Instance table_epoll : Epoll (gmap Z (Z * loc)) := {
  epoll_create := ∅;
  interest e := e;
  epoll_ctl := table_ctl;
  refuses _ fd _ := (fd < 0)%Z;
}.

#[export] Instance table_epoll_laws : EpollLaws (gmap Z (Z * loc)).
Proof.
  split; cbn; unfold table_ctl, misfit; [done|..]; intros op fd ev l e e'.
  - destruct (Z.ltb_spec fd 0); [done|]. destruct op, (e !! fd) eqn:?; intros [= <-]; naive_solver.
  - destruct (Z.ltb_spec fd 0); [intros [= <-]; auto|]. destruct op, (e !! fd) eqn:?; intros [= <-]; naive_solver.
Qed.

Module Poller.

Definition kNew : Z := -1.
Definition kAdded : Z := 1.
Definition kDeleted : Z := 2.
Definition kInitEventListSize : nat := 16.

Section poller.
Context {E : Type} `{Epoll E}.

Record t := mk {
  channels_ : gmap Z loc;
  epollfd_ : E;
  events_size : nat;               (** [events_.size()] *)
  heap : gmap loc Channel.t;       (** the Channel objects *)
  errors : list (ctl * Z);         (** calls of epoll_ctl that failed *)
}.

Definition make : t := mk ∅ epoll_create kInitEventListSize ∅ [].

(** DefaultPoller.cc: with RMUDUO_USE_POLL in the environment there is none. *)
Definition newDefaultPoller (getenv : option string) : option t :=
  match getenv with Some _ => None | None => Some make end.

Definition set_channels (v : gmap Z loc) (s : t) : t :=
  mk v (epollfd_ s) (events_size s) (heap s) (errors s).
Definition set_epoll (v : E) (s : t) : t :=
  mk (channels_ s) v (events_size s) (heap s) (errors s).
Definition set_size (v : nat) (s : t) : t :=
  mk (channels_ s) (epollfd_ s) v (heap s) (errors s).
Definition store (l : loc) (ch : Channel.t) (s : t) : t :=
  mk (channels_ s) (epollfd_ s) (events_size s) (<[l := ch]> (heap s)) (errors s).
Definition fail (op : ctl) (fd : Z) (s : t) : t :=
  mk (channels_ s) (epollfd_ s) (events_size s) (heap s) (errors s ++ [(op, fd)]).

Definition hasChannel (l : loc) (s : t) : option bool :=
  ch ← heap s !! l;
  Some (bool_decide (channels_ s !! Channel.fd_ ch = Some l)).

Definition update (operation : ctl) (l : loc) (s : t) : option t :=
  ch ← heap s !! l;
  let fd := Channel.fd_ ch in
  let (e, ok) := epoll_ctl operation fd (Channel.events_ ch) l (epollfd_ s) in
  Some (if ok then set_epoll e s else fail operation fd (set_epoll e s)).

(** [channel->set_index(idx)] *)
Definition set_index (idx : Z) (l : loc) (s : t) : option t :=
  ch ← heap s !! l;
  Some (store l (Channel.set_index idx ch) s).

Definition updateChannel (l : loc) (s : t) : option t :=
  ch ← heap s !! l;
  let index := Channel.index_ ch in
  let fd := Channel.fd_ ch in
  if (index =? kNew)%Z || (index =? kDeleted)%Z then
    let s := if (index =? kNew)%Z then set_channels (<[fd := l]> (channels_ s)) s else s in
    s ← set_index kAdded l s;
    update EPOLL_CTL_ADD l s
  else if Channel.isNonEvent ch then
    s ← update EPOLL_CTL_DEL l s;
    set_index kDeleted l s
  else update EPOLL_CTL_MOD l s.

Definition removeChannel (l : loc) (s : t) : option t :=
  ch ← heap s !! l;
  let s := set_channels (delete (Channel.fd_ ch) (channels_ s)) s in
  s ← (if (Channel.index_ ch =? kAdded)%Z then update EPOLL_CTL_DEL l s else Some s);
  set_index kNew l s.

Definition fillActivateChannels (events : list (Z * loc)) (s : t) : option t :=
  foldl (fun o ev => s ← o; ch ← heap s !! ev.2; Some (store ev.2 (Channel.set_revents ev.1 ch) s))
        (Some s) events.

(** [events]: what epoll_wait wrote to [events_]; [None] when it failed. *)
Definition poll (events : option (list (Z * loc))) (s : t) : option (t * list loc) :=
  match events with
  | Some (ev :: evs) =>
      let numEvents := length (ev :: evs) in
      s ← fillActivateChannels (ev :: evs) s;
      Some (if numEvents =? events_size s then set_size (events_size s * 2) s else s, (ev :: evs).*2)
  | Some [] => Some (s, [])
  | None => Some (s, [])
  end.

(** ** What channels do with the poller *)

(** enableReading and the like: change the interest, then [update()]. *)
Definition change (f : Channel.t -> Channel.t) (l : loc) (s : t) : option t :=
  ch ← heap s !! l;
  updateChannel l (store l (f ch) s).

Definition remove (l : loc) (s : t) : option t :=
  ch ← heap s !! l;
  removeChannel l (store l (Channel.remove ch) s).

Inductive event :=
| Construct (l : loc) (fd : Z)
| EnableReading (l : loc) | DisableReading (l : loc)
| EnableWriting (l : loc) | DisableWriting (l : loc)
| DisableAll (l : loc)
| Remove (l : loc)
| Destruct (l : loc)
| Poll (events : option (list (Z * loc))).

(** What epoll_wait(2) may answer: registered channels, each once, as many as
    fit, with events that were asked for, or errors and hang-ups. *)
Definition may_report (events : list (Z * loc)) (s : t) : Prop :=
  length events <= events_size s /\ NoDup events.*2 /\
  forall r l, (r, l) ∈ events -> exists fd ev,
    interest (epollfd_ s) !! fd = Some (ev, l) /\
    Z.land r (Z.lnot (Z.lor ev (Z.lor EPOLLERR EPOLLHUP))) = 0%Z.

(** The owner of a channel constructs it for a descriptor that no other channel
    has, and removes it from the loop before it goes. *)
Definition enabled (e : event) (s : t) : Prop :=
  match e with
  | Construct l fd => heap s !! l = None /\ forall l' ch, heap s !! l' = Some ch -> Channel.fd_ ch <> fd
  | Destruct l => exists ch, heap s !! l = Some ch /\ Channel.index_ ch = kNew
  | Poll (Some events) => may_report events s
  | Poll None => True
  | EnableReading l | DisableReading l | EnableWriting l | DisableWriting l | DisableAll l | Remove l =>
      is_Some (heap s !! l)
  end.

Definition step (e : event) (s : t) : option t :=
  match e with
  | Construct l fd => Some (store l (Channel.make fd) s)
  | EnableReading l => change Channel.enableReading l s
  | DisableReading l => change Channel.disableReading l s
  | EnableWriting l => change Channel.enableWriting l s
  | DisableWriting l => change Channel.disableWriting l s
  | DisableAll l => change Channel.disableAll l s
  | Remove l => remove l s
  | Destruct l => Some (mk (channels_ s) (epollfd_ s) (events_size s) (delete l (heap s)) (errors s))
  | Poll events => fst <$> poll events s
  end.

Inductive reachable : t -> Prop :=
| reach_make : reachable make
| reach_step e s s' : reachable s -> enabled e s -> step e s = Some s' -> reachable s'.

End poller.
End Poller.

Arguments Poller.t E : clear implicits.
