(* ===== verification/PollerFacts.v ===== *)
(** * Properties of the poller

    Where no call of epoll_ctl has failed, the kernel's interest list is exactly
    the image of the added channels; the calls that fail there are those the
    kernel refuses for reasons of its own; whatever epoll reports is then a live
    channel. *)

From S2P Require Import Prelude Channel Poller.
Import Poller.

Section facts.
Context {E : Type} `{EpollLaws E}.
#[local] Abbreviation t := (Poller.t E).
Implicit Types s : t.

(** ** The invariant *)

(** The descriptors for which a call has failed: the code only logs it, and the
    kernel may watch something else there from then on. *)
Definition failed s : list Z := (errors s).*2.

Record ok s : Prop := {
  ok_size : exists k, events_size s = kInitEventListSize * 2 ^ k;
  ok_index l c : heap s !! l = Some c -> Channel.index_ c ∈ [kNew; kAdded; kDeleted];
  ok_fds l1 l2 c1 c2 : heap s !! l1 = Some c1 -> heap s !! l2 = Some c2 ->
    Channel.fd_ c1 = Channel.fd_ c2 -> l1 = l2;
  (** the table holds the channels that are not new *)
  ok_channels fd l : channels_ s !! fd = Some l <->
    exists c, heap s !! l = Some c /\ Channel.fd_ c = fd /\ Channel.index_ c <> kNew;
  (** the kernel watches the added ones, with their events *)
  ok_interest fd ev l : fd ∉ failed s -> interest (epollfd_ s) !! fd = Some (ev, l) <->
    exists c, heap s !! l = Some c /\ Channel.fd_ c = fd /\ Channel.index_ c = kAdded /\ Channel.events_ c = ev;
}.

Lemma poller_ok_make : ok make.
Proof.
  split; cbn; try done.
  - by exists 0.
  - intros. rewrite lookup_empty. split; [done|]. by intros (c & ? & _).
  - intros fd ev l _. rewrite interest_create, lookup_empty. split; [done|]. by intros (c & ? & _).
Qed.

(** All operations on one channel change the tables like this, at its
    descriptor [fd] only. *)
Record moves (l : loc) (fd : Z) (c' : Channel.t) s s' : Prop := {
  moves_fd : Channel.fd_ c' = fd;
  moves_index : Channel.index_ c' ∈ [kNew; kAdded; kDeleted];
  moves_errors : exists new, errors s' = errors s ++ new /\
    forall op fd', (op, fd') ∈ new -> fd' = fd /\ (fd ∈ failed s \/ refuses op fd (epollfd_ s));
  moves_size : events_size s' = events_size s;
  moves_heap : heap s' = <[l := c']> (heap s);
  moves_channels : channels_ s' !! fd = if decide (Channel.index_ c' = kNew) then None else Some l;
  moves_interest : fd ∉ failed s' -> interest (epollfd_ s') !! fd =
    if decide (Channel.index_ c' = kAdded) then Some (Channel.events_ c', l) else None;
  moves_channels_ne fd' : fd' <> fd -> channels_ s' !! fd' = channels_ s !! fd';
  moves_interest_ne fd' : fd' <> fd -> interest (epollfd_ s') !! fd' = interest (epollfd_ s) !! fd';
}.

(** Which channels of [s'] have another descriptor. *)
Lemma moves_other l fd c c' s s' l' d :
  ok s -> heap s !! l = Some c -> Channel.fd_ c = fd -> moves l fd c' s s' ->
  heap s' !! l' = Some d -> (l' = l /\ d = c') \/ (l' <> l /\ heap s !! l' = Some d /\ Channel.fd_ d <> fd).
Proof.
  intros Hok Hl <- M. rewrite (moves_heap _ _ _ _ _ M), lookup_insert_Some.
  intros [[-> ->]|[Hne Hd]]; [by left|]. right. split_and!; [done..|]. intros Hfd. by eapply Hne, (ok_fds s Hok).
Qed.

Lemma ok_moves l fd c c' s s' :
  ok s -> heap s !! l = Some c -> Channel.fd_ c = fd -> moves l fd c' s s' -> ok s'.
Proof.
  intros Hok Hl Hfd M. pose proof (moves_other l fd c c' s s') as Ho.
  pose proof M as [Mfd Mi Me Ms Mh Mc Mk Mcn Mkn]. pose proof Hok as [H2 H3 H4 H5 H6].
  assert (forall l' d, l' <> l -> heap s !! l' = Some d -> heap s' !! l' = Some d) as Hold
    by (intros l' d Hne Hd; by rewrite Mh, lookup_insert_ne).
  assert (heap s' !! l = Some c') as Hnew by (by rewrite Mh, lookup_insert_eq).
  split.
  - by rewrite Ms.
  - intros l' d Hd. destruct (Ho l' d Hok Hl Hfd M Hd) as [[-> ->]|(_ & ? & _)]; [done|by eapply H3].
  - intros l1 l2 c1 c2 E1 E2 Heq.
    destruct (Ho l1 c1 Hok Hl Hfd M E1) as [[-> ->]|(? & ? & ?)],
             (Ho l2 c2 Hok Hl Hfd M E2) as [[-> ->]|(? & ? & ?)]; [done|congruence..|by eapply H4].
  - intros fd' l'. destruct (decide (fd' = fd)) as [->|Hne].
    + rewrite Mc. split.
      * destruct (decide (Channel.index_ c' = kNew)); [done|]. intros [= <-]. by exists c'.
      * intros (d & Hd & Hdf & Hdi). destruct (Ho l' d Hok Hl Hfd M Hd) as [[-> ->]|(_ & _ & ?)]; [|done].
        by rewrite decide_False.
    + rewrite Mcn by done. rewrite H5. split; intros (d & Hd & Hdf & Hdi).
      * exists d. split_and!; [|done..]. apply Hold; [|done]. intros ->. congruence.
      * destruct (Ho l' d Hok Hl Hfd M Hd) as [[-> ->]|(_ & ? & _)]; [congruence|]. by exists d.
  - intros fd' ev l' Hf. destruct (decide (fd' = fd)) as [->|Hne].
    + rewrite Mk by done. split.
      * destruct (decide (Channel.index_ c' = kAdded)); [|done]. intros [= <- <-]. by exists c'.
      * intros (d & Hd & Hdf & Hdi & Hev). destruct (Ho l' d Hok Hl Hfd M Hd) as [[-> ->]|(_ & _ & ?)]; [|done].
        by rewrite decide_True, Hev.
    + assert (fd' ∉ failed s) as Hf'.
      { unfold failed in *. destruct Me as (new & Ee & _). rewrite Ee, fmap_app in Hf. set_solver. }
      rewrite Mkn by done. rewrite H6 by done. split; intros (d & Hd & Hdf & Hdi & Hev).
      * exists d. split_and!; [|done..]. apply Hold; [|done]. intros ->. congruence.
      * destruct (Ho l' d Hok Hl Hfd M Hd) as [[-> ->]|(_ & ? & _)]; [congruence|]. by exists d.
Qed.

(** ** The tables of one channel *)

Lemma channels_at s l c :
  ok s -> heap s !! l = Some c ->
  channels_ s !! Channel.fd_ c = if decide (Channel.index_ c = kNew) then None else Some l.
Proof.
  intros Hok Hl. case_decide as Hi.
  - destruct (channels_ s !! Channel.fd_ c) as [l'|] eqn:Hc; [|done].
    apply (ok_channels s Hok) in Hc as (d & Hd & Hf & Hn). assert (l' = l) as -> by (by eapply (ok_fds s Hok)).
    congruence.
  - apply (ok_channels s Hok). by exists c.
Qed.

Lemma interest_at s l c :
  ok s -> heap s !! l = Some c -> Channel.fd_ c ∉ failed s ->
  interest (epollfd_ s) !! Channel.fd_ c =
  if decide (Channel.index_ c = kAdded) then Some (Channel.events_ c, l) else None.
Proof.
  intros Hok Hl Hf. case_decide as Hi.
  - apply (ok_interest s Hok); [done|]. by exists c.
  - destruct (interest (epollfd_ s) !! Channel.fd_ c) as [[ev l']|] eqn:Hc; [|done].
    apply (ok_interest s Hok) in Hc as (d & Hd & ? & Hn & _); [|done].
    assert (l' = l) as -> by (by eapply (ok_fds s Hok)). congruence.
Qed.

(** ** Updating and removing *)

(** Changes of a channel that keep its descriptor and its index. *)
Definition keeps (f : Channel.t -> Channel.t) : Prop :=
  forall c, Channel.fd_ (f c) = Channel.fd_ c /\ Channel.index_ (f c) = Channel.index_ c.

(** One call of epoll_ctl that fits what the kernel holds where no call failed. *)
Record called (op : ctl) (fd ev : Z) (l : loc) s s' : Prop := {
  called_channels : channels_ s' = channels_ s;
  called_heap : heap s' = heap s;
  called_size : events_size s' = events_size s;
  called_errors : exists new, errors s' = errors s ++ new /\
    forall op' fd', (op', fd') ∈ new -> fd' = fd /\ (fd ∈ failed s \/ refuses op' fd (epollfd_ s));
  called_interest : fd ∉ failed s' ->
    interest (epollfd_ s') !! fd = match op with EPOLL_CTL_DEL => None | _ => Some (ev, l) end;
  called_interest_ne fd' : fd' <> fd -> interest (epollfd_ s') !! fd' = interest (epollfd_ s) !! fd';
}.

Lemma update_called op l c s :
  heap s !! l = Some c -> (Channel.fd_ c ∉ failed s -> ~ misfit op (interest (epollfd_ s) !! Channel.fd_ c)) ->
  exists s', update op l s = Some s' /\ called op (Channel.fd_ c) (Channel.events_ c) l s s'.
Proof.
  intros Hl Hfit. unfold update. rewrite Hl. cbn [mbind option_bind].
  destruct (epoll_ctl op (Channel.fd_ c) (Channel.events_ c) l (epollfd_ s)) as [e [|]] eqn:Ec; eexists; (split; [done|]).
  - apply ctl_success in Ec as [_ Ei]. split; cbn; try done.
    + exists []. rewrite app_nil_r. split; [done|]. intros ? ? []%elem_of_nil.
    + intros _. rewrite Ei. destruct op; cbn; by rewrite ?lookup_insert_eq, ?lookup_delete_eq.
    + intros fd' Hne. rewrite Ei. destruct op; cbn; by rewrite ?lookup_insert_ne, ?lookup_delete_ne.
  - apply ctl_failure in Ec as [Hwhy Ei]. split; cbn; try done.
    + exists [(op, Channel.fd_ c)]. split; [done|]. intros op' fd' [= -> ->]%list_elem_of_singleton. split; [done|].
      destruct (decide (Channel.fd_ c ∈ failed s)) as [|Hf]; [by left|right]. destruct Hwhy; [by destruct Hfit|done].
    + intros Hf. destruct Hf. unfold failed. cbn. rewrite fmap_app. set_solver.
    + intros fd' _. by rewrite Ei.
Qed.

(** What is left to show of [moves] once the kernel was called for a channel
    that becomes [c']. *)
Lemma called_moves op fd l c' s s1 s2 s' :
  called op fd (Channel.events_ c') l s1 s2 -> Channel.fd_ c' = fd ->
  epollfd_ s1 = epollfd_ s -> errors s1 = errors s -> events_size s1 = events_size s ->
  epollfd_ s' = epollfd_ s2 -> errors s' = errors s2 -> events_size s' = events_size s2 ->
  heap s' = <[l := c']> (heap s) -> Channel.index_ c' ∈ [kNew; kAdded; kDeleted] ->
  channels_ s' !! fd = (if decide (Channel.index_ c' = kNew) then None else Some l) ->
  (forall fd', fd' <> fd -> channels_ s' !! fd' = channels_ s !! fd') ->
  Channel.index_ c' = kAdded <-> op <> EPOLL_CTL_DEL ->
  moves l fd c' s s'.
Proof.
  intros [Cc Ch Cs Ce Ci Cn] Hfd E1 E2 E3 E4 E5 E6 Hh Hi Hc Hcn Hop.
  split; try done; unfold failed in *; rewrite ?E4, ?E5.
  - rewrite E1, E2 in Ce. exact Ce.
  - congruence.
  - intros Hf. rewrite Ci by done. destruct op, (decide (Channel.index_ c' = kAdded)); naive_solver.
  - intros fd' Hne. rewrite Cn by done. by rewrite E1.
Qed.

(** The three calls that updateChannel makes. *)
Lemma change_moves f l c s :
  ok s -> heap s !! l = Some c -> keeps f ->
  exists s' c', change f l s = Some s' /\ moves l (Channel.fd_ c) c' s s' /\ Channel.events_ c' = Channel.events_ (f c) /\
    Channel.index_ c' <> kNew /\ (Channel.isNonEvent (f c) = false -> Channel.index_ c' = kAdded).
Proof.
  intros Hok Hl Hk. destruct (Hk c) as [Hfd Hidx].
  pose proof (channels_at s l c Hok Hl) as Hc. pose proof (interest_at s l c Hok Hl) as Hi.
  unfold change, updateChannel. rewrite Hl. cbn [mbind option_bind store heap].
  rewrite lookup_insert_eq. cbn [mbind option_bind]. rewrite Hidx, Hfd.
  pose proof (ok_index s Hok l c Hl) as Hin.
  rewrite !elem_of_cons, elem_of_nil in Hin. destruct Hin as [Hx|[Hx|[Hx|[]]]]; rewrite Hx in *; cbn in Hc, Hi.
  1,3: (unfold set_index; cbn; rewrite lookup_insert_eq; cbn [mbind option_bind];
    edestruct (update_called EPOLL_CTL_ADD l (Channel.set_index kAdded (f c))) as (s2 & -> & Hcl);
      [by apply lookup_insert_eq|cbn; rewrite Hfd; intros Hf; rewrite Hi by done; by cbn; auto|];
    exists s2, (Channel.set_index kAdded (f c)); (split; [done|]; split; [|done]);
    pose proof (called_channels _ _ _ _ _ _ Hcl) as Hcc; pose proof (called_heap _ _ _ _ _ _ Hcl) as Hch; cbn in Hcc, Hch, Hcl;
    rewrite Hfd in Hcl; eapply (called_moves _ _ _ _ s _ s2 s2); [exact Hcl|done..| | | | |];
    [by rewrite Hch, insert_insert_eq|cbn; set_solver|by rewrite Hcc, ?lookup_insert_eq|
     intros; by rewrite Hcc, ?lookup_insert_ne|done]).
  cbn. destruct (Channel.isNonEvent (f c)) eqn:Hnon.
  - edestruct (update_called EPOLL_CTL_DEL l (f c)) as (s2 & -> & Hcl);
      [by apply lookup_insert_eq|cbn; rewrite Hfd; intros Hf; rewrite Hi by done; by cbn|].
    pose proof (called_channels _ _ _ _ _ _ Hcl) as Hcc. pose proof (called_heap _ _ _ _ _ _ Hcl) as Hch. cbn in Hcc, Hch.
    cbn [mbind option_bind]. unfold set_index. rewrite Hch, lookup_insert_eq. cbn [mbind option_bind].
    eexists _, (Channel.set_index kDeleted (f c)). split; [done|]. split; [|done]. rewrite Hfd in Hcl.
    eapply (called_moves EPOLL_CTL_DEL _ _ _ s _ s2); [exact Hcl|done..| | | | |]; cbn;
      [by rewrite Hch, insert_insert_eq|set_solver|by rewrite Hcc|intros; by rewrite Hcc|done].
  - edestruct (update_called EPOLL_CTL_MOD l (f c)) as (s2 & -> & Hcl);
      [by apply lookup_insert_eq|cbn; rewrite Hfd; intros Hf; rewrite Hi by done; by cbn|].
    pose proof (called_channels _ _ _ _ _ _ Hcl) as Hcc. pose proof (called_heap _ _ _ _ _ _ Hcl) as Hch. cbn in Hcc, Hch.
    exists s2, (f c). split; [done|]. split; [|rewrite Hidx; by split_and!]. rewrite Hfd in Hcl.
    eapply (called_moves EPOLL_CTL_MOD _ _ _ s _ s2 s2); [exact Hcl|done..| | | | |]; rewrite ?Hidx;
      [done|set_solver|by rewrite Hcc|intros; by rewrite Hcc|done].
Qed.

Lemma remove_moves l c s :
  ok s -> heap s !! l = Some c ->
  exists s' c', remove l s = Some s' /\ moves l (Channel.fd_ c) c' s s' /\ Channel.index_ c' = kNew.
Proof.
  intros Hok Hl. pose proof (interest_at s l c Hok Hl) as Hi.
  unfold remove, removeChannel. rewrite Hl. cbn [mbind option_bind store heap].
  rewrite lookup_insert_eq. cbn. destruct (Z.eqb_spec (Channel.index_ c) kAdded) as [Hx|Hx].
  - rewrite Hx in Hi. cbn in Hi.
    edestruct (update_called EPOLL_CTL_DEL l (Channel.remove c)) as (s2 & -> & Hcl);
      [by apply lookup_insert_eq|cbn; intros Hf; rewrite Hi by done; by cbn|].
    pose proof (called_channels _ _ _ _ _ _ Hcl) as Hcc. pose proof (called_heap _ _ _ _ _ _ Hcl) as Hch. cbn in Hcc, Hch.
    cbn [mbind option_bind]. unfold set_index. rewrite Hch, lookup_insert_eq. cbn [mbind option_bind].
    eexists _, (Channel.set_index kNew (Channel.remove c)). split; [done|]. split; [|done].
    eapply (called_moves EPOLL_CTL_DEL _ _ _ s _ s2); [exact Hcl|done..| | | | |]; cbn;
      [by rewrite Hch, insert_insert_eq|set_solver|by rewrite Hcc, lookup_delete_eq|intros; by rewrite Hcc, lookup_delete_ne|done].
  - rewrite decide_False in Hi by done. unfold set_index. cbn. rewrite lookup_insert_eq. cbn.
    eexists _, (Channel.set_index kNew (Channel.remove c)). split; [done|]. split; [|done].
    split; cbn; try done; try (by rewrite lookup_delete_eq).
    + set_solver.
    + exists []. rewrite app_nil_r. split; [done|]. intros ? ? []%elem_of_nil.
    + by rewrite insert_insert_eq.
    + intros. by rewrite lookup_delete_ne.
Qed.

(** ** The other events *)

Lemma ok_construct l fd s :
  ok s -> heap s !! l = None -> (forall l' ch, heap s !! l' = Some ch -> Channel.fd_ ch <> fd) ->
  ok (store l (Channel.make fd) s).
Proof.
  intros [H2 H3 H4 H5 H6] Hl Hfd. split; cbn; try done.
  - intros l' c [[_ <-]|[_ Hc]]%lookup_insert_Some; [set_solver|by eapply H3].
  - intros l1 l2 c1 c2 [[<- <-]|[? E1]]%lookup_insert_Some [[<- <-]|[? E2]]%lookup_insert_Some Heq;
      [done|by destruct (Hfd l2 c2)|by destruct (Hfd l1 c1)|by eapply H4].
  - intros fd' l'. rewrite H5. split; intros (c & Hc & ? & Hn); exists c.
    + rewrite lookup_insert_ne by (intros ->; congruence). done.
    + apply lookup_insert_Some in Hc as [[_ <-]|[_ Hc]]; [by destruct Hn|done].
  - intros fd' ev l' Hf. rewrite H6 by done. split; intros (c & Hc & ? & Hn & ?); exists c.
    + rewrite lookup_insert_ne by (intros ->; congruence). done.
    + apply lookup_insert_Some in Hc as [[_ <-]|[_ Hc]]; [done|done].
Qed.

Lemma ok_destruct l c s :
  ok s -> heap s !! l = Some c -> Channel.index_ c = kNew ->
  ok (mk (channels_ s) (epollfd_ s) (events_size s) (delete l (heap s)) (errors s)).
Proof.
  intros [H2 H3 H4 H5 H6] Hl Hn. split; cbn; try done.
  - intros l' d [_ Hd]%lookup_delete_Some. by eapply H3.
  - intros l1 l2 c1 c2 [_ E1]%lookup_delete_Some [_ E2]%lookup_delete_Some. by eapply H4.
  - intros fd l'. rewrite H5. split; intros (d & Hd & ? & Hi); exists d.
    + rewrite lookup_delete_ne; [done|]. intros ->. congruence.
    + by apply lookup_delete_Some in Hd as [_ Hd].
  - intros fd ev l' Hf. rewrite H6 by done. split; intros (d & Hd & ? & Hi & ?); exists d.
    + rewrite lookup_delete_ne; [done|]. intros ->. assert (d = c) as -> by congruence. by rewrite Hn in Hi.
    + by apply lookup_delete_Some in Hd as [_ Hd].
Qed.

Lemma ok_set_revents l c r s :
  ok s -> heap s !! l = Some c -> ok (store l (Channel.set_revents r c) s).
Proof.
  intros Hok Hl. apply (ok_moves l (Channel.fd_ c) c (Channel.set_revents r c) s); [done|done|done|].
  split; cbn; try done; [by eapply ok_index| |by apply (channels_at s l c)|by apply (interest_at s l c)].
  exists []. rewrite app_nil_r. split; [done|]. intros ? ? []%elem_of_nil.
Qed.

(** ** poll *)

Definition fill_step (o : option t) (ev : Z * loc) : option t :=
  s ← o; ch ← heap s !! ev.2; Some (store ev.2 (Channel.set_revents ev.1 ch) s).

Lemma fill_none events : foldl fill_step None events = None.
Proof. by induction events. Qed.

Lemma fill_spec events s s' :
  fillActivateChannels events s = Some s' -> ok s -> NoDup events.*2 ->
  ok s' /\ epollfd_ s' = epollfd_ s /\ errors s' = errors s /\ events_size s' = events_size s /\
  (forall l, l ∉ events.*2 -> heap s' !! l = heap s !! l) /\
  (forall r l, (r, l) ∈ events -> exists c, heap s !! l = Some c /\ heap s' !! l = Some (Channel.set_revents r c)).
Proof.
  change (fillActivateChannels events s) with (foldl fill_step (Some s) events).
  revert s. induction events as [|[r l] events IH]; intros s Hs Hok Hnd; cbn [foldl] in Hs.
  - injection Hs as <-. split_and!; try done. intros r l []%elem_of_nil.
  - cbn in Hnd. apply NoDup_cons in Hnd as [Hl Hnd]. unfold fill_step at 2 in Hs. cbn in Hs.
    destruct (heap s !! l) as [c|] eqn:Hc; cbn in Hs; [|by rewrite fill_none in Hs].
    set (s1 := store l (Channel.set_revents r c) s) in *.
    assert (forall l', l' <> l -> heap s1 !! l' = heap s !! l') as Hs1 by (intros; by apply lookup_insert_ne).
    destruct (IH s1 Hs) as (Hok' & He & Her & Hsz & Hother & Hev); [by apply ok_set_revents|done|].
    split_and!; try done.
    + intros l' Hn. cbn in Hn. apply not_elem_of_cons in Hn as [Hne Hn]. rewrite Hother by done. by apply Hs1.
    + intros r' l' [[= -> ->]|Hin']%elem_of_cons.
      * exists c. split; [done|]. rewrite Hother by done. apply lookup_insert_eq.
      * destruct (Hev r' l' Hin') as (c' & Hc' & Hc''). exists c'. split; [|done].
        rewrite <- Hs1; [done|]. intros ->. apply Hl. by apply (list_elem_of_fmap_2' snd _ (r', l)).
Qed.

(** It follows no pointer to a channel that is gone when all the reported ones
    live. *)
Lemma fill_some events s :
  (forall r l, (r, l) ∈ events -> is_Some (heap s !! l)) -> is_Some (fillActivateChannels events s).
Proof.
  change (fillActivateChannels events s) with (foldl fill_step (Some s) events).
  revert s. induction events as [|[r l] events IH]; intros s Hin; cbn [foldl]; [eauto|].
  destruct (Hin r l) as [c Hc]; [by left|]. unfold fill_step at 2. cbn. rewrite Hc. cbn. apply IH.
  intros r' l' Hin'. cbn. apply lookup_insert_is_Some'. right. apply (Hin r'). by right.
Qed.

Lemma ok_set_size s : ok s -> ok (set_size (events_size s * 2) s).
Proof.
  intros [[k H2] H3 H4 H5 H6]. split; try done.
  exists (S k). change (events_size s * 2 = kInitEventListSize * 2 ^ S k). rewrite H2, Nat.pow_succ_r'. lia.
Qed.

(** No call has failed for a descriptor that is reported. *)
Definition healthy (events : list (Z * loc)) s : Prop :=
  forall r l fd ev, (r, l) ∈ events -> interest (epollfd_ s) !! fd = Some (ev, l) -> fd ∉ failed s.

Lemma reported_registered events s r l :
  ok s -> may_report events s -> healthy events s -> (r, l) ∈ events ->
  exists c, heap s !! l = Some c /\ Channel.index_ c = kAdded /\
    Z.land r (Z.lnot (Z.lor (Channel.events_ c) (Z.lor EPOLLERR EPOLLHUP))) = 0%Z.
Proof.
  intros Hok (_ & _ & Hr) Hh Hin. destruct (Hr r l Hin) as (fd & ev & Hi & Hb). pose proof (Hh r l fd ev Hin Hi) as Hf.
  apply (ok_interest s Hok) in Hi as (c & Hc & _ & Ha & <-); [|done]. by exists c.
Qed.

Lemma poll_spec events s s' ls :
  poll (Some events) s = Some (s', ls) -> ok s -> may_report events s ->
  ls = events.*2 /\ ok s' /\ errors s' = errors s /\ length events < events_size s' /\
  forall r l, (r, l) ∈ events -> exists c, heap s !! l = Some c /\ heap s' !! l = Some (Channel.set_revents r c).
Proof.
  intros Hs Hok Hr. pose proof Hr as (Hlen & Hnd & _). destruct (ok_size s Hok) as [k Hk].
  assert (0 < events_size s) as Hpos by (rewrite Hk; apply Nat.mul_pos_pos; [unfold kInitEventListSize; lia|apply Nat.neq_0_lt_0, Nat.pow_nonzero; lia]).
  destruct events as [|ev events]; cbn [poll] in Hs.
  { injection Hs as <- <-. split_and!; try done. intros r l []%elem_of_nil. }
  destruct (fillActivateChannels (ev :: events) s) as [s1|] eqn:Hf; [|done]. cbn [mbind option_bind] in Hs.
  destruct (fill_spec (ev :: events) s s1 Hf Hok Hnd) as (Hok' & _ & Her & Hsz & _ & Hev).
  destruct (Nat.eqb_spec (length (ev :: events)) (events_size s1)) as [Heq|Hne]; injection Hs as <- <-.
  - split_and!; [done|by apply ok_set_size|done| |done].
    change (length (ev :: events) < events_size s1 * 2). lia.
  - split_and!; [done..| |done]. change (length (ev :: events) < events_size s1). lia.
Qed.

Lemma poll_some events s :
  ok s -> may_report events s -> healthy events s -> is_Some (poll (Some events) s).
Proof.
  intros Hok Hr Hh. destruct events as [|ev events]; cbn [poll]; [eauto|].
  destruct (fill_some (ev :: events) s) as [s1 ->]; [|cbn; eauto].
  intros r l Hin. destruct (reported_registered _ _ r l Hok Hr Hh Hin) as (c & Hc & _). by exists c.
Qed.

Lemma keeps_all :
  keeps Channel.enableReading /\ keeps Channel.disableReading /\ keeps Channel.enableWriting /\
  keeps Channel.disableWriting /\ keeps Channel.disableAll.
Proof. repeat split. Qed.

(** The calls of a step that fail are for descriptors that failed before, or
    are refused. *)
Definition excused s s' : Prop :=
  exists new, errors s' = errors s ++ new /\
    forall op fd, (op, fd) ∈ new -> fd ∈ failed s \/ refuses op fd (epollfd_ s).

Lemma excused_same s s' : errors s' = errors s -> excused s s'.
Proof. intros Hs. exists []. rewrite app_nil_r. split; [done|]. intros ? ? []%elem_of_nil. Qed.

Lemma excused_moves l fd c' s s' : moves l fd c' s s' -> excused s s'.
Proof.
  intros M. destruct (moves_errors _ _ _ _ _ M) as (new & He & Hnew). exists new. split; [done|].
  intros op fd' Hin. by destruct (Hnew op fd' Hin) as [-> ?].
Qed.

(** An enabled event keeps the invariant. *)
Lemma poller_ok_step e s s' : ok s -> enabled e s -> step e s = Some s' -> ok s' /\ excused s s'.
Proof.
  intros Hok He Hs. destruct keeps_all as (K1 & K2 & K3 & K4 & K5).
  assert (forall f l, keeps f -> is_Some (heap s !! l) -> change f l s = Some s' -> ok s' /\ excused s s') as Hchange.
  { intros f l Hk [c Hc] Hs'. destruct (change_moves f l c s Hok Hc Hk) as (s2 & c' & Hs2 & Hm & _).
    assert (s2 = s') as -> by congruence. split; [by eapply ok_moves|by eapply excused_moves]. }
  destruct e as [l fd|l|l|l|l|l|l|l|[events|]]; cbn [step enabled] in *; eauto.
  - destruct He as [Hl Hfd]. injection Hs as <-. split; [by apply ok_construct|by apply excused_same].
  - destruct He as [c Hc]. destruct (remove_moves l c s Hok Hc) as (s2 & c' & Hs2 & Hm & _).
    assert (s2 = s') as -> by congruence. split; [by eapply ok_moves|by eapply excused_moves].
  - destruct He as (c & Hc & Hn). injection Hs as <-. split; [by eapply ok_destruct|by apply excused_same].
  - destruct (poll (Some events) s) as [[s2 ls]|] eqn:Hp; [|done]. injection Hs as <-.
    destruct (poll_spec events s s2 ls Hp Hok He) as (_ & Hok' & Her & _). split; [done|by apply excused_same].
  - injection Hs as <-. split; [done|by apply excused_same].
Qed.

(** What is reported may run. *)
Definition healthy_event (e : event) s : Prop :=
  match e with Poll (Some events) => healthy events s | _ => True end.

Lemma poller_step_some e s : ok s -> enabled e s -> healthy_event e s -> is_Some (step e s).
Proof.
  intros Hok He Hh. destruct keeps_all as (K1 & K2 & K3 & K4 & K5).
  assert (forall f l, keeps f -> is_Some (heap s !! l) -> is_Some (change f l s)) as Hchange
    by (intros f l Hk [c Hc]; destruct (change_moves f l c s Hok Hc Hk) as (s' & c' & Hs & _); eauto).
  destruct e as [l fd|l|l|l|l|l|l|l|[events|]]; cbn [step enabled] in *; eauto.
  - destruct He as [c Hc]. destruct (remove_moves l c s Hok Hc) as (s' & c' & Hs & _). eauto.
  - destruct (poll_some events s Hok He Hh) as [[s' ls] ->]. cbn. eauto.
Qed.

Lemma poller_ok_reachable s : reachable s -> ok s.
Proof. induction 1 as [|e s s' _ IH He Hs]; [apply poller_ok_make|by eapply poller_ok_step]. Qed.

(** ** The properties *)

(** C25.  The owners of channels construct no two of them for one descriptor and
    remove a channel before they destroy it; however they construct, enable,
    disable, remove and destroy them otherwise, and whatever calls of epoll_ctl
    fail: at a descriptor for which no call has failed the kernel watches just
    the channel whose index is kAdded, for the events it asks for; hasChannel
    tells whether the index is kNew; a call fails only at a descriptor where one
    failed before, or when the kernel refuses it for a reason of its own, never
    with EEXIST or ENOENT; and every event, a report of descriptors without
    failures too, runs without following a pointer to a channel that is gone. *)
Theorem poller_mirrors_kernel s :
  reachable s ->
  (forall fd ev l, fd ∉ failed s -> interest (epollfd_ s) !! fd = Some (ev, l) <->
     exists c, heap s !! l = Some c /\ Channel.fd_ c = fd /\ Channel.index_ c = kAdded /\ Channel.events_ c = ev) /\
  (forall l c, heap s !! l = Some c -> hasChannel l s = Some (negb (Channel.index_ c =? kNew)%Z)) /\
  (forall e s', enabled e s -> step e s = Some s' -> exists new, errors s' = errors s ++ new /\
     forall op fd, (op, fd) ∈ new -> fd ∈ failed s \/ refuses op fd (epollfd_ s)) /\
  (forall e, enabled e s -> healthy_event e s -> is_Some (step e s)).
Proof.
  intros Hok%poller_ok_reachable. split_and!; [apply Hok|..].
  - intros l c Hc. unfold hasChannel. rewrite Hc. cbn. rewrite (channels_at s l c Hok Hc).
    destruct (Z.eqb_spec (Channel.index_ c) kNew) as [Hn|Hn]; [rewrite decide_True by done|rewrite decide_False by done];
      cbn; [by rewrite bool_decide_eq_false_2|by rewrite bool_decide_eq_true_2].
  - intros e s' He Hs. exact (proj2 (poller_ok_step e s s' Hok He Hs)).
  - intros e. by apply poller_step_some.
Qed.

(** C37.  Whatever epoll_wait reports reaches the right channels, where no call of
    epoll_ctl has failed: each active channel is alive and added, has just the
    reported events, which it asked for or which are errors, and afterwards the
    event list has room for more than was reported. *)
Theorem poll_reports_live_channels s events :
  reachable s -> may_report events s -> healthy events s ->
  exists s', poll (Some events) s = Some (s', events.*2) /\ length events < events_size s' /\
    forall r l, (r, l) ∈ events -> exists c,
      heap s' !! l = Some c /\ Channel.revents_ c = r /\ Channel.index_ c = kAdded /\
      Z.land r (Z.lnot (Z.lor (Channel.events_ c) (Z.lor EPOLLERR EPOLLHUP))) = 0%Z.
Proof.
  intros Hok%poller_ok_reachable Hr Hh. destruct (poll_some events s Hok Hr Hh) as [[s' ls] Hs].
  destruct (poll_spec events s s' ls Hs Hok Hr) as (-> & _ & _ & Hlen & Hev).
  exists s'. split_and!; [done..|]. intros r l Hin. destruct (Hev r l Hin) as (c & Hc & Hc').
  destruct (reported_registered events s r l Hok Hr Hh Hin) as (c2 & Hc2 & Ha & Hb).
  assert (c2 = c) as -> by congruence. by exists (Channel.set_revents r c).
Qed.

End facts.

(** ** A poller *)

(** Two channels; the first is switched off twice.  A third has the -1 of a call
    that failed, which epoll refuses. *)
Definition sample_poller_events : list event :=
  [Construct 1 7; EnableReading 1; Construct 3 (-1); EnableReading 3; Construct 2 8; EnableReading 2; EnableWriting 2; DisableAll 1; DisableAll 1].

Definition run_poller (es : list event) (s : Poller.t (gmap Z (Z * loc))) : Poller.t (gmap Z (Z * loc)) :=
  foldl (fun s e => default s (step e s)) s es.

Definition sample_poller : Poller.t (gmap Z (Z * loc)) := run_poller sample_poller_events make.

(** The guards of these events, decided. *)
Definition enabledb (e : event) (s : Poller.t (gmap Z (Z * loc))) : bool :=
  match e with
  | Construct l fd =>
      match heap s !! l with Some _ => false | None => true end &&
      bool_decide (map_Forall (fun _ ch => Channel.fd_ ch <> fd) (heap s))
  | EnableReading l | DisableReading l | EnableWriting l | DisableWriting l | DisableAll l | Remove l =>
      match heap s !! l with Some _ => true | None => false end
  | _ => false
  end.

Fixpoint runnable (es : list event) (s : Poller.t (gmap Z (Z * loc))) : bool :=
  match es with
  | [] => true
  | e :: es => enabledb e s && match step e s with Some s' => runnable es s' | None => false end
  end.

Lemma enabledb_sound e (s : Poller.t (gmap Z (Z * loc))) : enabledb e s = true -> enabled e s.
Proof.
  destruct e as [l fd|l|l|l|l|l|l|l|ev]; cbn; try done; try (destruct (heap s !! l) as [c|] eqn:E; [by exists c|done]).
  destruct (heap s !! l); [done|]. cbn. intros Hb%bool_decide_eq_true. split; [done|exact Hb].
Qed.

Lemma run_poller_reachable es s : reachable s -> runnable es s = true -> reachable (run_poller es s).
Proof.
  revert s. induction es as [|e es IH]; intros s Hs; [done|]. cbn. intros [He%enabledb_sound Hr]%andb_true_iff.
  destruct (step e s) as [s'|] eqn:E; [|done]. cbn. apply IH; [by eapply reach_step|done].
Qed.

Lemma sample_poller_reachable : reachable sample_poller.
Proof. apply run_poller_reachable; [apply reach_make|vm_compute; reflexivity]. Qed.

Lemma poller_mirrors_kernel_witness :
  reachable sample_poller /\ errors sample_poller = [(EPOLL_CTL_ADD, (-1)%Z)] /\
  exists c, heap sample_poller !! 2 = Some c /\ Channel.fd_ c = 8%Z /\ Channel.index_ c = kAdded /\ Channel.events_ c = 7%Z.
Proof.
  split; [apply sample_poller_reachable|]. split; [vm_compute; reflexivity|].
  apply (proj1 (poller_mirrors_kernel sample_poller sample_poller_reachable) 8%Z 7%Z 2);
    [|vm_compute; reflexivity].
  vm_compute. intros H. apply list_elem_of_singleton in H. discriminate H.
Defined.

Lemma sample_poller_report : may_report [(4%Z, 2)] sample_poller.
Proof.
  split; [cbn; vm_compute; lia|]. split; [apply NoDup_singleton|].
  intros r l [= -> ->]%list_elem_of_singleton. exists 8%Z, 7%Z. split; vm_compute; reflexivity.
Qed.

Lemma poll_reports_live_channels_witness :
  exists s', poll (Some [(4%Z, 2)]) sample_poller = Some (s', [2]) /\ 1 < events_size s'.
Proof.
  destruct (poll_reports_live_channels sample_poller [(4%Z, 2)] sample_poller_reachable sample_poller_report)
    as (s' & Hs & Hl & _).
  { intros r l fd ev [= -> ->]%list_elem_of_singleton Hi Hf.
    assert (failed sample_poller = [(-1)%Z]) as E by (vm_compute; reflexivity).
    rewrite E, list_elem_of_singleton in Hf. subst fd. vm_compute in Hi. discriminate Hi. }
  exists s'. split; [exact Hs|exact Hl].
Defined.
