(* ===== verification/LoopLifetime.v ===== *)
(** * The constructor and the destructor of net/EventLoop

    src/net/EventLoop.cc: what a loop registers with its poller when it is made
    (the timer queue's channel and its own) and what it takes back when it is
    destroyed, in the order in which its members are destroyed; and the
    thread-local pointer that shall keep a thread at one loop.  What the loop
    does in between is EventLoop.v, the timers of the queue TimerQueue.v. *)

From S2P Require Import Prelude Channel Poller PollerFacts.

Module LoopLifetime.

Section loops.
Context {E : Type} `{EpollLaws E}.

#[local] Abbreviation poller := (Poller.t E).

(** The members that the constructor and the destructor deal with. *)
Record loop := mk_loop {
  poller_ : poller;
  timerfd_ : Z;            (** of [*timerQueue_] *)
  timerfdChannel_ : loc;
  wakeupFd_ : Z;
  wakeupChannel_ : loc;
}.

Definition set_poller (p : poller) (L : loop) : loop :=
  mk_loop p (timerfd_ L) (timerfdChannel_ L) (wakeupFd_ L) (wakeupChannel_ L).

(** The loops of one thread. *)
Record t := mk {
  t_loopInThisThread : option nat;
  loops : gmap nat loop;
}.

Definition make : t := mk None ∅.

(** A channel is made at [l] for [fd], and reading is enabled. *)
Definition add_channel (fd : Z) (l : loc) (p : poller) : option poller :=
  p ← Poller.step (Poller.Construct l fd) p;
  Poller.step (Poller.EnableReading l) p.

Definition TimerQueue (timerfd : Z) (l : loc) (p : poller) : option poller := add_channel timerfd l p.

Definition disable_and_remove (l : loc) (p : poller) : option poller :=
  p ← Poller.step (Poller.DisableAll l) p;
  Poller.step (Poller.Remove l) p.

(** ~TimerQueue, then its member [timerfdChannel_]. *)
Definition TimerQueue_destroy (l : loc) (p : poller) : option poller :=
  p ← disable_and_remove l p;
  Poller.step (Poller.Destruct l) p.

(** [i]: the address of the loop.  Without a poller the constructor of the
    queue follows a null pointer. *)
Definition construct (i : nat) (getenv : option string) (timerfd : Z) (timerfdChannel : loc)
    (wakeupFd : Z) (wakeupChannel : loc) (s : t) : option t :=
  p ← Poller.newDefaultPoller getenv;
  p ← TimerQueue timerfd timerfdChannel p;
  p ← Poller.step (Poller.Construct wakeupChannel wakeupFd) p;
  let t_loop := match t_loopInThisThread s with Some j => Some j | None => Some i end in
  p ← Poller.step (Poller.EnableReading wakeupChannel) p;
  Some (mk t_loop (<[i := mk_loop p timerfd timerfdChannel wakeupFd wakeupChannel]> (loops s))).

(** ~EventLoop, then the members [wakeupChannel_] and [timerQueue_]; the poller,
    the last member to go, as it is then. *)
Definition destroy (i : nat) (s : t) : option (t * poller) :=
  L ← loops s !! i;
  p ← disable_and_remove (wakeupChannel_ L) (poller_ L);
  p ← Poller.step (Poller.Destruct (wakeupChannel_ L)) p;
  p ← TimerQueue_destroy (timerfdChannel_ L) p;
  Some (mk None (delete i (loops s)), p).

Inductive event :=
| Construct (i : nat) (getenv : option string) (timerfd : Z) (timerfdChannel : loc) (wakeupFd : Z) (wakeupChannel : loc)
| Use (i : nat) (e : Poller.event)     (** channels of the users of the loop, and poll *)
| Destroy (i : nat).

Definition step (e : event) (s : t) : option t :=
  match e with
  | Construct i getenv timerfd l1 wakeupFd l2 => construct i getenv timerfd l1 wakeupFd l2 s
  | Use i e => L ← loops s !! i; p ← Poller.step e (poller_ L); Some (mk (t_loopInThisThread s) (<[i := set_poller p L]> (loops s)))
  | Destroy i => fst <$> destroy i s
  end.

(** The channel whose owner is at work. *)
Definition about (e : Poller.event) : option loc :=
  match e with
  | Poller.Construct l _ | Poller.EnableReading l | Poller.DisableReading l | Poller.EnableWriting l
  | Poller.DisableWriting l | Poller.DisableAll l | Poller.Remove l | Poller.Destruct l => Some l
  | Poller.Poll _ => None
  end.

(** Descriptors that are open at once, and objects that live at once, differ;
    users keep to their own channels. *)
Definition enabled (e : event) (s : t) : Prop :=
  match e with
  | Construct i _ timerfd l1 wakeupFd l2 => loops s !! i = None /\ timerfd <> wakeupFd /\ l1 <> l2
  | Use i e => exists L, loops s !! i = Some L /\ Poller.enabled e (poller_ L) /\
      about e <> Some (timerfdChannel_ L) /\ about e <> Some (wakeupChannel_ L)
  | Destroy i => is_Some (loops s !! i)
  end.

Inductive reachable : t -> Prop :=
| reach_make : reachable make
| reach_step e s s' : reachable s -> enabled e s -> step e s = Some s' -> reachable s'.

(** ** One channel *)

(** The channel at [l] is registered for [fd] and reads. *)
Definition reads (fd : Z) (l : loc) (p : poller) : Prop :=
  exists c, Poller.heap p !! l = Some c /\ Channel.fd_ c = fd /\ Channel.index_ c = Poller.kAdded /\
    Channel.events_ c = Channel.kReadEvent.

Lemma enableReading_spec l c p :
  ok p -> Poller.heap p !! l = Some c -> Channel.events_ c = 0%Z ->
  exists p', Poller.step (Poller.EnableReading l) p = Some p' /\ ok p' /\ reads (Channel.fd_ c) l p' /\
    forall l', l' <> l -> Poller.heap p' !! l' = Poller.heap p !! l'.
Proof.
  intros Hok Hl Hev. destruct (change_moves Channel.enableReading l c p Hok Hl) as (p' & c' & Hs & Hm & He & _ & Hi).
  { apply keeps_all. }
  assert (Channel.events_ (Channel.enableReading c) = Channel.kReadEvent) as Hread by (cbn; by rewrite Hev).
  pose proof (moves_heap _ _ _ _ _ Hm) as Hh. exists p'. split; [exact Hs|]. split_and!.
  - by eapply ok_moves.
  - exists c'. rewrite Hh, lookup_insert_eq. split_and!; [done|by apply Hm| |congruence].
    apply Hi. unfold Channel.isNonEvent. by rewrite Hread.
  - intros l' Hne. by rewrite Hh, lookup_insert_ne.
Qed.

Lemma add_channel_spec fd l p :
  ok p -> Poller.enabled (Poller.Construct l fd) p ->
  exists p1 p', Poller.step (Poller.Construct l fd) p = Some p1 /\ Poller.step (Poller.EnableReading l) p1 = Some p' /\
    ok p' /\ reads fd l p' /\ forall l', l' <> l -> Poller.heap p' !! l' = Poller.heap p !! l'.
Proof.
  intros Hok [Hl Hfd]. pose proof (ok_construct l fd p Hok Hl Hfd) as Hok1.
  destruct (enableReading_spec l (Channel.make fd) (Poller.store l (Channel.make fd) p)) as (p' & Hs & Hok' & Hr & Ho);
    [done|apply lookup_insert_eq|done|].
  exists (Poller.store l (Channel.make fd) p), p'. split_and!; [done..|]. intros l' Hne.
  rewrite Ho by done. cbn. by rewrite lookup_insert_ne.
Qed.

(** A channel that exists is disabled, removed and destroyed. *)
Lemma drop_channel_spec l p :
  ok p -> is_Some (Poller.heap p !! l) ->
  exists p1 p', disable_and_remove l p = Some p1 /\ Poller.step (Poller.Destruct l) p1 = Some p' /\ ok p' /\
    Poller.heap p' = delete l (Poller.heap p).
Proof.
  intros Hok [c Hl]. unfold disable_and_remove. cbn [Poller.step].
  destruct (change_moves Channel.disableAll l c p Hok Hl) as (p1 & c1 & -> & Hm1 & _); [apply keeps_all|].
  assert (ok p1) as Hok1 by (by eapply ok_moves). pose proof (moves_heap _ _ _ _ _ Hm1) as Hh1.
  assert (Poller.heap p1 !! l = Some c1) as Hl1 by (by rewrite Hh1, lookup_insert_eq).
  destruct (remove_moves l c1 p1 Hok1 Hl1) as (p2 & c2 & Hs2 & Hm2 & Hn).
  assert (ok p2) as Hok2 by (by eapply ok_moves). pose proof (moves_heap _ _ _ _ _ Hm2) as Hh2.
  eexists p2, _. split_and!; [exact Hs2|done|eapply (ok_destruct l c2); [done|by rewrite Hh2, lookup_insert_eq|done]|].
  cbn. by rewrite Hh2, Hh1, insert_insert_eq, delete_insert_eq.
Qed.

(** What others do leaves a channel registered as it is. *)
Lemma step_other e p p' l fd :
  ok p -> Poller.enabled e p -> about e <> Some l -> Poller.step e p = Some p' -> reads fd l p -> reads fd l p'.
Proof.
  intros Hok He Hne Hs (c & Hl & Hc). destruct keeps_all as (K1 & K2 & K3 & K4 & K5).
  assert (forall f l', keeps f -> l' <> l -> is_Some (Poller.heap p !! l') -> Poller.change f l' p = Some p' -> reads fd l p')
    as Hchange.
  { intros f l' Hk Hn [c' Hl'] Hs'. destruct (change_moves f l' c' p Hok Hl' Hk) as (p1 & c1 & Hp1 & Hm & _).
    assert (p1 = p') as -> by congruence. exists c. by rewrite (moves_heap _ _ _ _ _ Hm), lookup_insert_ne. }
  destruct e as [l' fd'|l'|l'|l'|l'|l'|l'|l'|events]; cbn [Poller.step Poller.enabled about] in *;
    try (assert (l' <> l) as Hn by congruence); eauto.
  - injection Hs as <-. exists c. cbn. by rewrite lookup_insert_ne.
  - destruct He as [c' Hl']. destruct (remove_moves l' c' p Hok Hl') as (p1 & c1 & Hp1 & Hm & _).
    assert (p1 = p') as -> by congruence. exists c. by rewrite (moves_heap _ _ _ _ _ Hm), lookup_insert_ne.
  - injection Hs as <-. exists c. cbn. by rewrite lookup_delete_ne.
  - destruct events as [[|ev events]|]; cbn [Poller.poll] in Hs; [cbn in Hs; injection Hs as <-; by exists c| |
      cbn in Hs; injection Hs as <-; by exists c].
    destruct (Poller.fillActivateChannels (ev :: events) p) as [p1|] eqn:Hf; [|done].
    destruct (fill_spec (ev :: events) p p1 Hf Hok) as (_ & _ & _ & _ & Ho & Hev); [apply He|].
    cbn [mbind option_bind fmap option_fmap option_map fst] in Hs. injection Hs as <-.
    enough (reads fd l p1) by (by case_match).
    destruct (decide (l ∈ (ev :: events).*2)) as [([r l'] & -> & Hin)%list_elem_of_fmap|Hn].
    + destruct (Hev r l' Hin) as (c' & Hc' & Hc''). assert (c' = c) as -> by (cbn in Hl; congruence).
      by exists (Channel.set_revents r c).
    + exists c. by rewrite Ho.
Qed.

(** ** The invariant *)

Record loop_ok (L : loop) : Prop := {
  lo_poller : ok (poller_ L);
  lo_ne : timerfdChannel_ L <> wakeupChannel_ L;
  lo_timer : reads (timerfd_ L) (timerfdChannel_ L) (poller_ L);
  lo_wakeup : reads (wakeupFd_ L) (wakeupChannel_ L) (poller_ L);
}.

Definition inv (s : t) : Prop :=
  (forall i L, loops s !! i = Some L -> loop_ok L) /\
  (forall i, t_loopInThisThread s = Some i -> is_Some (loops s !! i)).

Lemma construct_spec i timerfd l1 wakeupFd l2 s :
  timerfd <> wakeupFd -> l1 <> l2 ->
  exists p, construct i None timerfd l1 wakeupFd l2 s =
      Some (mk (match t_loopInThisThread s with Some j => Some j | None => Some i end)
              (<[i := mk_loop p timerfd l1 wakeupFd l2]> (loops s))) /\
    loop_ok (mk_loop p timerfd l1 wakeupFd l2) /\ dom (Poller.heap p) ⊆ {[l1; l2]}.
Proof.
  intros Hfd Hl. unfold construct, TimerQueue, add_channel. cbn [Poller.newDefaultPoller mbind option_bind].
  destruct (add_channel_spec timerfd l1 Poller.make) as (p1 & p2 & -> & Hs & Hok2 & Hr & Ho).
  { apply poller_ok_make. }
  { split; [done|]. cbn. intros l' c. by rewrite lookup_empty. }
  cbn [mbind option_bind]. rewrite Hs. cbn [mbind option_bind].
  destruct (add_channel_spec wakeupFd l2 p2) as (p3 & p4 & -> & Hs4 & Hok4 & Hr4 & Ho4); [done| |].
  { split; [rewrite Ho by done; done|]. intros l' c Hc. destruct (decide (l' = l1)) as [->|Hne].
    - destruct Hr as (c' & Hc' & <- & _). congruence.
    - rewrite Ho in Hc by done. cbn in Hc. by rewrite lookup_empty in Hc. }
  cbn [mbind option_bind]. rewrite Hs4. cbn [mbind option_bind]. exists p4. split; [done|]. split.
  - split; cbn; [done..| |done]. destruct Hr as (c & Hc & Hrest). exists c. by rewrite Ho4.
  - intros l' [c Hc]%elem_of_dom. destruct (decide (l' = l2)) as [->|Hn2]; [set_solver|].
    destruct (decide (l' = l1)) as [->|Hn1]; [set_solver|]. rewrite Ho4, Ho in Hc by done. cbn in Hc. by rewrite lookup_empty in Hc.
Qed.

Lemma destroy_spec i L s :
  loops s !! i = Some L -> loop_ok L ->
  exists p, destroy i s = Some (mk None (delete i (loops s)), p) /\ ok p /\
    Poller.heap p = delete (timerfdChannel_ L) (delete (wakeupChannel_ L) (Poller.heap (poller_ L))).
Proof.
  intros HL [Hok Hne (c1 & Hc1 & _) (c2 & Hc2 & _)]. unfold destroy. rewrite HL. cbn [mbind option_bind].
  destruct (drop_channel_spec (wakeupChannel_ L) (poller_ L) Hok) as (p1 & p2 & -> & Hs2 & Hok2 & Hh2); [by exists c2|].
  cbn [mbind option_bind]. rewrite Hs2. cbn [mbind option_bind]. unfold TimerQueue_destroy.
  destruct (drop_channel_spec (timerfdChannel_ L) p2 Hok2) as (p3 & p4 & -> & Hs4 & Hok4 & Hh4).
  { exists c1. by rewrite Hh2, lookup_delete_ne. }
  cbn [mbind option_bind]. rewrite Hs4. exists p4. split_and!; [done..|]. by rewrite Hh4, Hh2.
Qed.

Lemma loops_inv_step e s s' : inv s -> enabled e s -> step e s = Some s' -> inv s'.
Proof.
  intros [HL Ht] He Hs. destruct e as [i getenv timerfd l1 wakeupFd l2|i e|i]; cbn in He, Hs.
  - destruct He as (Hi & Hfd & Hl). destruct getenv as [v|]; [done|].
    destruct (construct_spec i timerfd l1 wakeupFd l2 s Hfd Hl) as (p & Hp & Hok & _).
    rewrite Hp in Hs. injection Hs as <-. split; cbn.
    + intros j L [[_ <-]|[_ Hj]]%lookup_insert_Some; [done|by eapply HL].
    + intros j Hj. destruct (decide (j = i)) as [->|Hne]; [by rewrite lookup_insert_eq|].
      rewrite lookup_insert_ne by done. apply Ht. destruct (t_loopInThisThread s); congruence.
  - destruct He as (L & Hi & Hen & H1 & H2). rewrite Hi in Hs. cbn in Hs. pose proof (HL i L Hi) as [Hok Hne Hr1 Hr2].
    destruct (Poller.step e (poller_ L)) as [p|] eqn:Hp; [|done]. injection Hs as <-. split; cbn.
    + intros j L' [[_ <-]|[_ Hj]]%lookup_insert_Some; [|by eapply HL].
      destruct (poller_ok_step e (poller_ L) p Hok Hen Hp) as [Hok' _].
      split; cbn; [done..| |]; by apply (step_other e (poller_ L)).
    + intros j Hj%Ht. apply lookup_insert_is_Some. destruct (decide (i = j)); auto.
  - destruct He as [L Hi]. destruct (destroy_spec i L s Hi (HL i L Hi)) as (p & Hp & _). rewrite Hp in Hs.
    injection Hs as <-. split; cbn; [|done]. intros j L' [_ Hj]%lookup_delete_Some. by eapply HL.
Qed.

Lemma loops_inv s : reachable s -> inv s.
Proof. induction 1 as [|e s s' _ IH He Hs]; [by split; intros|by eapply loops_inv_step]. Qed.

(** ** The properties *)

(** While a loop exists, whatever its users do with their channels, epoll watches
    its timerfd and its eventfd, so that timers and wakeup() end a wait, unless
    the kernel refused a call for them; and the pointer of the thread is null or
    points to a loop that exists. *)
Theorem loop_watches_its_descriptors s :
  reachable s ->
  (forall i, t_loopInThisThread s = Some i -> is_Some (loops s !! i)) /\
  forall i L, loops s !! i = Some L ->
    (timerfd_ L ∉ failed (poller_ L) ->
     interest (Poller.epollfd_ (poller_ L)) !! timerfd_ L = Some (Channel.kReadEvent, timerfdChannel_ L)) /\
    (wakeupFd_ L ∉ failed (poller_ L) ->
     interest (Poller.epollfd_ (poller_ L)) !! wakeupFd_ L = Some (Channel.kReadEvent, wakeupChannel_ L)).
Proof.
  intros [HL Ht]%loops_inv. split; [done|]. intros i L Hi. pose proof (HL i L Hi) as [Hok _ H1 H2].
  by split; intros Hf; apply (ok_interest _ Hok).
Qed.

(** The destructor of a loop follows no pointer that is gone; when the users have
    removed and destroyed their channels, the table of channels is empty when the
    poller goes, and no descriptor is registered but one for which a call of
    epoll_ctl failed. *)
Theorem loop_destructor_clean s i L :
  reachable s -> loops s !! i = Some L ->
  exists s' p, destroy i s = Some (s', p) /\ loops s' = delete i (loops s) /\
    (dom (Poller.heap (poller_ L)) ⊆ {[timerfdChannel_ L; wakeupChannel_ L]} ->
     Poller.channels_ p = ∅ /\
     forall fd, fd ∉ failed p -> interest (Poller.epollfd_ p) !! fd = None).
Proof.
  intros [HL _]%loops_inv Hi. destruct (destroy_spec i L s Hi (HL i L Hi)) as (p & Hp & Hok & Hh).
  eexists _, p. split_and!; [exact Hp|done|]. intros Hdom.
  assert (forall l c, Poller.heap p !! l = Some c -> False) as Hnone.
  { intros l c. rewrite Hh. intros [Hn1 [Hn2 Hc]%lookup_delete_Some]%lookup_delete_Some.
    apply elem_of_dom_2 in Hc. set_solver. }
  split; [apply map_eq; intros fd; rewrite lookup_empty|intros fd Hf].
  - destruct (Poller.channels_ p !! fd) as [l|] eqn:El; [|done].
    apply (ok_channels p Hok) in El as (c & Hc & _). by destruct (Hnone l c).
  - destruct (interest (Poller.epollfd_ p) !! fd) as [[ev l]|] eqn:El; [|done].
    apply (ok_interest p Hok) in El as (c & Hc & _); [|done]. by destruct (Hnone l c).
Qed.

End loops.

Arguments t E : clear implicits.

(** ** Samples *)

Definition run (es : list event) : option (t (gmap Z (Z * loc))) :=
  foldl (fun o e => s ← o; step e s) (Some make) es.

(** With RMUDUO_USE_POLL in the environment the constructor follows a null
    pointer. *)
Example no_poller : run [Construct 0 (Some "1"%string) 4 1 5 2] = None.
Proof. reflexivity. Qed.

(** A second loop in the thread is only logged, and when it goes the thread
    forgets the first: loop 2 is registered while loop 0 exists. *)
Example forgotten_loop :
  t_loopInThisThread <$> run [Construct 0 None 4 1 5 2; Construct 1 None 7 3 8 4] = Some (Some 0) /\
  t_loopInThisThread <$> run [Construct 0 None 4 1 5 2; Construct 1 None 7 3 8 4; Destroy 1] = Some None /\
  (fun s => (t_loopInThisThread s, bool_decide (is_Some (loops s !! 0)))) <$>
    run [Construct 0 None 4 1 5 2; Construct 1 None 7 3 8 4; Destroy 1; Construct 2 None 7 3 8 4] = Some (Some 2, true).
Proof. split_and!; vm_compute; reflexivity. Qed.

End LoopLifetime.
