(* ===== verification/Text.v ===== *)
(** * Text helpers of the C++ standard library

    What the HTTP and API code uses of <cctype>, <charconv> and std::format:
    character classes of the "C" locale, case-insensitive comparison, decimal
    numbers in both directions. *)

From S2P Require Import Prelude Bytes.

Local Open Scope Z_scope.

(** ** <cctype> *)

(** Bytes above 0x7F are not spaces, letters or digits in the "C" locale. *)
Definition isspace (c : byte) : bool :=
  let v := byte.unsigned c in (v =? 32) || ((9 <=? v) && (v <=? 13)).

Definition isdigit (c : byte) : bool :=
  let v := byte.unsigned c in (48 <=? v) && (v <=? 57).

Definition isalpha (c : byte) : bool :=
  let v := byte.unsigned c in ((65 <=? v) && (v <=? 90)) || ((97 <=? v) && (v <=? 122)).

Definition isalnum (c : byte) : bool := isalpha c || isdigit c.

Definition tolower (c : byte) : byte :=
  let v := byte.unsigned c in if (65 <=? v) && (v <=? 90) then chr (v + 32) else c.

(** Strip spaces from the front; [rtrim] from the back. *)
Fixpoint ltrim (l : bytes) : bytes :=
  match l with
  | c :: l' => if isspace c then ltrim l' else l
  | [] => []
  end.

Definition rtrim (l : bytes) : bytes := rev (ltrim (rev l)).

(** [equalCaseInsensitive] of HttpContext.cc *)
Definition equalCaseInsensitive (lhs rhs : bytes) : bool :=
  bool_decide (tolower <$> lhs = tolower <$> rhs).

(** ** Decimal numbers *)

Definition digit_value (c : byte) : Z := byte.unsigned c - 48.
Definition digit_char (d : Z) : byte := chr (48 + d).

(** Horner's rule over the leading digits; the rest is what [ptr] points at. *)
Fixpoint read_digits (l : bytes) (acc : Z) : Z * bytes :=
  match l with
  | c :: l' => if isdigit c then read_digits l' (10 * acc + digit_value c) else (acc, l)
  | [] => (acc, [])
  end.

(** [std::from_chars(begin, end, value)] for [size_t]: the value and the rest,
    or nothing when there is no digit ([invalid_argument]) or the number does
    not fit ([result_out_of_range]). *)
Definition from_chars (l : bytes) : option (Z * bytes) :=
  match l with
  | c :: _ =>
      if isdigit c then
        let '(v, rest) := read_digits l 0 in
        if v <? 2 ^ 64 then Some (v, rest) else None
      else None
  | [] => None
  end.

(** [std::format("{}", n)] of an unsigned number of at most 20 digits. *)
Fixpoint format_go (fuel : nat) (n : Z) (acc : bytes) : bytes :=
  match fuel with
  | O => acc
  | S fuel =>
      let acc := digit_char (n mod 10) :: acc in
      if n / 10 =? 0 then acc else format_go fuel (n / 10) acc
  end.

Definition format_dec (n : Z) : bytes := format_go 20 n [].

(** [std::to_string] of an [int] or [int64_t]. *)
Definition to_string (n : Z) : bytes := if n <? 0 then str "-" ++ format_dec (- n) else format_dec n.

(** ** Lemmas *)

Lemma ltrim_app_spaces s l : Forall isspace s -> ltrim (s ++ l) = ltrim l.
Proof. induction 1 as [|c s Hc _ IH]; cbn; [done|]. by rewrite (Is_true_true_1 _ Hc). Qed.

Lemma digit_char_isdigit d : 0 <= d < 10 -> isdigit (digit_char d) = true.
Proof.
  intros Hd. unfold isdigit, digit_char. rewrite unsigned_chr_small by lia.
  apply andb_true_iff. split; apply Z.leb_le; lia.
Qed.

Lemma digit_char_value d : 0 <= d < 10 -> digit_value (digit_char d) = d.
Proof. intros Hd. unfold digit_value, digit_char. rewrite unsigned_chr_small; lia. Qed.

(** All digits are read, whatever number they continue. *)
Lemma read_digits_app l rest acc :
  Forall isdigit l -> match rest with [] => True | c :: _ => isdigit c = false end ->
  read_digits (l ++ rest) acc = (foldl (fun a c => 10 * a + digit_value c) acc l, rest).
Proof.
  intros Hl Hr. revert acc. induction Hl as [|c l Hc _ IH]; intros acc; cbn.
  - destruct rest as [|c rest]; [done|]. cbn. by rewrite Hr.
  - rewrite (Is_true_true_1 _ Hc). apply IH.
Qed.

Lemma read_digits_all l acc n : read_digits l acc = (n, []) -> Forall isdigit l.
Proof.
  revert acc. induction l as [|c l IH]; intros acc; cbn; [intros _; apply Forall_nil_2|].
  destruct (isdigit c) eqn:E; [|done]. intros H. apply Forall_cons.
  split; [by rewrite E|]. by eapply IH.
Qed.

Lemma format_go_spec fuel n acc :
  0 <= n < 10 ^ Z.of_nat fuel -> (0 < fuel)%nat -> Forall isdigit acc ->
  exists l, format_go fuel n acc = l ++ acc /\ Forall isdigit l /\ l <> [] /\
    foldl (fun a c => 10 * a + digit_value c) 0 l = n.
Proof.
  revert n acc. induction fuel as [|fuel IH]; intros n acc Hn Hf Hacc; [lia|].
  cbn [format_go]. pose proof (Z.mod_pos_bound n 10). pose proof (Z.div_mod n 10).
  assert (Forall isdigit [digit_char (n mod 10)]) as Hd.
  { apply Forall_singleton, Is_true_true_2, digit_char_isdigit. lia. }
  destruct (Z.eqb_spec (n / 10) 0) as [Hz|Hz].
  - exists [digit_char (n mod 10)]. split_and!; [done|done|done|].
    cbn. rewrite digit_char_value by lia. lia.
  - destruct (IH (n / 10) (digit_char (n mod 10) :: acc)) as (l & -> & Hl & Hne & Hv).
    + split; [apply Z.div_pos; lia|]. apply Z.div_lt_upper_bound; [lia|].
      rewrite Nat2Z.inj_succ, Z.pow_succ_r in Hn by lia. lia.
    + destruct fuel; [|lia]. cbn in Hn. exfalso. apply Hz. apply Z.div_small. lia.
    + apply Forall_cons. split; [by inversion Hd|done].
    + exists (l ++ [digit_char (n mod 10)]). split_and!.
      * by rewrite <- app_assoc.
      * apply Forall_app. done.
      * by destruct l.
      * rewrite foldl_app, Hv. cbn. rewrite digit_char_value by lia. lia.
Qed.

Lemma format_dec_digits n : 0 <= n < 10 ^ 20 -> Forall isdigit (format_dec n) /\ format_dec n <> [].
Proof.
  intros Hn. destruct (format_go_spec 20 n [] Hn) as (l & E & Hl & Hne & _); [lia|apply Forall_nil_2|].
  unfold format_dec. rewrite E, app_nil_r. done.
Qed.

(** Round trip of a [size_t]. *)
Lemma from_chars_format n rest :
  0 <= n < 2 ^ 64 -> match rest with [] => True | c :: _ => isdigit c = false end ->
  from_chars (format_dec n ++ rest) = Some (n, rest).
Proof.
  intros Hn Hr. destruct (format_go_spec 20 n []) as (l & E & Hl & Hne & Hv); [lia|lia|apply Forall_nil_2|].
  unfold format_dec. rewrite E, app_nil_r. unfold from_chars.
  pose proof (read_digits_app l rest 0 Hl Hr) as Hread. destruct l as [|c l]; [done|].
  cbn [app] in *. inversion Hl as [|? ? Hc _]; subst. rewrite (Is_true_true_1 _ Hc).
  rewrite Hread. by rewrite (proj2 (Z.ltb_lt _ _)) by lia.
Qed.
