(* ===== verification/CountDownLatch.v ===== *)
(** * src/net/CountDownLatch.h, src/net/CountDownLatch.cc

    A mutex with its condition variable, and the latch built on them.  The
    methods of the latch are cut at every operation on the mutex, the condition
    variable or the counter, so that any number of threads can be between any
    two of them. *)

From S2P Require Import Prelude.
From stdpp Require Import gmap.

Abbreviation thread := nat.

(** ** std::mutex and std::condition_variable

    [sleeping]: the threads inside [wait] that were not woken yet. *)
Module Monitor.

Record t := mk { owner : option thread; sleeping : gset thread }.

Definition make : t := mk None ∅.

(** [None]: the thread blocks. *)
Definition lock (th : thread) (m : t) : option t :=
  match owner m with None => Some (mk (Some th) (sleeping m)) | Some _ => None end.
Definition unlock (m : t) : t := mk None (sleeping m).

(** [wait(lock)] up to the moment the thread sleeps, and from the moment it was
    woken until it holds the mutex again. *)
Definition wait (th : thread) (m : t) : t := mk None ({[th]} ∪ sleeping m).
Definition return_from_wait (th : thread) (m : t) : option t :=
  if decide (th ∈ sleeping m) then None else lock th m.

(** A notification, or a wake-up for no reason. *)
Definition wake (th : thread) (m : t) : t := mk (owner m) (sleeping m ∖ {[th]}).
Definition notify_all (m : t) : t := mk (owner m) ∅.

(** [notify_one] wakes [chosen] if it sleeps; a choice of the library. *)
Definition notify_one (chosen : thread) (m : t) : t := wake chosen m.

End Monitor.

Module CountDownLatch.

Record t := mk { monitor : Monitor.t; count_ : Z }.

Definition make (count : Z) : t := mk Monitor.make count.

Definition set_monitor (m : Monitor.t) (l : t) : t := mk m (count_ l).
Definition set_count (n : Z) (l : t) : t := mk (monitor l) n.

(** Where a thread is in a method; [Waited], [CountedDown] and [Got] are its
    returns. *)
Inductive pc :=
| WaitLock | WaitTest | WaitAsleep | WaitUnlock | Waited
| DownLock | DownCount | DownNotify | DownUnlock | CountedDown
| GetLock | GetRead | GetUnlock (n : Z) | Got (n : Z).

#[global] Instance pc_eq_dec : EqDecision pc.
Proof. solve_decision. Defined.

Abbreviation wait := WaitLock (only parsing).
Abbreviation countDown := DownLock (only parsing).
Abbreviation getCount := GetLock (only parsing).

Definition locking (th : thread) (next : pc) (l : t) : option (pc * t) :=
  m ← Monitor.lock th (monitor l); Some (next, set_monitor m l).

Definition unlocking (next : pc) (l : t) : option (pc * t) :=
  Some (next, set_monitor (Monitor.unlock (monitor l)) l).

(** One step of thread [th] in a method; [None] when it blocks or has
    returned. *)
Definition thread_step (th : thread) (p : pc) (l : t) : option (pc * t) :=
  match p with
  | WaitLock => locking th WaitTest l
  | WaitTest =>
      if (0 <? count_ l)%Z then Some (WaitAsleep, set_monitor (Monitor.wait th (monitor l)) l)
      else Some (WaitUnlock, l)
  | WaitAsleep => m ← Monitor.return_from_wait th (monitor l); Some (WaitTest, set_monitor m l)
  | WaitUnlock => unlocking Waited l
  | DownLock => locking th DownCount l
  | DownCount => Some (DownNotify, set_count (count_ l - 1) l)
  | DownNotify =>
      Some (DownUnlock,
            if (count_ l =? 0)%Z then set_monitor (Monitor.notify_all (monitor l)) l else l)
  | DownUnlock => unlocking CountedDown l
  | GetLock => locking th GetRead l
  | GetRead => Some (GetUnlock (count_ l), l)
  | GetUnlock n => unlocking (Got n) l
  | Waited | CountedDown | Got _ => None
  end.

(** ** Any number of threads on one latch *)

Record system := mk_system { latch : t; threads : list pc }.

(** Thread [th] moves; a sleeping thread wakes up for no reason; a new thread
    calls a method. *)
Inductive event := Move (th : thread) | Spurious (th : thread) | Call (entry : pc).

Definition is_entry (p : pc) : bool := bool_decide (p = WaitLock \/ p = DownLock \/ p = GetLock).

Definition step (e : event) (s : system) : option system :=
  match e with
  | Move th =>
      p ← threads s !! th;
      '(p, l) ← thread_step th p (latch s);
      Some (mk_system l (<[th := p]> (threads s)))
  | Spurious th =>
      Some (mk_system (set_monitor (Monitor.wake th (monitor (latch s))) (latch s)) (threads s))
  | Call entry => if is_entry entry then Some (mk_system (latch s) (threads s ++ [entry])) else None
  end.

Inductive reachable (count : Z) : system -> Prop :=
| reach_make : reachable count (mk_system (make count) [])
| reach_step e s s' : reachable count s -> step e s = Some s' -> reachable count s'.

(** ** The invariant *)

(** The thread holds the mutex. *)
Definition holds (p : pc) : bool :=
  match p with
  | WaitTest | WaitUnlock | DownCount | DownNotify | DownUnlock | GetRead | GetUnlock _ => true
  | _ => false
  end.

(** The thread has decremented the counter. *)
Definition counted (p : pc) : bool :=
  match p with DownNotify | DownUnlock | CountedDown => true | _ => false end.

(** The test of wait() has succeeded. *)
Definition passed (p : pc) : bool := match p with WaitUnlock | Waited => true | _ => false end.

(** The mutex says who holds it. *)
Definition owner_ok (o : option thread) (ps : list pc) : Prop :=
  forall th, o = Some th <-> exists p, ps !! th = Some p /\ holds p = true.

(** How many threads are where [f] says. *)
Fixpoint number (f : pc -> bool) (ps : list pc) : nat :=
  match ps with [] => 0 | p :: ps => (if f p then 1 else 0) + number f ps end.

Record inv (count : Z) (l : t) (ps : list pc) : Prop := {
  inv_owner : owner_ok (Monitor.owner (monitor l)) ps;
  inv_sleeping th : th ∈ Monitor.sleeping (monitor l) -> ps !! th = Some WaitAsleep;
  inv_signal th : th ∈ Monitor.sleeping (monitor l) ->
    (0 < count_ l)%Z \/ count_ l = 0%Z /\ exists th', ps !! th' = Some DownNotify;
  inv_passed th p : ps !! th = Some p -> passed p = true -> (count_ l <= 0)%Z;
  inv_count : (count_ l + Z.of_nat (number counted ps) = count)%Z;
}.

Lemma latch_inv_make count : inv count (make count) [].
Proof.
  split; [|set_solver..|cbn; lia]. intros th. split; [done|]. by intros (p & Hp & _).
Qed.

(** How the number changes when one thread moves. *)
Lemma number_insert f ps th p p' :
  ps !! th = Some p ->
  number f (<[th := p']> ps) + (if f p then 1 else 0) = number f ps + (if f p' then 1 else 0).
Proof.
  revert th. induction ps as [|q ps IH]; intros [|th] Hp; simpl in *; [done..| |].
  - injection Hp as ->. lia.
  - specialize (IH th Hp). lia.
Qed.

Lemma number_app f ps qs : number f (ps ++ qs) = number f ps + number f qs.
Proof. induction ps as [|p ps IH]; cbn; [done|]. rewrite IH. lia. Qed.

(** Only the owner holds the mutex, and it only changes hands when it is free. *)
Lemma owner_move o o' ps th p p' :
  owner_ok o ps -> ps !! th = Some p ->
  (holds p' = true -> holds p = false -> o = None) ->
  o' = (if holds p' then Some th else if holds p then None else o) ->
  owner_ok o' (<[th := p']> ps).
Proof.
  intros Ho Hp Hfree -> i. pose proof (lookup_lt_Some _ _ _ Hp) as Hlt.
  destruct (decide (i = th)) as [->|Hne].
  - rewrite list_lookup_insert_eq by done. destruct (holds p') eqn:E'.
    + split; [by exists p'|done].
    + split; [|intros (q & Hq & ?); congruence]. intros H. exfalso.
      destruct (holds p) eqn:E; [done|]. apply Ho in H as (q & ? & ?). congruence.
  - rewrite list_lookup_insert_ne by done. rewrite <- (Ho i).
    assert (holds p = true -> o = Some th) as Hh by (intros; apply Ho; eauto).
    destruct (holds p') eqn:E', (holds p) eqn:E; try done.
    + specialize (Hh eq_refl). split; intros; congruence.
    + specialize (Hfree eq_refl eq_refl). split; intros; congruence.
    + specialize (Hh eq_refl). split; intros; congruence.
Qed.

Lemma holder_unique count l ps th1 th2 p1 p2 :
  inv count l ps -> ps !! th1 = Some p1 -> ps !! th2 = Some p2 ->
  holds p1 = true -> holds p2 = true -> th1 = th2.
Proof.
  intros Hi H1 H2 E1 E2.
  assert (Monitor.owner (monitor l) = Some th1) by (apply Hi; eauto).
  assert (Monitor.owner (monitor l) = Some th2) by (apply Hi; eauto). congruence.
Qed.

(** What one step does, method by method. *)
Lemma thread_step_cases th p l p' l' :
  thread_step th p l = Some (p', l') ->
  (Monitor.owner (monitor l) = None /\ holds p = false /\ holds p' = true /\
   (p = WaitAsleep -> th ∉ Monitor.sleeping (monitor l)) /\ passed p' = false /\ counted p' = counted p /\
   l' = mk (Monitor.mk (Some th) (Monitor.sleeping (monitor l))) (count_ l)) \/
  (holds p = true /\ holds p' = false /\ passed p' = passed p /\ counted p' = counted p /\ p <> DownNotify /\
   l' = set_monitor (Monitor.unlock (monitor l)) l) \/
  (p = WaitTest /\ p' = WaitAsleep /\ (0 < count_ l)%Z /\ l' = set_monitor (Monitor.wait th (monitor l)) l) \/
  (p = WaitTest /\ p' = WaitUnlock /\ (count_ l <= 0)%Z /\ l' = l) \/
  (p = DownCount /\ p' = DownNotify /\ l' = set_count (count_ l - 1) l) \/
  (p = DownNotify /\ p' = DownUnlock /\
   l' = (if (count_ l =? 0)%Z then set_monitor (Monitor.notify_all (monitor l)) l else l)) \/
  (p = GetRead /\ p' = GetUnlock (count_ l) /\ l' = l).
Proof.
  destruct l as [[o sl] n]. destruct p; cbn; try done;
    unfold locking, unlocking, Monitor.return_from_wait, Monitor.lock; cbn;
    repeat case_match; intros; simplify_eq/=; bool_hyps; naive_solver.
Qed.

Section move.
Context (count : Z) (l : t) (ps : list pc) (th : thread) (p p' : pc).
Hypothesis Hi : inv count l ps.
Hypothesis Hp : ps !! th = Some p.

Lemma asleep_move i :
  (p = WaitAsleep -> i <> th) -> i ∈ Monitor.sleeping (monitor l) ->
  <[th := p']> ps !! i = Some WaitAsleep.
Proof.
  intros Hne Hm. pose proof (inv_sleeping _ _ _ Hi i Hm).
  rewrite list_lookup_insert_ne; [done|]. intros <-. apply Hne; congruence.
Qed.

Lemma passed_move n :
  (passed p' = true -> passed p = true \/ (n <= 0)%Z) -> (n <= count_ l)%Z ->
  forall i q, <[th := p']> ps !! i = Some q -> passed q = true -> (n <= 0)%Z.
Proof.
  intros Hpass Hle i q Hq Hpq. destruct (decide (i = th)) as [->|Hne].
  - rewrite list_lookup_insert_eq in Hq by (by eapply lookup_lt_Some). injection Hq as <-.
    destruct (Hpass Hpq) as [Hpp|]; [|done]. pose proof (inv_passed _ _ _ Hi th p Hp Hpp). lia.
  - rewrite list_lookup_insert_ne in Hq by done. pose proof (inv_passed _ _ _ Hi i q Hq Hpq). lia.
Qed.

Lemma count_move n :
  (n + (if counted p' then 1 else 0) = count_ l + (if counted p then 1 else 0))%Z ->
  (n + Z.of_nat (number counted (<[th := p']> ps)) = count)%Z.
Proof.
  intros Hn. pose proof (inv_count _ _ _ Hi). pose proof (number_insert counted ps th p p' Hp).
  destruct (counted p), (counted p'); lia.
Qed.

(** While the mutex is free, and while somebody else than the notifying thread
    holds it, sleeping threads wait for a counter above zero. *)
Lemma signal_elsewhere i :
  Monitor.owner (monitor l) = None \/ holds p = true /\ p <> DownNotify ->
  i ∈ Monitor.sleeping (monitor l) -> (0 < count_ l)%Z.
Proof.
  intros Ho Hm. destruct (inv_signal _ _ _ Hi i Hm) as [?|[? [j Hj]]]; [done|]. exfalso.
  destruct Ho as [Ho|[Ho Hnd]].
  - assert (Monitor.owner (monitor l) = Some j) by (apply Hi; eauto). congruence.
  - rewrite (holder_unique _ _ _ j th _ _ Hi Hj Hp eq_refl Ho) in Hj. congruence.
Qed.

Lemma latch_inv_taken :
  Monitor.owner (monitor l) = None -> holds p = false -> holds p' = true ->
  (p = WaitAsleep -> th ∉ Monitor.sleeping (monitor l)) -> passed p' = false -> counted p' = counted p ->
  inv count (mk (Monitor.mk (Some th) (Monitor.sleeping (monitor l))) (count_ l)) (<[th := p']> ps).
Proof.
  intros Ho E2 E3 E4 E5 E6. split; cbn.
  - eapply owner_move; [apply Hi|done|done|by rewrite E3].
  - intros i Hm. apply asleep_move; [|done]. intros E ->. by apply E4.
  - intros i Hm. left. eapply signal_elsewhere; [by left|done].
  - apply passed_move; [by rewrite E5|done].
  - apply count_move. by rewrite E6.
Qed.

Lemma inv_released :
  holds p = true -> holds p' = false -> passed p' = passed p -> counted p' = counted p ->
  p <> DownNotify -> inv count (set_monitor (Monitor.unlock (monitor l)) l) (<[th := p']> ps).
Proof.
  intros E1 E2 E3 E4 E5. split; cbn.
  - eapply owner_move; [apply Hi|done|by rewrite E2|by rewrite E2, E1].
  - intros i Hm. apply asleep_move; [by intros ->|done].
  - intros i Hm. left. eapply signal_elsewhere; [by right|done].
  - apply passed_move; [rewrite E3; by left|done].
  - apply count_move. by rewrite E4.
Qed.

(** A step with the mutex held throughout. *)
Lemma inv_held l' :
  holds p = true -> holds p' = true -> Monitor.owner (monitor l') = Monitor.owner (monitor l) ->
  Monitor.sleeping (monitor l') ⊆ Monitor.sleeping (monitor l) ->
  (forall i, i ∈ Monitor.sleeping (monitor l') -> (0 < count_ l')%Z \/ count_ l' = 0%Z /\ p' = DownNotify) ->
  (passed p' = true -> passed p = true \/ (count_ l' <= 0)%Z) -> (count_ l' <= count_ l)%Z ->
  (count_ l' + (if counted p' then 1 else 0) = count_ l + (if counted p then 1 else 0))%Z ->
  inv count l' (<[th := p']> ps).
Proof.
  intros E1 E2 Ho Hsub Hsig Hpass Hle Hn. split.
  - eapply owner_move; [apply Hi|done|congruence|]. rewrite E2, Ho. apply Hi; eauto.
  - intros i Hm%Hsub. apply asleep_move; [by intros ->|done].
  - intros i Hm. destruct (Hsig i Hm) as [?|[? ->]]; [by left|]. right. split; [done|].
    exists th. apply list_lookup_insert_eq. by eapply lookup_lt_Some.
  - by apply passed_move.
  - by apply count_move.
Qed.

(** wait() gives the mutex back and sleeps. *)
Lemma inv_asleep :
  p = WaitTest -> (0 < count_ l)%Z ->
  inv count (set_monitor (Monitor.wait th (monitor l)) l) (<[th := WaitAsleep]> ps).
Proof.
  intros E Hc. split; cbn.
  - eapply owner_move; [apply Hi|done|done|by rewrite E].
  - intros i [->%elem_of_singleton|Hm]%elem_of_union.
    + apply list_lookup_insert_eq. by eapply lookup_lt_Some.
    + rewrite list_lookup_insert_ne; [by apply Hi|]. intros <-.
      pose proof (inv_sleeping _ _ _ Hi th Hm). congruence.
  - intros i _. by left.
  - intros i q Hq Hpq. destruct (decide (i = th)) as [->|Hne].
    + rewrite list_lookup_insert_eq in Hq by (by eapply lookup_lt_Some). by injection Hq as <-.
    + rewrite list_lookup_insert_ne in Hq by done. by eapply Hi.
  - pose proof (inv_count _ _ _ Hi). pose proof (number_insert counted ps th p WaitAsleep Hp).
    rewrite E in *. cbn in *. lia.
Qed.

Lemma inv_thread_step l' : thread_step th p l = Some (p', l') -> inv count l' (<[th := p']> ps).
Proof.
  intros Hs. apply thread_step_cases in Hs.
  destruct Hs as [(E1 & E2 & E3 & E4 & E5 & E6 & ->)|[(E1 & E2 & E3 & E4 & E5 & ->)|Hs]].
  { by apply latch_inv_taken. }
  { by apply inv_released. }
  destruct Hs as [(Ep & Ep' & E1 & ->)|Hs]; [rewrite Ep'; by apply inv_asleep|].
  assert (forall i, i ∈ Monitor.sleeping (monitor l) -> holds p = true -> p <> DownNotify -> (0 < count_ l)%Z)
    as Hpos by (intros i Hm Hh Hd; by apply (signal_elsewhere i); [right|]).
  destruct Hs as [(Ep & Ep' & E1 & E2)|[(Ep & Ep' & E2)|[(Ep & Ep' & E2)|(Ep & Ep' & E2)]]];
    rewrite Ep in Hpos; rewrite E2.
  - apply inv_held; rewrite ?Ep, ?Ep'; cbn; try done; try lia; auto. intros i Hm. left. by apply Hpos in Hm.
  - apply inv_held; rewrite ?Ep, ?Ep'; cbn; try done; try lia.
    intros i Hm. specialize (Hpos i Hm eq_refl ltac:(done)).
    destruct (Z.eq_dec (count_ l) 1%Z) as [->|]; [by right|left; lia].
  - destruct (Z.eqb_spec (count_ l) 0); apply inv_held; rewrite ?Ep, ?Ep'; cbn; try done; try lia; [set_solver..|].
    intros i Hm. left. destruct (inv_signal _ _ _ Hi i Hm) as [?|[? _]]; done.
  - apply inv_held; rewrite ?Ep, ?Ep'; cbn; try done; auto. intros i Hm. left. by apply Hpos in Hm.
Qed.
End move.

Lemma latch_inv_step count e s s' :
  step e s = Some s' -> inv count (latch s) (threads s) -> inv count (latch s') (threads s').
Proof.
  intros Hs Hi. destruct e as [th|th|p]; cbn in Hs.
  - destruct (threads s !! th) as [p|] eqn:Hp; [|done]; cbn in Hs.
    destruct (thread_step th p (latch s)) as [[p' l']|] eqn:Hstep; [|done]. injection Hs as <-.
    by eapply inv_thread_step.
  - injection Hs as <-. destruct Hi as [Ho Hsl Hsig Hpa Hc]. split; cbn; try done.
    + intros i Hm. apply Hsl. set_solver.
    + intros i Hm. apply (Hsig i). set_solver.
  - destruct (is_entry p) eqn:Hp; [|done]. injection Hs as <-. destruct Hi as [Ho Hsl Hsig Hpa Hc].
    apply bool_decide_eq_true in Hp.
    assert (holds p = false /\ passed p = false /\ counted p = false) as (E1 & E2 & E3)
      by (by destruct Hp as [->|[->| ->]]).
    split; cbn.
    + intros i. rewrite (Ho i). split; intros (q & Hq & Hh); exists q; split; try done.
      * by apply lookup_app_l_Some.
      * apply lookup_app_Some in Hq as [?|[_ Hq]]; [done|].
        apply list_lookup_singleton_Some in Hq as [_ <-]. congruence.
    + intros i Hm. by apply lookup_app_l_Some, Hsl.
    + intros i Hm. destruct (Hsig i Hm) as [?|[? [j Hj]]]; [by left|right].
      split; [done|]. exists j. by apply lookup_app_l_Some.
    + intros i q [Hq|[_ Hq]]%lookup_app_Some; [by eapply Hpa|].
      apply list_lookup_singleton_Some in Hq as [_ <-]. congruence.
    + rewrite number_app. cbn. rewrite E3. lia.
Qed.

Lemma latch_inv count s : reachable count s -> inv count (latch s) (threads s).
Proof. induction 1; [apply latch_inv_make|by eapply latch_inv_step]. Qed.

(** ** Progress *)

Definition returned (p : pc) : bool :=
  match p with Waited | CountedDown | Got _ => true | _ => false end.

Definition blocked (s : system) : Prop := forall th, step (Move th) s = None.

Lemma move_some s th p p' l' :
  threads s !! th = Some p -> thread_step th p (latch s) = Some (p', l') ->
  step (Move th) s = Some (mk_system l' (<[th := p']> (threads s))).
Proof. intros Hp Hs. cbn. rewrite Hp. cbn. by rewrite Hs. Qed.

(** A thread that holds the mutex can move. *)
Lemma holder_moves th p l : holds p = true -> is_Some (thread_step th p l).
Proof. destruct p; cbn; try done; intros _; repeat case_match; eauto. Qed.

(** When the mutex is free, only a thread that sleeps or has returned cannot. *)
Lemma free_moves th p l :
  Monitor.owner (monitor l) = None -> returned p = false ->
  thread_step th p l = None -> p = WaitAsleep /\ th ∈ Monitor.sleeping (monitor l).
Proof.
  intros Ho Hr Hs. destruct p; cbn in Hs; try done;
    unfold locking, unlocking, Monitor.return_from_wait, Monitor.lock in Hs; rewrite ?Ho in Hs; cbn in Hs; try done.
  - by destruct (0 <? count_ l)%Z.
  - destruct (decide (th ∈ Monitor.sleeping (monitor l))); done.
Qed.

(** No deadlock: when nothing moves any more, whoever has not returned waits
    for a counter that is above zero. *)
Lemma latch_deadlock_free count s :
  reachable count s -> blocked s ->
  forall th p, threads s !! th = Some p -> returned p = false -> p = WaitAsleep /\ (0 < count_ (latch s))%Z.
Proof.
  intros Hr Hb th p Hp Hret. pose proof (latch_inv _ _ Hr) as Hi.
  assert (forall i q, threads s !! i = Some q -> thread_step i q (latch s) = None) as Hnone.
  { intros i q Hq. specialize (Hb i). destruct (thread_step i q (latch s)) as [[p' l']|] eqn:E; [|done].
    by rewrite (move_some _ _ _ _ _ Hq E) in Hb. }
  assert (forall i q, threads s !! i = Some q -> holds q = false) as Hfree.
  { intros i q Hq. destruct (holds q) eqn:E; [|done].
    destruct (holder_moves i q (latch s) E) as [? Hm]. by rewrite (Hnone i q Hq) in Hm. }
  assert (Monitor.owner (monitor (latch s)) = None) as Ho.
  { destruct (Monitor.owner (monitor (latch s))) as [i|] eqn:E; [|done].
    apply (inv_owner _ _ _ Hi) in E as (q & Hq & Hh). by rewrite (Hfree i q Hq) in Hh. }
  destruct (free_moves th p (latch s) Ho Hret (Hnone th p Hp)) as [-> Hm]. split; [done|].
  destruct (inv_signal _ _ _ Hi th Hm) as [?|[_ [j Hj]]]; [done|]. by specialize (Hfree j _ Hj).
Qed.

(** ** Termination: how many steps a thread can still take *)

Definition weight (l : t) (th : thread) (p : pc) : nat :=
  match p with
  | WaitLock => 6
  | WaitTest => if (0 <? count_ l)%Z then 5 else 2
  | WaitAsleep =>
      if (0 <? count_ l)%Z then (if decide (th ∈ Monitor.sleeping (monitor l)) then 4 else 6) else 3
  | WaitUnlock => 1
  | DownLock => 4
  | DownCount => 3
  | DownNotify => 2
  | DownUnlock => 1
  | GetLock => 3
  | GetRead => 2
  | GetUnlock _ => 1
  | Waited | CountedDown | Got _ => 0
  end.

Fixpoint weigh (f : nat -> pc -> nat) (ps : list pc) : nat :=
  match ps with [] => 0 | p :: ps => f 0 p + weigh (fun th => f (S th)) ps end.

Definition measure (s : system) : nat := weigh (weight (latch s)) (threads s).

Lemma weigh_le f f' ps :
  (forall i p, ps !! i = Some p -> f' i p <= f i p) -> weigh f' ps <= weigh f ps.
Proof.
  revert f f'. induction ps as [|p ps IH]; intros f f' Hle; cbn; [done|].
  pose proof (Hle 0 p eq_refl). specialize (IH (fun i => f (S i)) (fun i => f' (S i)) (fun i q Hq => Hle (S i) q Hq)). lia.
Qed.

Lemma weigh_insert_lt f f' ps th p p' :
  ps !! th = Some p -> f' th p' < f th p -> (forall i q, i <> th -> f' i q <= f i q) ->
  weigh f' (<[th := p']> ps) < weigh f ps.
Proof.
  revert f f' th. induction ps as [|q ps IH]; intros f f' [|th] Hp Hlt Hle; simpl in *; [done..| |].
  - injection Hp as ->.
    assert (weigh (fun i => f' (S i)) ps <= weigh (fun i => f (S i)) ps)
      by (apply weigh_le; intros i q _; by apply Hle). lia.
  - pose proof (Hle 0 q ltac:(done)).
    specialize (IH (fun i => f (S i)) (fun i => f' (S i)) th Hp Hlt). cbn in IH.
    assert (forall i r, i <> th -> f' (S i) r <= f (S i) r) as Hle' by (intros; apply Hle; congruence).
    specialize (IH Hle'). lia.
Qed.

Lemma weigh_app f ps p : weigh f (ps ++ [p]) = weigh f ps + f (length ps) p.
Proof. revert f. induction ps as [|q ps IH]; intros f; cbn; [lia|]. rewrite IH. cbn. lia. Qed.

Ltac weights :=
  repeat match goal with
  | |- context [decide ?P] => destruct (decide P)
  | |- context [(0 <? ?n)%Z] => destruct (Z.ltb_spec 0 n)
  | |- context [(?n =? 0)%Z] => destruct (Z.eqb_spec n 0)
  end; cbn in *; try lia; try set_solver.

(** Every step of a thread lowers its own weight and nobody's else rises. *)
Lemma thread_step_weight th p l p' l' :
  thread_step th p l = Some (p', l') ->
  weight l' th p' < weight l th p /\ forall i q, i <> th -> weight l' i q <= weight l i q.
Proof.
  destruct l as [[o sl] n]. destruct p; cbn; try done;
    unfold locking, unlocking, Monitor.return_from_wait, Monitor.lock; cbn;
    repeat case_match; intros; simplify_eq/=; bool_hyps; (split; [|intros i q Hne; destruct q]); cbn; weights.
Qed.

Lemma move_measure th s s' : step (Move th) s = Some s' -> measure s' < measure s.
Proof.
  cbn. destruct (threads s !! th) as [p|] eqn:Hp; [|done]; cbn.
  destruct (thread_step th p (latch s)) as [[p' l']|] eqn:Hs; [|done]. intros [= <-].
  apply thread_step_weight in Hs as [Hlt Hle]. by eapply weigh_insert_lt.
Qed.

Lemma weigh_le_add f f' ps th k :
  (forall i q, i <> th -> f' i q <= f i q) -> (forall q, f' th q <= f th q + k) ->
  weigh f' ps <= weigh f ps + k.
Proof.
  revert f f' th. induction ps as [|p ps IH]; intros f f' th Hle Hth; cbn; [lia|]. destruct th as [|th].
  - assert (weigh (fun i => f' (S i)) ps <= weigh (fun i => f (S i)) ps)
      by (apply weigh_le; intros i q _; by apply Hle). specialize (Hth p). lia.
  - assert (forall i r, i <> th -> f' (S i) r <= f (S i) r) as Hle' by (intros; apply Hle; congruence).
    pose proof (IH (fun i => f (S i)) (fun i => f' (S i)) th Hle' Hth). pose proof (Hle 0 p ltac:(done)). lia.
Qed.

Lemma spurious_measure th s s' : step (Spurious th) s = Some s' -> measure s' <= measure s + 2.
Proof.
  destruct s as [[[o sl] n] ps]. intros [= <-]. apply (weigh_le_add _ _ _ th).
  - intros i q Hne. destruct q; cbn; weights.
  - intros q. destruct q; cbn; weights.
Qed.

Lemma call_measure p s s' : step (Call p) s = Some s' -> measure s' <= measure s + 6.
Proof.
  cbn. destruct (is_entry p) eqn:Hp; [|done]. intros [= <-]. unfold measure. cbn. rewrite weigh_app.
  apply bool_decide_eq_true in Hp. destruct Hp as [->|[->| ->]]; cbn; lia.
Qed.

(** ** Runs *)

Fixpoint run (es : list event) (s : system) : option system :=
  match es with [] => Some s | e :: es => step e s ≫= run es end.

(** The steps of threads, and what can make them more. *)
Fixpoint moves (es : list event) : nat :=
  match es with [] => 0 | Move _ :: es => S (moves es) | _ :: es => moves es end.
Fixpoint allowance (es : list event) : nat :=
  match es with
  | [] => 0 | Move _ :: es => allowance es
  | Spurious _ :: es => 2 + allowance es | Call _ :: es => 6 + allowance es
  end.

Lemma run_moves es s s' : run es s = Some s' -> moves es + measure s' <= allowance es + measure s.
Proof.
  revert s. induction es as [|e es IH]; intros s; cbn [run].
  - intros [= <-]. done.
  - destruct (step e s) as [s1|] eqn:E; [|done]. cbn [mbind option_bind]. intros H%IH.
    destruct e as [th|th|p]; cbn [moves allowance].
    + apply move_measure in E. lia.
    + apply spurious_measure in E. lia.
    + apply call_measure in E. lia.
Qed.

Lemma run_reachable count es s s' : run es s = Some s' -> reachable count s -> reachable count s'.
Proof.
  revert s. induction es as [|e es IH]; intros s; cbn [run]; [by intros [= <-]|].
  destruct (step e s) as [s1|] eqn:E; [|done]. cbn [mbind option_bind]. intros H Hr.
  eapply IH; [done|by eapply reach_step].
Qed.

(** Threads that called countDown(). *)
Definition down (p : pc) : bool := match p with DownLock | DownCount => true | _ => counted p end.

Lemma number_blocked count s :
  reachable count s -> blocked s -> number down (threads s) = number counted (threads s).
Proof.
  intros Hr Hb. pose proof (latch_deadlock_free count s Hr Hb) as Hd.
  induction (threads s) as [|p ps IH]; cbn; [done|].
  rewrite IH by (intros th q Hq; by apply (Hd (S th))).
  specialize (Hd 0 p eq_refl). destruct p; cbn in *; try done; by destruct (Hd eq_refl).
Qed.

(** C40  The latch: wait() returns only after [count] threads have counted down; all
    the calls together take a bounded number of steps however they are
    scheduled; and when nothing moves any more and countDown() was called
    [count] times, every call has returned. *)
Theorem latch_opens count es s :
  run es (mk_system (make count) []) = Some s ->
  (forall th, threads s !! th = Some Waited -> (count <= Z.of_nat (number counted (threads s)))%Z) /\
  moves es <= allowance es /\
  (blocked s -> (count <= Z.of_nat (number down (threads s)))%Z ->
   forall th p, threads s !! th = Some p -> returned p = true).
Proof.
  intros Hrun. assert (reachable count s) as Hr by (eapply run_reachable; [done|constructor]).
  pose proof (latch_inv _ _ Hr) as Hi. pose proof (inv_count _ _ _ Hi) as Hc. split_and!.
  - intros th Hth. pose proof (inv_passed _ _ _ Hi th _ Hth eq_refl). lia.
  - apply run_moves in Hrun. cbn in Hrun. lia.
  - intros Hb Hn th p Hp. rewrite (number_blocked count s Hr Hb) in Hn.
    destruct (returned p) eqn:E; [done|]. destruct (latch_deadlock_free count s Hr Hb th p Hp E) as [_ ?]. lia.
Qed.

Lemma latch_opens_witness :
  exists es s, run es (mk_system (make 1) []) = Some s /\ threads s = [Waited; CountedDown; Got 0] /\
    moves es <= allowance es.
Proof.
  set (es := [Call wait; Move 0; Move 0; Call countDown; Spurious 0; Move 0; Move 0; Move 1; Move 1; Move 1; Move 1;
              Move 0; Move 0; Move 0; Call getCount; Move 2; Move 2; Move 2]).
  destruct (run es (mk_system (make 1) [])) as [s|] eqn:E; [|by vm_compute in E].
  exists es, s. split; [done|]. split.
  - assert (threads <$> run es (mk_system (make 1) []) = Some [Waited; CountedDown; Got 0]) as H by (by vm_compute).
    rewrite E in H. by injection H.
  - apply (latch_opens 1 es s E).
Defined.

End CountDownLatch.
