(* ===== verification/Singleton.v ===== *)
(** * src/net/global.h: Singleton

    [GetInstance] makes the object on the first call, under a [std::once_flag].
    Calls are cut at every operation on the flag and on [instance_], for any
    number of threads.  The constructor of the object is not code of this class:
    whether it throws is part of a step, and it does not call [GetInstance]. *)

From S2P Require Import Prelude.

Module Singleton.

(** [std::once_flag]: nobody has returned from the function yet, call [n] is
    running it, or somebody has returned from it. *)
Inductive once_flag := Untouched | Active (n : nat) | Done.

(** Objects are numbered in the order in which they are made. *)
Record t := mk { flag : once_flag; instance_ : option nat; made : nat }.

Definition initial : t := mk Untouched None 0.

(** Where a call is: before [call_once], in the function, before and after the
    assignment, before the return. *)
Inductive pc := Entering | Constructing | Assigning (p : nat) | Leaving | Reading | Returned (r : option nat) | Thrown.

(** One step of call [n]; [None] when it waits for another one or has returned.
    A function that throws leaves the flag as it was. *)
Definition GetInstance (throws : bool) (n : nat) (p : pc) (s : t) : option (pc * t) :=
  match p with
  | Entering =>
      match flag s with
      | Untouched => Some (Constructing, mk (Active n) (instance_ s) (made s))
      | Active _ => None
      | Done => Some (Reading, s)
      end
  | Constructing =>
      if throws then Some (Thrown, mk Untouched (instance_ s) (made s))
      else Some (Assigning (made s), mk (flag s) (instance_ s) (S (made s)))
  | Assigning p => Some (Leaving, mk (flag s) (Some p) (made s))
  | Leaving => Some (Reading, mk Done (instance_ s) (made s))
  | Reading => Some (Returned (instance_ s), s)
  | Returned _ | Thrown => None
  end.

(** ** Any number of calls *)

Record system := mk_system { class : t; calls : list pc }.

Inductive event := Call | Move (throws : bool) (n : nat).

Definition step (e : event) (s : system) : option system :=
  match e with
  | Call => Some (mk_system (class s) (calls s ++ [Entering]))
  | Move throws n =>
      p ← calls s !! n;
      '(p, c) ← GetInstance throws n p (class s);
      Some (mk_system c (<[n := p]> (calls s)))
  end.

Inductive reachable : system -> Prop :=
| reach_initial : reachable (mk_system initial [])
| reach_step e s s' : reachable s -> step e s = Some s' -> reachable s'.

(** ** The invariant *)

(** What the state of a call says about the class. *)
Definition agrees (n : nat) (p : pc) (c : t) : Prop :=
  match p with
  | Entering | Thrown => True
  | Constructing => c = mk (Active n) None 0
  | Assigning p => p = 0 /\ c = mk (Active n) None 1
  | Leaving => c = mk (Active n) (Some 0) 1
  | Reading => c = mk Done (Some 0) 1
  | Returned r => r = Some 0 /\ c = mk Done (Some 0) 1
  end.

Definition inside (p : pc) : bool :=
  match p with Constructing | Assigning _ | Leaving => true | _ => false end.

Record inv (s : system) : Prop := {
  inv_calls n p : calls s !! n = Some p -> agrees n p (class s);
  inv_flag : match flag (class s) with
             | Untouched => class s = initial
             | Active n => exists p, calls s !! n = Some p /\ inside p = true
             | Done => class s = mk Done (Some 0) 1
             end;
}.

Lemma singleton_inv_initial : inv (mk_system initial []).
Proof. by split. Qed.

Lemma singleton_inv_move throws n p p' c c' ps :
  inv (mk_system c ps) -> ps !! n = Some p -> GetInstance throws n p c = Some (p', c') ->
  inv (mk_system c' (<[n := p']> ps)).
Proof.
  intros [Hcalls Hflag] Hp Hs. cbn in *. pose proof (lookup_lt_Some _ _ _ Hp) as Hlt.
  assert (agrees n p' c' /\ (flag c = Active n \/ flag c = Untouched \/ c' = c) /\
          match flag c' with Untouched => c' = initial | Active m => m = n /\ inside p' = true | Done => c' = mk Done (Some 0) 1 end)
    as (Hn & Hother & Hf).
  { pose proof (Hcalls n p Hp) as Ha. destruct p; cbn in Ha, Hs; dest; subst; cbn in *; simplify_eq/=; try by auto 10.
    - destruct (flag c) eqn:E; simplify_eq/=; rewrite ?Hflag; cbn; auto 10.
    - destruct throws; simplify_eq/=; auto 10. }
  split; cbn.
  - intros m q Hq. destruct (decide (m = n)) as [->|Hne].
    { rewrite list_lookup_insert_eq in Hq by done. by injection Hq as <-. }
    rewrite list_lookup_insert_ne in Hq by done. pose proof (Hcalls m q Hq) as Hm.
    destruct Hother as [Ho|[Ho| ->]]; [| |done]; destruct q; cbn in *; dest; subst; cbn in *; try done; congruence.
  - destruct (flag c') as [|m|]; [done| |done]. destruct Hf as [-> Hf].
    exists p'. by rewrite list_lookup_insert_eq.
Qed.

Lemma singleton_inv s : reachable s -> inv s.
Proof.
  induction 1 as [|[|throws n] [c ps] s' _ IH Hs]; [apply singleton_inv_initial| |].
  - injection Hs as <-. destruct IH as [Hcalls Hflag]. split; cbn in *.
    + intros n p [Hn|[_ Hn]]%lookup_app_Some; [by apply Hcalls|].
      by apply list_lookup_singleton_Some in Hn as [_ <-].
    + destruct (flag c) as [|n|]; [done| |done]. destruct Hflag as (p & Hp & Hi).
      exists p. by rewrite (lookup_app_l_Some _ _ _ _ Hp).
  - cbn in Hs. destruct (ps !! n) as [p|] eqn:Hp; [|done]. cbn in Hs.
    destruct (GetInstance throws n p c) as [[p' c']|] eqn:Hg; [|done]. injection Hs as <-.
    by eapply singleton_inv_move.
Qed.

(** ** How long it takes *)

Definition finished (p : pc) : bool := match p with Returned _ | Thrown => true | _ => false end.

(** The steps a call has left at most. *)
Definition left_of (p : pc) : nat :=
  match p with
  | Entering => 5 | Constructing => 4 | Assigning _ => 3 | Leaving => 2 | Reading => 1 | Returned _ | Thrown => 0
  end.

Fixpoint total (ps : list pc) : nat := match ps with [] => 0 | p :: ps => left_of p + total ps end.

Lemma total_bound ps : total ps <= 5 * length ps.
Proof. induction ps as [|p ps IH]; cbn [total length]; [lia|]. destruct p; cbn [left_of]; lia. Qed.

Lemma total_insert ps n p p' :
  ps !! n = Some p -> total (<[n := p']> ps) + left_of p = total ps + left_of p'.
Proof.
  revert n. induction ps as [|q ps IH]; intros [|n] Hp; simpl in *; [done..| |].
  - injection Hp as ->. lia.
  - specialize (IH n Hp). lia.
Qed.

Lemma move_decreases throws n s s' : step (Move throws n) s = Some s' -> total (calls s') < total (calls s).
Proof.
  cbn. destruct (calls s !! n) as [p|] eqn:Hp; [|done]. cbn.
  destruct (GetInstance throws n p (class s)) as [[p' c']|] eqn:Hg; [|done]. intros [= <-]. cbn.
  pose proof (total_insert _ _ _ p' Hp). assert (left_of p' < left_of p); [|lia].
  destruct p; cbn in Hg; repeat case_match; simplify_eq/=; lia.
Qed.

(** Some call can go on, whatever the constructor does. *)
Lemma somebody_moves throws s : inv s -> existsb (negb ∘ finished) (calls s) = true -> exists n, is_Some (step (Move throws n) s).
Proof.
  intros [Hcalls Hflag] (p & Hin & Hp)%existsb_exists.
  apply list_elem_of_In, list_elem_of_lookup in Hin as [n Hn].
  assert (forall m q, calls s !! m = Some q -> inside q = true -> is_Some (step (Move throws m) s)) as Hinside.
  { intros m q Hq Hi. cbn. rewrite Hq. cbn. destruct q; try done; cbn; destruct throws; eauto. }
  destruct (inside p) eqn:Hi; [exists n; by eapply Hinside|].
  destruct (flag (class s)) as [|m|] eqn:E.
  - exists n. cbn. rewrite Hn. cbn. destruct p; try done; cbn; rewrite ?E; eauto.
  - destruct Hflag as (q & Hq & Hiq). exists m. by eapply Hinside.
  - exists n. cbn. rewrite Hn. cbn. destruct p; try done; cbn; rewrite ?E; eauto.
Qed.

(** [k] moves. *)
Inductive moves : nat -> system -> system -> Prop :=
| moves_none s : moves 0 s s
| moves_one throws n s s' k s'' : step (Move throws n) s = Some s' -> moves k s' s'' -> moves (S k) s s''.

Lemma moves_reachable k s s' : moves k s s' -> reachable s -> reachable s'.
Proof. induction 1 as [|throws n s s' k s'' Hs _ IH]; [done|]. intros Hr. apply IH. by eapply reach_step. Qed.

Lemma moves_total k s s' : moves k s s' -> k + total (calls s') <= total (calls s).
Proof. induction 1 as [|throws n s s' k s'' Hs _ IH]; [done|]. pose proof (move_decreases _ _ _ _ Hs). lia. Qed.

(** ** The properties *)

(** However calls of GetInstance interleave and however often the constructor
    throws, one object is made at most, and every call that returns, returns it. *)
Theorem getInstance_one_object s :
  reachable s -> made (class s) <= 1 /\ forall n r, calls s !! n = Some (Returned r) -> r = Some 0.
Proof.
  intros [Hcalls Hflag]%singleton_inv. split; [|by intros n r Hn; apply Hcalls in Hn as [-> _]].
  destruct (flag (class s)) as [|n|].
  - rewrite Hflag. cbn. lia.
  - destruct Hflag as (p & Hp & Hi). apply Hcalls in Hp. destruct p; cbn in Hp; dest; try done;
      match goal with H : class s = _ |- _ => rewrite H end; cbn; lia.
  - by rewrite Hflag.
Qed.

(** Calls do not wait for each other forever: no run without new calls has more
    than five steps per call, and one that cannot go on has no call left. *)
Theorem getInstance_returns s k s' :
  reachable s -> moves k s s' ->
  k <= 5 * length (calls s) /\
  ((forall throws n, step (Move throws n) s' = None) -> Forall (fun p => finished p = true) (calls s')).
Proof.
  intros Hr Hm. split.
  - pose proof (moves_total _ _ _ Hm). pose proof (total_bound (calls s)). lia.
  - intros Hstuck. destruct (existsb (negb ∘ finished) (calls s')) eqn:E.
    + destruct (somebody_moves false s') as [n [s'' Hn]]; [|done|by rewrite Hstuck in Hn].
      apply singleton_inv. by eapply moves_reachable.
    + apply Forall_forall. intros p Hp. destruct (finished p) eqn:Ep; [done|].
      assert (existsb (negb ∘ finished) (calls s') = true) as Ht; [|congruence].
      apply existsb_exists. exists p. split; [by apply list_elem_of_In|]. cbn. by rewrite Ep.
Qed.

(** Two calls at once; the constructor throws in the first, and the second makes
    the object. *)
Example second_call_constructs :
  foldl (fun o e => s ← o; step e s) (Some (mk_system initial []))
    [Call; Call; Move false 0; Move true 0; Move false 1; Move false 1; Move false 1; Move false 1; Move false 1] =
  Some (mk_system (mk Done (Some 0) 1) [Thrown; Returned (Some 0)]).
Proof. reflexivity. Qed.

End Singleton.
