(* ===== verification/EventLoopThread.v ===== *)
(** * src/net/CurrentThread.h, src/net/CurrentThread.cc, src/net/Thread.h,
      src/net/Thread.cc, src/net/EventLoopThread.h, src/net/EventLoopThread.cc

    How a loop gets its thread.  The owner of an EventLoopThread and the thread
    it creates take turns at will; the latch of Thread::start is that of
    CountDownLatch.v and the loop is that of EventLoop.v, so that the functions
    here are their composition. *)

From S2P Require Import Prelude Bytes Text EventLoop CountDownLatch.

Module CurrentThread.

(** The thread-local [t_cachedTid] and what the kernel calls the thread; also
    the new cache. *)
Definition cacheTid (gettid t_cachedTid : Z) : Z :=
  if (t_cachedTid =? 0)%Z then gettid else t_cachedTid.

Definition tid (gettid t_cachedTid : Z) : Z * Z :=
  let cached := if (t_cachedTid =? 0)%Z then cacheTid gettid t_cachedTid else t_cachedTid in
  (cached, cached).

End CurrentThread.

Module Thread.

Record t := mk { start_ : bool; joined_ : bool; tid_ : Z; name_ : bytes }.

(** An atomic increment wraps around. *)
Definition increment (n : Z) : Z := ((n + 1 + 2 ^ 31) mod 2 ^ 32 - 2 ^ 31)%Z.

(** Also the new value of [numCreated_]. *)
Definition setDefaultName (numCreated_ : Z) (th : t) : t * Z :=
  let num := increment numCreated_ in
  (match name_ th with
   | [] => mk (start_ th) (joined_ th) (tid_ th) (str "Thread" ++ to_string num)
   | _ => th
   end, num).

Definition make (numCreated_ : Z) (name : bytes) : t * Z :=
  setDefaultName numCreated_ (mk false false 0 name).

Definition set_start (th : t) : t := mk true (joined_ th) (tid_ th) (name_ th).
Definition set_joined (th : t) : t := mk (start_ th) true (tid_ th) (name_ th).
Definition set_tid (v : Z) (th : t) : t := mk (start_ th) (joined_ th) v (name_ th).

(** ~Thread: whether the std::thread is detached. *)
Definition destroy (th : t) : bool := start_ th && negb (joined_ th).

End Thread.

Module EventLoopThread.

(** Where the owner is: in startLoop() and Thread::start(), after them, and in
    ~EventLoopThread. *)
Inductive owner_pc :=
| Constructed
| Starting            (* [start_] is set *)
| LatchWait           (* in [latch_.wait()] *)
| LockMutex | TestLoop | CondAsleep | ReadLoop | UnlockMutex (loop : bool)
| Returned (loop : bool)
| Exiting             (* [exiting_] is set *)
| Quitting | Waking | Joining
| Destroyed
| Crashed.            (* it used a loop that does not exist *)

(** Where the new thread is: in the lambda of Thread::start, then in
    threadFunc(). *)
Inductive child_pc :=
| NotCreated
| SetTid | CountDown
| Construct | Callback
| Lock | Publish | Notify | Unlock
| Looping
| Relock | Clear | Unlock2 | DestroyLoop
| Exited.

Record t := mk {
  loop_ : bool;                                  (** not [nullptr] *)
  exiting_ : bool;
  thread_ : Thread.t;
  latch_ : CountDownLatch.system;                (** of [thread_]; thread 0 waits, 1 counts down *)
  mutex_ : Monitor.t;                            (** with [cond_] *)
  callback_ : option (list EventLoop.call);      (** what it does with the loop *)
  owner : owner_pc;
  child : child_pc;
  loop : option EventLoop.t;                     (** the variable of threadFunc() *)
  called : bool;                                 (** the callback has been run *)
}.

Definition make (callback : option (list EventLoop.call)) (numCreated_ : Z) (name : bytes) : t :=
  mk false false (Thread.make numCreated_ name).1
     (CountDownLatch.mk_system (CountDownLatch.make 1) [CountDownLatch.WaitLock; CountDownLatch.DownLock])
     Monitor.make callback Constructed NotCreated None false.

Definition set_loop_ (v : bool) (s : t) : t :=
  mk v (exiting_ s) (thread_ s) (latch_ s) (mutex_ s) (callback_ s) (owner s) (child s) (loop s) (called s).
Definition set_exiting (v : bool) (s : t) : t :=
  mk (loop_ s) v (thread_ s) (latch_ s) (mutex_ s) (callback_ s) (owner s) (child s) (loop s) (called s).
Definition set_thread (v : Thread.t) (s : t) : t :=
  mk (loop_ s) (exiting_ s) v (latch_ s) (mutex_ s) (callback_ s) (owner s) (child s) (loop s) (called s).
Definition set_latch (v : CountDownLatch.system) (s : t) : t :=
  mk (loop_ s) (exiting_ s) (thread_ s) v (mutex_ s) (callback_ s) (owner s) (child s) (loop s) (called s).
Definition set_mutex (v : Monitor.t) (s : t) : t :=
  mk (loop_ s) (exiting_ s) (thread_ s) (latch_ s) v (callback_ s) (owner s) (child s) (loop s) (called s).
Definition set_owner (v : owner_pc) (s : t) : t :=
  mk (loop_ s) (exiting_ s) (thread_ s) (latch_ s) (mutex_ s) (callback_ s) v (child s) (loop s) (called s).
Definition set_child (v : child_pc) (s : t) : t :=
  mk (loop_ s) (exiting_ s) (thread_ s) (latch_ s) (mutex_ s) (callback_ s) (owner s) v (loop s) (called s).
Definition set_loop (v : option EventLoop.t) (s : t) : t :=
  mk (loop_ s) (exiting_ s) (thread_ s) (latch_ s) (mutex_ s) (callback_ s) (owner s) (child s) v (called s).
Definition set_called (v : bool) (s : t) : t :=
  mk (loop_ s) (exiting_ s) (thread_ s) (latch_ s) (mutex_ s) (callback_ s) (owner s) (child s) (loop s) v.

(** The two threads as the mutex knows them. *)
Definition OWNER : thread := 0.
Definition CHILD : thread := 1.

(** What another thread does with the loop; [None]: there is no loop. *)
Definition use_loop (f : EventLoop.t -> EventLoop.t) (s : t) : option t :=
  l ← loop s; Some (set_loop (Some (f l)) s).

(** startLoop(), Thread::start() and the destructor, with the two halves of
    EventLoop::quit(); [None]: it blocks, or it
    is not in one of them. *)
Definition owner_step (s : t) : option t :=
  match owner s with
  | Constructed => None
  | Starting => Some (set_owner LatchWait (set_child SetTid s))
  | LatchWait =>
      if decide (CountDownLatch.threads (latch_ s) !! OWNER = Some CountDownLatch.Waited)
      then Some (set_owner LockMutex s)
      else l ← CountDownLatch.step (CountDownLatch.Move OWNER) (latch_ s); Some (set_latch l s)
  | LockMutex => m ← Monitor.lock OWNER (mutex_ s); Some (set_owner TestLoop (set_mutex m s))
  | TestLoop =>
      if loop_ s then Some (set_owner ReadLoop s)
      else Some (set_owner CondAsleep (set_mutex (Monitor.wait OWNER (mutex_ s)) s))
  | CondAsleep => m ← Monitor.return_from_wait OWNER (mutex_ s); Some (set_owner TestLoop (set_mutex m s))
  | ReadLoop => Some (set_owner (UnlockMutex (loop_ s)) s)
  | UnlockMutex l => Some (set_owner (Returned l) (set_mutex (Monitor.unlock (mutex_ s)) s))
  | Returned _ => None
  | Exiting => Some (set_owner (if loop_ s then Quitting else Destroyed) s)
  | Quitting =>
      match use_loop EventLoop.quit s with
      | Some s => Some (set_owner Waking s)
      | None => Some (set_owner Crashed s)
      end
  | Waking =>
      match use_loop EventLoop.wakeup s with
      | Some s => Some (set_owner Joining (set_thread (Thread.set_joined (thread_ s)) s))
      | None => Some (set_owner Crashed s)
      end
  | Joining => match child s with Exited => Some (set_owner Destroyed s) | _ => None end
  | Destroyed | Crashed => None
  end.

(** The new thread; [gettid] is its number and [chs] what the poller reports
    when the loop asks. *)
Definition child_step (gettid : Z) (chs : list EventLoop.active) (s : t) : option t :=
  match child s with
  | NotCreated => None
  | SetTid => Some (set_child CountDown (set_thread (Thread.set_tid (CurrentThread.tid gettid 0).1 (thread_ s)) s))
  | CountDown =>
      if decide (CountDownLatch.threads (latch_ s) !! CHILD = Some CountDownLatch.CountedDown)
      then Some (set_child Construct s)
      else l ← CountDownLatch.step (CountDownLatch.Move CHILD) (latch_ s); Some (set_latch l s)
  | Construct => Some (set_child Callback (set_loop (Some EventLoop.make) s))
  | Callback =>
      Some (set_child Lock
              (match callback_ s with
               | Some body => set_called true (set_loop (EventLoop.exec body <$> loop s) s)
               | None => s
               end))
  | Lock => m ← Monitor.lock CHILD (mutex_ s); Some (set_child Publish (set_mutex m s))
  | Publish => Some (set_child Notify (set_loop_ true s))
  | Notify => Some (set_child Unlock (set_mutex (Monitor.notify_one OWNER (mutex_ s)) s))
  | Unlock => Some (set_child Looping (set_mutex (Monitor.unlock (mutex_ s)) s))
  | Looping =>
      l ← loop s;
      match EventLoop.pc l with
      | EventLoop.Stopped => Some (set_child Relock s)
      | _ => l ← EventLoop.step (EventLoop.Loop chs) l; Some (set_loop (Some l) s)
      end
  | Relock => m ← Monitor.lock CHILD (mutex_ s); Some (set_child Clear (set_mutex m s))
  | Clear => Some (set_child Unlock2 (set_loop_ false s))
  | Unlock2 => Some (set_child DestroyLoop (set_mutex (Monitor.unlock (mutex_ s)) s))
  | DestroyLoop => Some (set_child Exited (set_loop None s))
  | Exited => None
  end.

Inductive event :=
| CallStartLoop
| CallDestructor
| Owner
| Child (chs : list EventLoop.active)
| SpuriousLatch | SpuriousCond
| Others (e : EventLoop.event).     (** posts to the loop, from any thread *)

Definition is_post (e : EventLoop.event) : bool :=
  match e with EventLoop.Loop _ | EventLoop.Before _ => false | _ => true end.

Section run.
Context (gettid : Z).

(** startLoop() is called once. *)
Definition step (e : event) (s : t) : option t :=
  match e with
  | CallStartLoop =>
      match owner s with
      | Constructed => Some (set_owner Starting (set_thread (Thread.set_start (thread_ s)) s))
      | _ => None
      end
  | CallDestructor =>
      match owner s with
      | Constructed | Returned _ => Some (set_owner Exiting (set_exiting true s))
      | _ => None
      end
  | Owner => owner_step s
  | Child chs => child_step gettid chs s
  | SpuriousLatch =>
      l ← CountDownLatch.step (CountDownLatch.Spurious OWNER) (latch_ s); Some (set_latch l s)
  | SpuriousCond => Some (set_mutex (Monitor.wake OWNER (mutex_ s)) s)
  | Others e =>
      if is_post e then l ← loop s; l ← EventLoop.step e l; Some (set_loop (Some l) s) else None
  end.

Inductive reachable (callback : option (list EventLoop.call)) : t -> Prop :=
| reach_make numCreated_ name : reachable callback (make callback numCreated_ name)
| reach_step e s s' : reachable callback s -> step e s = Some s' -> reachable callback s'.
End run.

#[local] Arguments CountDownLatch.step : simpl never.
#[local] Arguments EventLoop.step : simpl never.

(** ** The invariant *)

Definition owner_holds (o : owner_pc) : bool :=
  match o with TestLoop | ReadLoop | UnlockMutex _ => true | _ => false end.
Definition child_holds (c : child_pc) : bool :=
  match c with Publish | Notify | Unlock | Clear | Unlock2 => true | _ => false end.

(** [loop_] points at the loop. *)
Definition published (c : child_pc) : bool :=
  match c with Notify | Unlock | Looping | Relock | Clear => true | _ => false end.
(** [notify_one] was called. *)
Definition notified (c : child_pc) : bool :=
  match c with Unlock | Looping | Relock | Clear | Unlock2 | DestroyLoop | Exited => true | _ => false end.
(** The variable of threadFunc() exists. *)
Definition alive (c : child_pc) : bool :=
  match c with NotCreated | SetTid | CountDown | Construct | Exited => false | _ => true end.
(** [loop.loop()] has returned. *)
Definition left_loop (c : child_pc) : bool :=
  match c with Relock | Clear | Unlock2 | DestroyLoop | Exited => true | _ => false end.
Definition tid_set (c : child_pc) : bool :=
  match c with NotCreated | SetTid => false | _ => true end.
Definition called_back (c : child_pc) : bool :=
  match c with NotCreated | SetTid | CountDown | Construct | Callback => false | _ => true end.

Definition owner_inv (o : owner_pc) (start : bool) (c : child_pc) (p0 : CountDownLatch.pc) : Prop :=
  match o with
  | Constructed => start = false /\ c = NotCreated /\ p0 = CountDownLatch.WaitLock
  | Starting => start = true /\ c = NotCreated /\ p0 = CountDownLatch.WaitLock
  | LatchWait => start = true /\ c <> NotCreated
  | LockMutex | TestLoop | CondAsleep => start = true /\ p0 = CountDownLatch.Waited
  | UnlockMutex l | Returned l => start = true /\ p0 = CountDownLatch.Waited /\ published c = true /\ l = true
  | ReadLoop | Quitting | Waking | Joining => start = true /\ p0 = CountDownLatch.Waited /\ published c = true
  | Exiting =>
      start = false /\ c = NotCreated \/ start = true /\ p0 = CountDownLatch.Waited /\ published c = true
  | Destroyed => start = false /\ c = NotCreated
  | Crashed => False
  end.

Definition child_inv (c : child_pc) (p1 : CountDownLatch.pc) : Prop :=
  match c with
  | NotCreated | SetTid => p1 = CountDownLatch.DownLock
  | CountDown => CountDownLatch.down p1 = true
  | _ => p1 = CountDownLatch.CountedDown
  end.

(** The methods thread [p] may be in. *)
Definition waits (p : CountDownLatch.pc) : bool :=
  match p with
  | CountDownLatch.WaitLock | CountDownLatch.WaitTest | CountDownLatch.WaitAsleep
  | CountDownLatch.WaitUnlock | CountDownLatch.Waited => true
  | _ => false
  end.

Record inv (gettid : Z) (s : t) : Prop := {
  inv_latch : CountDownLatch.reachable 1 (latch_ s);
  inv_threads : exists p0 p1, CountDownLatch.threads (latch_ s) = [p0; p1] /\ waits p0 = true /\
    owner_inv (owner s) (Thread.start_ (thread_ s)) (child s) p0 /\ child_inv (child s) p1;
  inv_mutex : Monitor.owner (mutex_ s) =
    if owner_holds (owner s) then Some OWNER else if child_holds (child s) then Some CHILD else None;
  inv_exclusive : owner_holds (owner s) = true -> child_holds (child s) = false;
  inv_asleep th : th ∈ Monitor.sleeping (mutex_ s) ->
    th = OWNER /\ owner s = CondAsleep /\ notified (child s) = false;
  inv_loop_ : loop_ s = published (child s);
  inv_alive : alive (child s) = true -> exists l, loop s = Some l /\ EventLoop.unstoppable l;
  inv_looping : left_loop (child s) = false;
  inv_tid : tid_set (child s) = true -> Thread.tid_ (thread_ s) = gettid;
  inv_called : called s = called_back (child s) && bool_decide (is_Some (callback_ s));
}.

(** The latch of the two threads, before they are created. *)
Lemma latch_initial :
  CountDownLatch.reachable 1
    (CountDownLatch.mk_system (CountDownLatch.make 1) [CountDownLatch.WaitLock; CountDownLatch.DownLock]).
Proof.
  apply (CountDownLatch.run_reachable 1 [CountDownLatch.Call CountDownLatch.wait; CountDownLatch.Call CountDownLatch.countDown]
           (CountDownLatch.mk_system (CountDownLatch.make 1) [])); [done|constructor].
Qed.

Lemma thread_inv_make gettid callback numCreated_ name : inv gettid (make callback numCreated_ name).
Proof.
  split; cbn; try done; [apply latch_initial|].
  do 2 eexists. split_and!; try done. unfold Thread.make, Thread.setDefaultName. by destruct name.
Qed.

(** A thread stays in the method it is in. *)
Lemma waits_step th p l p' l' :
  CountDownLatch.thread_step th p l = Some (p', l') -> waits p = true -> waits p' = true.
Proof.
  destruct p; cbn; try done; unfold CountDownLatch.locking, CountDownLatch.unlocking;
    repeat case_match; intros; simplify_eq/=; try done; by (destruct (Monitor.lock _ _) || destruct (Monitor.return_from_wait _ _)); simplify_eq/=.
Qed.

Lemma down_step th p l p' l' :
  CountDownLatch.thread_step th p l = Some (p', l') -> CountDownLatch.down p = true -> CountDownLatch.down p' = true.
Proof.
  destruct p; cbn; try done; unfold CountDownLatch.locking, CountDownLatch.unlocking;
    intros; simplify_eq/=; try done. by destruct (Monitor.lock _ _); simplify_eq/=.
Qed.

Lemma latch_move_owner l l' p0 p1 :
  CountDownLatch.step (CountDownLatch.Move OWNER) l = Some l' ->
  CountDownLatch.threads l = [p0; p1] -> waits p0 = true ->
  exists p0', CountDownLatch.threads l' = [p0'; p1] /\ waits p0' = true.
Proof.
  intros Hs Ht Hw. unfold CountDownLatch.step in Hs. rewrite Ht in Hs. cbn in Hs.
  destruct (CountDownLatch.thread_step _ _ _) as [[p' l1]|] eqn:E; [|done]. injection Hs as <-.
  exists p'. split; [done|]. by eapply waits_step.
Qed.

Lemma latch_move_child l l' p0 p1 :
  CountDownLatch.step (CountDownLatch.Move CHILD) l = Some l' ->
  CountDownLatch.threads l = [p0; p1] -> CountDownLatch.down p1 = true ->
  exists p1', CountDownLatch.threads l' = [p0; p1'] /\ CountDownLatch.down p1' = true.
Proof.
  intros Hs Ht Hw. unfold CountDownLatch.step in Hs. rewrite Ht in Hs. cbn in Hs.
  destruct (CountDownLatch.thread_step _ _ _) as [[p' l1]|] eqn:E; [|done]. injection Hs as <-.
  exists p'. split; [done|]. by eapply down_step.
Qed.

(** When wait() has returned, the other thread has counted down. *)
Lemma waited_counted l p1 :
  CountDownLatch.reachable 1 l -> CountDownLatch.threads l = [CountDownLatch.Waited; p1] ->
  CountDownLatch.counted p1 = true.
Proof.
  intros Hr Ht. pose proof (CountDownLatch.latch_inv _ _ Hr) as Hi. rewrite Ht in Hi.
  pose proof (CountDownLatch.inv_passed _ _ _ Hi 0 _ eq_refl eq_refl) as Hp.
  pose proof (CountDownLatch.inv_count _ _ _ Hi) as Hc. cbn in Hc.
  destruct (CountDownLatch.counted p1); [done|lia].
Qed.

(** The owner does not notice what the thread does once it exists and as long
    as the loop is published. *)
Lemma owner_inv_child o start c c' p0 :
  owner_inv o start c p0 -> c <> NotCreated -> c' <> NotCreated ->
  (published c = true -> published c' = true) -> owner_inv o start c' p0.
Proof. destruct o; cbn; naive_solver. Qed.

(** Fields that a step leaves alone; nobody sleeps who is not said to. *)
Ltac keep :=
  split; cbn; try done;
  try (match goal with H : Monitor.sleeping _ = ∅ |- _ => rewrite H end; by intros ? ?%not_elem_of_empty).

Lemma thread_inv_owner gettid s s' : owner_step s = Some s' -> inv gettid s -> inv gettid s'.
Proof.
  intros Hs [Il (p0 & p1 & Ht & Hw & Ho & Hc) Im Ie Ia Ip Iv Ig Iti Ica].
  destruct s as [lp ex th la mu cb o c l ca]. cbn in *. unfold owner_step in Hs. cbn in Hs.
  assert (o <> CondAsleep -> Monitor.sleeping mu = ∅) as Hempty.
  { intros Hne. apply set_eq. intros i. split; [|done]. intros Hi. by destruct (Ia i Hi) as (_ & ? & _). }
  destruct o; try done; cbn in *; try specialize (Hempty ltac:(done)).
  - (* Starting *) destruct Ho as (? & -> & ->). injection Hs as <-. keep.
    by exists CountDownLatch.WaitLock, p1.
  - (* LatchWait *) destruct (decide _) as [Hd|Hd].
    + injection Hs as <-. keep. exists p0, p1. rewrite Ht in Hd. cbn in Hd. injection Hd as ->. naive_solver.
    + destruct (CountDownLatch.step _ la) as [l'|] eqn:E; [|done]. injection Hs as <-. keep.
      * by eapply CountDownLatch.reach_step.
      * destruct (latch_move_owner _ _ _ _ E Ht Hw) as (p0' & ? & ?). exists p0', p1. done.
  - (* LockMutex *) unfold Monitor.lock in Hs. rewrite Im in Hs.
    destruct (child_holds c) eqn:Eh; [done|]. cbn in Hs. injection Hs as <-. keep. by exists p0, p1.
  - (* TestLoop *) specialize (Ie eq_refl). destruct lp; injection Hs as <-; keep.
    + exists p0, p1. naive_solver.
    + by exists p0, p1.
    + by rewrite Ie.
    + rewrite Hempty. intros i [->%elem_of_singleton|]%elem_of_union; [|set_solver]. by destruct c.
  - (* CondAsleep *) unfold Monitor.return_from_wait in Hs. destruct (decide _) as [|Hd]; [done|].
    unfold Monitor.lock in Hs. rewrite Im in Hs.
    destruct (child_holds c) eqn:Eh; [done|]. cbn in Hs. injection Hs as <-. keep; [by exists p0, p1|].
    intros i Hi. destruct (Ia i Hi) as (-> & _). done.
  - (* ReadLoop *) injection Hs as <-. keep. exists p0, p1. naive_solver.
  - (* UnlockMutex *) specialize (Ie eq_refl). injection Hs as <-. keep; [by exists p0, p1|by rewrite Ie].
  - (* Exiting *) injection Hs as <-. destruct Ho as [[? ->]|(? & -> & Hp)].
    + rewrite Ip. keep. by exists p0, p1.
    + rewrite Ip, Hp. keep. by exists CountDownLatch.Waited, p1.
  - (* Quitting *) destruct Ho as (? & -> & Hp).
    destruct (Iv ltac:(by destruct c)) as (l0 & -> & Hu). cbn in Hs. injection Hs as <-. keep.
    + by exists CountDownLatch.Waited, p1.
    + intros _. eexists. split; [done|]. by apply EventLoop.unstoppable_quit_call.
  - (* Waking *) destruct Ho as (? & -> & Hp).
    destruct (Iv ltac:(by destruct c)) as (l0 & -> & Hu). cbn in Hs. injection Hs as <-. keep.
    + by exists CountDownLatch.Waited, p1.
    + intros _. eexists. split; [done|]. by apply EventLoop.unstoppable_wakeup.
  - (* Joining *) by destruct c.
Qed.

Lemma thread_inv_child gettid chs s s' : child_step gettid chs s = Some s' -> inv gettid s -> inv gettid s'.
Proof.
  intros Hs [Il (p0 & p1 & Ht & Hw & Ho & Hc) Im Ie Ia Ip Iv Ig Iti Ica].
  destruct s as [lp ex th la mu cb o c l ca]. cbn in *. unfold child_step in Hs. cbn in Hs.
  pose proof (fun c' => owner_inv_child o (Thread.start_ th) c c' p0 Ho) as Hoc.
  destruct c; try done; cbn in *.
  - (* SetTid *) injection Hs as <-. keep.
    exists p0, p1. split_and!; try done; [by apply Hoc|by rewrite Hc].
  - (* CountDown *) destruct (decide _) as [Hd|Hd].
    + injection Hs as <-. keep.
      * exists p0, p1. rewrite Ht in Hd. cbn in Hd. injection Hd as ->. split_and!; try done. by apply Hoc.
    + destruct (CountDownLatch.step _ la) as [l'|] eqn:E; [|done]. injection Hs as <-. keep.
      * by eapply CountDownLatch.reach_step.
      * destruct (latch_move_child _ _ _ _ E Ht Hc) as (p1' & ? & ?). by exists p0, p1'.
  - (* Construct *) injection Hs as <-. keep.
    + exists p0, p1. split_and!; try done. by apply Hoc.
    + intros _. eexists. split; [done|]. apply EventLoop.unstoppable_make.
  - (* Callback *) destruct (Iv eq_refl) as (l0 & -> & Hu).
    destruct cb as [body|]; injection Hs as <-; keep.
    + exists p0, p1. split_and!; try done. by apply Hoc.
    + intros _. eexists. split; [done|]. by apply EventLoop.unstoppable_exec.
    + exists p0, p1. split_and!; try done. by apply Hoc.
  - (* Lock *) unfold Monitor.lock in Hs. rewrite Im in Hs.
    destruct (owner_holds o) eqn:Eh; [done|]. cbn in Hs. injection Hs as <-. keep.
    + exists p0, p1. split_and!; try done. by apply Hoc.
    + by rewrite Eh.
    + by rewrite Eh.
  - (* Publish *) injection Hs as <-. keep. exists p0, p1. split_and!; try done. by apply Hoc.
  - (* Notify *) injection Hs as <-. keep.
    + exists p0, p1. split_and!; try done. by apply Hoc.
    + intros i Hi. exfalso. apply elem_of_difference in Hi as [Hi Hn].
      destruct (Ia i Hi) as (-> & _). set_solver.
  - (* Unlock *) injection Hs as <-. keep.
    + exists p0, p1. split_and!; try done. by apply Hoc.
    + destruct (owner_holds o); [|done]. by specialize (Ie eq_refl).
  - (* Looping *) destruct (Iv eq_refl) as (l0 & -> & Hu). cbn in Hs.
    assert (EventLoop.step (EventLoop.Loop chs) l0 ≫= (fun l => Some (set_loop (Some l) (mk lp ex th la mu cb o Looping (Some l0) ca))) = Some s') as Hs'
      by (destruct (EventLoop.pc l0) eqn:E; try done; by destruct (EventLoop.unstoppable_pc _ Hu)).
    destruct (EventLoop.step _ l0) as [l1|] eqn:E; [|done]. cbn in Hs'. injection Hs' as <-. keep.
    + by exists p0, p1.
    + intros _. exists l1. split; [done|]. by eapply EventLoop.unstoppable_step.
Qed.

Lemma thread_inv_step gettid e s s' : step gettid e s = Some s' -> inv gettid s -> inv gettid s'.
Proof.
  destruct e as [| | |chs| | |e]; cbn; intros Hs Hi; [| |by eapply thread_inv_owner|by eapply thread_inv_child|..].
  all: destruct Hi as [Il (p0 & p1 & Ht & Hw & Ho & Hc) Im Ie Ia Ip Iv Ig Iti Ica].
  all: destruct s as [lp ex th la mu cb o c l ca]; cbn in *.
  - (* CallStartLoop *) destruct o; try done. injection Hs as <-. keep.
    + exists p0, p1. naive_solver.
    + intros i Hi. by destruct (Ia i Hi) as (_ & ? & _).
  - (* CallDestructor *) destruct o; try done; injection Hs as <-; keep.
    all: try (intros i Hi; by destruct (Ia i Hi) as (_ & ? & _)).
    + exists p0, p1. naive_solver.
    + exists p0, p1. naive_solver.
  - (* SpuriousLatch *) injection Hs as <-. keep.
    + by eapply (CountDownLatch.reach_step _ (CountDownLatch.Spurious OWNER)).
    + by exists p0, p1.
  - (* SpuriousCond *) injection Hs as <-. keep; [by exists p0, p1|].
    intros i Hi. apply Ia. set_solver.
  - (* Others *) destruct (is_post e); [|done].
    destruct l as [l0|]; [|done]. cbn in Hs.
    destruct (EventLoop.step e l0) as [l1|] eqn:E; [|done]. cbn in Hs. injection Hs as <-. keep.
    + by exists p0, p1.
    + intros Ha. destruct (Iv Ha) as (? & [= <-] & Hu). exists l1. split; [done|]. by eapply EventLoop.unstoppable_step.
Qed.

Lemma thread_inv gettid callback s : reachable gettid callback s -> inv gettid s.
Proof. induction 1; [apply thread_inv_make|by eapply thread_inv_step]. Qed.

(** ** startLoop() returns *)

(** The owner is in startLoop(). *)
Definition starting (o : owner_pc) : bool :=
  match o with
  | Starting | LatchWait | LockMutex | TestLoop | CondAsleep | ReadLoop | UnlockMutex _ => true
  | _ => false
  end.

(** A step of the new thread outside [loop.loop()]. *)
Definition start_child (gettid : Z) (s : t) : option t :=
  match child s with Looping => None | _ => child_step gettid [] s end.

Definition owner_weight (loop sleeping : bool) (o : owner_pc) : nat :=
  match o with
  | Starting => 10
  | LatchWait => 9
  | LockMutex => 8
  | TestLoop => if loop then 3 else 6
  | CondAsleep => if loop then 4 else if sleeping then 5 else 7
  | ReadLoop => 2
  | UnlockMutex _ => 1
  | _ => 0
  end.

Definition child_weight (c : child_pc) : nat :=
  match c with
  | NotCreated => 9 | SetTid => 8 | CountDown => 7 | Construct => 6 | Callback => 5
  | Lock => 4 | Publish => 3 | Notify => 2 | Unlock => 1 | _ => 0
  end.

Definition budget (s : t) : nat :=
  owner_weight (loop_ s) (bool_decide (OWNER ∈ Monitor.sleeping (mutex_ s))) (owner s) +
  child_weight (child s) + CountDownLatch.measure (latch_ s).

Lemma budget_owner gettid s s' :
  inv gettid s -> starting (owner s) = true -> owner_step s = Some s' ->
  budget s' < budget s /\ (starting (owner s') = true \/ exists l, owner s' = Returned l).
Proof.
  intros Hi Hst Hs. pose proof (inv_threads _ _ Hi) as (p0 & p1 & Ht & Hw & Ho & Hc).
  destruct s as [lp ex th la mu cb o c l ca]. unfold owner_step in Hs. cbn in *.
  destruct o; try done; unfold budget; cbn.
  - destruct Ho as (_ & -> & _). injection Hs as <-. cbn. split; [lia|by left].
  - destruct (decide _) as [Hd|Hd].
    + injection Hs as <-. cbn. split; [lia|by left].
    + destruct (CountDownLatch.step _ la) as [l'|] eqn:E; [|done]. injection Hs as <-. cbn.
      apply CountDownLatch.move_measure in E. split; [lia|by left].
  - destruct (Monitor.lock _ _) as [m|]; [|done]. injection Hs as <-. cbn. split; [|by left].
    destruct lp; lia.
  - destruct lp; injection Hs as <-; cbn; (split; [|by left]); [lia|].
    rewrite bool_decide_eq_true_2 by set_solver. lia.
  - unfold Monitor.return_from_wait in Hs. destruct (decide _) as [|Hd]; [done|].
    destruct (Monitor.lock _ _) as [m|]; [|done]. injection Hs as <-. cbn. split; [|by left].
    rewrite (bool_decide_eq_false_2 _ Hd). destruct lp; lia.
  - injection Hs as <-. cbn. split; [lia|by left].
  - injection Hs as <-. cbn. split; [lia|by right; eexists].
Qed.

Lemma budget_child gettid s s' :
  inv gettid s -> start_child gettid s = Some s' ->
  budget s' < budget s /\ owner s' = owner s.
Proof.
  intros Hi Hs. pose proof (inv_looping _ _ Hi) as Hg. pose proof (inv_loop_ _ _ Hi) as Hl.
  pose proof (inv_asleep _ _ Hi OWNER) as Ha.
  destruct s as [lp ex th la mu cb o c l ca]. unfold start_child, child_step in Hs. cbn in *.
  destruct c; try done; unfold budget; cbn.
  - injection Hs as <-. cbn. split; [lia|done].
  - destruct (decide _) as [Hd|Hd].
    + injection Hs as <-. cbn. split; [lia|done].
    + destruct (CountDownLatch.step _ la) as [l'|] eqn:E; [|done]. injection Hs as <-. cbn.
      apply CountDownLatch.move_measure in E. split; [lia|done].
  - injection Hs as <-. cbn. split; [lia|done].
  - injection Hs as <-. destruct cb; cbn; (split; [lia|done]).
  - unfold Monitor.lock in Hs. destruct (Monitor.owner mu); [done|]. injection Hs as <-. cbn. split; [lia|done].
  - injection Hs as <-. rewrite Hl. cbn. split; [|done]. destruct o; cbn; try lia. case_match; lia.
  - injection Hs as <-. rewrite Hl. cbn. split; [|done]. destruct o; cbn; lia.
  - injection Hs as <-. cbn. split; [lia|done].
Qed.

(** The latch never blocks both of its threads while one waits. *)
Lemma latch_progress l p0 p1 :
  CountDownLatch.reachable 1 l -> CountDownLatch.threads l = [p0; p1] -> waits p0 = true ->
  CountDownLatch.down p1 = true ->
  p0 = CountDownLatch.Waited \/ is_Some (CountDownLatch.step (CountDownLatch.Move OWNER) l) \/
  p1 <> CountDownLatch.CountedDown /\ is_Some (CountDownLatch.step (CountDownLatch.Move CHILD) l).
Proof.
  intros Hr Ht Hw Hd. destruct (decide (p0 = CountDownLatch.Waited)) as [|Hnw]; [by left|right].
  destruct (CountDownLatch.step (CountDownLatch.Move OWNER) l) as [l'|] eqn:E0; [left; eauto|right].
  destruct (CountDownLatch.step (CountDownLatch.Move CHILD) l) as [l'|] eqn:E1.
  - split; [|eauto]. intros ->. unfold CountDownLatch.step in E1. rewrite Ht in E1. done.
  - exfalso. assert (CountDownLatch.blocked l) as Hb.
    { intros [|[|i]]; [done..|]. unfold CountDownLatch.step. by rewrite Ht. }
    destruct (CountDownLatch.latch_deadlock_free 1 l Hr Hb 0 p0) as [-> Hpos];
      [by rewrite Ht|by destruct p0|].
    pose proof (CountDownLatch.inv_count _ _ _ (CountDownLatch.latch_inv _ _ Hr)) as Hn. rewrite Ht in Hn. cbn in Hn.
    destruct (CountDownLatch.returned p1) eqn:Er; [destruct p1; cbn in *; try done; lia|].
    destruct (CountDownLatch.latch_deadlock_free 1 l Hr Hb 1 p1) as [-> _]; [by rewrite Ht|done|done].
Qed.

(** The thread moves on unless it is in the loop, waits for the mutex or counts
    the latch down. *)
Lemma child_moves gettid s :
  match child s with
  | NotCreated | CountDown | Looping | Exited => False
  | Callback | Construct | SetTid | Publish | Notify | Unlock | Clear | Unlock2 | DestroyLoop => True
  | Lock | Relock => Monitor.owner (mutex_ s) = None
  end -> is_Some (start_child gettid s).
Proof.
  unfold start_child, child_step, Monitor.lock.
  destruct (child s); intros H; try done; rewrite ?H; cbn; eauto.
Qed.

(** One of the two can move. *)
Lemma start_progress gettid s :
  inv gettid s -> starting (owner s) = true ->
  is_Some (owner_step s) \/ is_Some (start_child gettid s).
Proof.
  intros Hi Hst. pose proof Hi as [Il (p0 & p1 & Ht & Hw & Ho & Hc) Im Ie Ia Ip Iv Ig Iti Ica].
  assert (Monitor.owner (mutex_ s) = None \/ Monitor.owner (mutex_ s) <> None) as [Hfree|Hheld]
    by (destruct (Monitor.owner (mutex_ s)); auto).
  2: { destruct (owner_holds (owner s)) eqn:Eo.
       - left. unfold owner_step. destruct (owner s); try done; [|eauto..]. destruct (loop_ s); eauto.
       - right. apply child_moves. rewrite Im in Hheld. by destruct (child s). }
  unfold owner_step. destruct (owner s) eqn:Eo; try done; cbn in *; eauto.
  - (* in latch_.wait() *)
    assert (CountDownLatch.down p1 = true) as Hd by (destruct (child s); cbn in Hc; try done; by rewrite Hc).
    destruct (latch_progress _ _ _ Il Ht Hw Hd) as [->|[[l' E]|[Hne [l' E]]]].
    + left. rewrite Ht. cbn. eauto.
    + left. destruct (decide _); [eauto|]. rewrite E. cbn. eauto.
    + right. destruct (child s) eqn:Ec; try done; try (apply child_moves; rewrite Ec; done).
      * by destruct Ho.
      * unfold start_child, child_step. rewrite Ec. destruct (decide _); [eauto|]. rewrite E. cbn. eauto.
  - (* the mutex is free *) left. unfold Monitor.lock. rewrite Hfree. cbn. eauto.
  - left. destruct (loop_ s); eauto.
  - (* in cond_.wait() *)
    destruct Ho as (_ & ->). pose proof (waited_counted _ _ Il Ht) as Hcd.
    destruct (decide (OWNER ∈ Monitor.sleeping (mutex_ s))) as [Hs|Hs].
    + right. destruct (Ia _ Hs) as (_ & _ & Hnn).
      destruct (child s) eqn:Ec; try done; try (apply child_moves; rewrite Ec; done).
      * exfalso. cbn in Hc. by subst p1.
      * unfold start_child, child_step. rewrite Ec. destruct (decide _) as [|Hne]; [eauto|].
        unfold CountDownLatch.step. rewrite Ht in Hne |- *. cbn in Hne |- *.
        destruct p1; try done; cbn; eauto.
    + left. unfold Monitor.return_from_wait, Monitor.lock. rewrite Hfree.
      destruct (decide _); [done|]. cbn. eauto.
Qed.

Lemma thread_inv_start gettid s s' : start_child gettid s = Some s' -> inv gettid s -> inv gettid s'.
Proof.
  intros Hs. refine (thread_inv_child gettid [] s s' _).
  unfold start_child in Hs. destruct (child s); congruence.
Qed.

Lemma budget_bound gettid s : inv gettid s -> budget s <= 32.
Proof.
  intros Hi. pose proof (inv_threads _ _ Hi) as (p0 & p1 & Ht & _).
  assert (forall l th p, CountDownLatch.weight l th p <= 6) as Hw
    by (intros l th []; cbn; repeat case_match; lia).
  unfold budget, CountDownLatch.measure. rewrite Ht. cbn.
  pose proof (Hw (CountDownLatch.latch (latch_ s)) 0 p0). pose proof (Hw (CountDownLatch.latch (latch_ s)) 1 p1).
  assert (forall a b o, owner_weight a b o <= 10) as Ho by (intros [] [] []; cbn; lia).
  specialize (Ho (loop_ s) (bool_decide (OWNER ∈ Monitor.sleeping (mutex_ s))) (owner s)).
  destruct (child s); cbn; lia.
Qed.

(** The owner's place only changes by its own steps and the calls it makes. *)
Lemma child_owner gettid chs s s' : child_step gettid chs s = Some s' -> owner s' = owner s.
Proof.
  unfold child_step. intros Hs. destruct (child s); try done;
    try (apply bind_Some in Hs as (? & _ & Hs)); try (by simplify_eq/=).
  - destruct (decide _); [by simplify_eq/=|]. by apply bind_Some in Hs as (? & _ & [= <-]).
  - destruct (callback_ s); by simplify_eq/=.
  - destruct (EventLoop.pc _); try (by simplify_eq/=); by apply bind_Some in Hs as (? & _ & [= <-]).
Qed.

Lemma step_owner gettid e s s' :
  step gettid e s = Some s' -> owner s = Joining -> inv gettid s -> owner s' = Joining.
Proof.
  intros Hs Ho Hi. destruct e as [| | |chs| | |e]; cbn in Hs; rewrite ?Ho in Hs; try done.
  - unfold owner_step in Hs. rewrite Ho in Hs. pose proof (inv_looping _ _ Hi). by destruct (child s).
  - by rewrite (child_owner _ _ _ _ Hs).
  - by simplify_eq/=.
  - by simplify_eq/=.
  - destruct (is_post e); [|done]. apply bind_Some in Hs as (? & _ & Hs).
    by apply bind_Some in Hs as (? & _ & [= <-]).
Qed.

Fixpoint run_all (gettid : Z) (es : list event) (s : t) : option t :=
  match es with [] => Some s | e :: es => step gettid e s ≫= run_all gettid es end.

Lemma run_all_reachable gettid callback es s s' :
  run_all gettid es s = Some s' -> reachable gettid callback s -> reachable gettid callback s'.
Proof.
  revert s. induction es as [|e es IH]; intros s; cbn; [by intros [= <-]|].
  destruct (step gettid e s) as [s1|] eqn:E; [|done]. intros H Hr. eapply IH; [done|by eapply reach_step].
Qed.

(** How many steps of [es] are steps of one of the two threads outside
    [loop.loop()]; what the loop does, what others do with it and spurious
    wake-ups do not count. *)
Definition outside_loop (e : event) (s : t) : nat :=
  match e with
  | Owner => 1
  | Child _ => match child s with Looping => 0 | _ => 1 end
  | _ => 0
  end.

Fixpoint moves (gettid : Z) (es : list event) (s : t) : nat :=
  match es with
  | [] => 0
  | e :: es => outside_loop e s + match step gettid e s with Some s' => moves gettid es s' | None => 0 end
  end.

Fixpoint spurious (es : list event) : nat :=
  match es with [] => 0 | (SpuriousLatch | SpuriousCond) :: es => S (spurious es) | _ :: es => spurious es end.

Lemma budget_latch s l :
  CountDownLatch.measure l <= CountDownLatch.measure (latch_ s) + 2 -> budget (set_latch l s) <= budget s + 2.
Proof. unfold budget. cbn. lia. Qed.

Lemma budget_wake s : budget (set_mutex (Monitor.wake OWNER (mutex_ s)) s) <= budget s + 2.
Proof.
  unfold budget. cbn [loop_ owner child latch_ set_mutex mutex_].
  assert (forall b b', owner_weight (loop_ s) b (owner s) <= owner_weight (loop_ s) b' (owner s) + 2) as H
    by (intros [] []; destruct (loop_ s), (owner s); cbn; lia).
  specialize (H (bool_decide (OWNER ∈ Monitor.sleeping (Monitor.wake OWNER (mutex_ s))))
                (bool_decide (OWNER ∈ Monitor.sleeping (mutex_ s)))). lia.
Qed.

(** A step of the loop leaves the budget alone. *)
Lemma budget_looping gettid chs s s' :
  child s = Looping -> child_step gettid chs s = Some s' -> budget s' = budget s.
Proof.
  intros Hc Hs. unfold child_step in Hs. rewrite Hc in Hs. unfold budget.
  apply bind_Some in Hs as (l & _ & Hs).
  destruct (EventLoop.pc l); try (by simplify_eq/=; rewrite Hc);
    apply bind_Some in Hs as (? & _ & [= <-]); done.
Qed.

Lemma budget_step gettid e s s' :
  inv gettid s -> starting (owner s) = true -> step gettid e s = Some s' ->
  outside_loop e s + budget s' <= budget s + 2 * spurious [e] /\
  (starting (owner s') = true \/ exists l, owner s' = Returned l).
Proof.
  intros Hi Hst Hs. destruct e as [| | |chs| | |e]; cbn [step] in Hs.
  - by destruct (owner s).
  - by destruct (owner s).
  - destruct (budget_owner _ _ _ Hi Hst Hs). cbn. split; [lia|done].
  - rewrite (child_owner _ _ _ _ Hs). split; [|by left].
    assert (child s = Looping \/ child s <> Looping) as [Hc|Hc] by (destruct (child s); auto).
    + rewrite (budget_looping _ _ _ _ Hc Hs). cbn. rewrite Hc. lia.
    + assert (start_child gettid s = Some s') as Hs'
        by (unfold start_child, child_step in *; destruct (child s); done).
      destruct (budget_child _ _ _ Hi Hs'). cbn. destruct (child s); lia.
  - apply bind_Some in Hs as (l & Hl%CountDownLatch.spurious_measure & [= <-]).
    split; [|by left]. cbn. pose proof (budget_latch s l Hl). lia.
  - injection Hs as <-. split; [|by left]. cbn. pose proof (budget_wake s). lia.
  - destruct (is_post e); [|done]. apply bind_Some in Hs as (? & _ & Hs).
    apply bind_Some in Hs as (? & _ & [= <-]). split; [unfold budget; cbn; lia|by left].
Qed.

(** While startLoop() has not returned. *)
Lemma starting_run gettid es s s' :
  inv gettid s -> starting (owner s) = true -> run_all gettid es s = Some s' ->
  (exists es1 es2 s1 l, es = es1 ++ es2 /\ run_all gettid es1 s = Some s1 /\ inv gettid s1 /\ owner s1 = Returned l) \/
  (starting (owner s') = true /\ inv gettid s' /\ moves gettid es s + budget s' <= budget s + 2 * spurious es).
Proof.
  revert s. induction es as [|e es IH]; intros s Hi Hst Hr; cbn in Hr.
  - injection Hr as <-. right. split_and!; [done..|]. cbn. lia.
  - destruct (step gettid e s) as [s1|] eqn:E; [|done]. cbn in Hr.
    destruct (budget_step _ _ _ _ Hi Hst E) as [Hb Ho].
    assert (inv gettid s1) as Hi1 by (by eapply thread_inv_step).
    destruct Ho as [Ho|[l Hl]].
    + destruct (IH s1 Hi1 Ho Hr) as [(es1 & es2 & s2 & l & -> & Hr1 & Hi2 & Hl)|(Hst' & Hi' & Hb')].
      * left. exists (e :: es1), es2, s2, l. cbn. by rewrite E.
      * right. split_and!; [done..|]. assert (spurious (e :: es) = spurious [e] + spurious es) as -> by (by destruct e).
        cbn [moves]. rewrite E. lia.
    + left. exists [e], es, s1, l. cbn. by rewrite E.
Qed.

(** ** Properties *)

(** Thread::start() has returned. *)
Definition started (o : owner_pc) : bool :=
  match o with
  | LockMutex | TestLoop | CondAsleep | ReadLoop | UnlockMutex _ | Returned _ => true
  | _ => false
  end.

(** Once Thread::start() has returned the number of the thread is known, and
    what startLoop() returns is never null: the loop exists and has been set up
    by the callback. *)
Theorem startLoop_ready gettid callback s :
  reachable gettid callback s ->
  (started (owner s) = true -> Thread.tid_ (thread_ s) = gettid) /\
  (forall l, owner s = Returned l ->
     l = true /\ is_Some (loop s) /\ called s = bool_decide (is_Some (callback_ s))).
Proof.
  intros Hr. pose proof (thread_inv _ _ _ Hr) as Hi.
  pose proof (inv_threads _ _ Hi) as (p0 & p1 & Ht & Hw & Ho & Hc). split.
  - intros Hs. apply Hi. assert (p0 = CountDownLatch.Waited) as -> by (destruct (owner s); naive_solver).
    pose proof (waited_counted _ _ (inv_latch _ _ Hi) Ht) as Hcd.
    destruct (child s); cbn in *; try done; by subst p1.
  - intros l El. rewrite El in Ho. destruct Ho as (_ & _ & Hp & ->). split; [done|]. split.
    + destruct (inv_alive _ _ Hi) as (el & -> & _); [by destruct (child s)|eauto].
    + rewrite (inv_called _ _ Hi). pose proof (inv_looping _ _ Hi). by destruct (child s).
Qed.

(** C28.  startLoop() returns, and with a loop: in every run that starts inside
    it, either it has returned non-null, or it is still running, one of the two
    threads can move outside [loop.loop()], and the two have made at most 32
    steps outside [loop.loop()], and two more for every spurious wake-up.
    Steps of the loop itself and what other threads do with it may come in
    between any number of times. *)
Theorem startLoop_returns gettid callback s es s' :
  reachable gettid callback s -> starting (owner s) = true -> run_all gettid es s = Some s' ->
  (exists es1 es2 s1, es = es1 ++ es2 /\ run_all gettid es1 s = Some s1 /\ owner s1 = Returned true) \/
  (starting (owner s') = true /\ moves gettid es s <= 32 + 2 * spurious es /\
   (is_Some (owner_step s') \/ is_Some (start_child gettid s'))).
Proof.
  intros Hr Hst He. pose proof (thread_inv _ _ _ Hr) as Hi. pose proof (budget_bound _ _ Hi).
  destruct (starting_run _ _ _ _ Hi Hst He) as [(es1 & es2 & s1 & l & -> & Hr1 & Hi1 & Hl)|(Hst' & Hi' & Hb)].
  - left. exists es1, es2, s1. pose proof (inv_threads _ _ Hi1) as (p0 & p1 & _ & _ & Ho & _).
    rewrite Hl in Ho |- *. by destruct Ho as (_ & _ & _ & ->).
  - right. split_and!; [done|lia|]. by apply start_progress.
Qed.

(** The destructor of an EventLoopThread that was started never returns: it
    waits for a thread whose loop cannot be stopped. *)
Theorem destructor_never_returns gettid callback s :
  reachable gettid callback s ->
  (forall es s', owner s = Joining -> run_all gettid es s = Some s' -> owner s' = Joining) /\
  (owner s = Destroyed -> Thread.start_ (thread_ s) = false).
Proof.
  intros Hr. pose proof (thread_inv _ _ _ Hr) as Hi. split.
  - intros es s'. clear Hr. revert s Hi. induction es as [|e es IH]; intros s Hi Ho; cbn; [by intros [= <-]|].
    destruct (step gettid e s) as [s1|] eqn:E; [|done]. cbn. intros H.
    apply (IH s1); [by eapply thread_inv_step|by eapply step_owner|done].
  - intros Ho. pose proof (inv_threads _ _ Hi) as (p0 & p1 & _ & _ & Hd & _). rewrite Ho in Hd. by destruct Hd.
Qed.

(** ** Sample runs *)

Definition sample_callback : option (list EventLoop.call) := Some [EventLoop.QueueInLoop 7 []].
Definition sample_make : t := make sample_callback 0 [].

(** The owner waits on the latch and on the condition variable, wakes up once
    for no reason, and gets its loop. *)
Definition sample_start : list event :=
  [CallStartLoop] ++ replicate 3 Owner ++ [SpuriousLatch] ++ replicate 8 (Child []) ++
  replicate 6 Owner ++ replicate 4 (Child []) ++ replicate 4 Owner.

Definition sample_started : t := default sample_make (run_all 42 sample_start sample_make).

Lemma sample_started_run : run_all 42 sample_start sample_make = Some sample_started.
Proof.
  assert (bool_decide (is_Some (run_all 42 sample_start sample_make)) = true) as [s Hs]%bool_decide_eq_true_1
    by (by vm_compute).
  unfold sample_started. by rewrite Hs.
Qed.

Lemma sample_started_reachable : reachable 42 sample_callback sample_started.
Proof. eapply run_all_reachable; [apply sample_started_run|apply reach_make]. Qed.

Lemma startLoop_ready_witness :
  owner sample_started = Returned true /\ Thread.tid_ (thread_ sample_started) = 42%Z /\
  is_Some (loop sample_started) /\ called sample_started = true.
Proof.
  assert (owner sample_started = Returned true) as Ho by (by vm_compute).
  destruct (startLoop_ready 42 sample_callback sample_started sample_started_reachable) as [Ht Hl].
  destruct (Hl true Ho) as (_ & ? & Hc).
  split_and!; [done|apply Ht; by rewrite Ho|done|]. rewrite Hc. by vm_compute.
Defined.

(** The child is in [loop.loop()] and makes a hundred steps there while the owner
    waits; the owner's own steps bring it home. *)
Definition sample_late : list event :=
  replicate 3 Owner ++ replicate 8 (Child []) ++ replicate 4 (Child []) ++
  mjoin (replicate 25 [Child []; Child []; Others (EventLoop.Post (9, [])); Child []; Child []]) ++ replicate 8 Owner.

Lemma startLoop_returns_witness :
  exists s s', run_all 42 [CallStartLoop] sample_make = Some s /\ starting (owner s) = true /\
    run_all 42 sample_late s = Some s' /\
    exists es1 es2 s1, sample_late = es1 ++ es2 /\ run_all 42 es1 s = Some s1 /\ owner s1 = Returned true.
Proof.
  eexists. eexists. split; [reflexivity|]. split; [reflexivity|]. split; [vm_compute; reflexivity|].
  destruct (startLoop_returns 42 sample_callback
              (set_owner Starting (set_thread (Thread.set_start (thread_ sample_make)) sample_make))
              sample_late _ ltac:(eapply reach_step with (e := CallStartLoop); [apply reach_make|reflexivity])
              eq_refl ltac:(vm_compute; reflexivity)) as [H|(H & _)]; [exact H|vm_compute in H; discriminate H].
Defined.

Definition sample_joining : t :=
  default sample_make (run_all 42 ([CallDestructor] ++ replicate 3 Owner ++ replicate 2 (Child [])) sample_started).

Lemma destructor_never_returns_witness :
  owner sample_joining = Joining /\
  forall es s', run_all 42 es sample_joining = Some s' -> owner s' = Joining.
Proof.
  assert (owner sample_joining = Joining) as Ho by (by vm_compute). split; [done|].
  assert (reachable 42 sample_callback sample_joining) as Hr.
  { apply (run_all_reachable _ _ ([CallDestructor] ++ replicate 3 Owner ++ replicate 2 (Child [])) sample_started);
      [|apply sample_started_reachable]. unfold sample_joining.
    assert (bool_decide (is_Some (run_all 42 ([CallDestructor] ++ replicate 3 Owner ++ replicate 2 (Child [])) sample_started)) = true)
      as [s Hs]%bool_decide_eq_true_1 by (by vm_compute).
    by rewrite Hs. }
  intros es s' Hs. exact (proj1 (destructor_never_returns 42 sample_callback sample_joining Hr) es s' Ho Hs).
Defined.

(** A functor that the callback queues does not wake the loop up: the loop goes
    to sleep in the poller with the functor pending. *)
Lemma init_functor_sleeps :
  exists s l, run_all 42 (replicate 2 (Child [])) sample_started = Some s /\ loop s = Some l /\
    EventLoop.pc l = EventLoop.Polling /\ EventLoop.pendingFunctors_ l = [(7, [])] /\
    EventLoop.wakeupFd_ l = 0%Z /\ EventLoop.waking l = 0.
Proof.
  set (o := run_all 42 (replicate 2 (Child [])) sample_started).
  assert ((fun l => (EventLoop.pc l, EventLoop.pendingFunctors_ l, EventLoop.wakeupFd_ l, EventLoop.waking l)) <$> (o ≫= loop) =
    Some (EventLoop.Polling, [(7, [])], 0%Z, 0)) as H by (by vm_compute).
  clearbody o. destruct o as [s|]; [|done]. cbn in H. destruct (loop s) as [l|] eqn:El; [|done].
  exists s, l. injection H as ? ? ? ?. done.
Qed.

End EventLoopThread.
