(* ===== verification/Acceptor.v ===== *)
(** * src/net/InetAddress.h, src/net/InetAddress.cc, src/net/Socket.h,
      src/net/Socket.cc, src/net/Acceptor.h, src/net/Acceptor.cc

    Addresses, the descriptors of the process with the calls of POSIX on them,
    and the acceptor: what it does with waiting connections, and what becomes of
    every descriptor, also when there are none left.  The rest of the process
    opens and closes descriptors too, also between the calls of the branch for
    EMFILE. *)

From S2P Require Import Prelude Bytes Text Channel.
From stdpp Require Import gmap.

Local Open Scope Z_scope.

(** [sockaddr_in]: the port and the address in network byte order. *)
Record sockaddr_in := mk_sockaddr { sin_port : Z; s_addr : Z }.

#[global] Instance sockaddr_eq_dec : EqDecision sockaddr_in.
Proof. solve_decision. Defined.

Module InetAddress.

Definition t : Type := sockaddr_in.

(** The two bytes change places: a little-endian host. *)
Definition htons (n : Z) : Z := n mod 256 * 256 + n / 256.
Definition ntohs : Z -> Z := htons.

Section text.
(** <arpa/inet.h>: addresses in network byte order from and to text. *)
Context (inet_pton : bytes -> option Z) (inet_ntop : Z -> bytes) (htonl : Z -> Z).

Definition INADDR_ANY : Z := 0.
Definition INADDR_LOOPBACK : Z := 2130706433.   (* 0x7f000001 *)

(** [InetAddress(port, loopbackOnly)] *)
Definition of_port (port : Z) (loopbackOnly : bool) : t :=
  mk_sockaddr (htons port) (htonl (if loopbackOnly then INADDR_LOOPBACK else INADDR_ANY)).

(** [InetAddress(ip, port)]: when the text is no address the zeros of memset
    stay. *)
Definition of_ip (ip : bytes) (port : Z) : t :=
  mk_sockaddr (htons port) (match inet_pton ip with Some a => a | None => 0 end).

Definition setSockAddr (addr : sockaddr_in) (a : t) : t := addr.

Definition toIp (a : t) : bytes := inet_ntop (s_addr a).
Definition toPort (a : t) : Z := ntohs (sin_port a).
Definition toIpPort (a : t) : bytes := toIp a ++ str ":" ++ to_string (toPort a).

Lemma ntohs_htons n : 0 <= n < 2 ^ 16 -> ntohs (htons n) = n.
Proof.
  intros Hn. unfold ntohs, htons.
  assert (0 <= n / 256 < 256) by (split; [apply Z.div_pos|apply Z.div_lt_upper_bound]; lia).
  rewrite (Z.add_comm (n mod 256 * 256)), Z_mod_plus_full, Z.div_add, (Z.mod_small (n / 256)), (Z.div_small (n / 256)) by lia.
  pose proof (Z.div_mod n 256). lia.
Qed.

Lemma toPort_of_ip ip port : 0 <= port < 2 ^ 16 -> toPort (of_ip ip port) = port.
Proof. apply ntohs_htons. Qed.

(** An address given as text is printed as it was given. *)
Lemma toIpPort_of_ip ip a port :
  0 <= port < 2 ^ 16 -> inet_pton ip = Some a -> inet_ntop a = ip ->
  toIpPort (of_ip ip port) = ip ++ str ":" ++ to_string port.
Proof.
  intros Hp Ha Hi. unfold toIpPort. rewrite toPort_of_ip by done.
  unfold toIp, of_ip. cbn. by rewrite Ha, Hi.
Qed.

(** Text that is no address means every address of the host. *)
Lemma of_bad_ip ip port : htonl 0 = 0 -> inet_pton ip = None -> of_ip ip port = of_port port false.
Proof. intros Hz Hp. unfold of_ip, of_port, INADDR_ANY. by rewrite Hp, Hz. Qed.

End text.
End InetAddress.

(** ** Descriptors *)

Module Posix.

(** The options of a socket that the code sets. *)
Inductive option_name := SO_REUSEADDR | SO_REUSEPORT | SO_KEEPALIVE | TCP_NODELAY.

Record options := mk_options { reuseAddr : bool; reusePort : bool; keepAlive : bool; noDelay : bool }.

#[global] Instance options_eq_dec : EqDecision options.
Proof. solve_decision. Defined.

Definition defaults : options := mk_options false false false false.

Definition set_option (name : option_name) (on : bool) (o : options) : options :=
  match name with
  | SO_REUSEADDR => mk_options on (reusePort o) (keepAlive o) (noDelay o)
  | SO_REUSEPORT => mk_options (reuseAddr o) on (keepAlive o) (noDelay o)
  | SO_KEEPALIVE => mk_options (reuseAddr o) (reusePort o) on (noDelay o)
  | TCP_NODELAY => mk_options (reuseAddr o) (reusePort o) (keepAlive o) on
  end.

(** A connection also has whether its writing side is shut down. *)
Inductive file :=
| Socket (local : option sockaddr_in) (listening : bool) (o : options)
| Connection (peer : sockaddr_in) (write_shut : bool) (o : options)
| DevNull
| Other.

#[global] Instance file_eq_dec : EqDecision file.
Proof. solve_decision. Defined.

Inductive errno := EBADF | ENOTSOCK | EINVAL | EMFILE | EAGAIN.

#[global] Instance errno_eq_dec : EqDecision errno.
Proof. solve_decision. Defined.

(** The table of the process, and the connections that wait to be accepted. *)
Record t := mk { table : gmap Z file; backlog : list sockaddr_in }.

Definition set_table (v : gmap Z file) (k : t) : t := mk v (backlog k).

Section calls.
(** RLIMIT_NOFILE, the files the process can open for reading by name, and
    the addresses that a socket with some options cannot have. *)
Context (limit : nat) (opens : bytes -> option file) (in_use : options -> sockaddr_in -> bool).

(** The lowest descriptor that is free. *)
Definition free (k : t) : option Z :=
  (fun p => p.2) <$> list_find (fun fd => table k !! fd = None) (Z.of_nat <$> seq 0 limit).

Definition alloc (f : file) (k : t) : option (Z * t) :=
  fd ← free k; Some (fd, set_table (<[fd := f]> (table k)) k).

(** -1 when there is no such file or no descriptor. *)
Definition open (path : bytes) (k : t) : Z * t :=
  match opens path with
  | Some f => match alloc f k with Some r => r | None => (-1, k) end
  | None => (-1, k)
  end.

(** Closing what is not open fails with EBADF. *)
Definition close (fd : Z) (k : t) : t := set_table (delete fd (table k)) k.

Definition socket (k : t) : Z * t :=
  match alloc (Socket None false defaults) k with Some r => r | None => (-1, k) end.

Definition bind (fd : Z) (a : sockaddr_in) (k : t) : t :=
  match table k !! fd with
  | Some (Socket None l o) => if in_use o a then k else set_table (<[fd := Socket (Some a) l o]> (table k)) k
  | _ => k
  end.

(** Listening on a socket that has no address gives it one with a free port;
    [None] stands for it. *)
Definition listen (fd : Z) (k : t) : t :=
  match table k !! fd with
  | Some (Socket local _ o) => set_table (<[fd := Socket local true o]> (table k)) k
  | _ => k
  end.

(** The call fails, with EBADF or ENOTSOCK, on what is no socket. *)
Definition setsockopt (fd : Z) (name : option_name) (on : bool) (k : t) : t :=
  match table k !! fd with
  | Some (Socket local l o) => set_table (<[fd := Socket local l (set_option name on o)]> (table k)) k
  | Some (Connection peer w o) => set_table (<[fd := Connection peer w (set_option name on o)]> (table k)) k
  | _ => k
  end.

(** shutdown(fd, SHUT_WR); [None]: -1. *)
Definition shutdown (fd : Z) (k : t) : option t :=
  match table k !! fd with
  | Some (Connection peer _ o) => Some (set_table (<[fd := Connection peer true o]> (table k)) k)
  | _ => None
  end.

(** accept4: the descriptor is needed before the queue is looked at. *)
Definition accept (fd : Z) (k : t) : errno + (Z * sockaddr_in * t) :=
  match table k !! fd with
  | None => inl EBADF
  | Some (Socket _ true _) =>
      match free k with
      | None => inl EMFILE
      | Some connfd =>
          match backlog k with
          | [] => inl EAGAIN
          | peer :: rest => inr (connfd, peer, mk (<[connfd := Connection peer false defaults]> (table k)) rest)
          end
      end
  | Some (Socket _ false _) => inl EINVAL
  | Some (Connection _ _ _) => inl EINVAL
  | Some _ => inl ENOTSOCK
  end.

End calls.
End Posix.

(** The class Socket: [sockfd_] is the socket. *)
Module Socket.

Section calls.
Context (limit : nat) (in_use : Posix.options -> sockaddr_in -> bool).

Definition bindAddress (sockfd_ : Z) (addr : InetAddress.t) (k : Posix.t) : Posix.t :=
  Posix.bind in_use sockfd_ addr k.
Definition listen (sockfd_ : Z) (k : Posix.t) : Posix.t := Posix.listen sockfd_ k.
Definition accept (sockfd_ : Z) (k : Posix.t) : Posix.errno + (Z * InetAddress.t * Posix.t) :=
  Posix.accept limit sockfd_ k.
Definition destroy (sockfd_ : Z) (k : Posix.t) : Posix.t := Posix.close sockfd_ k.

(** A failure is logged. *)
Definition shutdownWrite (sockfd_ : Z) (k : Posix.t) : Posix.t := default k (Posix.shutdown sockfd_ k).

(** What setsockopt returns is not looked at. *)
Definition setTcpNoDelay (sockfd_ : Z) (on : bool) (k : Posix.t) : Posix.t :=
  Posix.setsockopt sockfd_ Posix.TCP_NODELAY on k.
Definition setReuseAddr (sockfd_ : Z) (on : bool) (k : Posix.t) : Posix.t :=
  Posix.setsockopt sockfd_ Posix.SO_REUSEADDR on k.
Definition setReusePort (sockfd_ : Z) (on : bool) (k : Posix.t) : Posix.t :=
  Posix.setsockopt sockfd_ Posix.SO_REUSEPORT on k.
Definition setKeepAlive (sockfd_ : Z) (on : bool) (k : Posix.t) : Posix.t :=
  Posix.setsockopt sockfd_ Posix.SO_KEEPALIVE on k.
End calls.

End Socket.

(** src/net/util.h *)
Module Util.

(** The address that the other end of a descriptor has. *)
Definition getpeername (sockfd : Z) (k : Posix.t) : option sockaddr_in :=
  match Posix.table k !! sockfd with
  | Some (Posix.Connection peer _ _) => Some peer
  | _ => None
  end.

(** The structure is cleared first, and a failure is only logged. *)
Definition getPeerAddr (sockfd : Z) (k : Posix.t) : sockaddr_in :=
  default (mk_sockaddr 0 0) (getpeername sockfd k).

(** What getsockname(2) answers for a connection is up to the kernel. *)
Definition getLocalAddr (getsockname : Z -> Posix.t -> option sockaddr_in) (sockfd : Z) (k : Posix.t) : sockaddr_in :=
  default (mk_sockaddr 0 0) (getsockname sockfd k).

End Util.

Module Acceptor.

Record t := mk {
  acceptSocket_ : Z;
  acceptChannel_ : Channel.t;
  newConnectionCallback_ : bool;     (** it is set *)
  isListening_ : bool;
  idleFd_ : Z;
}.

Definition set_channel (v : Channel.t) (a : t) : t :=
  mk (acceptSocket_ a) v (newConnectionCallback_ a) (isListening_ a) (idleFd_ a).
Definition setNewConnectionCallback (a : t) : t :=
  mk (acceptSocket_ a) (acceptChannel_ a) true (isListening_ a) (idleFd_ a).
Definition set_listening (a : t) : t :=
  mk (acceptSocket_ a) (acceptChannel_ a) (newConnectionCallback_ a) true (idleFd_ a).
Definition set_idleFd (fd : Z) (a : t) : t :=
  mk (acceptSocket_ a) (acceptChannel_ a) (newConnectionCallback_ a) (isListening_ a) fd.

Section acceptor.
Context (limit : nat) (opens : bytes -> option Posix.file) (in_use : Posix.options -> sockaddr_in -> bool).

(** What other threads do to the descriptors between the calls of the branch
    for EMFILE. *)
Context (others : nat -> Posix.t -> Posix.t).

Definition createNonblocking (k : Posix.t) : Z * Posix.t := Posix.socket limit k.

Definition make (listenAddr : InetAddress.t) (reusePort : bool) (k : Posix.t) : t * Posix.t :=
  let '(fd, k) := createNonblocking k in
  let '(idle, k) := Posix.open limit opens (str "/dev/null") k in
  let k := Socket.setReuseAddr fd true k in
  let k := Socket.setReusePort fd reusePort k in
  (mk fd (Channel.make fd) false false idle, Socket.bindAddress in_use fd listenAddr k).

Definition listen (a : t) (k : Posix.t) : t * Posix.t :=
  let a := set_listening a in
  let k := Socket.listen (acceptSocket_ a) k in
  (set_channel (Channel.enableReading (acceptChannel_ a)) a, k).

(** Also: the connection handed to the callback. *)
Definition handleRead (a : t) (k : Posix.t) : t * Posix.t * option (Z * InetAddress.t) :=
  match Socket.accept limit (acceptSocket_ a) k with
  | inr (connfd, peerAddr, k) =>
      if newConnectionCallback_ a then (a, k, Some (connfd, peerAddr))
      else (a, Posix.close connfd k, None)
  | inl e =>
      if decide (e = Posix.EMFILE) then
        let k := others 0 (Posix.close (idleFd_ a) k) in
        let k := match Posix.accept limit (idleFd_ a) k with inr (_, _, k) => k | inl _ => k end in
        let k := Posix.close (idleFd_ a) (others 1 k) in
        let '(fd, k) := Posix.open limit opens (str "dev/null") (others 2 k) in
        (set_idleFd fd a, k, None)
      else (a, k, None)
  end.

(** ~Acceptor, and then its members. *)
Definition destroy (a : t) (k : Posix.t) : Posix.t :=
  let a := set_channel (Channel.remove (Channel.disableAll (acceptChannel_ a))) a in
  let k := Posix.close (idleFd_ a) k in
  Socket.destroy (acceptSocket_ a) k.

End acceptor.

(** ** The process: the acceptor, the owners of the connections it handed over
    and everybody else who has descriptors *)

Section process.
Context (limit : nat) (opens : bytes -> option Posix.file) (in_use : Posix.options -> sockaddr_in -> bool).

(** Where handleRead() is in the branch for EMFILE, when it is cut there. *)
Inductive emfile_pc := Outside | Closed | Accepted | ClosedTwice.

#[local] Instance emfile_pc_dec : EqDecision emfile_pc.
Proof. solve_decision. Defined.

Record process := mk_process {
  acceptor : t;
  kernel : Posix.t;
  given : list (Z * InetAddress.t);    (** handed over and not closed yet *)
  other : list Z;
  served : list InetAddress.t;         (** history: peers that were accepted *)
  arrived : list InetAddress.t;        (** history: peers that connected *)
  handed : list (Z * InetAddress.t);   (** history: what newConnectionCallback_ was called with *)
  closed : list (Z * InetAddress.t);   (** history: connections that their owners closed *)
  branch : emfile_pc;
  hit : bool;                          (** history: the second close() there closed somebody's file *)
}.

(** The calls of the branch, one by one. *)
Definition emfile_call (pc : emfile_pc) (a : t) (k : Posix.t) : t * Posix.t * emfile_pc :=
  match pc with
  | Outside => (a, Posix.close (idleFd_ a) k, Closed)
  | Closed => (a, match Posix.accept limit (idleFd_ a) k with inr (_, _, k) => k | inl _ => k end, Accepted)
  | Accepted => (a, Posix.close (idleFd_ a) k, ClosedTwice)
  | ClosedTwice => let '(fd, k) := Posix.open limit opens (str "dev/null") k in (set_idleFd fd a, k, Outside)
  end.

Inductive event :=
| Incoming (peer : InetAddress.t)
| Readable                  (* the poller calls handleRead(), and nobody else acts before it returns *)
| EmfileCall                (* the same when accept() fails with EMFILE, cut: one call of that branch *)
| OptionGiven (fd : Z) (name : Posix.option_name) (on : bool)   (* its owner calls setKeepAlive() or setTcpNoDelay() *)
| ShutdownGiven (fd : Z)    (* its owner calls shutdownWrite() *)
| CloseGiven (fd : Z)       (* the connection is destroyed *)
| OpenOther (path : bytes)
| CloseOther (fd : Z).

(** Others change the kernel. *)
Definition set_kernel (k : Posix.t) (s : process) : process :=
  mk_process (acceptor s) k (given s) (other s) (served s) (arrived s) (handed s) (closed s) (branch s) (hit s).

Definition readable (s : process) : process :=
  let '(a, k, c) := handleRead limit opens (fun _ k => k) (acceptor s) (kernel s) in
  let new := match c with Some c => [c] | None => [] end in
  mk_process a k (given s ++ new) (other s)
    (served s ++ take (length (Posix.backlog (kernel s)) - length (Posix.backlog k)) (Posix.backlog (kernel s)))
    (arrived s) (handed s ++ new) (closed s) (branch s) (hit s).

(** One call of the branch. *)
Definition emfile_inside (s : process) : process :=
  let '(a, k, pc) := emfile_call (branch s) (acceptor s) (kernel s) in
  mk_process a k (given s) (other s) (served s) (arrived s) (handed s) (closed s) pc
    (hit s || bool_decide (branch s = Accepted) && bool_decide (is_Some (Posix.table (kernel s) !! idleFd_ (acceptor s)))).

(** The branch is entered when accept() fails with EMFILE. *)
Definition emfile (s : process) : process :=
  if bool_decide (branch s = Outside) &&
     negb (match Socket.accept limit (acceptSocket_ (acceptor s)) (kernel s) with inl Posix.EMFILE => true | _ => false end)
  then s else emfile_inside s.

Definition step (e : event) (s : process) : process :=
  match e with
  | Incoming peer =>
      mk_process (acceptor s) (Posix.mk (Posix.table (kernel s)) (Posix.backlog (kernel s) ++ [peer]))
        (given s) (other s) (served s) (arrived s ++ [peer]) (handed s) (closed s) (branch s) (hit s)
  | Readable => match branch s with Outside => readable s | _ => s end
  | EmfileCall => emfile s
  | OptionGiven fd name on =>
      if decide (fd ∈ (given s).*1) then set_kernel (Posix.setsockopt fd name on (kernel s)) s else s
  | ShutdownGiven fd =>
      if decide (fd ∈ (given s).*1) then set_kernel (Socket.shutdownWrite fd (kernel s)) s else s
  | CloseGiven fd =>
      if decide (fd ∈ (given s).*1) then
        mk_process (acceptor s) (Posix.close fd (kernel s)) (filter (fun c => c.1 <> fd) (given s)) (other s)
          (served s) (arrived s) (handed s) (closed s ++ filter (fun c => c.1 = fd) (given s)) (branch s) (hit s)
      else s
  | OpenOther path =>
      let '(fd, k) := Posix.open limit opens path (kernel s) in
      mk_process (acceptor s) k (given s) (if decide (fd = -1) then other s else fd :: other s) (served s) (arrived s)
        (handed s) (closed s) (branch s) (hit s)
  | CloseOther fd =>
      if decide (fd ∈ other s) then
        mk_process (acceptor s) (Posix.close fd (kernel s)) (given s) (filter (fun x => x <> fd) (other s))
          (served s) (arrived s) (handed s) (closed s) (branch s) (hit s)
      else s
  end.

(** The server is set up while the process has the descriptors of [m], which
    are in range; the socket could be made. *)
Definition start (m : gmap Z Posix.file) (addr : InetAddress.t) (reusePort callback : bool) : process :=
  let '(a, k) := make limit opens in_use addr reusePort (Posix.mk m []) in
  let a := if callback then setNewConnectionCallback a else a in
  let '(a, k) := listen a k in
  mk_process a k [] (map_to_list m).*1 [] [] [] [] Outside false.

Inductive reachable : process -> Prop :=
| reach_start m addr reusePort callback :
    map_Forall (fun fd _ => 0 <= fd < Z.of_nat limit) m ->
    acceptSocket_ (acceptor (start m addr reusePort callback)) <> -1 ->
    reachable (start m addr reusePort callback)
| reach_step e s : reachable s -> reachable (step e s).

(** ** Ledgers: who owns which descriptor *)

Implicit Types (k : Posix.t) (l : list Z) (fd : Z).

Record ledger k l : Prop := {
  ledger_nodup : NoDup l;
  ledger_dom fd : is_Some (Posix.table k !! fd) <-> fd ∈ l;
  ledger_range fd : fd ∈ l -> 0 <= fd < Z.of_nat limit;
}.

#[local] Instance ledger_proper k : Proper ((≡ₚ) ==> iff) (ledger k).
Proof.
  intros l1 l2 E. split; intros [N D R]; split.
  1,4: by (rewrite <- E || rewrite E).
  1,3: intros fd; rewrite D; by rewrite E.
  - intros fd Hf. apply R. by rewrite E.
  - intros fd Hf. apply R. by rewrite <- E.
Qed.

Lemma ledger_closed k l fd : ledger k l -> fd ∉ l -> Posix.table k !! fd = None.
Proof. intros H Hf. apply eq_None_not_Some. by rewrite (ledger_dom _ _ H). Qed.

Lemma ledger_insert k l fd f b :
  ledger k l -> Posix.table k !! fd = None -> 0 <= fd < Z.of_nat limit ->
  ledger (Posix.mk (<[fd := f]> (Posix.table k)) b) (fd :: l).
Proof.
  intros [N D R] Hn Hr. split; cbn.
  - apply NoDup_cons. split; [|done]. rewrite <- D, Hn. by intros [? ?].
  - intros fd'. destruct (decide (fd' = fd)) as [->|Hne].
    + rewrite lookup_insert_eq. split; [intros; by left|eauto].
    + rewrite lookup_insert_ne by done. rewrite D. split; [by right|]. by intros [?|?]%elem_of_cons.
  - intros fd' [->|?]%elem_of_cons; [done|by apply R].
Qed.

Lemma ledger_update k l fd f b :
  ledger k l -> fd ∈ l -> ledger (Posix.mk (<[fd := f]> (Posix.table k)) b) l.
Proof.
  intros [N D R] Hf. split; cbn; try done. intros fd'. destruct (decide (fd' = fd)) as [->|Hne].
  - rewrite lookup_insert_eq. split; [done|eauto].
  - by rewrite lookup_insert_ne by done.
Qed.

Lemma ledger_backlog k l b : ledger k l -> ledger (Posix.mk (Posix.table k) b) l.
Proof. intros [N D R]. by split. Qed.

Lemma ledger_close k l fd : ledger k (fd :: l) -> ledger (Posix.close fd k) l.
Proof.
  intros [N D R]. apply NoDup_cons in N as [Hn N]. split; cbn; [done| |].
  - intros fd'. destruct (decide (fd' = fd)) as [->|Hne].
    + rewrite lookup_delete_eq. split; [by intros [? ?]|done].
    + rewrite lookup_delete_ne by done. rewrite D. split; [by intros [?|?]%elem_of_cons|by right].
  - intros fd' Hf. apply R. by right.
Qed.

Lemma close_closed k fd : Posix.table k !! fd = None -> Posix.close fd k = k.
Proof. intros H. unfold Posix.close, Posix.set_table. rewrite delete_id by done. by destruct k. Qed.

Lemma free_some k fd :
  Posix.free limit k = Some fd -> Posix.table k !! fd = None /\ 0 <= fd < Z.of_nat limit.
Proof.
  unfold Posix.free. intros H. apply fmap_Some in H as ([i fd'] & H & ->). cbn.
  apply list_find_Some in H as (Hl & Hn & _). split; [done|].
  apply list_lookup_fmap_Some in Hl as (n & -> & Hs). apply lookup_seq in Hs as [-> ?]. lia.
Qed.

Lemma free_none k fd :
  Posix.free limit k = None -> 0 <= fd < Z.of_nat limit -> is_Some (Posix.table k !! fd).
Proof.
  unfold Posix.free. intros H Hr. apply fmap_None, list_find_None in H. rewrite Forall_forall in H.
  apply not_eq_None_Some, (H fd). apply list_elem_of_fmap. exists (Z.to_nat fd). split; [lia|].
  apply elem_of_seq. lia.
Qed.

(** The only descriptor that is free is found. *)
Lemma free_only k fd :
  0 <= fd < Z.of_nat limit -> Posix.table k !! fd = None ->
  (forall fd', 0 <= fd' < Z.of_nat limit -> fd' <> fd -> is_Some (Posix.table k !! fd')) ->
  Posix.free limit k = Some fd.
Proof.
  intros Hr Hn Hall. destruct (Posix.free limit k) as [fd'|] eqn:E.
  - apply free_some in E as [Hn' Hr']. destruct (decide (fd' = fd)) as [->|Hne]; [done|].
    destruct (Hall fd' Hr' Hne) as [? ?]. congruence.
  - destruct (free_none _ fd E Hr) as [? ?]. congruence.
Qed.

Lemma open_cases path k fd k' :
  Posix.open limit opens path k = (fd, k') ->
  fd = -1 /\ k' = k \/
  exists f, Posix.free limit k = Some fd /\ k' = Posix.set_table (<[fd := f]> (Posix.table k)) k.
Proof.
  unfold Posix.open, Posix.alloc. destruct (opens path) as [f|]; [|by intros [= <- <-]; left].
  destruct (Posix.free limit k) as [fd'|] eqn:E; cbn; intros [= <- <-]; [|by left].
  right. by exists f.
Qed.

(** The descriptors of the idle file, if it is open. *)
Definition idle (a : t) : list Z := if decide (idleFd_ a = -1) then [] else [idleFd_ a].

(** Within the branch for EMFILE it is not. *)
Definition idle_now (s : process) : list Z := match branch s with Outside => idle (acceptor s) | _ => [] end.

Definition fds (s : process) : list Z :=
  acceptSocket_ (acceptor s) :: idle_now s ++ (given s).*1 ++ other s.

(** What another thread opens under the number of the idle file is no socket. *)
Definition no_socket (f : option Posix.file) : Prop := match f with Some (Posix.Socket _ _ _) => False | _ => True end.

Record inv (s : process) : Prop := {
  inv_ledger : ledger (kernel s) (fds s);
  inv_socket : exists local o, Posix.table (kernel s) !! acceptSocket_ (acceptor s) = Some (Posix.Socket local true o);
  inv_given c : c ∈ given s -> exists w o, Posix.table (kernel s) !! c.1 = Some (Posix.Connection c.2 w o);
  inv_served : served s ++ Posix.backlog (kernel s) = arrived s;
  inv_handed : if newConnectionCallback_ (acceptor s) then served s = (handed s).*2 else handed s = [];
  inv_owned : handed s ≡ₚ given s ++ closed s;
  inv_branch : branch s <> Outside -> no_socket (Posix.table (kernel s) !! idleFd_ (acceptor s));
}.

(** What handleRead does, when no other thread interferes. *)
Lemma handleRead_cases a k local o :
  Posix.table k !! acceptSocket_ a = Some (Posix.Socket local true o) ->
  handleRead limit opens (fun _ k => k) a k =
  match Posix.free limit k, Posix.backlog k with
  | None, _ =>
      let '(fd, k) := Posix.open limit opens (str "dev/null") (Posix.close (idleFd_ a) k) in
      (set_idleFd fd a, k, None)
  | Some _, [] => (a, k, None)
  | Some connfd, peer :: rest =>
      if newConnectionCallback_ a
      then (a, Posix.mk (<[connfd := Posix.Connection peer false Posix.defaults]> (Posix.table k)) rest, Some (connfd, peer))
      else (a, Posix.mk (Posix.table k) rest, None)
  end.
Proof.
  intros Hs. unfold handleRead, Socket.accept. unfold Posix.accept at 1. rewrite Hs.
  destruct (Posix.free limit k) as [connfd|] eqn:Ef.
  - destruct (Posix.backlog k) as [|peer rest]; [done|]. destruct (newConnectionCallback_ a); [done|].
    apply free_some in Ef as [Hn _]. unfold Posix.close, Posix.set_table. cbn. by rewrite delete_insert_id.
  - destruct (decide _) as [_|]; [|done].
    assert (Posix.accept limit (idleFd_ a) (Posix.close (idleFd_ a) k) = inl Posix.EBADF) as ->
      by (unfold Posix.accept; cbn; by rewrite lookup_delete_eq).
    rewrite close_closed; [done|]. cbn. apply lookup_delete_eq.
Qed.

Lemma ledger_idle k a l :
  ledger k (acceptSocket_ a :: idle a ++ l) -> ledger (Posix.close (idleFd_ a) k) (acceptSocket_ a :: l).
Proof.
  unfold idle. intros H. destruct (decide (idleFd_ a = -1)) as [E|E]; cbn in H.
  - rewrite close_closed; [done|]. rewrite E. apply (ledger_closed _ _ _ H).
    intros Hf. pose proof (ledger_range _ _ H _ Hf). lia.
  - apply ledger_close. by rewrite (Permutation_swap _ _ l).
Qed.

Lemma idle_apart k a l :
  ledger k (acceptSocket_ a :: idle a ++ l) -> idleFd_ a ∉ acceptSocket_ a :: l.
Proof.
  unfold idle. intros H. destruct (decide (idleFd_ a = -1)) as [E|E]; cbn in H.
  - rewrite E. intros Hf. pose proof (ledger_range _ _ H _ Hf). lia.
  - pose proof (ledger_nodup _ _ H) as Hn. rewrite (Permutation_swap _ _ l) in Hn.
    by apply NoDup_cons in Hn as [? _].
Qed.

(** A descriptor that is opened joins the ledger. *)
Lemma ledger_open path k l fd k' :
  ledger k l -> Posix.open limit opens path k = (fd, k') ->
  ledger k' ((if decide (fd = -1) then [] else [fd]) ++ l) /\
  (forall fd', fd' ∈ l -> Posix.table k' !! fd' = Posix.table k !! fd') /\ Posix.backlog k' = Posix.backlog k.
Proof.
  intros Hl [[-> ->]|(f & Hf & ->)]%open_cases; [done|].
  apply free_some in Hf as [Hn Hr]. destruct (decide (fd = -1)) as [->|]; [lia|].
  split_and!; [by apply ledger_insert| |done].
  intros fd' Hf'. cbn. rewrite lookup_insert_ne; [done|]. intros <-. apply Hl in Hf' as [? ?]. congruence.
Qed.

Lemma inv_readable s : inv s -> branch s = Outside -> inv (readable s).
Proof.
  intros [Hl [local [so Hs]] Hg Hv Hh Ho _] Hbr. destruct s as [a k g o sv ar ha cl br hi]. unfold fds, idle_now, readable in *.
  cbn in *. subst br. rewrite (handleRead_cases a k local so Hs).
  destruct (Posix.free limit k) as [connfd|] eqn:Ef.
  - apply free_some in Ef as [Hn Hr].
    destruct (Posix.backlog k) as [|peer rest] eqn:Eb.
    { cbn. rewrite Eb. cbn. rewrite !app_nil_r. split; cbn; try done; [by exists local, so|by rewrite Eb]. }
    destruct (newConnectionCallback_ a) eqn:Ec; cbn; rewrite ?app_nil_r.
    + replace (S (length rest) - length rest)%nat with 1%nat by lia. split; cbn; [| | | | | |done].
      * unfold fds, idle_now. cbn. rewrite fmap_app. cbn.
        rewrite (Permutation_app_comm (g.*1)), <- app_assoc, (app_assoc _ [connfd]). cbn.
        apply (ledger_insert _ _ connfd (Posix.Connection peer false Posix.defaults) rest) in Hl; [|done|done]. revert Hl.
        apply ledger_proper. solve_Permutation.
      * exists local, so. rewrite lookup_insert_ne; [done|]. intros ->. congruence.
      * intros c [Hc| ->%list_elem_of_singleton]%elem_of_app; cbn; [|do 2 eexists; apply lookup_insert_eq].
        rewrite lookup_insert_ne; [by apply Hg|]. intros ->. destruct (Hg c Hc) as (? & ? & ?). congruence.
      * rewrite <- app_assoc. cbn. by rewrite <- Hv.
      * rewrite Ec, fmap_app. cbn. by rewrite Hh, take_0.
      * rewrite Ho. solve_Permutation.
    + replace (S (length rest) - length rest)%nat with 1%nat by lia. split; cbn; try done.
      * by apply ledger_backlog.
      * by exists local, so.
      * rewrite <- app_assoc. cbn. by rewrite <- Hv.
      * by rewrite Ec.
  - destruct (Posix.open _ _ _ _) as [fd k'] eqn:Eo. cbn. rewrite !app_nil_r.
    pose proof (ledger_open _ _ _ _ _ (ledger_idle _ _ _ Hl) Eo) as (Hl' & Hsame & Hb). cbn in Hb.
    rewrite Hb, Nat.sub_diag. cbn. rewrite app_nil_r.
    assert (forall fd', fd' ∈ acceptSocket_ a :: g.*1 ++ o -> Posix.table k' !! fd' = Posix.table k !! fd') as Hsame'.
    { intros fd' Hf. rewrite Hsame by done. apply lookup_delete_ne. intros Heq.
      apply (idle_apart _ _ _ Hl). by rewrite Heq. }
    split; cbn; [| | | |done|done|done].
    + unfold fds, idle_now, idle. cbn. revert Hl'. apply ledger_proper. solve_Permutation.
    + exists local, so. rewrite Hsame'; [done|by left].
    + intros c Hc. rewrite Hsame'; [by apply Hg|]. right. apply elem_of_app. left. by apply list_elem_of_fmap_2.
    + by rewrite Hb.
Qed.

(** The parts of the ledger when the calls leave the kernel as it is. *)
Lemma inv_moved a k g o sv ar ha cl br hi br' hi' :
  inv (mk_process a k g o sv ar ha cl br hi) -> br <> Outside -> br' <> Outside ->
  inv (mk_process a k g o sv ar ha cl br' hi').
Proof. intros [Hl Hs Hg Hv Hh Ho Hbr] Hb Hb'. unfold fds, idle_now in *. split; cbn in *; destruct br, br'; try done; auto. Qed.

(** One call of the branch for EMFILE, while the others go on. *)
Lemma inv_emfile s : inv s -> hit (emfile s) = false -> inv (emfile s).
Proof.
  intros Hi. pose proof Hi as [Hl [local [so Hs]] Hg Hv Hh Ho Hbr]. unfold emfile.
  destruct (bool_decide (branch s = Outside) && _); [done|].
  destruct s as [a k g o sv ar ha cl br hi]. unfold fds, idle_now in *. cbn in *.
  assert (Hsame : forall fd, fd ∈ acceptSocket_ a :: g.*1 ++ o -> br = Outside ->
    Posix.table (Posix.close (idleFd_ a) k) !! fd = Posix.table k !! fd).
  { intros fd Hf ->. apply lookup_delete_ne. intros Heq. apply (idle_apart _ _ _ Hl). by rewrite Heq. }
  unfold emfile_inside. destruct br; cbn; intros Hhit.
  - split; cbn; [|exists local, so| |done|done|done|].
    + unfold fds, idle_now. cbn. by apply ledger_idle.
    + rewrite Hsame; [done|by left|done].
    + intros c Hc. rewrite Hsame; [by apply Hg| |done]. right. apply elem_of_app. left. by apply list_elem_of_fmap_2.
    + unfold no_socket. by rewrite lookup_delete_eq.
  - assert (match Posix.accept limit (idleFd_ a) k with inr (_, _, k) => k | inl _ => k end = k) as ->.
    { specialize (Hbr ltac:(done)). unfold Posix.accept. destruct (Posix.table k !! idleFd_ a) as [[| | |]|]; done. }
    by eapply inv_moved.
  - destruct (Posix.table k !! idleFd_ a) eqn:Et; [by rewrite (bool_decide_eq_true_2 (is_Some _)), orb_true_r in Hhit by eauto|].
    rewrite close_closed by done. by eapply inv_moved.
  - destruct (Posix.open _ _ _ _) as [fd k'] eqn:Eo. cbn.
    destruct (ledger_open _ _ _ _ _ Hl Eo) as (Hl' & Hsame' & Hb). cbn in Hl', Hsame'.
    split; cbn; [|exists local, so|..|done|done|done].
    + unfold fds, idle_now, idle. cbn. revert Hl'. apply ledger_proper. solve_Permutation.
    + rewrite Hsame'; [done|by left].
    + intros c Hc. rewrite Hsame'; [by apply Hg|]. right. apply elem_of_app. left. by apply list_elem_of_fmap_2.
    + by rewrite Hb.
Qed.

Lemma filter_fst {A} (g : list (Z * A)) fd :
  (filter (fun c => c.1 <> fd) g).*1 = filter (fun x => x <> fd) g.*1.
Proof.
  induction g as [|[x y] g IH]; [done|]. rewrite filter_cons, fmap_cons, filter_cons. cbn.
  destruct (decide (x <> fd)); cbn; by rewrite IH.
Qed.

Lemma remove_perm l fd : NoDup l -> fd ∈ l -> l ≡ₚ fd :: filter (fun x => x <> fd) l.
Proof.
  intros Hn Hf. apply list_elem_of_split in Hf as (l1 & l2 & ->).
  rewrite <- (Permutation_middle l1 l2 fd) in Hn |- *. apply NoDup_cons in Hn as [Hn _].
  rewrite filter_cons. destruct (decide (fd <> fd)); [done|]. apply perm_skip.
  assert (forall l, fd ∉ l -> filter (fun x => x <> fd) l = l) as Hfil.
  { clear. intros l Hl. induction l as [|x l IH]; [done|]. rewrite filter_cons.
    destruct (decide (x <> fd)) as [|Hx]; [by rewrite IH by set_solver|]. destruct Hx. set_solver. }
  by rewrite Hfil.
Qed.

(** A close by the owner of a descriptor that is in no other part of the
    ledger. *)
Lemma inv_close s fd g o cl :
  inv s -> fds s ≡ₚ fd :: acceptSocket_ (acceptor s) :: idle_now s ++ g.*1 ++ o -> (forall c, c ∈ g -> c ∈ given s) ->
  handed s ≡ₚ g ++ cl ->
  inv (mk_process (acceptor s) (Posix.close fd (kernel s)) g o (served s) (arrived s) (handed s) cl (branch s) (hit s)).
Proof.
  intros [Hl [local [so Hs]] Hg Hv Hh Ho Hbr] Hp Hsub Ho'. rewrite Hp in Hl.
  assert (forall fd', fd' ∈ acceptSocket_ (acceptor s) :: idle_now s ++ g.*1 ++ o ->
    Posix.table (Posix.close fd (kernel s)) !! fd' = Posix.table (kernel s) !! fd') as Hsame.
  { intros fd' Hf. apply lookup_delete_ne. intros ->. by apply ledger_nodup, NoDup_cons in Hl as [? _]. }
  split; cbn; [by apply ledger_close| | |done|done|done|].
  - exists local, so. rewrite Hsame; [done|by left].
  - intros c Hc. rewrite Hsame; [by apply Hg, Hsub|]. right.
    apply elem_of_app. right. apply elem_of_app. left. by apply list_elem_of_fmap_2.
  - intros Hb. specialize (Hbr Hb). destruct (decide (idleFd_ (acceptor s) = fd)) as [->|];
      [by rewrite lookup_delete_eq|by rewrite lookup_delete_ne].
Qed.

Lemma nodup_parts s : inv s -> NoDup (given s).*1 /\ NoDup (other s).
Proof.
  intros Hi. pose proof (ledger_nodup _ _ (inv_ledger _ Hi)) as Hn. unfold fds in Hn.
  apply NoDup_cons in Hn as [_ Hn]. apply NoDup_app in Hn as (_ & _ & Hn).
  apply NoDup_app in Hn as (? & _ & ?). done.
Qed.

(** Options and shutdowns of a connection leave the ledger as it is. *)
Lemma inv_connection s fd peer w o w' o' :
  inv s -> Posix.table (kernel s) !! fd = Some (Posix.Connection peer w o) ->
  inv (set_kernel (Posix.set_table (<[fd := Posix.Connection peer w' o']> (Posix.table (kernel s))) (kernel s)) s).
Proof.
  intros [Hl [local [so Hs]] Hg Hv Hh Ho Hbr] Hf. split; cbn; [|exists local, so|..|done|done|done|].
  - apply ledger_update; [done|]. apply (ledger_dom _ _ Hl). by rewrite Hf.
  - rewrite lookup_insert_ne; [done|]. intros ->. congruence.
  - intros c Hc. destruct (Hg c Hc) as (w1 & o1 & Hc'). destruct (decide (fd = c.1)) as [->|].
    + rewrite Hf in Hc'. injection Hc' as -> _ _. do 2 eexists. apply lookup_insert_eq.
    + exists w1, o1. by rewrite lookup_insert_ne.
  - intros Hb. destruct (decide (idleFd_ (acceptor s) = fd)) as [->|]; [by rewrite lookup_insert_eq|rewrite lookup_insert_ne by done; auto].
Qed.

Lemma inv_given_lookup s fd :
  inv s -> fd ∈ (given s).*1 -> exists peer w o, Posix.table (kernel s) !! fd = Some (Posix.Connection peer w o).
Proof.
  intros Hi (c & -> & Hc)%list_elem_of_fmap. destruct (inv_given _ Hi c Hc) as (w & o & H). eauto.
Qed.

Lemma filter_split (g : list (Z * InetAddress.t)) fd :
  g ≡ₚ filter (fun c => c.1 <> fd) g ++ filter (fun c => c.1 = fd) g.
Proof.
  induction g as [|c g IH]; [done|]. rewrite !filter_cons.
  destruct (decide (c.1 = fd)) as [E|E]; [rewrite decide_False by (intros H; by apply H)|rewrite decide_True by done].
  - rewrite <- Permutation_middle. by rewrite <- IH.
  - cbn. by rewrite <- IH.
Qed.

(** Opening by name gives no socket. *)
Context (opens_files : forall path f, opens path = Some f -> no_socket (Some f)).

Lemma inv_open path s : inv s -> inv (step (OpenOther path) s).
Proof.
  intros [Hl [local [so Hs]] Hg Hv Hh Ho Hbr]. cbn. destruct (Posix.open _ _ _ _) as [fd k'] eqn:Eo.
  destruct (ledger_open _ _ _ _ _ Hl Eo) as (Hl' & Hsame & Hb). split; cbn; [| | | |done|done|].
  - revert Hl'. apply ledger_proper. unfold fds, idle_now. cbn. destruct (decide (fd = -1)); cbn; [done|]. solve_Permutation.
  - exists local, so. rewrite Hsame; [done|by left].
  - intros c Hc. rewrite Hsame; [by apply Hg|]. right.
    apply elem_of_app. right. apply elem_of_app. left. by apply list_elem_of_fmap_2.
  - by rewrite Hb.
  - intros Hbn. specialize (Hbr Hbn). clear Hl' Hsame. unfold Posix.open, Posix.alloc in Eo.
    destruct (opens path) as [f|] eqn:Ef; [|by simplify_eq]. destruct (Posix.free limit (kernel s)) as [fd'|]; cbn in Eo; [|by simplify_eq].
    injection Eo as <- <-. cbn. destruct (decide (idleFd_ (acceptor s) = fd')) as [->|];
      [rewrite lookup_insert_eq; by eapply opens_files|by rewrite lookup_insert_ne].
Qed.

Lemma process_inv_step e s : inv s -> hit (step e s) = false -> inv (step e s).
Proof.
  intros Hi Hhit. destruct e as [peer| | |fd name on|fd|fd|path|fd]; [| |by apply inv_emfile| | | |by apply inv_open|]; cbn; clear Hhit.
  - destruct Hi as [Hl [local [so Hs]] Hg Hv Hh Ho Hbr]. split; cbn; [|by exists local, so|done| |done..].
    + by apply ledger_backlog.
    + rewrite <- Hv. apply app_assoc.
  - destruct (branch s) eqn:Eb; [by apply inv_readable|done..].
  - destruct (decide (fd ∈ (given s).*1)) as [Hf|]; [|done]. apply inv_given_lookup in Hf as (peer & w & o & Hf); [|done].
    unfold Posix.setsockopt. rewrite Hf. by apply (inv_connection s fd peer w o).
  - destruct (decide (fd ∈ (given s).*1)) as [Hf|]; [|done]. apply inv_given_lookup in Hf as (peer & w & o & Hf); [|done].
    unfold Socket.shutdownWrite, Posix.shutdown. rewrite Hf. by apply (inv_connection s fd peer w o).
  - destruct (decide (fd ∈ (given s).*1)) as [Hf|]; [|done]. apply (inv_close s fd); [done| | |].
    + rewrite filter_fst. unfold fds. rewrite (remove_perm (given s).*1 fd) at 1 by (done || by apply nodup_parts).
      solve_Permutation.
    + intros c Hc. by apply list_elem_of_filter in Hc as [_ ?].
    + rewrite (inv_owned _ Hi), (filter_split (given s) fd) at 1. solve_Permutation.
  - destruct (decide (fd ∈ other s)) as [Hf|]; [|done]. apply (inv_close s fd); [done| |done|apply Hi].
    unfold fds. rewrite (remove_perm (other s) fd) at 1 by (done || by apply nodup_parts). solve_Permutation.
Qed.

(** What was hit stays hit. *)
Lemma hit_step e s : hit (step e s) = false -> hit s = false.
Proof.
  destruct e as [peer| | |fd name on|fd|fd|path|fd]; cbn; try done.
  - destruct (branch s); try done. unfold readable. by destruct (handleRead _ _ _ _ _) as [[a k] c].
  - unfold emfile, emfile_inside. destruct (_ && _); [done|]. destruct (emfile_call _ _ _) as [[a k] pc]. cbn. by intros [? _]%orb_false_iff.
  - by destruct (decide _).
  - by destruct (decide _).
  - by destruct (decide _).
  - by destruct (Posix.open _ _ _ _).
  - by destruct (decide _).
Qed.

Lemma ledger_start (m : gmap Z Posix.file) :
  map_Forall (fun fd _ => 0 <= fd < Z.of_nat limit) m -> ledger (Posix.mk m []) (map_to_list m).*1.
Proof.
  intros Hm.
  assert (forall fd, fd ∈ (map_to_list m).*1 <-> is_Some (m !! fd)) as Hd.
  { intros fd. rewrite list_elem_of_fmap. split.
    - intros ([fd' f] & -> & Hf%elem_of_map_to_list). cbn. eauto.
    - intros [f Hf]. exists (fd, f). split; [done|]. by apply elem_of_map_to_list. }
  split; cbn.
  - apply NoDup_fst_map_to_list.
  - intros fd. by rewrite Hd.
  - intros fd [f Hf]%Hd. by apply (Hm fd f).
Qed.

(** The options of the listening socket. *)
Definition listen_options (reusePort : bool) : Posix.options := Posix.mk_options true reusePort false false.

(** The calls on a new socket leave every other descriptor where it is. *)
Lemma setup_listen fd addr reusePort k :
  Posix.table k !! fd = Some (Posix.Socket None false Posix.defaults) ->
  Posix.listen fd (Posix.bind in_use fd addr (Socket.setReusePort fd reusePort (Socket.setReuseAddr fd true k))) =
  Posix.mk (<[fd := Posix.Socket (if in_use (listen_options reusePort) addr then None else Some addr) true
                      (listen_options reusePort)]> (Posix.table k)) (Posix.backlog k).
Proof.
  intros Hf. unfold Socket.setReuseAddr, Posix.setsockopt. rewrite Hf. unfold Socket.setReusePort, Posix.setsockopt.
  unfold Posix.bind, Posix.set_table. cbn. rewrite !lookup_insert_eq. cbn. rewrite !lookup_insert_eq, !insert_insert_eq. cbn.
  change (Posix.mk_options true reusePort false false) with (listen_options reusePort).
  destruct (in_use _ addr); unfold Posix.listen, Posix.set_table; cbn; by rewrite lookup_insert_eq, insert_insert_eq.
Qed.

Lemma inv_start m addr reusePort callback :
  map_Forall (fun fd _ => 0 <= fd < Z.of_nat limit) m ->
  acceptSocket_ (acceptor (start m addr reusePort callback)) <> -1 ->
  inv (start m addr reusePort callback) /\
  Posix.table (kernel (start m addr reusePort callback)) !! acceptSocket_ (acceptor (start m addr reusePort callback)) =
  Some (Posix.Socket (if in_use (listen_options reusePort) addr then None else Some addr) true (listen_options reusePort)).
Proof.
  intros Hm. pose proof (ledger_start m Hm) as Hl. unfold start, make, createNonblocking, Posix.socket, Posix.alloc.
  destruct (Posix.free limit (Posix.mk m [])) as [sock|] eqn:Ef; cbn [mbind option_bind].
  2: { destruct (Posix.open _ _ _ _) as [fd k']. by destruct callback. }
  destruct (Posix.open _ _ _ _) as [fd k'] eqn:Eo. intros _. apply free_some in Ef as [Hn Hr].
  apply (ledger_insert _ _ sock (Posix.Socket None false Posix.defaults) []) in Hl; [|done|done].
  destruct (ledger_open _ _ _ _ _ Hl Eo) as (Hl' & Hsame & Hb). cbn in Hb.
  pose proof (Hsame sock ltac:(by left)) as Hs. cbn in Hs. rewrite lookup_insert_eq in Hs.
  pose proof (setup_listen sock addr reusePort k' Hs) as Hk. set (local := if in_use (listen_options reusePort) addr then None else Some addr) in *.
  assert (inv (mk_process (mk sock (Channel.enableReading (Channel.make sock)) callback true fd)
    (Posix.mk (<[sock := Posix.Socket local true (listen_options reusePort)]> (Posix.table k')) (Posix.backlog k'))
    [] (map_to_list m).*1 [] [] [] [] Outside false)) as Hi.
  { split; cbn; [| | | | |done|done].
    - unfold fds, idle_now, idle. cbn. apply ledger_update; [|by left].
      revert Hl'. apply ledger_proper. solve_Permutation.
    - exists local, (listen_options reusePort). apply lookup_insert_eq.
    - by intros c ?%not_elem_of_nil.
    - by rewrite Hb.
    - by destruct callback. }
  unfold listen, Socket.listen, Socket.bindAddress.
  destruct callback; cbn; rewrite Hk; (split; [done|apply lookup_insert_eq]).
Qed.

(** The server listens where it was told to, or on a port of the kernel's
    choice when that address is taken for a socket with SO_REUSEADDR, and with
    SO_REUSEPORT when it was asked for. *)
Lemma start_listens m addr reusePort callback :
  map_Forall (fun fd _ => 0 <= fd < Z.of_nat limit) m ->
  acceptSocket_ (acceptor (start m addr reusePort callback)) <> -1 ->
  Posix.table (kernel (start m addr reusePort callback)) !! acceptSocket_ (acceptor (start m addr reusePort callback)) =
  Some (Posix.Socket (if in_use (listen_options reusePort) addr then None else Some addr) true (listen_options reusePort)).
Proof. intros Hm Hs. by apply inv_start. Qed.

Lemma process_inv s : reachable s -> hit s = false -> inv s.
Proof.
  induction 1 as [|e s Hr IH]; intros Hh; [by apply inv_start|]. apply process_inv_step; [|done].
  apply IH. by eapply hit_step.
Qed.

(** A connection that was handed over has the peer it was handed over with. *)
Lemma given_peer s c : reachable s -> hit s = false -> c ∈ given s -> Util.getPeerAddr c.1 (kernel s) = c.2.
Proof.
  intros Hr Hh Hc. destruct (inv_given _ (process_inv s Hr Hh) c Hc) as (w & o & Ht).
  unfold Util.getPeerAddr, Util.getpeername. by rewrite Ht.
Qed.

(** Uninterrupted, the calls of the branch are those of handleRead. *)
Lemma emfile_uninterrupted s :
  branch s = Outside -> Socket.accept limit (acceptSocket_ (acceptor s)) (kernel s) = inl Posix.EMFILE ->
  let s' := emfile (emfile (emfile (emfile s))) in
  (acceptor s', kernel s', branch s') =
  (let '(a, k, _) := handleRead limit opens (fun _ k => k) (acceptor s) (kernel s) in (a, k, Outside)).
Proof.
  destruct s as [a k g o sv ar ha cl br hi]. cbn. intros -> Ha. unfold handleRead. rewrite Ha, decide_True by done.
  assert (forall s', branch s' <> Outside -> emfile s' = emfile_inside s') as Hin
    by (intros s' Hne; unfold emfile; by rewrite bool_decide_eq_false_2).
  assert (emfile (mk_process a k g o sv ar ha cl Outside hi) =
    mk_process a (Posix.close (idleFd_ a) k) g o sv ar ha cl Closed (hi || false)) as ->
    by (unfold emfile; cbn; by rewrite Ha).
  rewrite (Hin (mk_process _ _ _ _ _ _ _ _ Closed _)) by done. unfold emfile_inside at 3. cbn.
  rewrite (Hin (mk_process _ _ _ _ _ _ _ _ Accepted _)) by done. unfold emfile_inside at 2. cbn.
  rewrite (Hin (mk_process _ _ _ _ _ _ _ _ ClosedTwice _)) by done. unfold emfile_inside. cbn.
  by destruct (Posix.open _ _ _ _).
Qed.

(** ** Properties *)

(** C29.  The ledger of the acceptor, as long as the second close() of the branch
    for EMFILE has not hit a file that another thread opened after the first:
    every open descriptor belongs to exactly one of the acceptor, the connections
    it handed over and the rest of the process; connections leave the queue of
    the socket in the order in which they came, none twice, and with a callback
    set each of them is handed over; those are open under the descriptor they
    were handed over with until their owner closes them; and the destructor closes
    what the acceptor owns and nothing else. *)
Theorem acceptor_ledger s :
  reachable s -> hit s = false ->
  NoDup (fds s) /\
  (forall fd, is_Some (Posix.table (kernel s) !! fd) <-> fd ∈ fds s) /\
  served s ++ Posix.backlog (kernel s) = arrived s /\
  (newConnectionCallback_ (acceptor s) = true -> (handed s).*2 = served s) /\
  handed s ≡ₚ given s ++ closed s /\
  (forall fd peer, (fd, peer) ∈ given s ->
     exists w o, Posix.table (kernel s) !! fd = Some (Posix.Connection peer w o)) /\
  (branch s = Outside ->
   forall fd, is_Some (Posix.table (destroy (acceptor s) (kernel s)) !! fd) <-> fd ∈ (given s).*1 ++ other s).
Proof.
  intros Hr Hh. pose proof (process_inv s Hr Hh) as Hi. pose proof Hi as [Hl _ Hg Hv Hha Ho _].
  split_and!; [apply Hl|apply Hl|done| |done| |].
  - intros Hc. by rewrite Hc in Hha.
  - intros fd peer. apply Hg.
  - intros Hb fd. unfold fds, idle_now in Hl. rewrite Hb in Hl. apply ledger_dom. by apply ledger_close, ledger_idle.
Qed.

(** A readable listening socket: with a free descriptor the connection that
    waits longest is handed over under the lowest one, or closed when nobody
    wants it, which leaves the descriptors as they were; without one, or without
    a connection, nothing is handed over. *)
Theorem handleRead_accepts s :
  reachable s -> hit s = false ->
  let '(a, k, c) := handleRead limit opens (fun _ k => k) (acceptor s) (kernel s) in
  match Posix.free limit (kernel s), Posix.backlog (kernel s) with
  | Some fd, peer :: rest =>
      a = acceptor s /\ Posix.backlog k = rest /\
      (if newConnectionCallback_ a
       then c = Some (fd, peer) /\ Posix.table k = <[fd := Posix.Connection peer false Posix.defaults]> (Posix.table (kernel s))
       else c = None /\ Posix.table k = Posix.table (kernel s))
  | _, _ => c = None /\ Posix.backlog k = Posix.backlog (kernel s)
  end.
Proof.
  intros Hr Hh. pose proof (process_inv s Hr Hh) as Hi.
  destruct (inv_socket _ Hi) as [local [so Hs]]. rewrite (handleRead_cases _ _ _ _ Hs).
  destruct (Posix.free limit (kernel s)) as [fd|].
  - destruct (Posix.backlog (kernel s)) as [|peer rest] eqn:Eb; [done|].
    by destruct (newConnectionCallback_ (acceptor s)) eqn:Ec; rewrite Ec.
  - destruct (Posix.open _ _ _ _) as [fd k'] eqn:Eo. split; [done|].
    apply open_cases in Eo as [[_ ->]|(f & _ & ->)]; done.
Qed.

(** C38.  Out of descriptors, "dev/null" is no file of the working directory, and no
    second close() of the branch for EMFILE has hit another thread's file: a
    handleRead() that no other thread interrupts neither accepts nor refuses the
    connection that waits, and gives the idle descriptor up for good.  When the
    idle file was open its descriptor is then the one that is free (the next
    call may accept, if nobody takes it first); when it was not, nothing at all
    has changed, so that the poller reports the socket again at once, until
    some descriptor is closed. *)
Theorem emfile_never_sheds s :
  reachable s -> hit s = false -> branch s = Outside ->
  Posix.free limit (kernel s) = None -> opens (str "dev/null") = None ->
  Posix.backlog (kernel (step Readable s)) = Posix.backlog (kernel s) /\
  given (step Readable s) = given s /\ handed (step Readable s) = handed s /\
  idleFd_ (acceptor (step Readable s)) = -1 /\
  (if decide (idleFd_ (acceptor s) = -1) then step Readable s = s
   else Posix.free limit (kernel (step Readable s)) = Some (idleFd_ (acceptor s))).
Proof.
  intros Hr Hh Hbr Hf Hopen. pose proof (process_inv s Hr Hh) as Hi.
  pose proof (inv_ledger _ Hi) as Hl. destruct (inv_socket _ Hi) as [local [so Hs]].
  unfold fds, idle_now in Hl. rewrite Hbr in Hl. pose proof (idle_apart _ _ _ Hl) as Hidle.
  destruct s as [a k g o sv ar ha cl br hi]. cbn in Hl, Hidle, Hs, Hf, Hbr. subst br.
  cbn [step branch]. unfold readable. cbn [acceptor kernel given other served arrived handed closed branch hit].
  rewrite (handleRead_cases a k local so Hs), Hf.
  unfold Posix.open. rewrite Hopen. cbn. rewrite !app_nil_r, Nat.sub_diag. cbn. rewrite app_nil_r.
  split_and!; [done..|]. unfold idle in *. destruct (decide (idleFd_ a = -1)) as [E|E]; cbn in Hl.
  - assert (Posix.table k !! idleFd_ a = None) as Hn by (apply (ledger_closed _ _ _ Hl); exact Hidle).
    rewrite close_closed by done. f_equal. destruct a. cbn in *. by rewrite E.
  - assert (idleFd_ a ∈ acceptSocket_ a :: idleFd_ a :: g.*1 ++ o) as Hin by (right; left).
    apply free_only.
    + by apply (ledger_range _ _ Hl).
    + cbn. apply lookup_delete_eq.
    + intros fd' Hr' Hne. cbn. rewrite lookup_delete_ne by done. by apply free_none.
Qed.

(** Between the two calls of close() the descriptor may belong to another
    thread, which loses its file. *)
Lemma double_close_hits_other s path f :
  reachable s -> hit s = false -> branch s = Outside -> Posix.free limit (kernel s) = None ->
  idleFd_ (acceptor s) <> -1 -> opens path = Some f ->
  let s1 := emfile (step (OpenOther path) (emfile s)) in
  idleFd_ (acceptor s) ∈ other s1 /\ is_Some (Posix.table (kernel s1) !! idleFd_ (acceptor s)) /\
  Posix.table (kernel (emfile s1)) !! idleFd_ (acceptor s) = None /\ hit (emfile s1) = true.
Proof.
  intros Hr Hh Hbr Hf Hidle Hpath s1. pose proof (process_inv s Hr Hh) as Hi.
  pose proof (inv_ledger _ Hi) as Hl. destruct (inv_socket _ Hi) as [local [so Hs]].
  unfold fds, idle_now in Hl. rewrite Hbr in Hl.
  destruct s as [a k g o sv ar ha cl br hi]. unfold idle in Hl. cbn in Hl, Hs, Hf, Hidle, Hbr |- *. subst br.
  rewrite decide_False in Hl by done.
  assert (Posix.free limit (Posix.close (idleFd_ a) k) = Some (idleFd_ a)) as Hfree.
  { apply free_only.
    - apply (ledger_range _ _ Hl). by right; left.
    - cbn. apply lookup_delete_eq.
    - intros fd' Hr' Hne. cbn. rewrite lookup_delete_ne by done. by apply free_none. }
  assert (Socket.accept limit (acceptSocket_ a) k = inl Posix.EMFILE) as Hacc
    by (unfold Socket.accept, Posix.accept; by rewrite Hs, Hf).
  set (k1 := Posix.set_table (<[idleFd_ a := f]> (Posix.table (Posix.close (idleFd_ a) k))) (Posix.close (idleFd_ a) k)).
  assert (s1 = mk_process a k1 g (idleFd_ a :: o) sv ar ha cl Accepted hi) as ->.
  { subst s1.
    assert (emfile (mk_process a k g o sv ar ha cl Outside hi) =
      mk_process a (Posix.close (idleFd_ a) k) g o sv ar ha cl Closed (hi || false)) as ->
      by (unfold emfile; cbn; by rewrite Hacc).
    cbn [step kernel acceptor given other served arrived handed closed branch hit].
    unfold Posix.open, Posix.alloc. rewrite Hpath, Hfree. cbn. fold k1. rewrite decide_False by done.
    unfold emfile, emfile_inside. cbn. rewrite !orb_false_r. f_equal. unfold Posix.accept. cbn. rewrite lookup_insert_eq.
    pose proof (opens_files path f Hpath). by destruct f. }
  cbn. rewrite lookup_insert_eq. unfold emfile, emfile_inside. cbn. split_and!; [by left|by eexists|apply lookup_delete_eq|].
  rewrite (bool_decide_eq_false_2 (Accepted = Outside)) by done. cbn. rewrite lookup_insert_eq, orb_true_iff. by right.
Qed.

End process.
(** ** A sample process: standard input and output, and a log file to open *)

Definition sample_opens (path : bytes) : option Posix.file :=
  if decide (path = str "/dev/null") then Some Posix.DevNull
  else if decide (path = str "log") then Some Posix.Other else None.

Lemma sample_opens_files path f : sample_opens path = Some f -> no_socket (Some f).
Proof. unfold sample_opens. destruct (decide _); [by intros [= <-]|]. destruct (decide _); [by intros [= <-]|done]. Qed.

Definition sample_table : gmap Z Posix.file := <[0 := Posix.Other]> (<[1 := Posix.Other]> ∅).
Definition sample_addr : InetAddress.t := InetAddress.of_port (fun n => n) 8080 false.
Definition sample_peer : InetAddress.t := mk_sockaddr 1 2.

Definition sample (limit : nat) : process :=
  step limit sample_opens (Incoming sample_peer) (start limit sample_opens (fun _ _ => false) sample_table sample_addr true true).

Lemma sample_process_reachable limit :
  (2 <= limit)%nat ->
  negb (acceptSocket_ (acceptor (start limit sample_opens (fun _ _ => false) sample_table sample_addr true true)) =? -1) = true ->
  reachable limit sample_opens (fun _ _ => false) (sample limit).
Proof.
  intros Hlim Hs. apply reach_step, reach_start.
  - apply map_Forall_insert_2; [lia|]. apply map_Forall_insert_2; [lia|]. apply map_Forall_empty.
  - by apply negb_true_iff, Z.eqb_neq in Hs.
Qed.

Lemma acceptor_ledger_witness :
  exists s, reachable 6 sample_opens (fun _ _ => false) s /\ given s = [(4, sample_peer)] /\
    NoDup (fds s) /\ (forall fd, is_Some (Posix.table (kernel s) !! fd) <-> fd ∈ fds s).
Proof.
  assert (reachable 6 sample_opens (fun _ _ => false) (step 6 sample_opens Readable (sample 6))) as Hr
    by (apply reach_step, sample_process_reachable; [lia|by vm_compute]).
  eexists. split; [exact Hr|]. split; [by vm_compute|].
  destruct (acceptor_ledger _ _ _ sample_opens_files _ Hr eq_refl) as (? & ? & _). done.
Defined.

Lemma handleRead_accepts_witness :
  Posix.free 6 (kernel (sample 6)) = Some 4 /\ Posix.backlog (kernel (sample 6)) = [sample_peer] /\
  (handleRead 6 sample_opens (fun _ k => k) (acceptor (sample 6)) (kernel (sample 6))).2 = Some (4, sample_peer).
Proof.
  assert (reachable 6 sample_opens (fun _ _ => false) (sample 6)) as Hr by (apply sample_process_reachable; [lia|by vm_compute]).
  pose proof (handleRead_accepts _ _ _ sample_opens_files _ Hr eq_refl) as H.
  assert (Posix.free 6 (kernel (sample 6)) = Some 4) as Hf by (by vm_compute).
  assert (Posix.backlog (kernel (sample 6)) = [sample_peer]) as Hb by (by vm_compute).
  assert (newConnectionCallback_ (acceptor (sample 6)) = true) as Hc by (by vm_compute).
  rewrite Hf, Hb in H |- *. split_and!; [done..|].
  destruct (handleRead _ _ _ _ _) as [[a k] c]. destruct H as (-> & _ & H). rewrite Hc in H. by destruct H as [-> _].
Defined.

(** Four descriptors: the socket and the idle file take the last two. *)
Lemma emfile_never_sheds_witness :
  idleFd_ (acceptor (sample 4)) = 3 /\
  Posix.backlog (kernel (step 4 sample_opens Readable (sample 4))) = [sample_peer] /\
  idleFd_ (acceptor (step 4 sample_opens Readable (sample 4))) = -1 /\
  Posix.free 4 (kernel (step 4 sample_opens Readable (sample 4))) = Some 3.
Proof.
  assert (reachable 4 sample_opens (fun _ _ => false) (sample 4)) as Hr by (apply sample_process_reachable; [lia|by vm_compute]).
  assert (Posix.free 4 (kernel (sample 4)) = None) as Hf by (by vm_compute).
  assert (idleFd_ (acceptor (sample 4)) = 3) as Hi by (by vm_compute).
  assert (Posix.backlog (kernel (sample 4)) = [sample_peer]) as Hb by (by vm_compute).
  destruct (emfile_never_sheds 4 sample_opens (fun _ _ => false) sample_opens_files (sample 4) Hr eq_refl eq_refl Hf ltac:(by vm_compute))
    as (-> & _ & _ & -> & Hfree).
  rewrite Hi in Hfree. rewrite Hb. done.
Defined.

End Acceptor.
