(* ===== verification/TcpServer.v ===== *)
(** * src/net/EventLoopThreadPool.h, src/net/EventLoopThreadPool.cc,
      src/net/TcpServer.h, src/net/TcpServer.cc

    The server over its loops: the pool hands out I/O loops in turn, the server
    keeps the table of connections, and tasks travel between the base loop and
    the I/O loops through their queues (EventLoop.v shows that a queue runs each
    functor once, in order).  Every connection is a whole [TcpConnection.t]. *)

From S2P Require Import Prelude Bytes Text ByteBuffer NetBuffer Channel TcpConnection.

(** A loop is its number; the base loop is 0. *)
Abbreviation loop := nat.

Module EventLoopThreadPool.

Record t := mk {
  baseLoop_ : loop;
  name_ : bytes;
  started_ : bool;
  numThreads_ : Z;
  next_ : nat;
  threads_ : list bytes;    (** the names of the threads *)
  loops_ : list loop;
}.

Definition make (baseLoop : loop) (nameArg : bytes) : t := mk baseLoop nameArg false 0 0 [] [].

Definition setThreadNum (numThreads : Z) (p : t) : t :=
  mk (baseLoop_ p) (name_ p) (started_ p) numThreads (next_ p) (threads_ p) (loops_ p).

(** The body of the loop in start(): the [i]-th thread and its loop. *)
Definition start_thread (p : t) (i : nat) : t :=
  mk (baseLoop_ p) (name_ p) (started_ p) (numThreads_ p) (next_ p)
     (threads_ p ++ [name_ p ++ to_string (Z.of_nat i)]) (loops_ p ++ [S (baseLoop_ p + length (loops_ p))]).

(** Also: the loops on which the callback runs, when there is one. *)
Definition start (cb : bool) (p : t) : t * list loop :=
  let p := mk (baseLoop_ p) (name_ p) true (numThreads_ p) (next_ p) (threads_ p) (loops_ p) in
  let started := foldl start_thread p (seq 0 (Z.to_nat (numThreads_ p))) in
  (started, if cb then
              if (numThreads_ p =? 0)%Z then [baseLoop_ p] else drop (length (loops_ p)) (loops_ started)
            else []).

(** [None]: the index is out of range. *)
Definition getNextLoop (p : t) : option (loop * t) :=
  match loops_ p with
  | [] => Some (baseLoop_ p, p)
  | _ =>
      l ← loops_ p !! next_ p;
      let next := S (next_ p) in
      Some (l, mk (baseLoop_ p) (name_ p) (started_ p) (numThreads_ p)
                  (if length (loops_ p) <=? next then 0 else next) (threads_ p) (loops_ p))
  end.

Definition getAllLoops (p : t) : list loop :=
  match loops_ p with [] => [baseLoop_ p] | _ => loops_ p end.

End EventLoopThreadPool.

Module TcpServer.

(** What waits in the loops' queues for a connection, by its number. *)
Inductive task :=
| ConnectEstablished (c : nat)
| RemoveConnectionInLoop (c : nat)
| ConnectDestroyed (c : nat)
| ConnFunctor (c : nat).      (** the connection's own next functor *)

#[global] Instance task_eq_dec : EqDecision task.
Proof. solve_decision. Defined.

Definition INT_MAX : Z := 2 ^ 31 - 1.

Section server.
Context {B U : Type} `{ByteBuffer B} (cbs : TcpConnection.callbacks B U).

(** A connection that was created; its number is its place in [conns]. *)
Record conn := mk_conn {
  conn_name : bytes;
  conn_loop : loop;
  tcp : TcpConnection.t B U;
}.

Record t := mk {
  ipPort_ : bytes;
  name_ : bytes;
  threadPool_ : EventLoopThreadPool.t;
  started_ : Z;
  listening : bool;                 (** [acceptor_->listen()] has been called *)
  nextConnId_ : Z;
  connections_ : gmap bytes nat;
  conns : list conn;
  queue : list (loop * task);       (** the loops' queues, in the order of posting *)
  did : list (loop * task);         (** history: the tasks that were run, and where *)
}.

Definition make (ipPort nameArg : bytes) : t :=
  mk ipPort nameArg (EventLoopThreadPool.make 0 nameArg) 0 false 1 ∅ [] [] [].

Definition set_pool (v : EventLoopThreadPool.t) (s : t) : t :=
  mk (ipPort_ s) (name_ s) v (started_ s) (listening s) (nextConnId_ s) (connections_ s) (conns s) (queue s) (did s).
Definition set_started (v : Z) (s : t) : t :=
  mk (ipPort_ s) (name_ s) (threadPool_ s) v (listening s) (nextConnId_ s) (connections_ s) (conns s) (queue s) (did s).
Definition set_listening (v : bool) (s : t) : t :=
  mk (ipPort_ s) (name_ s) (threadPool_ s) (started_ s) v (nextConnId_ s) (connections_ s) (conns s) (queue s) (did s).
Definition set_nextConnId (v : Z) (s : t) : t :=
  mk (ipPort_ s) (name_ s) (threadPool_ s) (started_ s) (listening s) v (connections_ s) (conns s) (queue s) (did s).
Definition set_connections (v : gmap bytes nat) (s : t) : t :=
  mk (ipPort_ s) (name_ s) (threadPool_ s) (started_ s) (listening s) (nextConnId_ s) v (conns s) (queue s) (did s).
Definition set_conns (v : list conn) (s : t) : t :=
  mk (ipPort_ s) (name_ s) (threadPool_ s) (started_ s) (listening s) (nextConnId_ s) (connections_ s) v (queue s) (did s).
Definition set_queue (v : list (loop * task)) (s : t) : t :=
  mk (ipPort_ s) (name_ s) (threadPool_ s) (started_ s) (listening s) (nextConnId_ s) (connections_ s) (conns s) v (did s).
Definition note (lt : loop * task) (s : t) : t :=
  mk (ipPort_ s) (name_ s) (threadPool_ s) (started_ s) (listening s) (nextConnId_ s) (connections_ s) (conns s)
     (queue s) (did s ++ [lt]).

Definition queueInLoop (l : loop) (tk : task) (s : t) : t := set_queue (queue s ++ [(l, tk)]) s.

(** [l->runInLoop(task)], called in the thread of loop [cur]. *)
Definition runInLoop (cur l : loop) (tk : task) (body : t -> t) (s : t) : t :=
  if decide (cur = l) then body s else queueInLoop l tk s.

Definition removeConnectionInLoop (c : nat) (s : t) : t :=
  match conns s !! c with
  | None => s
  | Some k =>
      let s := note (0, RemoveConnectionInLoop c) s in
      let s := set_connections (delete (conn_name k) (connections_ s)) s in
      queueInLoop (conn_loop k) (ConnectDestroyed c) s
  end.

Definition removeConnection (cur : loop) (c : nat) (s : t) : t :=
  runInLoop cur 0 (RemoveConnectionInLoop c) (removeConnectionInLoop c) s.

(** A connection takes a step in its loop's thread (or posts, from any thread):
    what it queues goes to the queue of its loop, and its close callback is
    [removeConnection]. *)
Definition tcp_step (c : nat) (e : TcpConnection.event) (s : t) : t :=
  match conns s !! c with
  | None => s
  | Some k =>
      let tcp' := TcpConnection.step cbs e (tcp k) in
      let queued := length (TcpConnection.queue tcp') - length (TcpConnection.remaining e (TcpConnection.queue (tcp k))) in
      let s := set_conns (<[c := mk_conn (conn_name k) (conn_loop k) tcp']> (conns s)) s in
      let s := set_queue (queue s ++ replicate queued (conn_loop k, ConnFunctor c)) s in
      Nat.iter (TcpConnection.closes (TcpConnection.log tcp') - TcpConnection.closes (TcpConnection.log (tcp k)))
               (removeConnection (conn_loop k) c) s
  end.

Definition connectEstablished (l : loop) (c : nat) (s : t) : t :=
  tcp_step c TcpConnection.Established (note (l, ConnectEstablished c) s).

(** The task at the head of a loop's queue. *)
Definition run_task (l : loop) (tk : task) (s : t) : t :=
  match tk with
  | ConnectEstablished c => connectEstablished l c s
  | RemoveConnectionInLoop c => removeConnectionInLoop c s
  | ConnectDestroyed c => tcp_step c TcpConnection.Destroyed (note (l, ConnectDestroyed c) s)
  | ConnFunctor c => tcp_step c TcpConnection.RunFunctor s
  end.

Fixpoint pop (l : loop) (q : list (loop * task)) : option (task * list (loop * task)) :=
  match q with
  | [] => None
  | (l', tk) :: q =>
      if decide (l' = l) then Some (tk, q)
      else match pop l q with Some (tk', q') => Some (tk', (l', tk) :: q') | None => None end
  end.

Definition setThreadNum (n : Z) (s : t) : t :=
  set_pool (EventLoopThreadPool.setThreadNum n (threadPool_ s)) s.

(** Called in the base loop's thread. *)
Definition start (threadInitCallback_ : bool) (s : t) : t :=
  let first := (started_ s =? 0)%Z in
  let s := set_started (started_ s + 1) s in
  if first then set_listening true (set_pool (EventLoopThreadPool.start threadInitCallback_ (threadPool_ s)).1 s)
  else s.

(** [std::format("{}-{}#{}", name_, ipPort_, nextConnId_)] *)
Definition connName (s : t) (id : Z) : bytes := name_ s ++ str "-" ++ ipPort_ s ++ str "#" ++ to_string id.

(** Called in the base loop's thread; [None] when the counter overflows. *)
Definition newConnection (sockfd : Z) (context : U) (kernel : list Buffer.write_result) (s : t) : option t :=
  '(ioLoop, pool) ← EventLoopThreadPool.getNextLoop (threadPool_ s);
  let s := set_pool pool s in
  let name := connName s (nextConnId_ s) in
  if (nextConnId_ s =? INT_MAX)%Z then None
  else
    let s := set_nextConnId (nextConnId_ s + 1) s in
    let c := length (conns s) in
    let s := set_conns (conns s ++ [mk_conn name ioLoop (TcpConnection.make sockfd context kernel)]) s in
    let s := set_connections (<[name := c]> (connections_ s)) s in
    Some (runInLoop 0 ioLoop (ConnectEstablished c) (connectEstablished ioLoop c) s).

(** ~TcpServer, in the thread of loop [cur]: each connection in the table is
    destroyed in its own loop. *)
Definition destroy_connection (cur : loop) (s : t) (c : nat) : t :=
  match conns s !! c with
  | None => s
  | Some k =>
      runInLoop cur (conn_loop k) (ConnectDestroyed c)
        (fun s => tcp_step c TcpConnection.Destroyed (note (cur, ConnectDestroyed c) s)) s
  end.

Definition destroy (cur : loop) (s : t) : t :=
  set_connections ∅ (foldl (destroy_connection cur) s (map_to_list (connections_ s)).*2).

Inductive event :=
| SetThreadNum (n : Z)
| Start (threadInitCallback_ : bool)
| NewConnection (sockfd : Z) (context : U) (kernel : list Buffer.write_result)
| RunTask (l : loop)
| PollConn (c : nat) (revents : Z) (res : Buffer.read_result)
| CallSend (c : nat) (inLoopThread : bool) (data : bytes)
| CallShutdown (c : nat) (inLoopThread : bool).

(** [started_] is an int32_t: fewer than 2^31 calls of start(). *)
Definition enabled (e : event) (s : t) : bool :=
  match e with
  | SetThreadNum _ => (started_ s =? 0)%Z
  | Start _ => (started_ s <? INT_MAX)%Z
  | NewConnection _ _ _ => listening s
  | PollConn c revents res =>
      match conns s !! c with
      | Some k => TcpConnection.enabled (TcpConnection.Polled revents res) (tcp k)
      | None => false
      end
  | _ => true
  end.

Definition step (e : event) (s : t) : option t :=
  match e with
  | SetThreadNum n => Some (setThreadNum n s)
  | Start cb => Some (start cb s)
  | NewConnection sockfd u ks => newConnection sockfd u ks s
  | RunTask l =>
      '(tk, q) ← pop l (queue s);
      Some (run_task l tk (set_queue q s))
  | PollConn c revents res => Some (tcp_step c (TcpConnection.Polled revents res) s)
  | CallSend c inLoop data => Some (tcp_step c (TcpConnection.UserSend inLoop data) s)
  | CallShutdown c inLoop => Some (tcp_step c (TcpConnection.UserShutdown inLoop) s)
  end.

Inductive reachable : t -> Prop :=
| reach_make ipPort nameArg : reachable (make ipPort nameArg)
| reach_step e s s' : reachable s -> enabled e s = true -> step e s = Some s' -> reachable s'.

End server.
End TcpServer.

Arguments TcpServer.t B U : clear implicits.
Arguments TcpServer.conn B U : clear implicits.
Arguments TcpServer.event U : clear implicits.
