(* ===== verification/TcpServerFacts.v ===== *)
(** * Properties of the server over its loops

    Every connection is driven the way TcpConnectionFacts assumes; it goes
    through its stages on the right loops, each task once; its entry in the
    table lives exactly as long; the functors it queued are gone before it is. *)

From S2P Require Import Prelude Bytes Text ByteBuffer NetBuffer Channel TcpConnection TcpConnectionFacts TcpConnectionSteps TcpServer.
Import TcpServer.

(** ** Tasks *)

Definition conn_of (tk : task) : nat :=
  match tk with
  | ConnectEstablished c | RemoveConnectionInLoop c | ConnectDestroyed c | ConnFunctor c => c
  end.

(** The tasks of one connection, in the order of posting. *)
Definition mine (c : nat) (q : list (loop * task)) : list (loop * task) :=
  filter (fun lt => conn_of lt.2 = c) q.

#[local] Arguments mine : simpl never.

Inductive stage := Accepted | Open | Closing | Removing | Gone.

Definition history (io : loop) (c : nat) (st : stage) : list (loop * task) :=
  match st with
  | Accepted => []
  | Open | Closing => [(io, ConnectEstablished c)]
  | Removing => [(io, ConnectEstablished c); (0, RemoveConnectionInLoop c)]
  | Gone => [(io, ConnectEstablished c); (0, RemoveConnectionInLoop c); (io, ConnectDestroyed c)]
  end.

(** What the queues hold of a connection that has [n] functors of its own. *)
Definition waiting (io : loop) (c : nat) (st : stage) (n : nat) (q : list (loop * task)) : Prop :=
  match st with
  | Accepted => q = [(io, ConnectEstablished c)] /\ n = 0
  | Open => q = replicate n (io, ConnFunctor c)
  | Closing => q ≡ₚ (0, RemoveConnectionInLoop c) :: replicate n (io, ConnFunctor c)
  | Removing => q = replicate n (io, ConnFunctor c) ++ [(io, ConnectDestroyed c)]
  | Gone => q = [] /\ n = 0
  end.

Definition in_table (st : stage) : bool :=
  match st with Accepted | Open | Closing => true | _ => false end.

Lemma mine_app c q1 q2 : mine c (q1 ++ q2) = mine c q1 ++ mine c q2.
Proof. apply filter_app. Qed.

Lemma mine_cons_eq c l tk q : conn_of tk = c -> mine c ((l, tk) :: q) = (l, tk) :: mine c q.
Proof. intros Ht. unfold mine. by rewrite filter_cons_True. Qed.

Lemma mine_cons_ne c l tk q : conn_of tk <> c -> mine c ((l, tk) :: q) = mine c q.
Proof. intros Ht. unfold mine. by rewrite filter_cons_False. Qed.

Lemma mine_replicate_eq c n l tk : conn_of tk = c -> mine c (replicate n (l, tk)) = replicate n (l, tk).
Proof. intros Ht. induction n as [|n IH]; [done|]. cbn [replicate]. by rewrite mine_cons_eq, IH. Qed.

Lemma mine_replicate_ne c n l tk : conn_of tk <> c -> mine c (replicate n (l, tk)) = [].
Proof. intros Ht. induction n as [|n IH]; [done|]. cbn [replicate]. by rewrite mine_cons_ne, IH. Qed.

Lemma mine_fresh c q : (forall lt, lt ∈ q -> conn_of lt.2 < c) -> mine c q = [].
Proof.
  induction q as [|[l tk] q IH]; intros Hq; [done|]. pose proof (Hq (l, tk) ltac:(set_solver)) as Hlt. cbn in Hlt.
  rewrite mine_cons_ne by lia. apply IH. set_solver.
Qed.

Lemma mine_loop c l tk q : (l, tk) ∈ mine c q -> (l, tk) ∈ q.
Proof. intros [_ ?]%list_elem_of_filter. done. Qed.

(** The head of a loop's queue. *)
Lemma pop_spec l q tk q' :
  pop l q = Some (tk, q') ->
  exists pre post, q = pre ++ (l, tk) :: post /\ q' = pre ++ post /\ forall tk', (l, tk') ∉ pre.
Proof.
  revert q'. induction q as [|[l' t'] q IH]; intros q'; cbn; [done|]. destruct (decide (l' = l)) as [->|Hne].
  - intros [= <- <-]. exists [], q. split_and!; [done..|]. intros ?. apply not_elem_of_nil.
  - destruct (pop l q) as [[t2 q2]|]; [|done]. intros [= <- <-].
    destruct (IH q2) as (pre & post & -> & -> & Hpre); [done|].
    exists ((l', t') :: pre), post. split_and!; [done..|]. intros tk' [[= -> _]|Hin]%elem_of_cons; [done|by eapply Hpre].
Qed.

Lemma perm_replicate {A} (x : A) n l : l ≡ₚ replicate n x -> l = replicate n x.
Proof.
  intros Hp. symmetry. apply replicate_as_Forall. split.
  - by rewrite Hp, length_replicate.
  - rewrite Hp. by apply Forall_replicate.
Qed.

(** Taking the head of a loop's queue out of a connection's tasks. *)
Lemma waiting_pop io c st n l tk pre post :
  waiting io c st n (pre ++ (l, tk) :: post) -> (forall tk', (l, tk') ∉ pre) ->
  match tk with
  | ConnectEstablished _ => st = Accepted /\ l = io /\ pre ++ post = [] /\ n = 0 /\ tk = ConnectEstablished c
  | RemoveConnectionInLoop _ => st = Closing /\ l = 0 /\ pre ++ post = replicate n (io, ConnFunctor c) /\ tk = RemoveConnectionInLoop c
  | ConnectDestroyed _ => st = Removing /\ l = io /\ pre ++ post = [] /\ n = 0 /\ tk = ConnectDestroyed c
  | ConnFunctor _ => l = io /\ exists m, n = S m /\ (st = Open \/ st = Closing \/ st = Removing) /\
      waiting io c st m (pre ++ post) /\ tk = ConnFunctor c
  end.
Proof.
  intros Hw Hpre.
  assert (forall x, x ∈ pre ++ (l, tk) :: post -> x = (l, tk) \/ x ∈ pre ++ post) as Hsplit by set_solver.
  destruct st; cbn [waiting] in Hw.
  - destruct Hw as [Hw ->]. destruct pre as [|x pre]; [|by destruct pre]. injection Hw as -> -> ->. done.
  - assert ((l, tk) ∈ replicate n (io, ConnFunctor c)) as Hin by (rewrite <- Hw; set_solver).
    apply elem_of_replicate in Hin as [[= -> ->] Hn]. split; [done|].
    destruct n as [|n]; [done|]. exists n. split_and!; [done|by left| |done]. cbn.
    apply perm_replicate. apply (Permutation_cons_inv (a := (io, ConnFunctor c))).
    rewrite Permutation_middle, Hw. done.
  - assert ((l, tk) ∈ (0, RemoveConnectionInLoop c) :: replicate n (io, ConnFunctor c)) as Hin
      by (rewrite <- Hw; set_solver).
    apply elem_of_cons in Hin as [[= -> ->]|[[= -> ->] Hn]%elem_of_replicate].
    + split_and!; [done..| |done]. apply perm_replicate.
      apply (Permutation_cons_inv (a := (0, RemoveConnectionInLoop c))). by rewrite Permutation_middle.
    + split; [done|]. destruct n as [|n]; [done|]. exists n. split_and!; [done|by right; left| |done]. cbn.
      apply (Permutation_cons_inv (a := (io, ConnFunctor c))). rewrite Permutation_middle, Hw. cbn.
      by rewrite Permutation_swap.
  - assert (pre = []) as ->.
    { destruct pre as [|[l' tk'] pre]; [done|]. exfalso.
      assert (forall y, y ∈ (l', tk') :: pre ++ (l, tk) :: post -> y.1 = io) as Hio.
      { intros y. cbn in Hw. rewrite Hw. rewrite elem_of_app, elem_of_replicate, list_elem_of_singleton.
        by intros [[-> _]| ->]. }
      assert (l' = io) as -> by (apply (Hio (l', tk')); set_solver).
      assert (l = io) as -> by (apply (Hio (l, tk)); set_solver).
      apply (Hpre tk'). set_solver. }
    destruct n as [|n]; cbn in Hw; injection Hw as -> -> Hpost.
    + by rewrite Hpost.
    + split; [done|]. exists n. split_and!; [done|by right; right| |done]. by cbn.
  - destruct Hw as [Hw _]. by destruct pre.
Qed.

Section facts.
Context {B U : Type} `{ByteBufferLaws B} (cbs : TcpConnection.callbacks B U).
#[local] Abbreviation t := (TcpServer.t B U).
#[local] Abbreviation conn := (TcpServer.conn B U).
Implicit Types (s : t) (k : conn).

(** ** The invariant *)

Definition in_stage (st : stage) k : Prop :=
  match st with
  | Accepted => TcpConnection.state_ (tcp k) = TcpConnection.kConnecting
  | Open => up (tcp k)
  | _ => TcpConnection.state_ (tcp k) = TcpConnection.kDisconnected
  end.

Record conn_ok s (c : nat) k (st : stage) : Prop := {
  co_tcp : TcpConnection.reachable cbs (tcp k);
  co_state : in_stage st k;
  co_closes : TcpConnection.closes (TcpConnection.log (tcp k)) = match st with Accepted | Open => 0 | _ => 1 end;
  co_waiting : waiting (conn_loop k) c st (length (TcpConnection.queue (tcp k))) (mine c (queue s));
  co_history : mine c (did s) = history (conn_loop k) c st;
  co_table : connections_ s !! conn_name k = if in_table st then Some c else None;
}.

Definition pool_ok (p : EventLoopThreadPool.t) : Prop :=
  EventLoopThreadPool.next_ p = 0 \/ EventLoopThreadPool.next_ p < length (EventLoopThreadPool.loops_ p).

Record ok s : Prop := {
  ok_pool : pool_ok (threadPool_ s);
  ok_id : nextConnId_ s = (Z.of_nat (length (conns s)) + 1)%Z;
  ok_max : (nextConnId_ s <= INT_MAX)%Z;
  ok_name c k : conns s !! c = Some k -> conn_name k = connName s (Z.of_nat c + 1);
  ok_conn c k : conns s !! c = Some k -> exists st, conn_ok s c k st;
  ok_table name c : connections_ s !! name = Some c -> exists k, conns s !! c = Some k /\ conn_name k = name;
  ok_queue lt : lt ∈ queue s -> conn_of lt.2 < length (conns s);
  ok_did lt : lt ∈ did s -> conn_of lt.2 < length (conns s);
}.

Lemma connName_inj s i j : (0 <= i < 2 ^ 64)%Z -> (0 <= j < 2 ^ 64)%Z -> connName s i = connName s j -> i = j.
Proof.
  intros Hi Hj E. unfold connName in E. do 4 apply app_inv_head in E.
  unfold to_string in E. rewrite !(proj2 (Z.ltb_ge _ 0)) in E by lia.
  pose proof (from_chars_format i [] Hi I) as Fi. pose proof (from_chars_format j [] Hj I) as Fj.
  rewrite E, Fj in Fi. by injection Fi.
Qed.

Lemma ok_names_distinct s c1 c2 k1 k2 :
  ok s -> conns s !! c1 = Some k1 -> conns s !! c2 = Some k2 -> conn_name k1 = conn_name k2 -> c1 = c2.
Proof.
  intros Hok H1 H2 E. rewrite (ok_name s Hok c1 k1 H1), (ok_name s Hok c2 k2 H2) in E.
  pose proof (lookup_lt_Some _ _ _ H1). pose proof (lookup_lt_Some _ _ _ H2).
  pose proof (ok_id s Hok). pose proof (ok_max s Hok). unfold INT_MAX in *.
  apply connName_inj in E; lia.
Qed.

(** ** Steps of one connection *)

(** A step that is about connection [c], called [name], only. *)
Record touches (c : nat) (name : bytes) s s' : Prop := {
  to_queue c' : c' <> c -> mine c' (queue s') = mine c' (queue s);
  to_did c' : c' <> c -> mine c' (did s') = mine c' (did s);
  to_conns c' : c' <> c -> conns s' !! c' = conns s !! c';
  to_table name' : name' <> name -> connections_ s' !! name' = connections_ s !! name';
  to_length : length (conns s') = length (conns s);
  to_pool : threadPool_ s' = threadPool_ s;
  to_id : nextConnId_ s' = nextConnId_ s;
  to_name : name_ s' = name_ s;
  to_ipPort : ipPort_ s' = ipPort_ s;
  to_loops : conn_loop <$> conns s' = conn_loop <$> conns s;
  to_started : started_ s' = started_ s;
  to_listening : listening s' = listening s;
}.

#[local] Instance touches_preorder c name : PreOrder (touches c name).
Proof.
  split; [by split|]. intros s1 s2 s3 [A1 A2 A3 A4 A5 A6 A7 A8 A9 ? ? ?] [B1 B2 B3 B4 B5 B6 B7 B8 B9 ? ? ?].
  split; intros; [rewrite B1 by done; auto|rewrite B2 by done; auto|rewrite B3 by done; auto|rewrite B4 by done; auto|congruence..].
Qed.

(** The other tasks are still about connections there are. *)
Lemma touches_bound c q q' n :
  (forall lt, lt ∈ q -> conn_of lt.2 < n) -> c < n ->
  (forall c', c' <> c -> mine c' q' = mine c' q) -> forall lt, lt ∈ q' -> conn_of lt.2 < n.
Proof.
  intros Hq Hc Hm [l tk] Hin. destruct (decide (conn_of tk = c)) as [E|Hne]; [by cbn; rewrite E|].
  apply Hq. apply (mine_loop (conn_of tk)). rewrite <- Hm by done. apply list_elem_of_filter. done.
Qed.

Lemma ok_touches c k k' s s' st :
  ok s -> conns s !! c = Some k -> touches c (conn_name k) s s' ->
  conns s' !! c = Some k' -> conn_name k' = conn_name k -> conn_ok s' c k' st -> ok s'.
Proof.
  intros Hok Hk T Hk' Hname Hc. pose proof Hok as [H1 H2 H3 H4 H5 H6 H7 H8].
  pose proof (lookup_lt_Some _ _ _ Hk) as Hlt. pose proof T as [T1 T2 T3 T4 T5 T6 T7 T8 T9 _ _ _]. split.
  - by rewrite T6.
  - by rewrite T7, T5.
  - by rewrite T7.
  - intros c' k2 Hk2. unfold connName. rewrite T8, T9. destruct (decide (c' = c)) as [->|Hne].
    + assert (k2 = k') as -> by congruence. rewrite Hname. by apply H4.
    + rewrite T3 in Hk2 by done. by apply H4.
  - intros c' k2 Hk2. destruct (decide (c' = c)) as [->|Hne].
    + assert (k2 = k') as -> by congruence. by exists st.
    + rewrite T3 in Hk2 by done. destruct (H5 c' k2 Hk2) as [st' [C1 C2 C3 C4 C5 C6]]. exists st'. split; try done.
      * by rewrite T1.
      * by rewrite T2.
      * rewrite T4; [done|]. intros E. by apply Hne, (ok_names_distinct s c' c k2 k).
  - intros name c' Hn. destruct (decide (name = conn_name k)) as [->|Hne].
    + destruct Hc as [_ _ _ _ _ Hc]. rewrite <- Hname, Hc in Hn. destruct (in_table st); [|done].
      injection Hn as <-. by exists k'.
    + rewrite T4 in Hn by done. destruct (H6 name c' Hn) as (k2 & Hk2 & Hn2). exists k2. split; [|done].
      rewrite T3; [done|]. intros ->. congruence.
  - rewrite T5. by apply (touches_bound c (queue s)).
  - rewrite T5. by apply (touches_bound c (did s)).
Qed.

Lemma touches_push c name s l tk : conn_of tk = c -> touches c name s (queueInLoop l tk s).
Proof.
  intros <-. split; cbn; try done. intros c' Hne. rewrite mine_app, mine_cons_ne by done. by rewrite app_nil_r.
Qed.

Lemma touches_note c name s l tk : conn_of tk = c -> touches c name s (note (l, tk) s).
Proof.
  intros <-. split; cbn; try done. intros c' Hne. rewrite mine_app, mine_cons_ne by done. by rewrite app_nil_r.
Qed.

Lemma touches_removeConnectionInLoop c k s :
  conns s !! c = Some k -> touches c (conn_name k) s (removeConnectionInLoop c s).
Proof.
  intros Hk. unfold removeConnectionInLoop. rewrite Hk.
  etrans; [by apply (touches_note c _ s 0 (RemoveConnectionInLoop c))|].
  etrans; [|by apply (touches_push c _ _ (conn_loop k) (ConnectDestroyed c))].
  split; cbn; try done. intros name' Hne. by apply lookup_delete_ne.
Qed.

Lemma touches_removeConnection cur c k s :
  conns s !! c = Some k -> touches c (conn_name k) s (removeConnection cur c s).
Proof.
  intros Hk. unfold removeConnection, runInLoop. destruct (decide _).
  - by apply touches_removeConnectionInLoop.
  - by apply touches_push.
Qed.

(** The state after the connection's own part of a step. *)
Definition stepped c k e s : t :=
  set_queue (queue s ++ replicate (length (TcpConnection.queue (TcpConnection.step cbs e (tcp k))) -
               length (TcpConnection.remaining e (TcpConnection.queue (tcp k)))) (conn_loop k, ConnFunctor c))
    (set_conns (<[c := mk_conn (conn_name k) (conn_loop k) (TcpConnection.step cbs e (tcp k))]> (conns s)) s).

Lemma tcp_step_unfold c k e s :
  conns s !! c = Some k ->
  tcp_step cbs c e s =
  Nat.iter (TcpConnection.closes (TcpConnection.log (TcpConnection.step cbs e (tcp k))) -
            TcpConnection.closes (TcpConnection.log (tcp k)))
           (removeConnection (conn_loop k) c) (stepped c k e s).
Proof. intros Hk. unfold tcp_step. by rewrite Hk. Qed.

(** The server is not told anything. *)
Lemma tcp_step_quiet c k e s :
  conns s !! c = Some k ->
  TcpConnection.closes (TcpConnection.log (TcpConnection.step cbs e (tcp k))) =
  TcpConnection.closes (TcpConnection.log (tcp k)) ->
  tcp_step cbs c e s = stepped c k e s.
Proof. intros Hk Hc. by rewrite (tcp_step_unfold c k e s Hk), Hc, Nat.sub_diag. Qed.

Lemma touches_stepped c k e s :
  conns s !! c = Some k -> touches c (conn_name k) s (stepped c k e s).
Proof.
  intros Hk. split; cbn; try done.
  - intros c' Hne. rewrite mine_app, mine_replicate_ne by done. by rewrite app_nil_r.
  - intros c' Hne. by apply list_lookup_insert_ne.
  - apply length_insert.
  - rewrite list_fmap_insert. apply list_insert_id. by rewrite list_lookup_fmap, Hk.
Qed.

Lemma stepped_lookup c k e s :
  conns s !! c = Some k ->
  conns (stepped c k e s) !! c = Some (mk_conn (conn_name k) (conn_loop k) (TcpConnection.step cbs e (tcp k))).
Proof. intros Hk. cbn. apply list_lookup_insert_eq. by eapply lookup_lt_Some. Qed.

(** What the queues hold after the connection's own part. *)
Lemma stepped_mine c k e s :
  mine c (queue (stepped c k e s)) =
  mine c (queue s) ++
  replicate (length (TcpConnection.queue (TcpConnection.step cbs e (tcp k))) -
             length (TcpConnection.remaining e (TcpConnection.queue (tcp k)))) (conn_loop k, ConnFunctor c).
Proof. cbn. by rewrite mine_app, mine_replicate_eq. Qed.

Lemma remaining_le e (k : conn) :
  length (TcpConnection.remaining e (TcpConnection.queue (tcp k))) <=
  length (TcpConnection.queue (TcpConnection.step cbs e (tcp k))).
Proof. destruct (step_grows cbs e (tcp k)) as [Hq _]. by apply prefix_length. Qed.

(** The server is told that connection [c] is to be dropped. *)
Lemma conn_ok_close c k s :
  conns s !! c = Some k -> TcpConnection.reachable cbs (tcp k) ->
  TcpConnection.state_ (tcp k) = TcpConnection.kDisconnected -> TcpConnection.closes (TcpConnection.log (tcp k)) = 1 ->
  mine c (queue s) = replicate (length (TcpConnection.queue (tcp k))) (conn_loop k, ConnFunctor c) ->
  mine c (did s) = history (conn_loop k) c Open -> connections_ s !! conn_name k = Some c ->
  conns (removeConnection (conn_loop k) c s) !! c = Some k /\
  exists st, conn_ok (removeConnection (conn_loop k) c s) c k st.
Proof.
  intros Hk Hr Hd Hcl Hq Hh Ht. unfold removeConnection, runInLoop. destruct (decide (conn_loop k = 0)) as [E|E].
  - unfold removeConnectionInLoop. rewrite Hk. split; [done|]. exists Removing. split; cbn; try done.
    + by rewrite mine_app, Hq, mine_cons_eq.
    + by rewrite mine_app, Hh, mine_cons_eq.
    + apply lookup_delete_eq.
  - split; [done|]. exists Closing. split; cbn; try done.
    rewrite mine_app, Hq, mine_cons_eq by done. symmetry. apply Permutation_cons_append.
Qed.

(** One event of a connection, whatever its stage. *)
Lemma tcp_step_ok c k st e s :
  conns s !! c = Some k -> TcpConnection.reachable cbs (tcp k) -> in_stage st k ->
  TcpConnection.closes (TcpConnection.log (tcp k)) = match st with Accepted | Open => 0 | _ => 1 end ->
  waiting (conn_loop k) c st (length (TcpConnection.remaining e (TcpConnection.queue (tcp k)))) (mine c (queue s)) ->
  mine c (did s) = history (conn_loop k) c st ->
  connections_ s !! conn_name k = (if in_table st then Some c else None) ->
  TcpConnection.enabled e (tcp k) = true -> e <> TcpConnection.Established -> e <> TcpConnection.Destroyed ->
  exists k' st', conns (tcp_step cbs c e s) !! c = Some k' /\ conn_name k' = conn_name k /\
    conn_ok (tcp_step cbs c e s) c k' st'.
Proof.
  intros Hk Hr Hst Hcl Hw Hh Ht He Hne Hnd. rewrite (tcp_step_unfold c k e s Hk).
  pose proof (inv_reachable cbs _ Hr) as Hi. pose proof (remaining_le e k) as Hle.
  pose proof (stepped_lookup c k e s Hk) as Hk'. pose proof (stepped_mine c k e s) as Hm.
  set (k' := mk_conn _ _ _) in Hk'.
  assert (TcpConnection.reachable cbs (tcp k')) as Hr' by (by apply TcpConnection.reach_step).
  (* nothing new for the server *)
  assert (TcpConnection.closes (TcpConnection.log (tcp k')) = TcpConnection.closes (TcpConnection.log (tcp k)) ->
    in_stage st k' ->
    waiting (conn_loop k) c st (length (TcpConnection.queue (tcp k'))) (mine c (queue (stepped c k e s))) ->
    exists k2 st', conns (Nat.iter (TcpConnection.closes (TcpConnection.log (tcp k')) - TcpConnection.closes (TcpConnection.log (tcp k)))
              (removeConnection (conn_loop k) c) (stepped c k e s)) !! c = Some k2 /\ conn_name k2 = conn_name k /\
      conn_ok (Nat.iter (TcpConnection.closes (TcpConnection.log (tcp k')) - TcpConnection.closes (TcpConnection.log (tcp k)))
              (removeConnection (conn_loop k) c) (stepped c k e s)) c k2 st') as Hsame.
  { intros Hc Hs Hw'. rewrite Hc, Nat.sub_diag. exists k', st. split_and!; [done..|].
    split; try done. by rewrite Hc. }
  destruct st; cbn [waiting in_stage] in *.
  - pose proof (step_connecting cbs e (tcp k) Hi Hst He Hne) as E. cbn [k' tcp] in Hsame. rewrite E in *.
    destruct (core_connecting _ (inv_core _ Hi) Hst) as [Hq _]. rewrite Hq in *.
    apply Hsame; [done|done|]. rewrite Hm. replace (TcpConnection.remaining e []) with (@nil TcpConnection.functor) by (by destruct e).
    rewrite app_nil_r. split; [apply Hw|done].
  - destruct (step_up cbs e (tcp k) Hi Hst He Hne Hnd) as [[Hup Hc]|[Hd Hc]].
    + apply Hsame; [by rewrite Hcl|done|]. rewrite Hm, Hw, <- replicate_add. f_equal. cbn [k' tcp]. lia.
    + rewrite Hc, Hcl. change (Nat.iter (1 - 0) ?f ?x) with (f x).
      destruct (conn_ok_close c k' (stepped c k e s)) as [Hk2 [st Hok]]; try done.
      * rewrite Hm, Hw, <- replicate_add. f_equal. cbn [k' tcp]. lia.
      * by exists k', st.
  - destruct (step_down cbs e (tcp k) Hi Hst He) as (Hs & Hq & Hc).
    apply Hsame; [done|done|]. rewrite Hm. cbn [k' tcp]. rewrite Hq, Nat.sub_diag, app_nil_r. done.
  - destruct (step_down cbs e (tcp k) Hi Hst He) as (Hs & Hq & Hc).
    apply Hsame; [done|done|]. rewrite Hm. cbn [k' tcp]. rewrite Hq, Nat.sub_diag, app_nil_r. done.
  - destruct (step_down cbs e (tcp k) Hi Hst He) as (Hs & Hq & Hc).
    apply Hsame; [done|done|]. rewrite Hm. cbn [k' tcp]. rewrite Hq, Nat.sub_diag, app_nil_r. done.
Qed.

Lemma touches_tcp_step c k e s :
  conns s !! c = Some k -> touches c (conn_name k) s (tcp_step cbs c e s).
Proof.
  intros Hk. rewrite (tcp_step_unfold c k e s Hk). etrans; [by apply (touches_stepped c k e s)|].
  pose proof (stepped_lookup c k e s Hk) as Hk'. set (k' := mk_conn _ _ _) in Hk'.
  generalize (TcpConnection.closes (TcpConnection.log (TcpConnection.step cbs e (tcp k))) -
              TcpConnection.closes (TcpConnection.log (tcp k))) as n.
  intros n. assert (conns (Nat.iter n (removeConnection (conn_loop k) c) (stepped c k e s)) !! c = Some k' /\
    touches c (conn_name k) (stepped c k e s) (Nat.iter n (removeConnection (conn_loop k) c) (stepped c k e s))) as [_ T];
    [|exact T].
  induction n as [|n [IH1 IH2]]; [done|]. change (Nat.iter (S n) ?f ?x) with (f (Nat.iter n f x)).
  set (s1 := Nat.iter n _ _) in *. clearbody s1. split.
  - unfold removeConnection, runInLoop, removeConnectionInLoop. destruct (decide _); [rewrite IH1|]; exact IH1.
  - etrans; [exact IH2|]. by apply (touches_removeConnection (conn_loop k) c k').
Qed.

(** ** Running a task *)

Lemma touches_pop c name pre l tk post s :
  conn_of tk = c -> queue s = pre ++ (l, tk) :: post -> touches c name s (set_queue (pre ++ post) s).
Proof.
  intros Hc Hq. split; cbn; try done. intros c' Hne. rewrite Hq, !mine_app, mine_cons_ne by congruence. done.
Qed.

Lemma connection_of s lt :
  ok s -> lt ∈ queue s -> exists k st, conns s !! conn_of lt.2 = Some k /\ conn_ok s (conn_of lt.2) k st.
Proof.
  intros Hok Hin. destruct (lookup_lt_is_Some_2 (conns s) (conn_of lt.2)) as [k Hk]; [by apply ok_queue|].
  destruct (ok_conn s Hok _ k Hk) as [st Hst]. eauto.
Qed.

(** The connection's part of a task. *)
Lemma run_task_conn c k st l tk pre post s :
  conns s !! c = Some k -> conn_ok s c k st -> conn_of tk = c -> queue s = pre ++ (l, tk) :: post ->
  (forall tk', (l, tk') ∉ mine c pre) ->
  let s' := run_task cbs l tk (set_queue (pre ++ post) s) in
  touches c (conn_name k) s s' /\
  exists k' st', conns s' !! c = Some k' /\ conn_name k' = conn_name k /\ conn_ok s' c k' st'.
Proof.
  intros Hk [C1 C2 C3 C4 C5 C6] Hc Hq Hpre. set (s1 := set_queue (pre ++ post) s).
  pose proof (touches_pop c (conn_name k) pre l tk post s Hc Hq) as T1.
  assert (conns s1 !! c = Some k) as Hk1 by done.
  assert (mine c (queue s1) = mine c pre ++ mine c post) as Hm by apply mine_app.
  rewrite Hq, mine_app, mine_cons_eq in C4 by done.
  pose proof (waiting_pop _ _ _ _ _ _ _ _ C4 Hpre) as Hw. pose proof (inv_reachable cbs _ C1) as Hi.
  destruct tk as [c0|c0|c0|c0]; cbn [run_task]; cbn in Hc; subst c0.
  - destruct Hw as (-> & -> & Hnil & Hn & _). cbn in C2, C3. unfold connectEstablished.
    set (s2 := note _ s1). assert (touches c (conn_name k) s s2) as T2 by (etrans; [exact T1|by apply touches_note]).
    split; [etrans; [exact T2|by apply touches_tcp_step]|].
    destruct (step_established cbs (tcp k) Hi C2) as [Hup Hcl].
    rewrite (tcp_step_quiet c k _ s2 Hk1) by (by rewrite Hcl, C3).
    exists (mk_conn (conn_name k) (conn_loop k) (TcpConnection.step cbs TcpConnection.Established (tcp k))), Open.
    split_and!; [by apply stepped_lookup|done|]. split; try done.
    + apply TcpConnection.reach_step; [done|]. by apply bool_decide_eq_true.
    + rewrite stepped_mine. change (mine c (queue s2)) with (mine c (queue s1)). rewrite Hm, Hnil. cbn [waiting app].
      f_equal. cbn [TcpConnection.remaining tcp conn_loop]. lia.
    + cbn. by rewrite mine_app, C5, mine_cons_eq.
  - destruct Hw as (-> & -> & Hm' & _). split; [etrans; [exact T1|by apply touches_removeConnectionInLoop]|].
    unfold removeConnectionInLoop. rewrite Hk1. exists k, Removing. split_and!; [done..|]. split; cbn; try done.
    + by rewrite mine_app, mine_app, Hm', mine_cons_eq.
    + by rewrite mine_app, C5, mine_cons_eq.
    + apply lookup_delete_eq.
  - destruct Hw as (-> & -> & Hnil & Hn & _). cbn in C2, C3.
    set (s2 := note _ s1). assert (touches c (conn_name k) s s2) as T2 by (etrans; [exact T1|by apply touches_note]).
    split; [etrans; [exact T2|by apply touches_tcp_step]|].
    assert (TcpConnection.enabled TcpConnection.Destroyed (tcp k) = true) as He.
    { cbn. rewrite C2. done. }
    destruct (step_down cbs TcpConnection.Destroyed (tcp k) Hi C2 He) as (Hs & Hq' & Hcl).
    rewrite (tcp_step_quiet c k _ s2 Hk1) by done.
    exists (mk_conn (conn_name k) (conn_loop k) (TcpConnection.step cbs TcpConnection.Destroyed (tcp k))), Gone.
    split_and!; [by apply stepped_lookup|done|]. split; try done.
    + by apply TcpConnection.reach_step.
    + cbn [tcp]. by rewrite Hcl.
    + rewrite stepped_mine. change (mine c (queue s2)) with (mine c (queue s1)). rewrite Hm, Hnil. cbn [waiting tcp].
      rewrite Hq'. cbn [TcpConnection.remaining]. by rewrite Nat.sub_diag, Hn.
    + cbn. by rewrite mine_app, C5, mine_cons_eq.
  - destruct Hw as (-> & m & Hn & Hst & Hw & _). split; [etrans; [exact T1|by apply touches_tcp_step]|].
    apply (tcp_step_ok c k st); try done.
    cbn [TcpConnection.remaining]. rewrite Hm. destruct (TcpConnection.queue (tcp k)) as [|f fs]; [done|].
    injection Hn as <-. done.
Qed.

Lemma ok_run_task l tk pre post s :
  ok s -> queue s = pre ++ (l, tk) :: post -> (forall tk', (l, tk') ∉ mine (conn_of tk) pre) ->
  ok (run_task cbs l tk (set_queue (pre ++ post) s)).
Proof.
  intros Hok Hq Hpre. destruct (connection_of s (l, tk) Hok) as (k & st & Hk & Hc); [rewrite Hq; set_solver|].
  cbn in Hk, Hc. destruct (run_task_conn (conn_of tk) k st l tk pre post s) as (T & k' & st' & Hk' & Hn & Hc'); try done.
  by eapply ok_touches.
Qed.

(** ** The other events *)

Lemma ok_same s s' :
  ok s -> pool_ok (threadPool_ s') -> queue s' = queue s -> did s' = did s -> conns s' = conns s ->
  connections_ s' = connections_ s -> nextConnId_ s' = nextConnId_ s -> name_ s' = name_ s -> ipPort_ s' = ipPort_ s -> ok s'.
Proof.
  intros [H1 H2 H3 H4 H5 H6 H7 H8] P Q D C T N Na I. split; rewrite ?Q, ?D, ?C, ?T, ?N; try done.
  - intros c k Hk. unfold connName. rewrite Na, I. by apply H4.
  - intros c k Hk. destruct (H5 c k Hk) as [st [C1 C2 C3 C4 C5 C6]]. exists st. split; rewrite ?Q, ?D, ?T; done.
Qed.

Lemma start_pool_ok cb p : pool_ok p -> pool_ok (EventLoopThreadPool.start cb p).1.
Proof.
  unfold EventLoopThreadPool.start. cbn [fst]. intros Hp.
  set (p0 := EventLoopThreadPool.mk _ _ _ _ _ _ _). assert (pool_ok p0) as H1 by done.
  generalize (seq 0 (Z.to_nat (EventLoopThreadPool.numThreads_ p0))). intros threads. clearbody p0. clear Hp.
  revert p0 H1. induction threads as [|i l IH]; intros p0 Hp0; cbn; [done|]. apply IH.
  destruct Hp0 as [|Hn]; [by left|right]. cbn. rewrite length_app. cbn. lia.
Qed.

Lemma getNextLoop_ok p :
  pool_ok p -> exists l p', EventLoopThreadPool.getNextLoop p = Some (l, p') /\ pool_ok p'.
Proof.
  intros Hp. unfold EventLoopThreadPool.getNextLoop. destruct (EventLoopThreadPool.loops_ p) as [|l0 ls] eqn:E.
  - by exists (EventLoopThreadPool.baseLoop_ p), p.
  - destruct (lookup_lt_is_Some_2 (l0 :: ls) (EventLoopThreadPool.next_ p)) as [l Hl].
    { unfold pool_ok in Hp. rewrite E in Hp. cbn in *. lia. }
    rewrite Hl. cbn [mbind option_bind]. eexists l, _. split; [done|]. unfold pool_ok. cbn [EventLoopThreadPool.next_ EventLoopThreadPool.loops_].
    destruct (Nat.leb_spec (length (l0 :: ls)) (S (EventLoopThreadPool.next_ p))); [by left|by right].
Qed.

(** A connection was accepted and its first task was posted. *)
Lemma ok_accepted pool io sockfd u ks s :
  ok s -> pool_ok pool -> nextConnId_ s <> INT_MAX ->
  let c := length (conns s) in
  let name := connName s (nextConnId_ s) in
  ok (queueInLoop io (ConnectEstablished c)
       (set_connections (<[name := c]> (connections_ s))
         (set_conns (conns s ++ [mk_conn name io (TcpConnection.make sockfd u ks)])
           (set_nextConnId (nextConnId_ s + 1) (set_pool pool s))))).
Proof.
  intros [H1 H2 H3 H4 H5 H6 H7 H8] Hp Hmax c name.
  assert (mine c (queue s) = [] /\ mine c (did s) = []) as [Hq0 Hd0].
  { split; by apply mine_fresh. }
  assert (forall c' k, conns s !! c' = Some k -> conn_name k <> name) as Hfresh.
  { intros c' k Hk E. rewrite (H4 c' k Hk) in E. pose proof (lookup_lt_Some _ _ _ Hk).
    unfold INT_MAX in *. apply connName_inj in E; lia. }
  assert (forall c' k, (conns s ++ [mk_conn name io (TcpConnection.make sockfd u ks)]) !! c' = Some k ->
    conns s !! c' = Some k \/ (c' = c /\ k = mk_conn name io (TcpConnection.make sockfd u ks))) as Hlook.
  { intros c' k [Hk|[Hle Hk]]%lookup_app_Some; [by left|right].
    apply list_lookup_singleton_Some in Hk as [Hz ->]. split; [unfold c; lia|done]. }
  split; cbn.
  - done.
  - rewrite length_app. cbn. lia.
  - lia.
  - intros c' k [Hk|[-> ->]]%Hlook; [by apply (H4 c' k Hk)|]. cbn. unfold name, connName. cbn. do 5 f_equal. lia.
  - intros c' k [Hk|[-> ->]]%Hlook.
    + destruct (H5 c' k Hk) as [st [C1 C2 C3 C4 C5 C6]]. exists st.
      assert (c <> c') as Hne by (pose proof (lookup_lt_Some _ _ _ Hk); unfold c; lia).
      split; cbn; try done.
      * rewrite mine_app, mine_cons_ne by done. by rewrite app_nil_r.
      * rewrite lookup_insert_ne; [done|]. intros E. by eapply Hfresh.
    + exists Accepted. split; cbn; try done.
      * apply TcpConnection.reach_make.
      * by rewrite mine_app, Hq0, mine_cons_eq.
      * apply lookup_insert_eq.
  - intros nm c' [[<- <-]|[Hne Hn]]%lookup_insert_Some.
    + eexists. split; [by apply list_lookup_middle|done].
    + destruct (H6 nm c' Hn) as (k & Hk & Hkn). exists k. split; [by apply lookup_app_l_Some|done].
  - intros lt [Hin| ->%list_elem_of_singleton]%elem_of_app; rewrite length_app; cbn; [specialize (H7 lt Hin); lia|unfold c; lia].
  - intros lt Hin. rewrite length_app. cbn. specialize (H8 lt Hin). lia.
Qed.

(** ** Reachable states *)

Lemma server_ok_make ipPort nameArg : ok (make ipPort nameArg).
Proof. split; cbn; try done; [by left|set_solver|set_solver]. Qed.

Lemma tcp_event_ok c k e s :
  ok s -> conns s !! c = Some k -> TcpConnection.enabled e (tcp k) = true ->
  e <> TcpConnection.Established -> e <> TcpConnection.Destroyed -> e <> TcpConnection.RunFunctor ->
  ok (tcp_step cbs c e s).
Proof.
  intros Hok Hk He H1 H2 H3. destruct (ok_conn s Hok c k Hk) as [st [C1 C2 C3 C4 C5 C6]].
  destruct (tcp_step_ok c k st e s) as (k' & st' & Hk' & Hn & Hc); try done.
  - by replace (TcpConnection.remaining e (TcpConnection.queue (tcp k))) with (TcpConnection.queue (tcp k))
      by (by destruct e).
  - eapply ok_touches; [done|exact Hk|by apply touches_tcp_step|done..].
Qed.

Lemma newConnection_ok sockfd u ks s s' :
  ok s -> newConnection cbs sockfd u ks s = Some s' -> ok s'.
Proof.
  intros Hok Hs. unfold newConnection in Hs. destruct (getNextLoop_ok _ (ok_pool s Hok)) as (io & pool & Hl & Hp).
  rewrite Hl in Hs. cbn [mbind option_bind nextConnId_ set_pool] in Hs.
  destruct (Z.eqb_spec (nextConnId_ s) INT_MAX) as [|Hmax]; [done|]. injection Hs as <-.
  pose proof (ok_accepted pool io sockfd u ks s Hok Hp Hmax) as Hok'. cbv zeta in Hok'.
  change (connName (set_pool pool s) (nextConnId_ s)) with (connName s (nextConnId_ s)).
  unfold runInLoop. destruct (decide (0 = io)) as [Hio|Hio]; [|exact Hok'].
  set (s1 := set_connections _ _) in Hok'.
  pose proof (ok_run_task io (ConnectEstablished (length (conns s))) (queue s) [] _ Hok' eq_refl) as Hrun.
  cbn [conn_of] in Hrun. rewrite mine_fresh in Hrun by apply (ok_queue s Hok).
  rewrite app_nil_r in Hrun. apply Hrun. intros tk. apply not_elem_of_nil.
Qed.

Lemma server_ok_step e s s' : ok s -> enabled e s = true -> step cbs e s = Some s' -> ok s'.
Proof.
  intros Hok He Hs. destruct e as [n|cb|sockfd u ks|l|c revents res|c inLoop data|c inLoop]; cbn [step] in Hs.
  - injection Hs as <-. apply (ok_same s); try done. apply Hok.
  - injection Hs as <-. unfold start. destruct (started_ s =? 0)%Z; apply (ok_same s); try done; [|apply Hok].
    apply start_pool_ok, Hok.
  - by eapply newConnection_ok.
  - destruct (pop l (queue s)) as [[tk q]|] eqn:Hpop; [|done]. cbn in Hs. injection Hs as <-.
    destruct (pop_spec _ _ _ _ Hpop) as (pre & post & Hq & -> & Hpre).
    apply ok_run_task; [done|done|]. intros tk' Hin. by eapply Hpre, mine_loop.
  - injection Hs as <-. cbn in He. destruct (conns s !! c) as [k|] eqn:Hk; [|done].
    by apply (tcp_event_ok c k).
  - injection Hs as <-. destruct (conns s !! c) as [k|] eqn:Hk; [by apply (tcp_event_ok c k)|].
    unfold tcp_step. by rewrite Hk.
  - injection Hs as <-. destruct (conns s !! c) as [k|] eqn:Hk; [by apply (tcp_event_ok c k)|].
    unfold tcp_step. by rewrite Hk.
Qed.

Lemma server_ok_reachable s : reachable cbs s -> ok s.
Proof. induction 1; [apply server_ok_make|by eapply server_ok_step]. Qed.

(** ** Closing *)

Lemma removeConnection_appends cur c s : queue s `prefix_of` queue (removeConnection cur c s) /\ did s `prefix_of` did (removeConnection cur c s).
Proof.
  unfold removeConnection, runInLoop, removeConnectionInLoop. destruct (decide _); [destruct (conns s !! c)|];
    split; cbn; try done; by apply prefix_app_r.
Qed.

Lemma tcp_step_appends c e s : queue s `prefix_of` queue (tcp_step cbs c e s) /\ did s `prefix_of` did (tcp_step cbs c e s).
Proof.
  unfold tcp_step. destruct (conns s !! c) as [k|]; [|done].
  match goal with |- context [Nat.iter ?n ?f ?s0] => set (s1 := s0); generalize n; intros m end.
  assert (queue s `prefix_of` queue s1 /\ did s `prefix_of` did s1) as H1 by (split; [by apply prefix_app_r|done]).
  clearbody s1. induction m as [|m IH]; [done|]. change (Nat.iter (S m) ?f ?x) with (f (Nat.iter m f x)).
  set (s2 := Nat.iter m _ _) in *. destruct (removeConnection_appends (conn_loop k) c s2), IH.
  split; (etrans; [done|]); done.
Qed.

(** A task appends to the queues, and is noted unless it is a functor. *)
Lemma run_task_appends l tk s :
  queue s `prefix_of` queue (run_task cbs l tk s) /\ did s `prefix_of` did (run_task cbs l tk s).
Proof.
  destruct tk as [c|c|c|c]; cbn [run_task].
  - destruct (tcp_step_appends c TcpConnection.Established (note (l, ConnectEstablished c) s)) as [Hq Hd].
    split; [exact Hq|]. etrans; [|exact Hd]. by apply prefix_app_r.
  - unfold removeConnectionInLoop. destruct (conns s !! c); [|done]. split; cbn; by apply prefix_app_r.
  - destruct (tcp_step_appends c TcpConnection.Destroyed (note (l, ConnectDestroyed c) s)) as [Hq Hd].
    split; [exact Hq|]. etrans; [|exact Hd]. by apply prefix_app_r.
  - apply tcp_step_appends.
Qed.

Definition run_tasks (ls : list loop) s : option t :=
  foldl (fun o l => s ← o; step cbs (RunTask l) s) (Some s) ls.

Lemma run_tasks_cons l ls s s1 : step cbs (RunTask l) s = Some s1 -> run_tasks (l :: ls) s = run_tasks ls s1.
Proof. intros Hs. unfold run_tasks. cbn [foldl mbind option_bind]. by rewrite Hs. Qed.

Lemma run_tasks_app ls1 ls2 s s1 : run_tasks ls1 s = Some s1 -> run_tasks (ls1 ++ ls2) s = run_tasks ls2 s1.
Proof. unfold run_tasks. intros Hs. by rewrite foldl_app, Hs. Qed.

(** What never changes about the connections there are. *)
Definition same_conns s s' : Prop :=
  conn_loop <$> conns s' = conn_loop <$> conns s /\ name_ s' = name_ s /\ ipPort_ s' = ipPort_ s.

#[local] Instance same_conns_preorder : PreOrder same_conns.
Proof. split; [by split|]. intros s1 s2 s3 (?&?&?) (?&?&?). split_and!; congruence. Qed.

Lemma pop_None l q : pop l q = None -> forall tk, (l, tk) ∉ q.
Proof.
  induction q as [|[l' t'] q IH]; cbn; [intros _ tk; apply not_elem_of_nil|].
  destruct (decide (l' = l)); [done|]. destruct (pop l q) as [[]|]; [done|]. intros _ tk.
  apply not_elem_of_cons. split; [congruence|by apply IH].
Qed.

Lemma pop_app l q1 q2 :
  pop l (q1 ++ q2) =
  match pop l q1 with
  | Some (tk, q) => Some (tk, q ++ q2)
  | None => match pop l q2 with Some (tk, q) => Some (tk, q1 ++ q) | None => None end
  end.
Proof.
  induction q1 as [|[l' t'] q1 IH]; cbn [app pop]; [by destruct (pop l q2) as [[]|]|].
  destruct (decide (l' = l)); [done|]. rewrite IH. destruct (pop l q1) as [[]|]; [done|]. by destruct (pop l q2) as [[]|].
Qed.

Lemma pop_length l q tk q' : pop l q = Some (tk, q') -> length q = S (length q').
Proof.
  intros Hp. destruct (pop_spec _ _ _ _ Hp) as (pre & post & -> & -> & _). rewrite !length_app. cbn. lia.
Qed.

(** One turn of a loop. *)
Lemma run_one l tk q s :
  ok s -> pop l (queue s) = Some (tk, q) ->
  exists s', step cbs (RunTask l) s = Some s' /\ ok s' /\ same_conns s s' /\
    q `prefix_of` queue s' /\ did s `prefix_of` did s' /\
    match tk with ConnFunctor _ => True | _ => (l, tk) ∈ did s' end.
Proof.
  intros Hok Hpop. exists (run_task cbs l tk (set_queue q s)).
  assert (step cbs (RunTask l) s = Some (run_task cbs l tk (set_queue q s))) as Hstep by (cbn [step]; by rewrite Hpop).
  split; [exact Hstep|]. split; [by eapply (server_ok_step (RunTask l))|].
  destruct (pop_spec _ _ _ _ Hpop) as (pre & post & Hq & -> & Hpre).
  destruct (connection_of s (l, tk) Hok) as (k & st & Hk & Hc); [rewrite Hq; set_solver|]. cbn in Hk, Hc.
  destruct (run_task_conn (conn_of tk) k st l tk pre post s) as (T & _); try done.
  { intros tk' Hin. by eapply Hpre, mine_loop. }
  split; [by destruct T|]. destruct (run_task_appends l tk (set_queue (pre ++ post) s)) as [Q D].
  split; [exact Q|]. split; [exact D|]. destruct tk as [c|c|c|c]; cbn [run_task] in *; [..|done].
  - destruct (tcp_step_appends c TcpConnection.Established (note (l, ConnectEstablished c) (set_queue (pre ++ post) s)))
      as [_ [d Hd]]. unfold connectEstablished. rewrite Hd. cbn. set_solver.
  - unfold removeConnectionInLoop. cbn [set_queue conns]. cbn in Hk. rewrite Hk. cbn.
    destruct Hc as [_ _ _ C4 _ _]. rewrite Hq, mine_app, mine_cons_eq in C4 by done.
    pose proof (waiting_pop _ _ _ _ _ _ _ _ C4 ltac:(intros tk' Hin; by eapply Hpre, mine_loop)) as (_ & -> & _). set_solver.
  - destruct (tcp_step_appends c TcpConnection.Destroyed (note (l, ConnectDestroyed c) (set_queue (pre ++ post) s)))
      as [_ [d Hd]]. rewrite Hd. cbn. set_solver.
Qed.

(** Every task gets its turn: its loop runs those before it first. *)
Lemma run_until l tk pre post s :
  ok s -> queue s = pre ++ (l, tk) :: post -> (match tk with ConnFunctor _ => False | _ => True end) ->
  exists ls s', run_tasks ls s = Some s' /\ ok s' /\ same_conns s s' /\ (l, tk) ∈ did s' /\ did s `prefix_of` did s'.
Proof.
  intros Hok Hq Htk. remember (length pre) as n eqn:Hn. revert pre post s Hok Hq Hn.
  induction (lt_wf n) as [n _ IH]. intros pre post s Hok Hq ->.
  pose proof (pop_app l pre ((l, tk) :: post)) as Hpop. rewrite <- Hq in Hpop.
  destruct (pop l pre) as [[tk0 pre0]|] eqn:Hpre.
  - destruct (run_one l tk0 (pre0 ++ (l, tk) :: post) s Hok Hpop) as (s1 & Hs1 & Hok1 & Hsame & [ext Hext] & Hd & _).
    destruct (IH (length pre0)) with (pre := pre0) (post := post ++ ext) (s := s1) as (ls & s' & Hrun & Hok' & Hsame' & Hin & Hd').
    + apply pop_length in Hpre. lia.
    + done.
    + by rewrite Hext, <- app_assoc.
    + done.
    + exists (l :: ls), s'. split_and!; [|done| |done|by trans (did s1)].
      * by rewrite (run_tasks_cons l ls s s1).
      * by trans s1.
  - cbn [pop] in Hpop. rewrite decide_True in Hpop by done.
    destruct (run_one l tk (pre ++ post) s Hok Hpop) as (s1 & Hs1 & Hok1 & Hsame & _ & Hd & Hin).
    exists [l], s1. split_and!; [by rewrite (run_tasks_cons l [] s s1)|done|done|by destruct tk|done].
Qed.

Lemma in_queue c lt s : lt ∈ mine c (queue s) -> exists pre post, queue s = pre ++ lt :: post.
Proof. intros [_ Hin]%list_elem_of_filter. by apply list_elem_of_split. Qed.

Lemma same_conns_lookup s s' c k :
  same_conns s s' -> conns s !! c = Some k -> exists k', conns s' !! c = Some k' /\ conn_loop k' = conn_loop k.
Proof.
  intros (Hl & _) Hk. apply (f_equal (fun l => l !! c)) in Hl. rewrite !list_lookup_fmap, Hk in Hl.
  destruct (conns s' !! c) as [k'|]; [|done]. injection Hl as Hl. by exists k'.
Qed.

Lemma same_conns_name s s' c k k' :
  ok s -> ok s' -> same_conns s s' -> conns s !! c = Some k -> conns s' !! c = Some k' -> conn_name k' = conn_name k.
Proof.
  intros Hok Hok' (_ & Hn & Hi) Hk Hk'. rewrite (ok_name s Hok c k Hk), (ok_name s' Hok' c k' Hk').
  unfold connName. by rewrite Hn, Hi.
Qed.

Lemma did_mine c lt s : lt ∈ did s -> conn_of lt.2 = c -> lt ∈ mine c (did s).
Proof. intros Hin Hc. by apply list_elem_of_filter. Qed.

(** A connection that is being removed is destroyed in the end. *)
Lemma removing_destroyed c k s :
  ok s -> conns s !! c = Some k -> (0, RemoveConnectionInLoop c) ∈ did s ->
  exists ls s', run_tasks ls s = Some s' /\ (conn_loop k, ConnectDestroyed c) ∈ did s' /\
    connections_ s' !! conn_name k = None.
Proof.
  intros Hok Hk Hin. destruct (ok_conn s Hok c k Hk) as [st [C1 C2 C3 C4 C5 C6]].
  apply (did_mine c) in Hin; [|done]. rewrite C5 in Hin.
  assert (st = Removing \/ st = Gone) as Hst by (destruct st; cbn in Hin; set_solver).
  destruct Hst as [-> | ->].
  - destruct (in_queue c (conn_loop k, ConnectDestroyed c) s) as (pre & post & Hq); [rewrite C4; set_solver|].
    destruct (run_until _ _ pre post s Hok Hq I) as (ls & s' & Hrun & Hok' & Hsame & Hd & _).
    exists ls, s'. split_and!; [done|done|].
    destruct (same_conns_lookup s s' c k Hsame Hk) as (k' & Hk' & Hl).
    rewrite <- (same_conns_name s s' c k k') by done.
    destruct (ok_conn s' Hok' c k' Hk') as [st' [_ _ _ _ D5 D6]]. rewrite D6.
    apply (did_mine c) in Hd; [|done]. rewrite D5 in Hd. destruct st'; cbn in Hd; set_solver.
  - exists [], s. split_and!; [done| |done]. apply (mine_loop c). rewrite C5. set_solver.
Qed.

(** ** The end of the server *)

Lemma destroy_connection_mono cur s c :
  queue s ++ did s ⊆ queue (destroy_connection cbs cur s c) ++ did (destroy_connection cbs cur s c) /\
  conn_loop <$> conns (destroy_connection cbs cur s c) = conn_loop <$> conns s /\
  forall k, conns s !! c = Some k ->
    (conn_loop k, ConnectDestroyed c) ∈ queue (destroy_connection cbs cur s c) ++ did (destroy_connection cbs cur s c).
Proof.
  unfold destroy_connection. destruct (conns s !! c) as [k|] eqn:Hk; [|by split_and!].
  unfold runInLoop. destruct (decide (cur = conn_loop k)) as [->|Hne].
  - set (s1 := note _ s). destruct (tcp_step_appends c TcpConnection.Destroyed s1) as [[q Hq] [d Hd]].
    rewrite Hq, Hd. cbn. split_and!; [set_solver| |intros k' [= <-]; set_solver].
    apply (to_loops c (conn_name k) s1). by apply touches_tcp_step.
  - cbn. split_and!; [set_solver|done|intros k' [= <-]; set_solver].
Qed.

(** ~TcpServer has every connection destroyed, in its own loop. *)
Lemma server_destroyed cur s name c k :
  connections_ s !! name = Some c -> conns s !! c = Some k ->
  connections_ (destroy cbs cur s) = ∅ /\
  (conn_loop k, ConnectDestroyed c) ∈ queue (destroy cbs cur s) ++ did (destroy cbs cur s).
Proof.
  intros Hn Hk. split; [done|]. unfold destroy. cbn [set_connections queue did].
  assert (c ∈ (map_to_list (connections_ s)).*2) as Hin
    by (apply (list_elem_of_fmap_2' snd _ (name, c)); [by apply elem_of_map_to_list|done]).
  assert (conn_loop <$> conns s !! c = Some (conn_loop k)) as Hl by (by rewrite Hk).
  rewrite <- list_lookup_fmap in Hl. clear Hk Hn. revert s Hl Hin.
  assert (forall l s, queue s ++ did s ⊆ queue (foldl (destroy_connection cbs cur) s l) ++ did (foldl (destroy_connection cbs cur) s l)) as Hmono.
  { induction l as [|c' l IH]; intros s; cbn; [done|]. etrans; [apply (destroy_connection_mono cur s c')|apply IH]. }
  intros s. generalize (map_to_list (connections_ s)).*2. intros l. revert s.
  induction l as [|c' l IH]; intros s Hl Hin; [by apply elem_of_nil in Hin|]. cbn.
  destruct (destroy_connection_mono cur s c') as (_ & Hc & Hd). apply elem_of_cons in Hin as [<-|Hin].
  - apply Hmono. rewrite list_lookup_fmap in Hl. destruct (conns s !! c) as [k'|]; [|done].
    injection Hl as <-. by apply Hd.
  - apply IH; [by rewrite Hc|done].
Qed.

(** ** Round robin *)

#[local] Arguments Nat.modulo : simpl never.

(** Where the [i]-th connection belongs. *)
Definition loop_for (ls : list loop) (i : nat) : loop :=
  match ls with [] => 0 | _ => nth (i mod length ls) ls 0 end.

Definition turn s : nat :=
  match EventLoopThreadPool.loops_ (threadPool_ s) with [] => 0 | ls => length (conns s) mod length ls end.

Record fair s : Prop := {
  fair_base : EventLoopThreadPool.baseLoop_ (threadPool_ s) = 0;
  fair_before : started_ s = 0%Z ->
    listening s = false /\ conns s = [] /\ EventLoopThreadPool.loops_ (threadPool_ s) = [];
  fair_started : (0 <= started_ s)%Z;
  fair_next : EventLoopThreadPool.next_ (threadPool_ s) = turn s;
  fair_conns : conn_loop <$> conns s =
    loop_for (EventLoopThreadPool.loops_ (threadPool_ s)) <$> seq 0 (length (conns s));
}.

Lemma fair_touches c name s s' : touches c name s s' -> fair s -> fair s'.
Proof.
  intros [_ _ _ _ T5 T6 _ _ _ T10 T11 T12] [F1 F2 F3 F4 F5]. split; unfold turn in *; rewrite ?T5, ?T6, ?T10, ?T11, ?T12; try done.
  intros Hs. destruct (F2 Hs) as (? & Hc & ?). split_and!; [done| |done].
  apply nil_length_inv. by rewrite T5, Hc.
Qed.

Lemma mod_succ n m : 0 < m -> (if m <=? S (n mod m) then 0 else S (n mod m)) = S n mod m.
Proof.
  intros Hm. pose proof (Nat.mod_upper_bound n m ltac:(lia)). rewrite <- (Nat.add_1_l n), <- (Nat.Div0.add_mod_idemp_r 1 n m).
  destruct (Nat.leb_spec m (S (n mod m))).
  - assert (1 + n mod m = m) as -> by lia. by rewrite Nat.Div0.mod_same.
  - rewrite (Nat.mod_small (1 + n mod m)); lia.
Qed.

Lemma fair_getNextLoop s io pool :
  fair s -> EventLoopThreadPool.getNextLoop (threadPool_ s) = Some (io, pool) ->
  io = loop_for (EventLoopThreadPool.loops_ (threadPool_ s)) (length (conns s)) /\
  EventLoopThreadPool.loops_ pool = EventLoopThreadPool.loops_ (threadPool_ s) /\
  EventLoopThreadPool.baseLoop_ pool = 0 /\
  EventLoopThreadPool.next_ pool =
    match EventLoopThreadPool.loops_ (threadPool_ s) with [] => 0 | ls => S (length (conns s)) mod length ls end.
Proof.
  intros [F1 _ _ F4 _]. unfold EventLoopThreadPool.getNextLoop, turn in *.
  destruct (EventLoopThreadPool.loops_ (threadPool_ s)) as [|l0 ls] eqn:E.
  - intros [= <- <-]. by rewrite E, F1, F4.
  - rewrite F4. destruct ((l0 :: ls) !! (length (conns s) mod length (l0 :: ls))) as [l|] eqn:Hl; [|done].
    cbn [mbind option_bind]. intros [= <- <-]. cbn [EventLoopThreadPool.loops_ EventLoopThreadPool.next_ EventLoopThreadPool.baseLoop_].
    split_and!; [|done|done|apply (mod_succ (length (conns s)) (length (l0 :: ls))); cbn; lia].
    unfold loop_for. symmetry. by apply nth_lookup_Some with (d := 0) in Hl.
Qed.

Lemma fair_start cb s : fair s -> fair (start cb s).
Proof.
  unfold start. intros [F1 F2 F3 F4 F5].
  destruct (Z.eqb_spec (started_ s) 0) as [Hz|Hnz]; [|split; cbn; try done; lia].
  destruct (F2 Hz) as (_ & Hc & Hl). unfold turn in F4. rewrite Hl in F4.
  assert (forall p l, EventLoopThreadPool.baseLoop_ (foldl EventLoopThreadPool.start_thread p l) = EventLoopThreadPool.baseLoop_ p /\
    EventLoopThreadPool.next_ (foldl EventLoopThreadPool.start_thread p l) = EventLoopThreadPool.next_ p) as Hfold.
  { intros p l. revert p. induction l as [|i l IH]; intros p; cbn [foldl]; [done|].
    by destruct (IH (EventLoopThreadPool.start_thread p i)) as [-> ->]. }
  split; unfold turn; cbn [set_listening set_pool set_started threadPool_ started_ conns listening EventLoopThreadPool.start fst];
    rewrite ?Hc; try done; try lia.
  - by rewrite (proj1 (Hfold _ _)).
  - rewrite (proj2 (Hfold _ _)). cbn [EventLoopThreadPool.next_]. rewrite F4.
    destruct (EventLoopThreadPool.loops_ (foldl _ _ _)) as [|l ls]; [done|]. symmetry. apply Nat.Div0.mod_0_l.
Qed.

Lemma fair_newConnection sockfd u ks s s' :
  fair s -> listening s = true -> newConnection cbs sockfd u ks s = Some s' -> fair s'.
Proof.
  intros Hf He Hs. unfold newConnection in Hs.
  destruct (EventLoopThreadPool.getNextLoop (threadPool_ s)) as [[io pool]|] eqn:Hn; [|done].
  destruct (fair_getNextLoop s io pool Hf Hn) as (Hio & Hl & Hb & Hnext). destruct Hf as [F1 F2 F3 F4 F5].
  cbn [mbind option_bind nextConnId_ set_pool] in Hs. destruct (nextConnId_ s =? INT_MAX)%Z; [done|]. injection Hs as <-.
  match goal with |- fair (runInLoop _ _ _ _ ?s0) => set (s1 := s0) end.
  assert (fair s1) as Hf1.
  { split; unfold turn; cbn; rewrite ?Hl; try done.
    - intros Hz. destruct (F2 Hz) as (Hli & _). by rewrite Hli in He.
    - rewrite length_app. cbn. rewrite Hnext. destruct (EventLoopThreadPool.loops_ _); [done|]. by rewrite Nat.add_1_r.
    - rewrite fmap_app, F5, length_app, seq_app, fmap_app. cbn. by rewrite Hio. }
  assert (conns s1 !! length (conns s) = Some (mk_conn (connName s (nextConnId_ s)) io (TcpConnection.make sockfd u ks))) as Hk
    by (by apply list_lookup_middle).
  unfold runInLoop. destruct (decide (0 = io));
    (apply (fair_touches (length (conns s)) (connName s (nextConnId_ s)) s1); [|exact Hf1]); [|by apply touches_push].
  unfold connectEstablished. trans (note (io, ConnectEstablished (length (conns s))) s1); [by apply touches_note|].
  exact (touches_tcp_step _ _ _ (note (io, ConnectEstablished (length (conns s))) s1) Hk).
Qed.

Lemma fair_tcp_step c e s : fair s -> fair (tcp_step cbs c e s).
Proof.
  intros Hf. destruct (conns s !! c) as [k|] eqn:Hk; [eapply fair_touches; [by apply touches_tcp_step|done]|].
  unfold tcp_step. by rewrite Hk.
Qed.

Lemma fair_step e s s' : ok s -> fair s -> enabled e s = true -> step cbs e s = Some s' -> fair s'.
Proof.
  intros Hok Hf He Hs. destruct e as [n|cb|sockfd u ks|l|c revents res|c inLoop data|c inLoop]; cbn [step enabled] in *.
  - injection Hs as <-. by destruct Hf.
  - injection Hs as <-. by apply fair_start.
  - by eapply fair_newConnection.
  - destruct (pop l (queue s)) as [[tk q]|] eqn:Hpop; [|done]. cbn in Hs. injection Hs as <-.
    destruct (pop_spec _ _ _ _ Hpop) as (pre & post & Hq & -> & Hpre).
    destruct (connection_of s (l, tk) Hok) as (k & st & Hk & Hc); [rewrite Hq; set_solver|]. cbn in Hk, Hc.
    destruct (run_task_conn (conn_of tk) k st l tk pre post s) as (T & _); try done.
    { intros tk' Hin. by eapply Hpre, mine_loop. }
    by eapply fair_touches.
  - injection Hs as <-. by apply fair_tcp_step.
  - injection Hs as <-. by apply fair_tcp_step.
  - injection Hs as <-. by apply fair_tcp_step.
Qed.

Lemma fair_reachable s : reachable cbs s -> fair s.
Proof. induction 1 as [|e s s' Hr IH He Hs]; [by split|]. eapply fair_step; [by apply server_ok_reachable|done..]. Qed.

(** ** The properties *)

(** C12.  The server and its loops keep the contract of every connection: however
    tasks, events and calls interleave, each connection is driven as
    TcpConnection assumes; it goes through established, removed, destroyed once
    each, in this order, on its own I/O loop and the base loop; its tasks wait
    in the queues accordingly; and it is in the table under its own name
    exactly until it is removed. *)
Theorem server_connection_lifecycle s c k :
  reachable cbs s -> conns s !! c = Some k ->
  TcpConnection.reachable cbs (tcp k) /\
  exists st, in_stage st k /\
    mine c (did s) = history (conn_loop k) c st /\
    waiting (conn_loop k) c st (length (TcpConnection.queue (tcp k))) (mine c (queue s)) /\
    connections_ s !! conn_name k = (if in_table st then Some c else None).
Proof.
  intros Hok%server_ok_reachable Hk. destruct (ok_conn s Hok c k Hk) as [st [C1 C2 C3 C4 C5 C6]].
  split; [done|]. by exists st.
Qed.

(** C29.  A functor that a connection has queued, which holds a bare pointer to
    it, runs while the connection is still there: no such functor is waiting
    any more once connectDestroyed has run, and none waits behind it. *)
Theorem functors_before_destruction s c k pre post :
  reachable cbs s -> conns s !! c = Some k ->
  ((conn_loop k, ConnectDestroyed c) ∈ did s -> forall l, (l, ConnFunctor c) ∉ queue s) /\
  (queue s = pre ++ (conn_loop k, ConnectDestroyed c) :: post -> forall l, (l, ConnFunctor c) ∉ post).
Proof.
  intros Hok%server_ok_reachable Hk. destruct (ok_conn s Hok c k Hk) as [st [C1 C2 C3 C4 C5 C6]].
  assert (forall l q, (l, ConnFunctor c) ∈ q -> (l, ConnFunctor c) ∈ mine c q) as Hmine
    by (intros; by apply list_elem_of_filter).
  split.
  - intros Hin l Hl%Hmine. apply (did_mine c) in Hin; [|done]. rewrite C5 in Hin.
    assert (st = Gone) as -> by (destruct st; cbn in Hin; set_solver).
    destruct C4 as [Hq _]. rewrite Hq in Hl. by apply elem_of_nil in Hl.
  - intros Hq l Hl%Hmine. rewrite Hq, mine_app, mine_cons_eq in C4 by done. destruct st; cbn [waiting] in C4.
    + destruct C4 as [C4 _]. by destruct (mine c pre) as [|? []].
    + assert ((conn_loop k, ConnectDestroyed c) ∈ replicate (length (TcpConnection.queue (tcp k))) (conn_loop k, ConnFunctor c)) as Hd
        by (rewrite <- C4; set_solver). by apply elem_of_replicate in Hd as [? _].
    + assert ((conn_loop k, ConnectDestroyed c) ∈ (0, RemoveConnectionInLoop c) ::
        replicate (length (TcpConnection.queue (tcp k))) (conn_loop k, ConnFunctor c)) as Hd by (rewrite <- C4; set_solver).
      by apply elem_of_cons in Hd as [?|[? _]%elem_of_replicate].
    + destruct (mine c post) as [|x l2 _] using rev_ind; [by apply elem_of_nil in Hl|].
      rewrite app_comm_cons, app_assoc in C4. apply app_inj_tail in C4 as [C4 ->].
      assert ((conn_loop k, ConnectDestroyed c) ∈ replicate (length (TcpConnection.queue (tcp k))) (conn_loop k, ConnFunctor c)) as Hd
        by (rewrite <- C4; set_solver). by apply elem_of_replicate in Hd as [? _].
    + destruct C4 as [C4 _]. by destruct (mine c pre).
Qed.

(** C33.  Connections are spread over the I/O loops in turn: the [i]-th one that
    was accepted lives on loop [i mod n] of the [n] loops of the pool, or on
    the base loop when there are none. *)
Theorem connections_round_robin s c k :
  reachable cbs s -> conns s !! c = Some k ->
  conn_loop k = loop_for (EventLoopThreadPool.loops_ (threadPool_ s)) c.
Proof.
  intros Hf%fair_reachable Hk. pose proof (fair_conns s Hf) as E. apply (f_equal (fun l => l !! c)) in E.
  rewrite !list_lookup_fmap, Hk, lookup_seq_lt in E by (by eapply lookup_lt_Some). by injection E.
Qed.

(** C37.  A connection that went down is dropped for good: from every reachable
    state the loops get, by running tasks that are waiting, to a state in which
    connectDestroyed has run on its I/O loop and its name is free. *)
Theorem closed_connection_dropped s c k :
  reachable cbs s -> conns s !! c = Some k -> TcpConnection.state_ (tcp k) = TcpConnection.kDisconnected ->
  exists ls s', run_tasks ls s = Some s' /\ (conn_loop k, ConnectDestroyed c) ∈ did s' /\
    connections_ s' !! conn_name k = None.
Proof.
  intros Hok%server_ok_reachable Hk Hd. destruct (ok_conn s Hok c k Hk) as [st [C1 C2 C3 C4 C5 C6]].
  destruct st; cbn in C2; try congruence.
  - destruct C2; congruence.
  - destruct (in_queue c (0, RemoveConnectionInLoop c) s) as (pre & post & Hq); [rewrite C4; set_solver|].
    destruct (run_until _ _ pre post s Hok Hq I) as (ls & s1 & Hrun & Hok1 & Hsame & Hin & _).
    destruct (same_conns_lookup s s1 c k Hsame Hk) as (k1 & Hk1 & Hl).
    destruct (removing_destroyed c k1 s1 Hok1 Hk1 Hin) as (ls2 & s' & Hrun2 & Hin2 & Ht).
    exists (ls ++ ls2), s'. split_and!; [by rewrite (run_tasks_app ls ls2 s s1)|by rewrite <- Hl|].
    by rewrite <- (same_conns_name s s1 c k k1).
  - apply (removing_destroyed c k s Hok Hk). apply (mine_loop c). rewrite C5. set_solver.
  - apply (removing_destroyed c k s Hok Hk). apply (mine_loop c). rewrite C5. set_solver.
Qed.
End facts.

(** ** A server *)

(** Two I/O loops; two clients, the second of which has closed its side. *)
Definition sample_server_events : list (TcpServer.event unit) :=
  [SetThreadNum 2; Start false; NewConnection 7 tt []; NewConnection 8 tt [];
   RunTask 1; RunTask 2; PollConn 1 EPOLLIN (Buffer.ReadData [])].

Fixpoint run_server (es : list (TcpServer.event unit)) (s : TcpServer.t bytes unit) : TcpServer.t bytes unit :=
  match es with [] => s | e :: es => run_server es (default s (step echo e s)) end.

Fixpoint runnable (es : list (TcpServer.event unit)) (s : TcpServer.t bytes unit) : bool :=
  match es with
  | [] => true
  | e :: es => enabled e s && match step echo e s with Some s' => runnable es s' | None => false end
  end.

Definition sample_server : TcpServer.t bytes unit := run_server sample_server_events (make (str "0.0.0.0:80") (str "http")).

Lemma run_server_reachable es s : reachable echo s -> runnable es s = true -> reachable echo (run_server es s).
Proof.
  revert s. induction es as [|e es IH]; intros s Hs; [done|]. cbn. intros [He Hr]%andb_true_iff.
  destruct (step echo e s) as [s'|] eqn:E; [|done]. cbn. apply IH; [by eapply reach_step|done].
Qed.

Lemma sample_server_reachable : reachable echo sample_server.
Proof. apply run_server_reachable; [apply reach_make|vm_compute; reflexivity]. Qed.

Definition sample_conn : TcpServer.conn bytes unit :=
  default (mk_conn [] 0 (TcpConnection.make 0%Z tt [])) (conns sample_server !! 1).

Lemma sample_conn_lookup : conns sample_server !! 1 = Some sample_conn.
Proof.
  unfold sample_conn. destruct (conns sample_server !! 1) as [k|] eqn:E; [done|].
  assert (option_map (fun _ => tt) (conns sample_server !! 1) = Some tt) as Hs by (vm_compute; reflexivity).
  by rewrite E in Hs.
Qed.

Lemma server_connection_lifecycle_witness :
  reachable echo sample_server /\ TcpConnection.reachable echo (tcp sample_conn) /\
  mine 1 (queue sample_server) = [(0, RemoveConnectionInLoop 1)].
Proof.
  split; [apply sample_server_reachable|]. split; [|vm_compute; reflexivity].
  exact (proj1 (server_connection_lifecycle echo sample_server 1 sample_conn sample_server_reachable sample_conn_lookup)).
Defined.

Lemma functors_before_destruction_witness :
  reachable echo sample_server /\
  ((conn_loop sample_conn, ConnectDestroyed 1) ∈ did sample_server -> forall l, (l, ConnFunctor 1) ∉ queue sample_server).
Proof.
  split; [apply sample_server_reachable|].
  exact (proj1 (functors_before_destruction echo sample_server 1 sample_conn [] [] sample_server_reachable sample_conn_lookup)).
Defined.

Lemma connections_round_robin_witness :
  conn_loop sample_conn = 2 /\
  conn_loop sample_conn = loop_for (EventLoopThreadPool.loops_ (threadPool_ sample_server)) 1.
Proof.
  split; [vm_compute; reflexivity|].
  exact (connections_round_robin echo sample_server 1 sample_conn sample_server_reachable sample_conn_lookup).
Defined.

Lemma closed_connection_dropped_witness :
  exists ls s', run_tasks echo ls sample_server = Some s' /\ (conn_loop sample_conn, ConnectDestroyed 1) ∈ did s' /\
    connections_ s' !! conn_name sample_conn = None.
Proof.
  apply (closed_connection_dropped echo sample_server 1 sample_conn sample_server_reachable sample_conn_lookup).
  vm_compute. reflexivity.
Defined.
