(* ===== verification/ConnectionLifetime.v ===== *)
(** * Who keeps a TcpConnection alive

    src/net/TcpConnection.cc and src/net/TcpServer.cc once more, for one connection
    and the threads that call send() and shutdown() on it.  TcpServer.v takes the
    test of [state_] and what follows it as one step; here they are two, and the
    shared_ptrs are counted: those of the table, of the tasks that carry one and
    of the other threads.  The functors of send() and shutdown() capture a bare
    [this].  A loop deletes the functors it ran when doPendingFunctors() returns,
    and what they carry with them. *)

From S2P Require Import Prelude TcpConnection.
From stdpp Require Import gmap.

Module Lifetime.

Import TcpConnection.

(** What another thread asks for. *)
Inductive call := Send | Shutdown.

#[global] Instance call_eq_dec : EqDecision call.
Proof. solve_decision. Defined.

(** Where a thread that has a TcpConnectionPtr is: between calls; past the test
    of [state_]; past [setState(kDisconnecting)]. *)
Inductive phase := Idle | Passed (a : call) | Set_.

(** The queue of the connection's loop: [Raw] captures [this] and names the
    thread that posted it, and, as history, whether connectDestroyed() had been
    queued or had run by then; the others carry a TcpConnectionPtr. *)
Inductive functor :=
| Raw (thread : nat) (a : call) (late : bool)
| UserCallback              (** writeCompleteCallback_, highWaterMarkCallback_ *)
| ConnectDestroyed.

#[global] Instance functor_eq_dec : EqDecision functor.
Proof. solve_decision. Defined.

Inductive fault :=
| ConnectionGone            (** a method of a deleted TcpConnection *)
| ServerGone.               (** a method of a deleted TcpServer *)

Record t := mk {
  state_ : StateE;
  in_table : bool;          (** [connections_] has it *)
  base : nat;               (** removeConnectionInLoop, in the queue of the base loop *)
  base_ran : nat;           (** and the ones that ran, before their batch ends *)
  queue : list functor;     (** [pendingFunctors_] of its loop *)
  batch : list functor;     (** what doPendingFunctors() has still to run, *)
  ran : list functor;       (** and what it ran and deletes when it returns *)
  callers : gmap nat phase; (** the other threads that have a TcpConnectionPtr *)
  closed : bool;            (** [channel_->disableAll()] has been called *)
  destroyed : bool;         (** connectDestroyed() has run *)
  server : bool;            (** the TcpServer is there *)
  late_sends : nat;         (** history: sendInLoop() past its test after connectDestroyed() *)
}.

Definition set_state (v : StateE) (s : t) : t :=
  mk v (in_table s) (base s) (base_ran s) (queue s) (batch s) (ran s) (callers s) (closed s) (destroyed s) (server s) (late_sends s).
Definition set_table (v : bool) (s : t) : t :=
  mk (state_ s) v (base s) (base_ran s) (queue s) (batch s) (ran s) (callers s) (closed s) (destroyed s) (server s) (late_sends s).
Definition set_base (v r : nat) (s : t) : t :=
  mk (state_ s) (in_table s) v r (queue s) (batch s) (ran s) (callers s) (closed s) (destroyed s) (server s) (late_sends s).
Definition set_queue (v : list functor) (s : t) : t :=
  mk (state_ s) (in_table s) (base s) (base_ran s) v (batch s) (ran s) (callers s) (closed s) (destroyed s) (server s) (late_sends s).
Definition set_batch (b r : list functor) (s : t) : t :=
  mk (state_ s) (in_table s) (base s) (base_ran s) (queue s) b r (callers s) (closed s) (destroyed s) (server s) (late_sends s).
Definition set_callers (v : gmap nat phase) (s : t) : t :=
  mk (state_ s) (in_table s) (base s) (base_ran s) (queue s) (batch s) (ran s) v (closed s) (destroyed s) (server s) (late_sends s).
Definition set_closed (s : t) : t :=
  mk (state_ s) (in_table s) (base s) (base_ran s) (queue s) (batch s) (ran s) (callers s) true (destroyed s) (server s) (late_sends s).
Definition set_destroyed (s : t) : t :=
  mk (state_ s) (in_table s) (base s) (base_ran s) (queue s) (batch s) (ran s) (callers s) (closed s) true (server s) (late_sends s).
Definition set_server (s : t) : t :=
  mk (state_ s) (in_table s) (base s) (base_ran s) (queue s) (batch s) (ran s) (callers s) (closed s) (destroyed s) false (late_sends s).
Definition add_late (s : t) : t :=
  mk (state_ s) (in_table s) (base s) (base_ran s) (queue s) (batch s) (ran s) (callers s) (closed s) (destroyed s) (server s) (S (late_sends s)).

(** After connectEstablished(). *)
Definition make : t := mk kConnected true 0 0 [] [] [] ∅ false false true 0.

Definition strong (f : functor) : bool := match f with Raw _ _ _ => false | _ => true end.

(** Somebody has a shared_ptr. *)
Definition alive (s : t) : bool :=
  in_table s || negb (base s + base_ran s =? 0)%nat || existsb strong (queue s ++ batch s ++ ran s) || negb (bool_decide (callers s = ∅)).

(** connectDestroyed() has been queued or has run. *)
Definition leaving (s : t) : bool := destroyed s || bool_decide (ConnectDestroyed ∈ batch s ++ queue s).

Definition post (f : functor) (s : t) : t := set_queue (queue s ++ [f]) s.

Section lifetime.
(** The connection's loop is the base loop. *)
Context (single : bool).

Definition removeConnectionInLoop (s : t) : fault + t :=
  if server s then inr (post ConnectDestroyed (set_table false s)) else inl ServerGone.

Definition removeConnection (s : t) : fault + t :=
  if server s then if single then removeConnectionInLoop s else inr (set_base (S (base s)) (base_ran s) s)
  else inl ServerGone.

(** The poller reports that the peer closed, or a read of nothing. *)
Definition handleClose (s : t) : fault + t :=
  removeConnection (set_closed (set_state kDisconnected s)).

Definition connectDestroyed (s : t) : t :=
  set_destroyed (if decide (state_ s = kConnected) then set_closed (set_state kDisconnected s) else s).

(** ~TcpServer, in the thread of the base loop. *)
Definition destroy_server (s : t) : t :=
  let s := set_server s in
  if in_table s then
    let s := set_table false s in
    if single then connectDestroyed s else post ConnectDestroyed s
  else s.

(** The loop runs the functor it took from the queue. *)
Definition run (f : functor) (s : t) : fault + t :=
  match f with
  | Raw _ a _ =>
      if alive s then
        inr match a with
            | Send => if decide (state_ s = kDisconnected) then s else if destroyed s then add_late s else s
            | Shutdown => s
            end
      else inl ConnectionGone
  | UserCallback => inr s
  | ConnectDestroyed => inr (connectDestroyed s)
  end.

Inductive event :=
| Share (i : nat)           (* a callback gives a TcpConnectionPtr to a thread *)
| Test_ (i : nat) (a : call)  (* the thread looks at [state_] *)
| SetDisconnecting (i : nat)
| Post_ (i : nat)
| Release (i : nat)         (* the thread drops its pointer *)
| QueueCallback             (* the loop queues a user's callback *)
| ShutdownInLoop            (* shutdown() in the loop's thread *)
| HandleClose
| RunBase
| EndBase
| Swap                      (* doPendingFunctors() takes the queue *)
| RunFunctor
| EndBatch
| DestroyServer.

(** [None]: the event cannot happen. *)
Definition step (e : event) (s : t) : option (fault + t) :=
  match e with
  | Share i =>
      if alive s && bool_decide (callers s !! i = None) then Some (inr (set_callers (<[i := Idle]> (callers s)) s)) else None
  | Test_ i a =>
      match callers s !! i with
      | Some Idle =>
          Some (inr (if decide (state_ s = kConnected) then set_callers (<[i := Passed a]> (callers s)) s else s))
      | _ => None
      end
  | SetDisconnecting i =>
      match callers s !! i with
      | Some (Passed Shutdown) => Some (inr (set_state kDisconnecting (set_callers (<[i := Set_]> (callers s)) s)))
      | _ => None
      end
  | Post_ i =>
      match callers s !! i with
      | Some (Passed Send) => Some (inr (post (Raw i Send (leaving s)) (set_callers (<[i := Idle]> (callers s)) s)))
      | Some Set_ => Some (inr (post (Raw i Shutdown (leaving s)) (set_callers (<[i := Idle]> (callers s)) s)))
      | _ => None
      end
  | Release i =>
      match callers s !! i with
      | Some Idle => Some (inr (set_callers (delete i (callers s)) s))
      | _ => None
      end
  | QueueCallback => if destroyed s then None else Some (inr (post UserCallback s))
  | ShutdownInLoop =>
      if destroyed s then None
      else Some (inr (if decide (state_ s = kConnected) then set_state kDisconnecting s else s))
  | HandleClose => if closed s || destroyed s then None else Some (handleClose s)
  | RunBase =>
      match base s with
      | O => None
      | S n => Some (removeConnectionInLoop (set_base n (S (base_ran s)) s))
      end
  | EndBase => Some (inr (set_base (base s) 0 s))
  | Swap =>
      match batch s, ran s with
      | [], [] => Some (inr (set_queue [] (set_batch (queue s) [] s)))
      | _, _ => None
      end
  | EndBatch => match batch s with [] => Some (inr (set_batch [] [] s)) | _ => None end
  | RunFunctor =>
      match batch s with
      | [] => None
      | f :: b => Some (run f (set_batch b (ran s ++ [f]) s))
      end
  | DestroyServer => if server s then Some (inr (destroy_server s)) else None
  end.

Inductive reachable : t -> Prop :=
| reach_make : reachable make
| reach_step e s s' : reachable s -> step e s = Some (inr s') -> reachable s'.

Fixpoint run_trace (es : list event) (s : t) : option (fault + t) :=
  match es with
  | [] => Some (inr s)
  | e :: es => match step e s with Some (inr s) => run_trace es s | r => r end
  end.

Lemma trace_reachable es s s' :
  reachable s -> run_trace es s = Some (inr s') -> reachable s'.
Proof.
  revert s. induction es as [|e es IH]; intros s Hs; cbn; [by intros [= <-]|].
  destruct (step e s) as [[f|s1]|] eqn:E; [done| |done]. apply IH. by eapply reach_step.
Qed.

(** ** What keeps the connection alive *)

(** What waits to be run, in order. *)
Definition waiting (s : t) : list functor := batch s ++ queue s.

(** A functor that was posted in time. *)
Definition in_time (f : functor) : Prop := match f with Raw _ _ late => late = false | _ => False end.

(** Nothing in time waits behind connectDestroyed(), nor after it ran. *)
Definition ordered (q : list functor) : Prop :=
  forall pre post, q = pre ++ ConnectDestroyed :: post -> Forall (fun f => ~ in_time f) post.

Record inv (s : t) : Prop := {
  inv_kept : destroyed s = false -> in_table s = true \/ base s <> 0 \/ ConnectDestroyed ∈ waiting s;
  inv_ordered : ordered (waiting s);
  inv_gone : single = false \/ server s = true -> destroyed s = true -> Forall (fun f => ~ in_time f) (waiting s);
}.

Lemma kept_ext s s' :
  inv s -> destroyed s' = destroyed s -> in_table s' = in_table s -> base s' = base s -> waiting s' = waiting s ->
  server s' = server s -> inv s'.
Proof. intros [K O G] Ed Et Eb Ew Es. split; by rewrite ?Ed, ?Et, ?Eb, ?Ew, ?Es. Qed.

Lemma ordered_snoc q f : ordered q -> (in_time f -> ConnectDestroyed ∉ q) -> ordered (q ++ [f]).
Proof.
  intros Ho Hf pre post E. destruct post as [|g post _] using rev_ind; [apply Forall_nil_2|].
  rewrite app_comm_cons, app_assoc in E. apply app_inj_tail in E as [-> ->].
  apply Forall_app. split; [by apply (Ho pre)|]. apply Forall_singleton. intros Ht. apply (Hf Ht). set_solver.
Qed.

Lemma ordered_tail f q : ordered (f :: q) -> ordered q.
Proof. intros Ho pre post ->. by apply (Ho (f :: pre)). Qed.

Lemma waiting_post f s : waiting (post f s) = waiting s ++ [f].
Proof. apply app_assoc. Qed.

Lemma inv_post f s :
  inv s -> (in_time f -> leaving s = false) -> inv (post f s).
Proof.
  intros [K O G] Hf.
  assert (in_time f -> destroyed s = false /\ ConnectDestroyed ∉ waiting s) as Hf'.
  { intros Ht. specialize (Hf Ht). unfold leaving in Hf. apply orb_false_iff in Hf as [? ?%bool_decide_eq_false]. done. }
  split; rewrite ?waiting_post; cbn.
  - intros Hd. destruct (K Hd) as [?|[?|?]]; [by left|by right; left|right; right]. apply elem_of_app. by left.
  - apply ordered_snoc; [done|]. intros Ht%Hf'. apply Ht.
  - intros Hs Hd. apply Forall_app. split; [by apply G|]. apply Forall_singleton. intros Ht%Hf'. destruct Ht. congruence.
Qed.

Lemma inv_remove s r : inv s -> removeConnectionInLoop s = inr r -> inv r.
Proof.
  unfold removeConnectionInLoop. intros [K O G]. destruct (server s) eqn:Es; [|done]. intros [= <-].
  split; rewrite ?waiting_post; cbn.
  - intros _. right. right. apply elem_of_app. right. by left.
  - by apply ordered_snoc.
  - intros Hs Hd. apply Forall_app. split; [apply G; [by right|done]|]. apply Forall_singleton; by intros [].
Qed.

(** The loop takes the functor at the head of its batch. *)
Lemma inv_run f b s r :
  inv s -> batch s = f :: b -> run f (set_batch b (ran s ++ [f]) s) = inr r -> inv r.
Proof.
  intros [K O G] Eb. unfold waiting in *. rewrite Eb in *. cbn [app] in *. destruct f as [i a late| |]; cbn [run].
  - destruct (alive _); [|done].
    assert (inv (set_batch b (ran s ++ [Raw i a late]) s)) as Hi.
    { split; cbn.
      - intros Hd. destruct (K Hd) as [?|[?|Hin]]; [by left|by right; left|right; right].
        by apply elem_of_cons in Hin as [?|?].
      - by eapply ordered_tail.
      - intros Hs Hd. specialize (G Hs Hd). by inversion G. }
    intros [= <-]. destruct a; [|done]. destruct (decide _); [done|]. destruct (destroyed _); [|done].
    by eapply kept_ext.
  - intros [= <-]. split; cbn.
    + intros Hd. destruct (K Hd) as [?|[?|Hin]]; [by left|by right; left|right; right].
      by apply elem_of_cons in Hin as [?|?].
    + by eapply ordered_tail.
    + intros Hs Hd. specialize (G Hs Hd). by inversion G.
  - intros [= <-]. unfold connectDestroyed. cbn. split.
    + by destruct (decide _).
    + assert (ordered (b ++ queue s)) by (by eapply ordered_tail). by destruct (decide _).
    + intros _ _. pose proof (O [] _ eq_refl). by destruct (decide _).
Qed.

Lemma lifetime_inv_step e s s' : inv s -> step e s = Some (inr s') -> inv s'.
Proof.
  intros Hi. pose proof Hi as [K O G].
  destruct e as [i|i a|i|i|i| | | | | | | | |]; cbn [step].
  - destruct (_ && _); [|done]. intros [= <-]. by eapply kept_ext.
  - destruct (callers s !! i) as [[]|]; try done. intros [= <-]. destruct (decide _); [by eapply kept_ext|done].
  - destruct (callers s !! i) as [[|[]|]|]; try done. intros [= <-]. by eapply kept_ext.
  - destruct (callers s !! i) as [[|[]|]|]; try done; intros [= <-];
      (apply inv_post; [by eapply kept_ext|done]).
  - destruct (callers s !! i) as [[]|]; try done. intros [= <-]. by eapply kept_ext.
  - destruct (destroyed s); [done|]. intros [= <-]. by apply inv_post.
  - destruct (destroyed s); [done|]. intros [= <-]. destruct (decide _); [by eapply kept_ext|done].
  - destruct (_ || _) eqn:E; [done|]. unfold handleClose, removeConnection. intros [= Hr].
    assert (inv (set_closed (set_state kDisconnected s))) as Hi' by (by eapply kept_ext).
    destruct (server _); [|done]. destruct single; [by eapply inv_remove|]. injection Hr as <-.
    split; cbn; [|done|intros _; apply G; by left]. intros _. right. left. lia.
  - destruct (base s) as [|n] eqn:E; [done|]. intros [= Hr]. unfold removeConnectionInLoop in Hr. cbn in Hr.
    destruct (server s) eqn:Es; [|done]. injection Hr as <-. split; rewrite ?waiting_post; cbn.
    + intros _. right. right. apply elem_of_app. right. by left.
    + by apply ordered_snoc.
    + intros Hs Hd. apply Forall_app. split; [apply G; [by right|done]|]. apply Forall_singleton; by intros [].
  - intros [= <-]. by eapply kept_ext.
  - destruct (batch s) eqn:Eb; [|done]. destruct (ran s); [|done]. intros [= <-].
    eapply kept_ext; try done. unfold waiting. cbn. by rewrite Eb, app_nil_r.
  - destruct (batch s) as [|f b] eqn:Eb; [done|]. intros [= Hr]. by eapply inv_run.
  - destruct (batch s) eqn:Eb; [|done]. intros [= <-]. eapply kept_ext; try done. unfold waiting. cbn. by rewrite Eb.
  - destruct (server s); [|done]. intros [= <-]. unfold destroy_server. cbn.
    assert (single = false \/ server (set_server s) = true ->
            destroyed s = true -> Forall (fun f => ~ in_time f) (waiting s)) as G' by (intros _; apply G; by right).
    destruct (in_table s) eqn:Et; [destruct single eqn:Hsg|].
    + unfold connectDestroyed. destruct (decide _); split; cbn; try done; intros [?|?]; congruence.
    + split; rewrite ?waiting_post; cbn.
      * intros _. right. right. apply elem_of_app. right. by left.
      * by apply ordered_snoc.
      * intros Hs Hd. apply Forall_app. split; [apply G'; [by left|done]|]. apply Forall_singleton; by intros [].
    + split; cbn; [rewrite Et; exact K|done|exact G'].
Qed.

Lemma lifetime_inv s : reachable s -> inv s.
Proof.
  induction 1; [|by eapply lifetime_inv_step]. split; cbn; [by left| |by intros].
  intros pre post E. by destruct pre.
Qed.

Lemma alive_table s : in_table s = true -> alive s = true.
Proof. unfold alive. by intros ->. Qed.

Lemma alive_base s : base s <> 0 -> alive s = true.
Proof. unfold alive. intros Hb. destruct (Nat.eqb_spec (base s + base_ran s) 0); [lia|]. cbn. by rewrite orb_true_r. Qed.

Lemma alive_strong s f : strong f = true -> f ∈ waiting s -> alive s = true.
Proof.
  unfold alive. intros Hs Hf. apply orb_true_iff. left. apply orb_true_iff. right. apply existsb_exists.
  exists f. split; [|done]. apply list_elem_of_In. unfold waiting in Hf. set_solver.
Qed.

Lemma alive_caller s i : is_Some (callers s !! i) -> alive s = true.
Proof.
  unfold alive. intros [p Hp]. apply orb_true_iff. right. apply negb_true_iff, bool_decide_eq_false.
  intros E. by rewrite E, lookup_empty in Hp.
Qed.

(** C34  However the threads interleave, the connection is there until
    connectDestroyed() has run.  As long as the TcpServer exists, or if the
    connection's loop is not the server's only one, it is also there for every
    functor with a bare pointer that was posted before connectDestroyed() was
    queued.  What the condition excludes is the time after ~TcpServer with a single
    loop, which runs connectDestroyed() at once, before the functors that wait. *)
Theorem connection_kept_alive s :
  reachable s ->
  (destroyed s = false -> alive s = true) /\
  (single = false \/ server s = true -> forall i a, Raw i a false ∈ waiting s -> alive s = true).
Proof.
  intros [K O G]%lifetime_inv.
  assert (destroyed s = false -> alive s = true) as Hkept.
  { intros Hd. destruct (K Hd) as [?|[?|?]]; [by apply alive_table|by apply alive_base|by apply (alive_strong s ConnectDestroyed)]. }
  split; [done|]. intros Hs i a Hin. destruct (destroyed s) eqn:Hd; [|by apply Hkept].
  specialize (G Hs eq_refl). rewrite Forall_forall in G. by destruct (G _ Hin).
Qed.

(** ** Threads that keep their pointer until what they posted has run *)

Definition mine (i : nat) (f : functor) : bool := match f with Raw j _ _ => (j =? i)%nat | _ => false end.

Definition careful (e : event) (s : t) : bool :=
  match e with Release i => negb (existsb (mine i) (waiting s)) | _ => true end.

Inductive carefully : t -> Prop :=
| careful_make : carefully make
| careful_step e s s' : carefully s -> careful e s = true -> step e s = Some (inr s') -> carefully s'.

Definition owned (s : t) : Prop := forall i a l, Raw i a l ∈ waiting s -> is_Some (callers s !! i).

Lemma owned_ext s s' : owned s -> waiting s' = waiting s -> callers s' = callers s -> owned s'.
Proof. unfold owned. intros Ho -> ->. exact Ho. Qed.

Lemma owned_post f s s' :
  owned s -> strong f = true -> waiting s' = waiting s -> callers s' = callers s -> owned (post f s').
Proof.
  intros Ho Hf Hw Hc i a l. rewrite waiting_post, Hw. cbn. rewrite Hc.
  intros [?|Hin%list_elem_of_singleton]%elem_of_app; [by eapply Ho|by rewrite <- Hin in Hf].
Qed.

Lemma run_same f s r : run f s = inr r -> waiting r = waiting s /\ callers r = callers s.
Proof.
  destruct f as [i a l| |]; cbn [run].
  - destruct (alive s); [|done]. intros [= <-]. destruct a; [|done]. by repeat case_match.
  - by intros [= <-].
  - intros [= <-]. unfold connectDestroyed. by destruct (decide _).
Qed.

Lemma owned_step e s s' : owned s -> careful e s = true -> step e s = Some (inr s') -> owned s'.
Proof.
  intros Ho Hcare.
  assert (forall i p, owned (set_callers (<[i := p]> (callers s)) s)) as Hins.
  { intros i p j a l Hin. apply lookup_insert_is_Some'. right. by eapply Ho. }
  assert (forall i p a, owned (post (Raw i a (leaving s)) (set_callers (<[i := p]> (callers s)) s))) as Hpost.
  { intros i p a j b l. rewrite waiting_post. intros [Hin|Hin%list_elem_of_singleton]%elem_of_app.
    - by apply (Hins i p j b l).
    - injection Hin as -> _ _. apply (lookup_insert_is_Some' (callers s)). by left. }
  destruct e as [i|i a|i|i|i| | | | | | | | |]; cbn [step].
  - destruct (_ && _); [|done]. intros [= <-]. by apply Hins.
  - destruct (callers s !! i) as [[]|]; try done. intros [= <-]. by destruct (decide _); [apply Hins|].
  - destruct (callers s !! i) as [[|[]|]|]; try done. intros [= <-]. by apply (Hins i Set_).
  - destruct (callers s !! i) as [[|[]|]|]; try done; intros [= <-]; by apply Hpost.
  - destruct (callers s !! i) as [[]|]; try done. intros [= <-]. intros j a l Hin. cbn.
    destruct (decide (i = j)) as [->|]; [|rewrite lookup_delete_ne by done; by eapply Ho].
    cbn in Hcare. apply negb_true_iff in Hcare. exfalso. revert Hcare. apply not_false_iff_true, existsb_exists.
    exists (Raw j a l). split; [by apply list_elem_of_In|]. apply Nat.eqb_refl.
  - destruct (destroyed s); [done|]. intros [= <-]. by apply (owned_post _ s).
  - destruct (destroyed s); [done|]. intros [= <-]. by destruct (decide _); [apply (owned_ext s)|].
  - destruct (_ || _); [done|]. unfold handleClose, removeConnection, removeConnectionInLoop. intros [= Hr]. cbn in Hr.
    destruct (server s); [|done]. destruct single; injection Hr as <-; [by apply (owned_post _ s)|by apply (owned_ext s)].
  - destruct (base s); [done|]. unfold removeConnectionInLoop. intros [= Hr]. cbn in Hr.
    destruct (server s); [|done]. injection Hr as <-. by apply (owned_post _ s).
  - intros [= <-]. by apply (owned_ext s).
  - destruct (batch s) eqn:Eb; [|done]. destruct (ran s); [|done]. intros [= <-].
    apply (owned_ext s); [done| |done]. unfold waiting. cbn. by rewrite Eb, app_nil_r.
  - destruct (batch s) as [|f b] eqn:Eb; [done|]. intros [= [Hw Hc]%run_same]. intros i a l. rewrite Hw, Hc. intros Hin.
    apply (Ho i a l). unfold waiting. rewrite Eb. by right.
  - destruct (batch s) eqn:Eb; [|done]. intros [= <-]. apply (owned_ext s); [done| |done]. unfold waiting. cbn. by rewrite Eb.
  - destruct (server s); [|done]. intros [= <-]. unfold destroy_server. cbn.
    destruct (in_table s); [|by apply (owned_ext s)]. destruct single; [|by apply (owned_post _ s)].
    unfold connectDestroyed. by destruct (decide _); apply (owned_ext s).
Qed.

Lemma owned_carefully s : carefully s -> owned s.
Proof. induction 1; [|by eapply owned_step]. intros i a l Hin. by apply elem_of_nil in Hin. Qed.

(** A thread that keeps its TcpConnectionPtr until the loop has run what it
    posted is safe: no step then calls a method of a deleted connection. *)
Theorem careful_callers_safe s e :
  carefully s -> step e s <> Some (inl ConnectionGone).
Proof.
  intros Ho%owned_carefully Hstep.
  assert (forall s', removeConnectionInLoop s' <> inl ConnectionGone) as Hrem
    by (intros s'; unfold removeConnectionInLoop; by destruct (server s')).
  destruct e; cbn [step] in Hstep; try by repeat case_match.
  - unfold handleClose, removeConnection in Hstep. repeat case_match; try done. injection Hstep. apply Hrem.
  - repeat case_match; try done. injection Hstep. apply Hrem.
  - destruct (batch s) as [|f b] eqn:Eb; [done|]. injection Hstep as Hr. destruct f as [i a l| |]; try done.
    cbn [run] in Hr. destruct (alive _) eqn:Ea; [done|].
    assert (is_Some (callers s !! i)) as Hi by (apply (Ho i a l); unfold waiting; rewrite Eb; by left).
    by rewrite (alive_caller _ i) in Ea.
Qed.

(** ** A connection that is down stays down *)

(** Runs in which no other thread gets to [setState(kDisconnecting)], and the
    TcpServer stays. *)
Inductive quietly : t -> Prop :=
| quiet_make : quietly make
| quiet_step e s s' :
    quietly s -> (forall i, e <> SetDisconnecting i) -> e <> DestroyServer -> step e s = Some (inr s') -> quietly s'.

Record quiet (s : t) : Prop := {
  quiet_server : server s = true;
  quiet_closed : closed s = true -> state_ s = kDisconnected;
  quiet_leaving : in_table s = false \/ base s <> 0 \/ ConnectDestroyed ∈ waiting s \/ destroyed s = true -> closed s = true;
  quiet_late : late_sends s = 0;
}.

Lemma quiet_ext s s' :
  quiet s -> server s' = server s -> closed s' = closed s -> state_ s' = state_ s -> in_table s' = in_table s ->
  base s' = base s -> waiting s' = waiting s -> destroyed s' = destroyed s -> late_sends s' = late_sends s -> quiet s'.
Proof. intros [S C L T] E1 E2 E3 E4 E5 E6 E7 E8. split; by rewrite ?E1, ?E2, ?E3, ?E4, ?E5, ?E6, ?E7, ?E8. Qed.

Lemma quiet_post f s : quiet s -> (f = ConnectDestroyed -> closed s = true) -> quiet (post f s).
Proof.
  intros [S C L T] Hf. split; rewrite ?waiting_post; cbn; [done..| |done].
  intros [?|[?|[Hin|?]]]; [apply L; by left|apply L; by right; left| |apply L; by right; right; right].
  apply elem_of_app in Hin as [?| <-%list_elem_of_singleton]; [apply L; by right; right; left|by apply Hf].
Qed.

Lemma quiet_remove s : quiet s -> closed s = true -> removeConnectionInLoop s = inr (post ConnectDestroyed (set_table false s)) /\
  quiet (post ConnectDestroyed (set_table false s)).
Proof.
  intros [S C L T] Hc. unfold removeConnectionInLoop. rewrite S. split; [done|].
  apply quiet_post; [|done]. by split.
Qed.

Lemma quiet_run f b s r :
  quiet s -> batch s = f :: b -> run f (set_batch b (ran s ++ [f]) s) = inr r -> quiet r.
Proof.
  intros Hq Eb. assert (quiet (set_batch b (ran s ++ [f]) s)) as Hq'.
  { destruct Hq as [S C L T]. split; cbn; try done. unfold waiting in *. rewrite Eb in L. cbn in *.
    intros H. apply L. rewrite elem_of_cons. tauto. }
  pose proof Hq' as [S C L T]. destruct f as [i a l| |]; cbn [run].
  - destruct (alive _); [|done]. intros [= <-]. destruct a; [|done]. destruct (decide _) as [|Hn]; [done|].
    destruct (destroyed _) eqn:Ed; [|done]. exfalso. apply Hn, C, L. by right; right; right.
  - by intros [= <-].
  - assert (closed s = true) as Hc.
    { apply Hq. right. right. left. unfold waiting. rewrite Eb. by left. }
    intros [= <-]. unfold connectDestroyed. destruct (decide _); by split.
Qed.

Lemma quiet_run_step e s s' :
  quiet s -> (forall i, e <> SetDisconnecting i) -> e <> DestroyServer -> step e s = Some (inr s') -> quiet s'.
Proof.
  intros Hq He1 He2. pose proof Hq as [S C L T].
  destruct e as [i|i a|i|i|i| | | | | | | | |]; cbn [step]; try done.
  - destruct (_ && _); [|done]. intros [= <-]. by apply (quiet_ext s).
  - destruct (callers s !! i) as [[]|]; try done. intros [= <-]. by destruct (decide _); [apply (quiet_ext s)|].
  - by destruct (He1 i).
  - destruct (callers s !! i) as [[|[]|]|]; try done; intros [= <-]; apply quiet_post; try done; by apply (quiet_ext s).
  - destruct (callers s !! i) as [[]|]; try done. intros [= <-]. by apply (quiet_ext s).
  - destruct (destroyed s); [done|]. intros [= <-]. by apply quiet_post.
  - case_match eqn:Ed; [done|]. intros [= <-]. destruct (decide _) as [Es|]; [|done]. split; cbn; try done; [|rewrite Ed; exact L].
    intros Hc. specialize (C Hc). congruence.
  - destruct (_ || _); [done|]. intros [= Hr]. unfold handleClose, removeConnection in Hr. cbn [server set_closed set_state] in Hr.
    rewrite S in Hr. assert (quiet (set_closed (set_state kDisconnected s))) as Hq' by (by split).
    destruct single; [|injection Hr as <-; by split].
    destruct (quiet_remove _ Hq' eq_refl) as [E ?]. rewrite E in Hr. by injection Hr as <-.
  - destruct (base s) as [|n] eqn:Eb; [done|]. intros [= Hr].
    assert (closed s = true) as Hc by (apply L; right; left; lia).
    assert (quiet (set_base n (Datatypes.S (base_ran s)) s)) as Hq' by (by split).
    destruct (quiet_remove _ Hq' Hc) as [E ?]. rewrite E in Hr. by injection Hr as <-.
  - intros [= <-]. by apply (quiet_ext s).
  - destruct (batch s) eqn:Eb; [|done]. destruct (ran s); [|done]. intros [= <-].
    apply (quiet_ext s); try done. unfold waiting. cbn. by rewrite Eb, app_nil_r.
  - destruct (batch s) as [|f b] eqn:Eb; [done|]. intros [= Hr]. by eapply quiet_run.
  - destruct (batch s) eqn:Eb; [|done]. intros [= <-]. apply (quiet_ext s); try done. unfold waiting. cbn. by rewrite Eb.
Qed.

(** As long as no other thread calls shutdown() and the TcpServer is there, a
    connection that is down stays so, and sendInLoop() writes nothing once
    connectDestroyed() has taken the channel from the poller. *)
Theorem down_stays_down s :
  quietly s -> late_sends s = 0 /\ (closed s = true -> state_ s = kDisconnected) /\ (destroyed s = true -> closed s = true).
Proof.
  intros Hs. assert (quiet s) as [S C L T].
  { induction Hs; [|by eapply quiet_run_step]. split; cbn; try done.
    intros [?|[?|[Hin|?]]]; try done. by apply elem_of_nil in Hin. }
  split_and!; [done..|]. intros Hd. apply L. by right; right; right.
Qed.

End lifetime.

(** ** What the interleavings come to *)

(** A thread is past the test of [state_] when the peer closes.  The connection
    is removed and destroyed; only then does the thread post its functor, and it
    drops the last pointer before the functor runs. *)
Definition late_post : list event :=
  [Share 1; Test_ 1 Send; HandleClose; RunBase; EndBase; Swap; RunFunctor; EndBatch; Post_ 1; Release 1; Swap; RunFunctor].

Lemma use_after_free : run_trace false late_post make = Some (inl ConnectionGone).
Proof. by vm_compute. Qed.

(** A thread is past the test in shutdown() when the peer closes: it writes
    [kDisconnecting] over [kDisconnected], and a send() of another thread gets
    past the test of sendInLoop() on a channel that the poller has let go. *)
Definition late_shutdown : list event :=
  [Share 1; Share 2; Test_ 1 Send; Test_ 2 Shutdown; HandleClose; RunBase; EndBase; Swap; RunFunctor; EndBatch;
   SetDisconnecting 2; Post_ 1; Swap; RunFunctor].

Lemma down_overwritten :
  exists s, run_trace false late_shutdown make = Some (inr s) /\ reachable false s /\
    destroyed s = true /\ state_ s = kDisconnecting /\ late_sends s = 1.
Proof.
  destruct (run_trace false late_shutdown make) as [[f|s]|] eqn:E.
  - by vm_compute in E.
  - exists s. split; [done|]. split; [by eapply trace_reachable; [apply reach_make|]|].
    revert E. vm_compute. by intros [= <-].
  - by vm_compute in E.
Qed.

(** The TcpServer goes away while a connection is up: when the peer then closes,
    the callback calls it. *)
Lemma server_gone : run_trace false [DestroyServer; HandleClose] make = Some (inl ServerGone).
Proof. by vm_compute. Qed.

(** The thread of [late_post] posts in time, and drops its pointer at once. *)
Definition early_post : list event := [Share 1; Test_ 1 Send; Post_ 1; HandleClose; RunBase; EndBase; Release 1].

Definition early_state : t :=
  mk kDisconnected false 0 0 [Raw 1 Send false; ConnectDestroyed] [] [] ∅ true false true 0.

Lemma early_state_runs : run_trace false early_post make = Some (inr early_state).
Proof. by vm_compute. Qed.

Lemma connection_kept_alive_witness :
  reachable false early_state /\ Raw 1 Send false ∈ waiting early_state /\ alive early_state = true.
Proof.
  assert (reachable false early_state) as Hr by (apply (trace_reachable _ early_post make); [apply reach_make|apply early_state_runs]).
  assert (Raw 1 Send false ∈ waiting early_state) as Hin by (left).
  split; [done|]. split; [done|].
  exact (proj2 (connection_kept_alive false early_state Hr) (or_introl eq_refl) 1 Send Hin).
Defined.

Lemma careful_callers_safe_witness :
  exists s, carefully false s /\ waiting s = [Raw 1 Send false] /\ step false (Release 1) s <> Some (inl ConnectionGone).
Proof.
  eexists (post (Raw 1 Send false) (set_callers {[1 := Idle]} make)).
  assert (carefully false (post (Raw 1 Send false) (set_callers {[1 := Idle]} make))) as Hc.
  { apply (careful_step false (Post_ 1) (set_callers {[1 := Passed Send]} make)); [|done|by vm_compute].
    apply (careful_step false (Test_ 1 Send) (set_callers {[1 := Idle]} make)); [|done|by vm_compute].
    apply (careful_step false (Share 1) make); [apply careful_make|done|by vm_compute]. }
  split; [done|]. split; [done|]. exact (careful_callers_safe false _ (Release 1) Hc).
Defined.

Lemma down_stays_down_witness :
  exists s, quietly false s /\ closed s = true /\ state_ s = kDisconnected /\ late_sends s = 0.
Proof.
  exists (set_base 1 0 (set_closed (set_state kDisconnected make))).
  assert (quietly false (set_base 1 0 (set_closed (set_state kDisconnected make)))) as Hq
    by (apply (quiet_step false HandleClose make); [apply quiet_make|done..]).
  destruct (down_stays_down false _ Hq) as (? & Hc & _). split; [done|]. split; [done|]. by split; [apply Hc|].
Defined.

End Lifetime.
