(* ===== verification/Calendar.v ===== *)
(** * The calendar of std::chrono

    What [year_month_day{floor<days>(tp)}] and the time of day of <chrono> are:
    the proleptic Gregorian calendar.  src/net/Timestamp.cc prints points in time
    with it.  The conversion from a day number is executable; it is proved
    against the rule of the calendar, day by day. *)

From S2P Require Import Prelude.

Local Open Scope Z_scope.

(** Linear arithmetic with quotients and remainders by constants. *)
Ltac div_lia := Z.to_euclidean_division_equations; lia.

(** Operations on numerals, computed. *)
Ltac z_compute :=
  repeat match goal with
  | |- context [Z.add (Zpos ?a) (Zpos ?b)] => let v := eval vm_compute in (Z.add (Zpos a) (Zpos b)) in change (Z.add (Zpos a) (Zpos b)) with v
  | |- context [Z.sub (Zpos ?a) (Zpos ?b)] => let v := eval vm_compute in (Z.sub (Zpos a) (Zpos b)) in change (Z.sub (Zpos a) (Zpos b)) with v
  end.

Module Calendar.

(** [year::is_leap] and [year_month_day_last::day]. *)
Definition is_leap (y : Z) : bool := (y mod 4 =? 0) && (negb (y mod 100 =? 0) || (y mod 400 =? 0)).

Definition last_day (y m : Z) : Z :=
  if m =? 2 then (if is_leap y then 29 else 28)
  else if (m =? 4) || (m =? 6) || (m =? 9) || (m =? 11) then 30 else 31.

Definition valid (date : Z * Z * Z) : Prop :=
  let '(y, m, d) := date in 1 <= m <= 12 /\ 1 <= d <= last_day y m.

(** The rule of the calendar: the day after a date. *)
Definition next_day (date : Z * Z * Z) : Z * Z * Z :=
  let '(y, m, d) := date in
  if d <? last_day y m then (y, m, d + 1)
  else if m <? 12 then (y, m + 1, 1) else (y + 1, 1, 1).

(** The date of a day, counted from 1970-01-01.  Years begin in March; 400 of
    them have 146097 days, 100 have 36524 and 4 have 1461, and the last of
    each group may be longer. *)
Definition civil_from_days (n : Z) : Z * Z * Z :=
  let z := n + 719468 in
  let era := z / 146097 in
  let doe := z mod 146097 in
  let c := Z.min (doe / 36524) 3 in
  let doc := doe - 36524 * c in
  let q := doc / 1461 in
  let doq := doc - 1461 * q in
  let yq := Z.min (doq / 365) 3 in
  let doy := doq - 365 * yq in
  let mp := (5 * doy + 2) / 153 in
  let d := doy - (153 * mp + 2) / 5 + 1 in
  let m := if mp <? 10 then mp + 3 else mp - 9 in
  (400 * era + 100 * c + 4 * q + yq + (if m <=? 2 then 1 else 0), m, d).

(** [sys_days{year_month_day}]: the number of a date. *)
Definition days_from_civil (date : Z * Z * Z) : Z :=
  let '(y, m, d) := date in
  let y := if m <=? 2 then y - 1 else y in
  let mp := if m <=? 2 then m + 9 else m - 3 in
  365 * y + y / 4 - y / 100 + y / 400 + (153 * mp + 2) / 5 + (d - 1) - 719468.

(** ** The two conversions *)

(** A year counted from March, in its era, century and group of four. *)
Lemma march_year era c q yq :
  0 <= c <= 3 -> 0 <= q <= 24 -> 0 <= yq <= 3 ->
  let y := 400 * era + 100 * c + 4 * q + yq in
  y / 4 = 100 * era + 25 * c + q /\ y / 100 = 4 * era + c /\ y / 400 = era.
Proof. intros. cbv zeta. split_and!; div_lia. Qed.

(** Whether the year that ends in February is a leap year. *)
Lemma march_leap era c q yq :
  0 <= c <= 3 -> 0 <= q <= 24 -> 0 <= yq <= 3 ->
  is_leap (400 * era + 100 * c + 4 * q + yq + 1) = (yq =? 3) && (negb (q =? 24) || (c =? 3)).
Proof.
  intros Hc Hq Hy. unfold is_leap. set (y := _ + 1).
  assert (y mod 4 = 0 <-> yq = 3) as H4 by (unfold y; split; intros; div_lia).
  assert (yq = 3 -> y mod 100 = 0 <-> q = 24) as H100 by (unfold y; intros ->; split; intros; div_lia).
  assert (yq = 3 -> q = 24 -> y mod 400 = 0 <-> c = 3) as H400 by (unfold y; intros -> ->; split; intros; div_lia).
  clearbody y. destruct (Z.eqb_spec (y mod 4) 0), (Z.eqb_spec yq 3); try tauto.
  destruct (Z.eqb_spec (y mod 100) 0), (Z.eqb_spec q 24); try tauto.
  destruct (Z.eqb_spec (y mod 400) 0), (Z.eqb_spec c 3); tauto.
Qed.

(** The parts of a day: era, century, group of four years, year from March, day
    of that year. *)
Definition parts_ok (era c q yq doy : Z) : Prop :=
  0 <= c <= 3 /\ 0 <= q <= 24 /\ 0 <= yq <= 3 /\ 0 <= doy <= 365 /\
  (doy = 365 -> yq = 3 /\ (q <> 24 \/ c = 3)).

Definition parts_day (era c q yq doy : Z) : Z := 146097 * era + 36524 * c + 1461 * q + 365 * yq + doy.

Definition parts_date (era c q yq doy : Z) : Z * Z * Z :=
  let mp := (5 * doy + 2) / 153 in
  let m := if mp <? 10 then mp + 3 else mp - 9 in
  (400 * era + 100 * c + 4 * q + yq + (if m <=? 2 then 1 else 0), m, doy - (153 * mp + 2) / 5 + 1).

Lemma civil_parts n :
  exists era c q yq doy,
    parts_ok era c q yq doy /\ n + 719468 = parts_day era c q yq doy /\
    civil_from_days n = parts_date era c q yq doy.
Proof.
  unfold civil_from_days. cbv zeta. set (z := n + 719468). clearbody z.
  remember (z / 146097) as era eqn:Eera. remember (z mod 146097) as doe eqn:Edoe.
  remember (Z.min (doe / 36524) 3) as c eqn:Ec.
  remember ((doe - 36524 * c) / 1461) as q eqn:Eq.
  remember (Z.min ((doe - 36524 * c - 1461 * q) / 365) 3) as yq eqn:Ey.
  remember (doe - 36524 * c - 1461 * q - 365 * yq) as doy eqn:Edoy.
  assert (z = 146097 * era + doe /\ 0 <= doe < 146097) as [Hz Hdoe] by (subst; div_lia).
  clear Eera Edoe.
  assert (0 <= c <= 3 /\ 0 <= doe - 36524 * c <= 36524 /\ (c < 3 -> doe - 36524 * c < 36524)) as (Hc & Hdoc & Hdoc')
    by (subst c; div_lia).
  clear Ec. remember (doe - 36524 * c) as doc eqn:Edoc.
  assert (0 <= q <= 24 /\ 0 <= doc - 1461 * q < 1461) as [Hq Hdoq] by (subst q; div_lia).
  clear Eq. remember (doc - 1461 * q) as doq eqn:Edoq.
  assert (0 <= yq <= 3 /\ 0 <= doq - 365 * yq <= 365 /\ (yq < 3 -> doq - 365 * yq < 365)) as (Hy & Hdoy & Hdoy')
    by (subst yq; div_lia).
  exists era, c, q, yq, doy. unfold parts_ok, parts_day. split_and!; try lia. done.
Qed.

(** A day has its parts in one way. *)
Lemma parts_unique era c q yq doy era' c' q' yq' doy' :
  parts_ok era c q yq doy -> parts_ok era' c' q' yq' doy' ->
  parts_day era c q yq doy = parts_day era' c' q' yq' doy' ->
  era = era' /\ c = c' /\ q = q' /\ yq = yq' /\ doy = doy'.
Proof.
  unfold parts_ok, parts_day. intros H1 H2 He. assert (era = era') by lia. subst era'.
  assert (c = c') by lia. subst c'. assert (q = q') by lia. subst q'. assert (yq = yq') by lia. lia.
Qed.

(** The months of a year that begins in March. *)
Lemma march_month doy :
  0 <= doy <= 365 ->
  let mp := (5 * doy + 2) / 153 in
  (mp = 0 /\ 0 <= doy < 31 \/ mp = 1 /\ 31 <= doy < 61 \/ mp = 2 /\ 61 <= doy < 92 \/
   mp = 3 /\ 92 <= doy < 122 \/ mp = 4 /\ 122 <= doy < 153 \/ mp = 5 /\ 153 <= doy < 184 \/
   mp = 6 /\ 184 <= doy < 214 \/ mp = 7 /\ 214 <= doy < 245 \/ mp = 8 /\ 245 <= doy < 275 \/
   mp = 9 /\ 275 <= doy < 306 \/ mp = 10 /\ 306 <= doy < 337 \/ mp = 11 /\ 337 <= doy <= 365).
Proof.
  intros H mp. assert (153 * mp <= 5 * doy + 2 < 153 * mp + 153) as Hm by (unfold mp; div_lia). clearbody mp.
  assert (mp = 0 \/ mp = 1 \/ mp = 2 \/ mp = 3 \/ mp = 4 \/ mp = 5 \/ mp = 6 \/ mp = 7 \/ mp = 8 \/ mp = 9 \/
          mp = 10 \/ mp = 11) as Hor by lia.
  destruct_or! Hor; subst mp; lia.
Qed.

Lemma parts_date_valid era c q yq doy :
  parts_ok era c q yq doy ->
  valid (parts_date era c q yq doy) /\
  days_from_civil (parts_date era c q yq doy) + 719468 = parts_day era c q yq doy.
Proof.
  intros (Hc & Hq & Hy & Hdoy & Hleap).
  pose proof (march_year era c q yq Hc Hq Hy) as (H4 & H100 & H400).
  pose proof (march_leap era c q yq Hc Hq Hy) as Hl.
  unfold parts_date, parts_day, valid, days_from_civil, last_day.
  remember ((5 * doy + 2) / 153) as mp eqn:Emp. pose proof (march_month doy Hdoy) as Hmp. cbv zeta in Hmp. rewrite <- Emp in Hmp.
  cbv zeta in H4, H100, H400. clear Emp. remember (400 * era + 100 * c + 4 * q + yq) as Y eqn:EY.
  destruct_or! Hmp; destruct Hmp as [-> Hd]; rewrite ?Z.add_0_l; cbn -[Z.mul Z.div is_leap]; z_compute; cbn -[Z.mul Z.div is_leap]; z_compute; cbn -[Z.mul Z.div is_leap];
    rewrite ?Z.add_simpl_r, ?Z.add_0_r, ?H4, ?H100, ?H400, ?Hl; clear H4 H100 H400 Hl;
    destruct (Z.eqb_spec yq 3), (Z.eqb_spec q 24), (Z.eqb_spec c 3); cbn [andb orb negb]; div_lia.
Qed.

(** The year of a date, from March, and its parts. *)
Lemma year_parts Y :
  exists era c q yq, 0 <= c <= 3 /\ 0 <= q <= 24 /\ 0 <= yq <= 3 /\ Y = 400 * era + 100 * c + 4 * q + yq.
Proof. exists (Y / 400), (Y mod 400 / 100), (Y mod 100 / 4), (Y mod 4). split_and!; div_lia. Qed.

Lemma date_parts x :
  valid x ->
  exists era c q yq doy, parts_ok era c q yq doy /\ x = parts_date era c q yq doy.
Proof.
  destruct x as [[y m] d]. intros [Hm Hd].
  destruct (year_parts (if m <=? 2 then y - 1 else y)) as (era & c & q & yq & Hc & Hq & Hy & HY).
  exists era, c, q, yq, ((153 * (if m <=? 2 then m + 9 else m - 3) + 2) / 5 + d - 1).
  pose proof (march_leap era c q yq Hc Hq Hy) as Hl. rewrite <- HY in Hl.
  unfold last_day in Hd. unfold parts_ok, parts_date. rewrite <- HY. clear HY.
  assert (m = 1 \/ m = 2 \/ m = 3 \/ m = 4 \/ m = 5 \/ m = 6 \/ m = 7 \/ m = 8 \/ m = 9 \/ m = 10 \/ m = 11 \/ m = 12)
    as Hor by lia. clear Hm.
  destruct_or! Hor; subst m; revert Hd Hl; cbn -[Z.mul Z.div is_leap]; z_compute; cbn -[Z.mul Z.div is_leap]; intros Hd Hl;
    try (replace (y - 1 + 1) with y in Hl by lia; rewrite Hl in Hd);
    (assert (1 <= d <= 31) by (repeat case_match; lia));
    match goal with |- context [(5 * ((153 * ?k + 2) / 5 + d - 1) + 2) / 153] =>
      assert ((5 * ((153 * k + 2) / 5 + d - 1) + 2) / 153 = k) as -> by (clear Hl; repeat case_match; div_lia) end;
    clear Hl; revert Hd; rewrite ?Z.add_0_l; cbn -[Z.mul Z.div]; z_compute; cbn -[Z.mul Z.div];
    destruct (Z.eqb_spec yq 3), (Z.eqb_spec q 24), (Z.eqb_spec c 3); cbn [andb orb negb]; intros Hd;
    (split; [split_and!; div_lia|f_equal; [f_equal|]; div_lia]).
Qed.

(** ** The conversions are inverse, and follow the calendar *)

Lemma civil_from_days_valid n : valid (civil_from_days n).
Proof. destruct (civil_parts n) as (era & c & q & yq & doy & Hok & _ & ->). by apply parts_date_valid. Qed.

Lemma days_from_civil_from_days n : days_from_civil (civil_from_days n) = n.
Proof.
  destruct (civil_parts n) as (era & c & q & yq & doy & Hok & Hn & ->).
  pose proof (proj2 (parts_date_valid era c q yq doy Hok)). lia.
Qed.

Lemma civil_from_days_from_civil x : valid x -> civil_from_days (days_from_civil x) = x.
Proof.
  intros Hx. destruct (date_parts x Hx) as (era & c & q & yq & doy & Hok & ->).
  destruct (parts_date_valid era c q yq doy Hok) as [_ He].
  destruct (civil_parts (days_from_civil (parts_date era c q yq doy))) as (era' & c' & q' & yq' & doy' & Hok' & He' & ->).
  destruct (parts_unique _ _ _ _ _ _ _ _ _ _ Hok' Hok) as (-> & -> & -> & -> & ->); [lia|done].
Qed.

Lemma next_day_valid x : valid x -> valid (next_day x).
Proof.
  destruct x as [[y m] d]. intros [Hm Hd]. unfold next_day.
  destruct (Z.ltb_spec d (last_day y m)); [unfold valid; lia|].
  destruct (Z.ltb_spec m 12); unfold valid, last_day; split; repeat case_match; lia.
Qed.

(** The days of the years: one more in a leap year. *)
Lemma year_days y :
  365 * y + y / 4 - y / 100 + y / 400 =
  365 * (y - 1) + (y - 1) / 4 - (y - 1) / 100 + (y - 1) / 400 + 365 + (if is_leap y then 1 else 0).
Proof.
  unfold is_leap. destruct (Z.eqb_spec (y mod 4) 0), (Z.eqb_spec (y mod 100) 0), (Z.eqb_spec (y mod 400) 0);
    cbn [andb orb negb]; div_lia.
Qed.

(** The day numbers follow the rule of the calendar. *)
Lemma days_next_day x : valid x -> days_from_civil (next_day x) = days_from_civil x + 1.
Proof.
  destruct x as [[y m] d]. intros [Hm Hd]. unfold next_day.
  destruct (Z.ltb_spec d (last_day y m)) as [|Hl]; [unfold days_from_civil; lia|].
  assert (d = last_day y m) as -> by lia. clear Hd Hl. pose proof (year_days y) as Hy.
  assert (m = 1 \/ m = 2 \/ m = 3 \/ m = 4 \/ m = 5 \/ m = 6 \/ m = 7 \/ m = 8 \/ m = 9 \/ m = 10 \/ m = 11 \/ m = 12)
    as Hor by lia. clear Hm. unfold last_day, days_from_civil.
  destruct_or! Hor; subst m; cbn -[Z.mul Z.div is_leap]; z_compute; cbn -[Z.mul Z.div is_leap]; z_compute;
    rewrite ?Z.add_simpl_r; set (E := 365 * y + y / 4 - y / 100 + y / 400) in *;
    set (F := 365 * (y - 1) + (y - 1) / 4 - (y - 1) / 100 + (y - 1) / 400) in *; clearbody E F; clear -Hy;
    try destruct (is_leap y); div_lia.
Qed.

Lemma civil_from_days_succ n : civil_from_days (n + 1) = next_day (civil_from_days n).
Proof.
  pose proof (civil_from_days_valid n) as Hv.
  rewrite <- (civil_from_days_from_civil _ (next_day_valid _ Hv)), days_next_day by done.
  by rewrite days_from_civil_from_days.
Qed.

(** The days of the years are 365.2425 each, up to two. *)
Lemma year_days_mean y :
  146097 * y - 800 <= 400 * (365 * y + y / 4 - y / 100 + y / 400) <= 146097 * y + 800.
Proof. div_lia. Qed.

(** The years between two dates. *)
Lemma civil_from_days_year n : 0 <= n <= 11248372 -> 1969 <= (civil_from_days n).1.1 <= 32767.
Proof.
  intros Hn. pose proof (civil_from_days_valid n) as Hv. pose proof (days_from_civil_from_days n) as He.
  destruct (civil_from_days n) as [[y m] d]. destruct Hv as [Hm Hd]. cbn -[Z.le].
  assert (1 <= d <= 31) by (unfold last_day in Hd; repeat case_match; lia). clear Hd. unfold days_from_civil in He.
  assert (forall mp, 0 <= mp <= 11 -> 0 <= (153 * mp + 2) / 5 <= 337) as Hmp by (intros; div_lia).
  destruct (Z.leb_spec m 2); [specialize (Hmp (m + 9))|specialize (Hmp (m - 3))];
    destruct Hmp as [Hmp1 Hmp2]; try lia;
    [pose proof (year_days_mean (y - 1))|pose proof (year_days_mean y)]; lia.
Qed.

Example epoch : civil_from_days 0 = (1970, 1, 1) /\ civil_from_days 19782 = (2024, 2, 29).
Proof. by vm_compute. Qed.

End Calendar.
