(* ===== verification/Timestamp.v ===== *)
(** * src/net/Timestamp.h, src/net/Timestamp.cc

    A point in time in microseconds, an int64_t, and its arithmetic with
    seconds given as a double.  A double is the binary64 number of the Standard
    Library's specification of floating-point arithmetic. *)

From S2P Require Import Prelude Bytes Text Calendar.
From Stdlib Require Import SpecFloat.

Local Open Scope Z_scope.

Abbreviation double := spec_float.

Definition INT64_MIN : Z := - 2 ^ 63.
Definition INT64_MAX : Z := 2 ^ 63 - 1.
Definition in_int64 (z : Z) : bool := (INT64_MIN <=? z) && (z <=? INT64_MAX).

Module Timestamp.

Definition kMicroSecondsPerSecond : Z := 1000 * 1000.

(** [kMicroSecondsPerSecond] as a double: 1000000 = 8589934592000000 * 2^-33. *)
Definition micros : double := S754_finite false 8589934592000000 (-33).

Definition mul (x y : double) : double := SFmul 53 1024 x y.

(** [static_cast<int64_t>]: towards zero; [None] where it is undefined. *)
Definition to_int64 (x : double) : option Z :=
  match x with
  | S754_zero _ => Some 0
  | S754_finite sign m e =>
      let magnitude := if 0 <=? e then Z.pos m * 2 ^ e else Z.pos m / 2 ^ (- e) in
      let v := if sign then - magnitude else magnitude in
      if in_int64 v then Some v else None
  | _ => None
  end.

Definition div (x y : double) : double := SFdiv 53 1024 x y.

(** [static_cast<double>] of an [int64_t]: to the nearest, ties to even. *)
Definition of_int64 (n : Z) : double := binary_normalize 53 1024 n 0 false.

(** The system clock counts nanoseconds; [duration_cast] cuts them off. *)
Definition now (nanoseconds : Z) : Z := nanoseconds `quot` 1000.

Definition swap (this that : Z) : Z * Z := (that, this).

(** [operator<] *)
Definition less (lhs rhs : Z) : bool := lhs <? rhs.

(** [None]: the difference overflows. *)
Definition timeDifference (high low : Z) : option double :=
  if in_int64 (high - low) then Some (div (of_int64 (high - low)) micros) else None.

Definition invalid : Z := 0.
Definition valid (microSecondsSinceEpoch : Z) : bool := 0 <? microSecondsSinceEpoch.

(** [None]: the conversion or the sum overflows. *)
Definition addTime (timestamp : Z) (seconds : double) : option Z :=
  match to_int64 (mul seconds micros) with
  | Some delta => if in_int64 (timestamp + delta) then Some (timestamp + delta) else None
  | None => None
  end.

(** [std::format("{:06}", n)]: the sign counts for the width. *)
Definition format06 (n : Z) : bytes :=
  let digits := format_dec (Z.abs n) in
  (if n <? 0 then str "-" else []) ++
  replicate (6 - (if n <? 0 then 1 else 0) - length digits) (digit_char 0) ++ digits.

(** Division towards zero. *)
Definition toString (microSecondsSinceEpoch : Z) : bytes :=
  let seconds := microSecondsSinceEpoch `quot` kMicroSecondsPerSecond in
  let microseconds := microSecondsSinceEpoch `rem` kMicroSecondsPerSecond in
  to_string seconds ++ str ", " ++ format06 microseconds.

(** A number with zeros in front up to a width. *)
Definition pad (width : nat) (n : Z) : bytes :=
  replicate (width - length (format_dec n)) (digit_char 0) ++ format_dec n.

Section zone.
(** The data base of time zones: how far Asia/Shanghai is from UTC, in
    seconds, at a time given in seconds. *)
Context (zone : Z -> Z).

Definition to_local (t : Z) : Z := t + zone (t / kMicroSecondsPerSecond) * kMicroSecondsPerSecond.

(** [{:%Y-%m-%d %H:%M:%S}] of a time in seconds. *)
Definition format_date (date : Z * Z * Z) : bytes :=
  let '(y, m, d) := date in pad 4 y ++ str "-" ++ pad 2 m ++ str "-" ++ pad 2 d.

Definition format_time (second : Z) : bytes :=
  pad 2 (second / 3600) ++ str ":" ++ pad 2 (second / 60 mod 60) ++ str ":" ++ pad 2 (second mod 60).

(** [None]: a year that <chrono> has no text for. *)
Definition toFormattedString (showMicroseconds : bool) (microSecondsSinceEpoch : Z) : option bytes :=
  let seconds := to_local microSecondsSinceEpoch / kMicroSecondsPerSecond in
  let date := Calendar.civil_from_days (seconds / 86400) in
  if (0 <=? date.1.1) && (date.1.1 <=? 32767) then
    Some (format_date date ++ str " " ++ format_time (seconds mod 86400) ++
          if showMicroseconds then str "." ++ format06 (microSecondsSinceEpoch `rem` kMicroSecondsPerSecond) else [])
  else None.

End zone.

(** What a reader makes of such a text: the time in microseconds on the clock
    of the zone. *)
Definition field (separator : bytes) (l : bytes) : option (Z * bytes) :=
  '(n, rest) ← from_chars l;
  if bool_decide (take (length separator) rest = separator) then Some (n, drop (length separator) rest) else None.

Definition parse_formatted (l : bytes) : option Z :=
  '(y, l) ← field (str "-") l; '(m, l) ← field (str "-") l; '(d, l) ← field (str " ") l;
  '(h, l) ← field (str ":") l; '(mi, l) ← field (str ":") l; '(s, l) ← field (str ".") l;
  '(us, _) ← field [] l;
  Some ((Calendar.days_from_civil (y, m, d) * 86400 + h * 3600 + mi * 60 + s) * kMicroSecondsPerSecond + us).

Lemma read_digits_zeros k l : read_digits (replicate k (digit_char 0) ++ l) 0 = read_digits l 0.
Proof. induction k as [|k IH]; [done|exact IH]. Qed.

Lemma from_chars_pad width n rest :
  0 <= n < 2 ^ 64 -> match rest with [] => True | c :: _ => isdigit c = false end ->
  from_chars (pad width n ++ rest) = Some (n, rest).
Proof.
  intros Hn Hr. pose proof (from_chars_format n rest Hn Hr) as Hf.
  unfold pad. destruct (width - length (format_dec n))%nat as [|k]; [done|].
  rewrite <- app_assoc. cbn [replicate app]. unfold from_chars in *.
  change (isdigit (digit_char 0)) with true. cbn match.
  change (digit_char 0 :: replicate k (digit_char 0) ++ ?l) with (replicate (S k) (digit_char 0) ++ l).
  rewrite read_digits_zeros. destruct (format_dec n ++ rest) as [|c l]; [done|]. by destruct (isdigit c).
Qed.

Lemma field_pad width separator n rest :
  0 <= n < 2 ^ 64 -> match separator ++ rest with [] => True | c :: _ => isdigit c = false end ->
  field separator (pad width n ++ separator ++ rest) = Some (n, rest).
Proof.
  intros Hn Hs. unfold field. rewrite from_chars_pad by done. cbn.
  rewrite take_app_length, bool_decide_true by done. by rewrite drop_app_length.
Qed.

Lemma format06_pad n : 0 <= n -> format06 n = pad 6 n.
Proof.
  intros Hn. unfold format06, pad. rewrite Z.abs_eq by done.
  destruct (Z.ltb_spec n 0); [lia|]. by rewrite Nat.sub_0_r.
Qed.

(** A point after the epoch is printed as its seconds, in full, first. *)
Lemma toString_seconds t :
  0 <= t <= INT64_MAX ->
  from_chars (toString t) = Some (t / kMicroSecondsPerSecond, str ", " ++ format06 (t mod kMicroSecondsPerSecond)).
Proof.
  intros Ht. unfold INT64_MAX, kMicroSecondsPerSecond in *. unfold toString, kMicroSecondsPerSecond.
  rewrite Z.quot_div_nonneg, Z.rem_mod_nonneg by lia.
  assert (0 <= t / (1000 * 1000) <= t) by (split; [apply Z.div_pos|apply Z.div_le_upper_bound]; lia).
  unfold to_string. destruct (Z.ltb_spec (t / (1000 * 1000)) 0); [lia|].
  apply from_chars_format; [lia|done].
Qed.

Example toString_sample : toString 12000034 = str "12, 000034" /\ toString (-1500000) = str "-1, -500000".
Proof. by vm_compute. Qed.

(** A double that is not negative gives a delay that is not negative. *)
Lemma to_int64_nonneg sign m e v :
  to_int64 (S754_finite sign m e) = Some v -> sign = false -> 0 <= v.
Proof.
  unfold to_int64. intros Hv ->. destruct (in_int64 _); [|done]. injection Hv as <-.
  destruct (Z.leb_spec 0 e); [apply Z.mul_nonneg_nonneg; [done|apply Z.pow_nonneg; lia]|apply Z.div_pos; [done|lia]].
Qed.

(** China is east of Greenwich, by less than a day. *)
Definition east (zone : Z -> Z) : Prop := forall s, 0 <= zone s < 86400.

(** The points up to the last year but one that <chrono> has a text for. *)
Definition FORMATTED_MAX : Z := Calendar.days_from_civil (32766, 12, 31) * 86400 * kMicroSecondsPerSecond.

Lemma to_local_split zone t :
  to_local zone t = (t / kMicroSecondsPerSecond + zone (t / kMicroSecondsPerSecond)) * kMicroSecondsPerSecond +
                    t mod kMicroSecondsPerSecond.
Proof. unfold to_local, kMicroSecondsPerSecond. pose proof (Z.div_mod t (1000 * 1000)). lia. Qed.

(** The text of a time says which time it was: a reader who knows the calendar
    gets the time on the clock of the zone back, to the microsecond. *)
Theorem formatted_roundtrip (zone : Z -> Z) (t : Z) :
  east zone -> 0 <= t < FORMATTED_MAX ->
  exists s, toFormattedString zone true t = Some s /\ parse_formatted s = Some (to_local zone t).
Proof.
  intros Hz Ht. unfold toFormattedString, format_date, format_time. rewrite to_local_split.
  unfold FORMATTED_MAX, kMicroSecondsPerSecond in *.
  assert (Calendar.days_from_civil (32766, 12, 31) = 11248372) as E by (by vm_compute). rewrite E in Ht. clear E.
  assert (0 <= t / (1000 * 1000) < 11248372 * 86400) as Hq by div_lia.
  pose proof (Z.mod_pos_bound t (1000 * 1000) ltac:(lia)) as Hus.
  rewrite Z.rem_mod_nonneg by lia. set (us := t mod _) in *. set (q := t / _) in *. clearbody us q.
  pose proof (Hz q) as Ho. set (s := q + zone q). assert (0 <= s < 11248373 * 86400) as Hs by lia. clearbody s.
  rewrite format06_pad, Z.div_add_l, (Z.div_small us), Z.add_0_r by lia.
  pose proof (Calendar.civil_from_days_year (s / 86400)) as Hy.
  pose proof (Calendar.civil_from_days_valid (s / 86400)) as Hv.
  pose proof (Calendar.days_from_civil_from_days (s / 86400)) as He.
  destruct (Calendar.civil_from_days (s / 86400)) as [[y m] d]. cbn [fst snd] in *.
  assert (0 <= s / 86400 <= 11248372) as Hn by div_lia. specialize (Hy Hn). destruct Hv as [Hm Hd].
  assert (1 <= d <= 31) as Hd' by (unfold Calendar.last_day in Hd; repeat case_match; lia).
  rewrite (proj2 (Z.leb_le 0 y)), (proj2 (Z.leb_le y 32767)) by lia. cbn [andb]. eexists. split; [done|].
  pose proof (Z.div_mod s 86400 ltac:(lia)) as Hsd. set (tod := s mod 86400) in *.
  assert (0 <= tod < 86400) as Htod by (by apply Z.mod_pos_bound). clearbody tod.
  assert (0 <= tod / 3600 < 24 /\ 0 <= tod / 60 mod 60 < 60 /\ 0 <= tod mod 60 < 60 /\
          tod = tod / 3600 * 3600 + tod / 60 mod 60 * 60 + tod mod 60) as (Hh & Hmi & Hse & Et) by div_lia.
  unfold parse_formatted. rewrite <- !app_assoc.
  do 6 (rewrite field_pad by (done || lia); cbn [mbind option_bind]).
  pose proof (field_pad 6 [] us [] ltac:(lia) I) as Hf. cbn [app] in Hf. rewrite app_nil_r in Hf.
  rewrite Hf. cbn [mbind option_bind]. rewrite He.
  unfold kMicroSecondsPerSecond. f_equal. lia.
Qed.

Lemma formatted_roundtrip_witness :
  east (fun _ => 28800) /\
  exists s, toFormattedString (fun _ => 28800) true 1709164800000001 = Some s /\
            parse_formatted s = Some (to_local (fun _ => 28800) 1709164800000001).
Proof.
  split; [intros s; lia|]. apply (formatted_roundtrip (fun _ => 28800) 1709164800000001); [intros s; lia|].
  split; [lia|]. vm_compute. reflexivity.
Defined.

Example toFormattedString_sample :
  toFormattedString (fun _ => 28800) true 1709164800000001 = Some (str "2024-02-29 08:00:00.000001") /\
  toFormattedString (fun _ => 28800) false (-1500000) = Some (str "1970-01-01 07:59:58") /\
  toFormattedString (fun _ => 28800) true (-1500000) = Some (str "1970-01-01 07:59:58.-500000").
Proof. by vm_compute. Qed.

Example timeDifference_sample : timeDifference 3500000 1000000 = Some (S754_finite false 5629499534213120 (-51)).
Proof. by vm_compute. Qed.

End Timestamp.
