(* ===== verification/TimerQueue.v ===== *)
(** * src/net/Timer.h, src/net/Timer.cc, src/net/TimerId.h, src/net/TimerQueue.h,
      src/net/TimerQueue.cc, and the timer calls of src/net/EventLoop.cc

    The timers of a loop as objects at addresses: [new] takes an address from an
    allocator, [delete] gives it back, and following a pointer to an address that
    is free is an error of the model, as are casts whose result is undefined.
    The callbacks are programs that call the loop's timer functions. *)

From S2P Require Import Prelude Timestamp.
From Stdlib Require Import SpecFloat.

(** The address of a Timer. *)
Abbreviation addr := Z.

Definition UINTPTR_MAX : Z := 2 ^ 64 - 1.

Module Timer.
(** [callback_] is a name; what it does is in the table of callbacks. *)
Record t := mk {
  callback_ : nat;
  expiration_ : Z;
  interval_ : double;
  repeat_ : bool;
  sequece_ : Z;
}.

(** [interval > 0.0] *)
Definition make (cb : nat) (when : Z) (interval : double) (s_numCreated : Z) : t :=
  mk cb when interval (SFltb (S754_zero false) interval) s_numCreated.

Definition restart (now : Z) (tm : t) : option t :=
  if repeat_ tm then
    match Timestamp.addTime now (interval_ tm) with
    | Some e => Some (mk (callback_ tm) e (interval_ tm) (repeat_ tm) (sequece_ tm))
    | None => None
    end
  else Some (mk (callback_ tm) Timestamp.invalid (interval_ tm) (repeat_ tm) (sequece_ tm)).
End Timer.

Module TimerId.
Record t := mk { timer_ : addr; sequence_ : Z }.
End TimerId.

Module TimerQueue.

Definition Entry : Type := Z * addr.
Definition ActiveTimer : Type := addr * Z.

(** [std::pair]'s order. *)
Definition entry_ltb (x y : Entry) : bool :=
  (x.1 <? y.1)%Z || (negb (y.1 <? x.1)%Z && (x.2 <? y.2)%Z).

(** A [std::set] of entries is the sorted list of its elements. *)
Fixpoint set_insert (x : Entry) (l : list Entry) : list Entry :=
  match l with
  | [] => [x]
  | y :: l' => if entry_ltb x y then x :: l else if entry_ltb y x then y :: set_insert x l' else l
  end.
Definition set_erase (x : Entry) (l : list Entry) : list Entry := filter (fun y => y <> x) l.
(** The elements before [lower_bound(x)], and those from it on. *)
Fixpoint set_split (x : Entry) (l : list Entry) : list Entry * list Entry :=
  match l with
  | [] => ([], [])
  | y :: l' => if entry_ltb y x then let '(a, b) := set_split x l' in (y :: a, b) else ([], l)
  end.

Inductive error := UseAfterFree | BadAlloc | BadCast.

(** What waits in the loop's queue. *)
Inductive functor := AddTimerInLoop (timer : addr) | CancelInLoop (timerId : TimerId.t).

Inductive effect :=
| Ran (sequence : Z) (at_ : Z)      (** a callback was run, in the handleRead that read the clock at [at_] *)
| Freed (sequence : Z).

Record t := mk {
  s_numCreated_ : Z;
  heap : gmap addr Timer.t;
  timers_ : list Entry;
  activeTimers_ : gset ActiveTimer;
  callingExpiredTimers_ : bool;
  cancelingTimers_ : gset ActiveTimer;
  armed : option Z;               (** when the timerfd becomes readable *)
  now_ : Z;                       (** the clock *)
  ticks : list N;              (** how it advances after each reading *)
  queue : list functor;
  issued : list TimerId.t;        (** the ids that were returned *)
  readers : list addr;            (** the timers that other threads have posted in addTimer, and of
                                      which they have not yet read the number *)
  log : list effect;
}.

Definition make (now : Z) (ticks : list N) : t :=
  mk 0 ∅ [] ∅ false ∅ None now ticks [] [] [] [].

Definition set_created (v : Z) (s : t) : t :=
  mk v (heap s) (timers_ s) (activeTimers_ s) (callingExpiredTimers_ s) (cancelingTimers_ s) (armed s)
     (now_ s) (ticks s) (queue s) (issued s) (readers s) (log s).
Definition set_heap (v : gmap addr Timer.t) (s : t) : t :=
  mk (s_numCreated_ s) v (timers_ s) (activeTimers_ s) (callingExpiredTimers_ s) (cancelingTimers_ s) (armed s)
     (now_ s) (ticks s) (queue s) (issued s) (readers s) (log s).
Definition set_timers (v : list Entry) (s : t) : t :=
  mk (s_numCreated_ s) (heap s) v (activeTimers_ s) (callingExpiredTimers_ s) (cancelingTimers_ s) (armed s)
     (now_ s) (ticks s) (queue s) (issued s) (readers s) (log s).
Definition set_active (v : gset ActiveTimer) (s : t) : t :=
  mk (s_numCreated_ s) (heap s) (timers_ s) v (callingExpiredTimers_ s) (cancelingTimers_ s) (armed s)
     (now_ s) (ticks s) (queue s) (issued s) (readers s) (log s).
Definition set_calling (v : bool) (s : t) : t :=
  mk (s_numCreated_ s) (heap s) (timers_ s) (activeTimers_ s) v (cancelingTimers_ s) (armed s)
     (now_ s) (ticks s) (queue s) (issued s) (readers s) (log s).
Definition set_canceling (v : gset ActiveTimer) (s : t) : t :=
  mk (s_numCreated_ s) (heap s) (timers_ s) (activeTimers_ s) (callingExpiredTimers_ s) v (armed s)
     (now_ s) (ticks s) (queue s) (issued s) (readers s) (log s).
Definition set_armed (v : option Z) (s : t) : t :=
  mk (s_numCreated_ s) (heap s) (timers_ s) (activeTimers_ s) (callingExpiredTimers_ s) (cancelingTimers_ s) v
     (now_ s) (ticks s) (queue s) (issued s) (readers s) (log s).
Definition set_clock (now : Z) (ticks : list N) (s : t) : t :=
  mk (s_numCreated_ s) (heap s) (timers_ s) (activeTimers_ s) (callingExpiredTimers_ s) (cancelingTimers_ s) (armed s)
     now ticks (queue s) (issued s) (readers s) (log s).
Definition set_queue (v : list functor) (s : t) : t :=
  mk (s_numCreated_ s) (heap s) (timers_ s) (activeTimers_ s) (callingExpiredTimers_ s) (cancelingTimers_ s) (armed s)
     (now_ s) (ticks s) v (issued s) (readers s) (log s).
Definition set_issued (v : list TimerId.t) (s : t) : t :=
  mk (s_numCreated_ s) (heap s) (timers_ s) (activeTimers_ s) (callingExpiredTimers_ s) (cancelingTimers_ s) (armed s)
     (now_ s) (ticks s) (queue s) v (readers s) (log s).
Definition set_readers (v : list addr) (s : t) : t :=
  mk (s_numCreated_ s) (heap s) (timers_ s) (activeTimers_ s) (callingExpiredTimers_ s) (cancelingTimers_ s) (armed s)
     (now_ s) (ticks s) (queue s) (issued s) v (log s).
Definition emit (e : effect) (s : t) : t :=
  mk (s_numCreated_ s) (heap s) (timers_ s) (activeTimers_ s) (callingExpiredTimers_ s) (cancelingTimers_ s) (armed s)
     (now_ s) (ticks s) (queue s) (issued s) (readers s) (log s ++ [e]).

(** ** A state monad with errors *)

Definition M (A : Type) : Type := t -> error + (A * t).
#[global] Instance M_ret : MRet M := fun A x s => inr (x, s).
#[global] Instance M_bind : MBind M := fun A B f m s =>
  match m s with inl e => inl e | inr (x, s) => f x s end.

Definition modify (f : t -> t) : M unit := fun s => inr (tt, f s).
Definition gets {A} (f : t -> A) : M A := fun s => inr (f s, s).
Definition throw {A} (e : error) : M A := fun _ => inl e.
Definition lift {A} (e : error) (o : option A) : M A :=
  match o with Some x => mret x | None => throw e end.

(** [Timestamp::now()] *)
Definition now : M Z := fun s =>
  inr (now_ s, match ticks s with
               | [] => s
               | d :: ds => set_clock (now_ s + Z.of_N d) ds s
               end).

(** Following a [Timer*]. *)
Definition deref (a : addr) : M Timer.t := fun s =>
  match heap s !! a with Some tm => inr (tm, s) | None => inl UseAfterFree end.
Definition delete_timer (a : addr) : M unit := fun s =>
  match heap s !! a with
  | Some tm => inr (tt, emit (Freed (Timer.sequece_ tm)) (set_heap (delete a (heap s)) s))
  | None => inl UseAfterFree
  end.

(** ** The timerfd *)

(** The seconds and nanoseconds of the relative time that is set. *)
Definition howMuchTimeFromNow (when now : Z) : option (Z * Z) :=
  let microseconds := (when - now)%Z in
  if in_int64 microseconds then
    let microseconds := if (microseconds <? 100)%Z then 100%Z else microseconds in
    Some (microseconds `quot` Timestamp.kMicroSecondsPerSecond,
          microseconds `rem` Timestamp.kMicroSecondsPerSecond * 1000)%Z
  else None.

Definition resetTimerfd (expiration : Z) : M unit :=
  n ← now;
  '(tv_sec, tv_nsec) ← lift BadCast (howMuchTimeFromNow expiration n);
  modify (set_armed (Some (n + tv_sec * 1000000 + tv_nsec / 1000)%Z)).

(** Reading a timerfd that has expired disarms it. *)
Definition readTimerfd (now : Z) : M unit :=
  modify (fun s => match armed s with
                   | Some d => if (d <=? now)%Z then set_armed None s else s
                   | None => s
                   end).

(** ** The queue's functions *)

Definition insert (timer : addr) : M bool :=
  tm ← deref timer;
  let when := Timer.expiration_ tm in
  ts ← gets timers_;
  let earliestChanged := match ts with [] => true | (first, _) :: _ => (when <? first)%Z end in
  _ ← modify (fun s => set_timers (set_insert (when, timer) (timers_ s)) s);
  _ ← modify (fun s => set_active ({[(timer, Timer.sequece_ tm)]} ∪ activeTimers_ s) s);
  mret earliestChanged.

Definition addTimerInLoop (timer : addr) : M unit :=
  earliestChanged ← insert timer;
  if (earliestChanged : bool) then tm ← deref timer; resetTimerfd (Timer.expiration_ tm) else mret tt.

Definition cancelInLoop (timerId : TimerId.t) : M unit :=
  let timer := (TimerId.timer_ timerId, TimerId.sequence_ timerId) in
  active ← gets activeTimers_;
  calling ← gets callingExpiredTimers_;
  if bool_decide (timer ∈ active) then
    tm ← deref timer.1;
    _ ← modify (fun s => set_timers (set_erase (Timer.expiration_ tm, timer.1) (timers_ s)) s);
    _ ← delete_timer timer.1;
    modify (fun s => set_active (activeTimers_ s ∖ {[timer]}) s)
  else if (calling : bool) then modify (fun s => set_canceling ({[timer]} ∪ cancelingTimers_ s) s)
  else mret tt.

(** [erase_active]: the loop over the expired entries in getExpired. *)
Fixpoint erase_active (expired : list Entry) : M unit :=
  match expired with
  | [] => mret tt
  | (_, a) :: expired =>
      tm ← deref a;
      _ ← modify (fun s => set_active (activeTimers_ s ∖ {[(a, Timer.sequece_ tm)]}) s);
      erase_active expired
  end.

Definition getExpired (now : Z) : M (list Entry) :=
  ts ← gets timers_;
  let '(expired, rest) := set_split (now, UINTPTR_MAX) ts in
  _ ← modify (set_timers rest);
  _ ← erase_active expired;
  mret expired.

Fixpoint reset_expired (expired : list Entry) (now : Z) : M unit :=
  match expired with
  | [] => mret tt
  | (_, a) :: expired =>
      tm ← deref a;
      canceling ← gets cancelingTimers_;
      _ ← (if Timer.repeat_ tm && negb (bool_decide ((a, Timer.sequece_ tm) ∈ canceling)) then
             tm' ← lift BadCast (Timer.restart now tm);
             _ ← modify (fun s => set_heap (<[a := tm']> (heap s)) s);
             _ ← insert a;
             mret tt
           else delete_timer a);
      reset_expired expired now
  end.

Definition reset (expired : list Entry) (now : Z) : M unit :=
  _ ← reset_expired expired now;
  ts ← gets timers_;
  nextExpire ← match ts with
               | [] => mret Timestamp.invalid
               | (_, a) :: _ => tm ← deref a; mret (Timer.expiration_ tm)
               end;
  if Timestamp.valid nextExpire then resetTimerfd nextExpire else mret tt.

(** What a callback does with the loop's timers. *)
Inductive prog :=
| Done
| RunAt (time : Z) (cb : nat) (k : TimerId.t -> prog)
| RunAfter (delay : double) (cb : nat) (k : TimerId.t -> prog)
| RunEvery (interval : double) (cb : nat) (k : TimerId.t -> prog)
| Cancel (timerId : TimerId.t) (k : prog).

Section with_allocator.
(** [new]: an address that is not in use, when there is one. *)
Context (malloc : gset addr -> option addr).
(** What the callbacks do, given the ids that were returned so far. *)
Context (code : nat -> list TimerId.t -> prog).

(** [new Timer(cb, when, interval)] *)
Definition new_timer (cb : nat) (when : Z) (interval : double) : M addr :=
  h ← gets heap;
  a ← lift BadAlloc (malloc (dom h));
  n ← gets s_numCreated_;
  _ ← modify (set_created (n + 1)%Z);
  _ ← modify (fun s => set_heap (<[a := Timer.make cb when interval (n + 1)]> (heap s)) s);
  mret a.

(** Called in the loop's thread. *)
Definition addTimer (cb : nat) (when : Z) (interval : double) : M TimerId.t :=
  timer ← new_timer cb when interval;
  _ ← addTimerInLoop timer;
  tm ← deref timer;
  let timerId := TimerId.mk timer (Timer.sequece_ tm) in
  _ ← modify (fun s => set_issued (issued s ++ [timerId]) s);
  mret timerId.

(** EventLoop's functions. *)
Definition runAt (time : Z) (cb : nat) : M TimerId.t := addTimer cb time (S754_zero false).
Definition runAfter (delay : double) (cb : nat) : M TimerId.t :=
  n ← now; time ← lift BadCast (Timestamp.addTime n delay); runAt time cb.
Definition runEvery (interval : double) (cb : nat) : M TimerId.t :=
  n ← now; time ← lift BadCast (Timestamp.addTime n interval); addTimer cb time interval.

Fixpoint exec (p : prog) : M unit :=
  match p with
  | Done => mret tt
  | RunAt time cb k => id ← runAt time cb; exec (k id)
  | RunAfter delay cb k => id ← runAfter delay cb; exec (k id)
  | RunEvery interval cb k => id ← runEvery interval cb; exec (k id)
  | Cancel timerId k => _ ← cancelInLoop timerId; exec k
  end.

(** [timer->run()] *)
Definition run_timer (at_ : Z) (a : addr) : M unit :=
  tm ← deref a;
  _ ← modify (emit (Ran (Timer.sequece_ tm) at_));
  ids ← gets issued;
  exec (code (Timer.callback_ tm) ids).

Fixpoint run_timers (at_ : Z) (expired : list Entry) : M unit :=
  match expired with
  | [] => mret tt
  | (_, a) :: expired => _ ← run_timer at_ a; run_timers at_ expired
  end.

Definition handleRead : M unit :=
  n ← now;
  _ ← readTimerfd n;
  expired ← getExpired n;
  _ ← modify (set_calling true);
  _ ← modify (set_canceling ∅);
  _ ← run_timers n expired;
  _ ← modify (set_calling false);
  reset expired n.

(** The destructor: the timerfd is closed and the timers of the set are deleted. *)
Fixpoint delete_entries (entries : list Entry) : M unit :=
  match entries with
  | [] => mret tt
  | timer :: entries => _ ← delete_timer timer.2; delete_entries entries
  end.

Definition destroy : M unit :=
  _ ← modify (set_armed None);
  ts ← gets timers_;
  delete_entries ts.

(** ** What happens to the queue *)

Inductive event :=
| HandleRead                                       (** the poller reports the timerfd *)
| InLoop (p : prog)                                (** code in the loop's thread *)
| AddElsewhere (cb : nat) (when : Z) (interval : double)   (** addTimer in another thread, up to the posting *)
| ReadSequece (i : nat)                            (** [timer->sequece()] there, after it *)
| CancelElsewhere (timerId : TimerId.t)
| RunFunctor.

Definition step (e : event) : M unit :=
  match e with
  | HandleRead => handleRead
  | InLoop p => exec p
  | AddElsewhere cb when interval =>
      a ← new_timer cb when interval;
      _ ← modify (fun s => set_readers (readers s ++ [a]) s);
      modify (fun s => set_queue (queue s ++ [AddTimerInLoop a]) s)
  | ReadSequece i =>
      rs ← gets readers;
      match rs !! i with
      | None => mret tt
      | Some a =>
          tm ← deref a;
          _ ← modify (set_readers (delete i rs));
          modify (fun s => set_issued (issued s ++ [TimerId.mk a (Timer.sequece_ tm)]) s)
      end
  | CancelElsewhere id => modify (fun s => set_queue (queue s ++ [CancelInLoop id]) s)
  | RunFunctor =>
      q ← gets queue;
      match q with
      | [] => mret tt
      | f :: fs =>
          _ ← modify (set_queue fs);
          match f with AddTimerInLoop a => addTimerInLoop a | CancelInLoop id => cancelInLoop id end
      end
  end.

Inductive steps : t -> t -> Prop :=
| steps_refl s : steps s s
| steps_step e s1 s2 s3 : steps s1 s2 -> step e s2 = inr (tt, s3) -> steps s1 s3.

(** A loop that starts when the clock shows a valid time. *)
Definition reachable (s : t) : Prop := exists now ticks, (0 < now)%Z /\ steps (make now ticks) s.

End with_allocator.
End TimerQueue.
