(* ===== verification/TimerQueueFacts.v ===== *)
(** * Properties of the timer queue

    Memory: no timer is used after it was deleted, but for the read at the end of
    addTimer() in another thread; none is deleted twice, none is lost.  Time: timers run in the order of their expiration, each as soon as
    it is due, and the timerfd is armed early enough.  Cancelling is final. *)

From S2P Require Import Prelude Timestamp TimerQueue.
From Stdlib Require Import SpecFloat Sorted.
Import TimerQueue.

(** ** Sets of entries *)

Definition entry_lt (x y : Entry) : Prop := entry_ltb x y = true.

Lemma entry_lt_spec x y : entry_lt x y <-> (x.1 < y.1 \/ (x.1 = y.1 /\ x.2 < y.2))%Z.
Proof.
  unfold entry_lt, entry_ltb. rewrite orb_true_iff, andb_true_iff, negb_true_iff, !Z.ltb_lt, Z.ltb_ge. lia.
Qed.

Lemma entry_nlt_spec x y : entry_ltb x y = false <-> ~ entry_lt x y.
Proof. unfold entry_lt. by rewrite not_true_iff_false. Qed.

Definition sorted (l : list Entry) : Prop := StronglySorted entry_lt l.

Lemma entry_trichotomy x y : ~ entry_lt x y -> ~ entry_lt y x -> x = y.
Proof. rewrite !entry_lt_spec. destruct x, y; cbn. intros. f_equal; lia. Qed.

Lemma set_insert_perm x l : x ∉ l -> set_insert x l ≡ₚ x :: l.
Proof.
  induction l as [|y l IH]; intros Hx; cbn; [done|]. apply not_elem_of_cons in Hx as [Hne Hx].
  destruct (entry_ltb x y) eqn:E1; [done|]. destruct (entry_ltb y x) eqn:E2.
  - rewrite IH by done. apply Permutation_swap.
  - destruct Hne. by apply entry_trichotomy; rewrite <- entry_nlt_spec.
Qed.

Lemma set_insert_sorted x l : sorted l -> sorted (set_insert x l).
Proof.
  induction 1 as [|y l Hl IH Hy]; cbn; [by repeat constructor|].
  destruct (entry_ltb x y) eqn:E1; [|destruct (entry_ltb y x) eqn:E2].
  - constructor; [by constructor|]. constructor; [done|]. eapply Forall_impl; [exact Hy|].
    intros z Hz. change (entry_lt x y) in E1. rewrite entry_lt_spec in *. lia.
  - constructor; [done|]. destruct (decide (x ∈ l)) as [Hin|Hin].
    + apply Forall_forall. intros z Hz. rewrite Forall_forall in Hy.
      assert (z = x \/ z ∈ l) as [->|?]; [|by apply Hy..].
      clear -Hz. induction l as [|u l IH]; cbn in Hz; [set_solver|].
      destruct (entry_ltb x u); [set_solver|]. destruct (entry_ltb u x); set_solver.
    + rewrite set_insert_perm by done. constructor; done.
  - by constructor.
Qed.

(** The first entry after an insertion. *)
Lemma set_insert_first x l y rest :
  set_insert x l = y :: rest ->
  (y = x /\ match l with [] => True | z :: _ => (x.1 <= z.1)%Z end) \/ (exists l', l = y :: l' /\ (y.1 <= x.1)%Z).
Proof.
  destruct l as [|z l]; cbn; [by intros [= <- _]; left|].
  destruct (entry_ltb x z) eqn:E1; [|destruct (entry_ltb z x) eqn:E2]; intros [= <- _].
  - left. split; [done|]. change (entry_lt x z) in E1. rewrite entry_lt_spec in E1. lia.
  - right. exists l. split; [done|]. change (entry_lt z x) in E2. rewrite entry_lt_spec in E2. lia.
  - right. exists l. split; [done|]. apply entry_nlt_spec in E1, E2. rewrite entry_lt_spec in E1, E2. lia.
Qed.

Lemma set_erase_perm x l : NoDup l -> x ∈ l -> l ≡ₚ x :: set_erase x l.
Proof.
  intros Hl Hx. apply NoDup_Permutation; [done|..].
  - constructor; [|by apply NoDup_filter]. unfold set_erase. rewrite list_elem_of_filter. naive_solver.
  - intros y. unfold set_erase. rewrite elem_of_cons, list_elem_of_filter. destruct (decide (y = x)); naive_solver.
Qed.

Lemma sorted_filter (P : Entry -> Prop) `{!forall x, Decision (P x)} l : sorted l -> sorted (filter P l).
Proof.
  induction 1 as [|y l Hl IH Hy]; [constructor|]. rewrite filter_cons. destruct (decide (P y)); [|done].
  constructor; [done|]. rewrite Forall_forall in *. intros z [_ Hz]%list_elem_of_filter. by apply Hy.
Qed.

Lemma set_split_spec x l a b :
  sorted l -> set_split x l = (a, b) ->
  l = a ++ b /\ sorted b /\ Forall (fun y => entry_lt y x) a /\ Forall (fun y => ~ entry_lt y x) b.
Proof.
  intros Hl. revert a b. induction Hl as [|y l Hl IH Hy]; cbn; intros a b.
  - intros [= <- <-]. split_and!; [done|constructor|constructor|constructor].
  - destruct (entry_ltb y x) eqn:E.
    + destruct (set_split x l) as [a' b'] eqn:Es. intros [= <- <-]. destruct (IH a' b') as (-> & ? & ? & ?); [done|].
      split_and!; [done|done|by constructor|done].
    + intros [= <- <-]. split_and!; [done|by constructor|constructor|]. apply entry_nlt_spec in E.
      constructor; [done|]. eapply Forall_impl; [exact Hy|]. intros z Hz. cbn in Hz. rewrite entry_lt_spec in *. lia.
Qed.

Lemma sorted_nodup l : sorted l -> NoDup l.
Proof.
  induction 1 as [|y l Hl IH Hy]; constructor; [|done]. intros Hin. rewrite Forall_forall in Hy.
  specialize (Hy y Hin). rewrite entry_lt_spec in Hy. lia.
Qed.

Lemma sorted_head_le w a rest w' a' : sorted ((w, a) :: rest) -> (w', a') ∈ rest -> (w <= w')%Z.
Proof.
  intros Hs Hin. inversion Hs as [|? ? _ Hy]; subst. rewrite Forall_forall in Hy. specialize (Hy _ Hin).
  rewrite entry_lt_spec in Hy. cbn in Hy. lia.
Qed.

(** ** Intervals *)

Lemma binary_round_aux_sign mx ex lx m e :
  binary_round_aux 53 1024 false mx ex lx <> S754_finite true m e.
Proof.
  unfold binary_round_aux. destruct (shr_fexp _ _ _ _ _) as [mrs e']. destruct (shr_fexp _ _ _ _ _) as [mrs2 e2].
  destruct (shr_m mrs2); [done|by destruct (_ <=? _)%Z|done].
Qed.

(** A repeating timer is never restarted in the past. *)
Lemma addTime_positive n d e :
  SFltb (S754_zero false) d = true -> Timestamp.addTime n d = Some e -> (n <= e)%Z.
Proof.
  intros Hd. unfold Timestamp.addTime. destruct (Timestamp.to_int64 _) as [v|] eqn:Hv; [|done].
  destruct (in_int64 _); [|done]. intros [= <-].
  enough (0 <= v)%Z by lia. destruct d as [b|b| |b m x]; try done.
  destruct b; [done|]. unfold Timestamp.mul in Hv. cbn [SFmul Timestamp.micros xorb] in Hv.
  pose proof (binary_round_aux_sign (Z.pos (m * 8589934592000000)) (x + -33) loc_Exact) as Hs.
  destruct (binary_round_aux _ _ _ _ _ _) as [b|b| |b m' e']; try done; [by injection Hv as <-|].
  destruct b; [by destruct (Hs m' e')|]. by eapply Timestamp.to_int64_nonneg.
Qed.

(** ** Reasoning about the monad *)

(** The computation does not follow a dangling pointer, and when it returns its
    result and state satisfy [Q]. *)
Definition wp {A} (m : M A) (Q : A -> t -> Prop) (s : t) : Prop :=
  match m s with inl e => e <> UseAfterFree | inr (x, s') => Q x s' end.

Lemma wp_bind {A B} (m : M A) (f : A -> M B) (Q : B -> t -> Prop) s :
  wp m (fun x => wp (f x) Q) s -> wp (m ≫= f) Q s.
Proof. unfold wp, mbind, M_bind. by destruct (m s) as [e|[x s']]. Qed.

Lemma wp_mono {A} (m : M A) (Q R : A -> t -> Prop) s :
  wp m Q s -> (forall x s', Q x s' -> R x s') -> wp m R s.
Proof. unfold wp. destruct (m s) as [e|[x s']]; auto. Qed.

Lemma wp_lift {A} e (o : option A) (Q : A -> t -> Prop) s :
  e <> UseAfterFree -> (forall x, o = Some x -> Q x s) -> wp (lift e o) Q s.
Proof. intros He Hq. destruct o; cbn; [by apply Hq|done]. Qed.

Lemma wp_deref a tm (Q : Timer.t -> t -> Prop) s : heap s !! a = Some tm -> Q tm s -> wp (deref a) Q s.
Proof. intros Ha Hq. unfold wp, deref. by rewrite Ha. Qed.

(** What a run means, from its [wp]. *)
Lemma wp_run {A} (m : M A) (Q : A -> t -> Prop) s x s' : wp m Q s -> m s = inr (x, s') -> Q x s'.
Proof. unfold wp. intros Hw E. by rewrite E in Hw. Qed.

(** ** The invariant *)

Definition to_add (q : list functor) : list addr :=
  omap (fun f => match f with AddTimerInLoop a => Some a | CancelInLoop _ => None end) q.

(** The timers there are: those in the queue's set, those another thread posted,
    and those [es] that a running function holds. *)
Definition owned (es : list addr) s : list addr := (timers_ s).*2 ++ to_add (queue s) ++ es.

Record inv (es : list addr) (s : t) : Prop := {
  i_sorted : sorted (timers_ s);
  i_nodup : NoDup (owned es s);
  i_dom a : is_Some (heap s !! a) <-> a ∈ owned es s;
  i_addr a : is_Some (heap s !! a) -> (a < UINTPTR_MAX)%Z;
  i_when w a : (w, a) ∈ timers_ s -> exists tm, heap s !! a = Some tm /\ Timer.expiration_ tm = w;
  i_active a q : (a, q) ∈ activeTimers_ s <->
    a ∈ (timers_ s).*2 /\ exists tm, heap s !! a = Some tm /\ Timer.sequece_ tm = q;
  i_seq a tm : heap s !! a = Some tm -> (Timer.sequece_ tm <= s_numCreated_ s)%Z;
  i_inj a b ta tb : heap s !! a = Some ta -> heap s !! b = Some tb ->
    Timer.sequece_ ta = Timer.sequece_ tb -> a = b;
  i_repeat a tm : heap s !! a = Some tm -> Timer.repeat_ tm = true ->
    SFltb (S754_zero false) (Timer.interval_ tm) = true;
  i_clock : (0 < now_ s)%Z;
}.

(** The timerfd is armed for the first timer.  While expired timers are being
    run ([b = true]) this is only known of timers that are due already. *)
Definition arm (b : bool) (s : t) : Prop :=
  forall w a rest, timers_ s = (w, a) :: rest -> (b = true -> (w <= 0)%Z) ->
  exists d, armed s = Some d /\ (d <= Z.max w (now_ s + 100))%Z.

Definition runs (l : list effect) : list (Z * Z) :=
  omap (fun e => match e with Ran q at_ => Some (q, at_) | Freed _ => None end) l.

#[local] Arguments runs : simpl never.

Lemma runs_app l1 l2 : runs (l1 ++ l2) = runs l1 ++ runs l2.
Proof. apply omap_app. Qed.

(** No timer with this number exists any more. *)
Definition dead (q : Z) (s : t) : Prop :=
  (q <= s_numCreated_ s)%Z /\ forall a tm, heap s !! a = Some tm -> Timer.sequece_ tm <> q.

(** What user code and the queue's own functions leave alone. *)
Record ext (es : list addr) (s s' : t) : Prop := {
  e_clock : (now_ s <= now_ s')%Z;
  e_heap a : a ∈ es -> heap s' !! a = heap s !! a;
  e_runs : runs (log s') = runs (log s);
  e_calling : callingExpiredTimers_ s' = callingExpiredTimers_ s;
  e_dead q : dead q s -> dead q s';
}.

#[local] Instance ext_preorder es : PreOrder (ext es).
Proof.
  split; [by split|]. intros s1 s2 s3 [A1 A2 A3 A4 A5] [B1 B2 B3 B4 B5].
  split; intros; [lia|rewrite B2 by done; auto|congruence|congruence|auto].
Qed.

(** Both together: the state after a function that was called with [es]. *)
Definition good (b : bool) (es : list addr) (s s' : t) : Prop := inv es s' /\ arm b s' /\ ext es s s'.

Lemma good_trans b es s1 s2 s3 : ext es s1 s2 -> good b es s2 s3 -> good b es s1 s3.
Proof. intros H1 (I & A & E). split_and!; [done|done|by trans s2]. Qed.

(** The invariant does not see the clock, the timerfd, the log, ... *)
Lemma inv_same es s s' :
  inv es s -> timers_ s' = timers_ s -> to_add (queue s') = to_add (queue s) -> heap s' = heap s ->
  activeTimers_ s' = activeTimers_ s -> s_numCreated_ s' = s_numCreated_ s -> (now_ s <= now_ s')%Z -> inv es s'.
Proof.
  intros [] T Q H A C N. split; unfold owned in *; rewrite ?T, ?Q, ?H, ?A, ?C; try done. lia.
Qed.

Lemma ext_same es s s' :
  (now_ s <= now_ s')%Z -> heap s' = heap s -> runs (log s') = runs (log s) ->
  callingExpiredTimers_ s' = callingExpiredTimers_ s -> s_numCreated_ s' = s_numCreated_ s -> ext es s s'.
Proof. intros N H R C Cr. split; rewrite ?H; try done. intros q [Hq Hd]. split; [by rewrite Cr|by rewrite H]. Qed.

(** ** The clock and the timerfd *)

Definition after_now (s : t) : t :=
  match ticks s with [] => s | d :: ds => set_clock (now_ s + Z.of_N d) ds s end.

Lemma now_eq s : now s = inr (now_ s, after_now s).
Proof. done. Qed.

Lemma after_now_clock s : (now_ s <= now_ (after_now s))%Z.
Proof. unfold after_now. destruct (ticks s); cbn; lia. Qed.

Lemma good_now b es s : inv es s -> arm b s -> good b es s (after_now s).
Proof.
  intros Hi Ha. pose proof (after_now_clock s) as Hc. unfold good.
  assert (timers_ (after_now s) = timers_ s /\ armed (after_now s) = armed s) as [Ht Hd] by (unfold after_now; by destruct (ticks s)).
  split_and!.
  - apply (inv_same es s); try done; unfold after_now; by destruct (ticks s).
  - intros w a rest. rewrite Ht, Hd. intros E Hw. destruct (Ha w a rest E Hw) as (d & -> & Hle). exists d. split; [done|lia].
  - apply ext_same; try done; unfold after_now; by destruct (ticks s).
Qed.

Lemma howMuch_spec when n sec nsec :
  howMuchTimeFromNow when n = Some (sec, nsec) ->
  (n + sec * 1000000 + nsec / 1000 = Z.max when (n + 100))%Z.
Proof.
  unfold howMuchTimeFromNow, Timestamp.kMicroSecondsPerSecond. destruct (in_int64 _); [|done]. intros [= <- <-].
  destruct (Z.ltb_spec (when - n) 100) as [Hlt|Hge].
  - rewrite Z.max_r by lia. rewrite Z.div_mul by lia. change (100 `quot` (1000 * 1000))%Z with 0%Z.
    change (100 `rem` (1000 * 1000))%Z with 100%Z. lia.
  - rewrite Z.max_l by lia. rewrite Z.div_mul by lia. rewrite Z.quot_div_nonneg, Z.rem_mod_nonneg by lia.
    pose proof (Z.div_mod (when - n) (1000 * 1000)). lia.
Qed.

(** Arming the timerfd for the first timer. *)
Lemma wp_resetTimerfd b es when s :
  inv es s ->
  (forall w a rest, timers_ s = (w, a) :: rest -> w = when \/ (b = true /\ (0 < w)%Z)) ->
  wp (resetTimerfd when) (fun _ s' => good b es s s' /\ timers_ s' = timers_ s /\ heap s' = heap s /\ cancelingTimers_ s' = cancelingTimers_ s) s.
Proof.
  intros Hi Hf. unfold resetTimerfd. apply wp_bind. unfold wp at 1. rewrite now_eq.
  apply wp_bind, wp_lift; [done|]. intros [sec nsec] Hh. pose proof (howMuch_spec _ _ _ _ Hh) as Hd.
  pose proof (after_now_clock s) as Hc.
  assert (timers_ (after_now s) = timers_ s /\ heap (after_now s) = heap s /\ cancelingTimers_ (after_now s) = cancelingTimers_ s)
    as (Ht & Hh' & Hcan) by (unfold after_now; by destruct (ticks s)).
  cbn. split_and!; [|by rewrite ?Ht..]. split_and!.
  - apply (inv_same es s); try done; unfold after_now; by destruct (ticks s).
  - intros w a rest E Hw. cbn in *. rewrite Ht in E. eexists. split; [done|].
    destruct (Hf w a rest E) as [->|[Hb Hpos]]; [lia|]. specialize (Hw Hb). lia.
  - apply ext_same; try done; unfold after_now; by destruct (ticks s).
Qed.

(** ** Insertion *)

Definition inserted (a : addr) (tm : Timer.t) (s : t) : t :=
  set_active ({[(a, Timer.sequece_ tm)]} ∪ activeTimers_ s)
    (set_timers (set_insert (Timer.expiration_ tm, a) (timers_ s)) s).

Lemma timers_not_held es a s : inv es s -> a ∈ (timers_ s).*2 -> a ∉ es.
Proof.
  intros Hi Hin Hes. pose proof (i_nodup _ _ Hi) as Hn. unfold owned in Hn. apply NoDup_app in Hn as (_ & Hd & _).
  apply (Hd a Hin). set_solver.
Qed.

Lemma not_in_timers es a s : inv (a :: es) s -> a ∉ (timers_ s).*2.
Proof.
  intros Hi Hin. apply (timers_not_held _ _ _ Hi Hin). by left.
Qed.

Lemma inserted_perm es a tm s :
  inv (a :: es) s -> timers_ (inserted a tm s) ≡ₚ (Timer.expiration_ tm, a) :: timers_ s.
Proof.
  intros Hi. apply set_insert_perm. intros Hin. apply (not_in_timers es a s Hi).
  by apply (list_elem_of_fmap_2' snd _ (Timer.expiration_ tm, a)).
Qed.

Lemma owned_inserted es a tm s : inv (a :: es) s -> owned es (inserted a tm s) ≡ₚ owned (a :: es) s.
Proof.
  intros Hi. unfold owned. rewrite (inserted_perm es a tm s Hi). cbn.
  by rewrite (app_assoc (timers_ s).*2 _ (a :: es)), <- Permutation_middle, <- app_assoc.
Qed.

Lemma inv_inserted es a tm s : inv (a :: es) s -> heap s !! a = Some tm -> inv es (inserted a tm s).
Proof.
  intros Hi Ha. pose proof (owned_inserted es a tm s Hi) as Ho. pose proof (inserted_perm es a tm s Hi) as Hp.
  pose proof (not_in_timers es a s Hi) as Hn. destruct Hi as [H1 H2 H3 H4 H5 H6 H7 H8 H9 H10]. split; cbn [inserted set_active set_timers heap s_numCreated_ now_]; try done.
  - by apply set_insert_sorted.
  - by rewrite Ho.
  - intros b. rewrite Ho. apply H3.
  - intros w b. rewrite Hp, elem_of_cons. intros [[= -> ->]|Hin]; [by exists tm|by apply H5].
  - intros b q. cbn. change (set_insert _ _) with (timers_ (inserted a tm s)). rewrite Hp. cbn.
    rewrite elem_of_union, elem_of_singleton, elem_of_cons, H6. split.
    + intros [[= -> ->]|[Hin (tb & Hb & <-)]]; [split; [by left|by exists tm]|split; [by right|by exists tb]].
    + intros [[->|Hin] (tb & Hb & <-)]; [left; congruence|right; eauto].
Qed.

Lemma insert_eq a tm s :
  heap s !! a = Some tm ->
  insert a s = inr (match timers_ s with [] => true | (first, _) :: _ => (Timer.expiration_ tm <? first)%Z end, inserted a tm s).
Proof. intros Ha. unfold insert, mbind, M_bind, deref. by rewrite Ha. Qed.

Lemma ext_inserted es a tm s : ext es s (inserted a tm s).
Proof. by apply ext_same. Qed.

Lemma wp_addTimerInLoop b es a s :
  inv (a :: es) s -> arm b s -> is_Some (heap s !! a) ->
  wp (addTimerInLoop a) (fun _ s' => good b es s s' /\ heap s' = heap s) s.
Proof.
  intros Hi Harm [tm Ha]. unfold addTimerInLoop. apply wp_bind. unfold wp at 1. rewrite (insert_eq a tm s Ha).
  pose proof (inv_inserted es a tm s Hi Ha) as Hi'. set (s1 := inserted a tm s) in *.
  assert (forall w c rest, timers_ s1 = (w, c) :: rest ->
    (w = Timer.expiration_ tm /\ match timers_ s with [] => True | z :: _ => (w <= z.1)%Z end) \/
    (exists l', timers_ s = (w, c) :: l' /\ (w <= Timer.expiration_ tm)%Z)) as Hfirst.
  { intros w c rest E. apply set_insert_first in E as [[[= -> ->] Hz]|Hz]; [by left|by right]. }
  destruct (match timers_ s with [] => true | (first, _) :: _ => (Timer.expiration_ tm <? first)%Z end) eqn:Eb.
  - apply wp_bind. apply (wp_deref a tm); [done|]. eapply wp_mono; [apply (wp_resetTimerfd b es); [done|]|].
    + intros w c rest E. left. destruct (Hfirst w c rest E) as [[-> _]|(l' & El & Hle)]; [done|].
      rewrite El in Eb. apply Z.ltb_lt in Eb. lia.
    + intros [] s' (Hg & _ & Hh & _). split; [|done]. eapply good_trans; [apply (ext_inserted es a tm s)|done].
  - cbn. split; [|done]. split_and!; [done| |apply ext_inserted].
    intros w c rest E Hw. cbn. destruct (timers_ s) as [|[w0 c0] l0] eqn:Et; [done|]. apply Z.ltb_ge in Eb.
    assert (w = w0) as ->.
    { destruct (Hfirst w c rest E) as [[-> Hz]|(l' & [= -> -> ->] & _)]; [cbn in Hz; lia|done]. }
    by apply (Harm w0 c0 l0).
Qed.

(** ** Cancelling *)

Lemma active_timer es a q s :
  inv es s -> (a, q) ∈ activeTimers_ s ->
  exists tm, heap s !! a = Some tm /\ Timer.sequece_ tm = q /\ (Timer.expiration_ tm, a) ∈ timers_ s.
Proof.
  intros Hi [Hin (tm & Ha & Hq)]%(i_active _ _ Hi). exists tm. split_and!; [done..|].
  apply list_elem_of_fmap in Hin as ([w c] & -> & Hin). cbn in *.
  destruct (i_when _ _ Hi _ _ Hin) as (tm' & Ha' & <-). by assert (tm' = tm) as -> by congruence.
Qed.

Definition cancelled (a : addr) (tm : Timer.t) (s : t) : t :=
  set_active (activeTimers_ s ∖ {[(a, Timer.sequece_ tm)]})
    (emit (Freed (Timer.sequece_ tm))
      (set_heap (delete a (heap s)) (set_timers (set_erase (Timer.expiration_ tm, a) (timers_ s)) s))).

Lemma cancelInLoop_active es id tm s :
  inv es s -> (TimerId.timer_ id, TimerId.sequence_ id) ∈ activeTimers_ s ->
  heap s !! TimerId.timer_ id = Some tm -> Timer.sequece_ tm = TimerId.sequence_ id ->
  cancelInLoop id s = inr (tt, cancelled (TimerId.timer_ id) tm s).
Proof.
  intros Hi Hin Ha Hq. unfold cancelInLoop, mbind, M_bind, gets, deref, delete_timer, modify, cancelled. cbn.
  rewrite bool_decide_eq_true_2 by done. cbn. rewrite Ha. cbn. rewrite Ha. by rewrite Hq.
Qed.

Lemma inv_cancelled es a tm s :
  inv es s -> heap s !! a = Some tm -> (Timer.expiration_ tm, a) ∈ timers_ s -> inv es (cancelled a tm s).
Proof.
  intros Hi Ha Hin. pose proof (set_erase_perm _ _ (sorted_nodup _ (i_sorted _ _ Hi)) Hin) as Hp.
  destruct Hi as [H1 H2 H3 H4 H5 H6 H7 H8 H9 H10]. unfold cancelled. set (ts := set_erase _ _) in *.
  assert (owned es s ≡ₚ a :: ts.*2 ++ to_add (queue s) ++ es) as Ho by (unfold owned; rewrite Hp; done).
  pose proof H2 as Hnd. rewrite Ho in Hnd. apply NoDup_cons in Hnd as [Hna Hnd].
  assert (forall c, c ∈ (timers_ s).*2 <-> c = a \/ c ∈ ts.*2) as Hts
    by (intros c; rewrite Hp; cbn; apply elem_of_cons).
  split; cbn; try done.
  - by apply sorted_filter.
  - intros c. unfold owned. cbn. rewrite lookup_delete_is_Some, H3, Ho, elem_of_cons. split; [naive_solver|].
    intros Hc. split; [|by right]. intros ->. done.
  - intros c [_ Hc]%lookup_delete_is_Some. by apply H4.
  - intros w c Hc. assert (c <> a) as Hne by (intros ->; apply Hna, elem_of_app; left; by apply (list_elem_of_fmap_2' snd _ (w, a))).
    rewrite lookup_delete_ne by done. apply H5. rewrite Hp. by right.
  - intros c q. rewrite elem_of_difference, elem_of_singleton, H6, Hts. split.
    + intros [[[->|Hc] (tc & Hc2 & <-)] Hne]; [congruence|]. split; [done|].
      exists tc. rewrite lookup_delete_ne; [done|]. intros ->. apply Hna, elem_of_app. by left.
    + intros [Hc (tc & Hc2%lookup_delete_Some & <-)]. destruct Hc2 as [Hne Hc2].
      split; [split; [by right|by exists tc]|]. congruence.
  - intros c tc [_ Hc]%lookup_delete_Some. by apply (H7 c).
  - intros c d tc td [_ Hc]%lookup_delete_Some [_ Hd]%lookup_delete_Some. by apply H8.
  - intros c tc [_ Hc]%lookup_delete_Some. by apply (H9 c).
Qed.

Lemma wp_cancelInLoop b es id s : inv es s -> arm b s -> wp (cancelInLoop id) (fun _ s' => good b es s s') s.
Proof.
  intros Hi Harm. destruct (decide ((TimerId.timer_ id, TimerId.sequence_ id) ∈ activeTimers_ s)) as [Hin|Hin].
  - destruct (active_timer _ _ _ _ Hi Hin) as (tm & Ha & Hq & Ht).
    unfold wp. rewrite (cancelInLoop_active es id tm s Hi Hin Ha Hq). set (a := TimerId.timer_ id) in *.
    pose proof (set_erase_perm _ _ (sorted_nodup _ (i_sorted _ _ Hi)) Ht) as Hp.
    split_and!; [by apply inv_cancelled| |].
    + intros w c rest E Hw. cbn in E. destruct (timers_ s) as [|[w0 c0] l0] eqn:Et; [by apply elem_of_nil in Ht|].
      assert (w0 <= w)%Z as Hle.
      { rewrite E in Hp. assert ((w, c) ∈ (Timer.expiration_ tm, a) :: (w, c) :: rest) as Hc by set_solver.
        rewrite <- Hp in Hc. apply elem_of_cons in Hc as [[= -> ->]|Hc]; [done|].
        pose proof (i_sorted _ _ Hi) as Hs. rewrite Et in Hs. exact (sorted_head_le w0 c0 l0 w c Hs Hc). }
      destruct (Harm w0 c0 l0 Et) as (d & Hd & Hdle); [intros Hb; specialize (Hw Hb); lia|].
      exists d. split; [done|]. cbn. lia.
    + split; cbn; try done.
      * intros c Hc. apply lookup_delete_ne. intros <-. apply (timers_not_held es a s Hi); [|done].
        by apply (list_elem_of_fmap_2' snd _ (Timer.expiration_ tm, a)).
      * by rewrite runs_app, app_nil_r.
      * intros q [Hq' Hdead]. split; [done|]. cbn. intros c tc [_ Hc]%lookup_delete_Some. by apply (Hdead c).
  - unfold wp, cancelInLoop, mbind, M_bind, gets. cbn. rewrite bool_decide_eq_false_2 by done.
    destruct (callingExpiredTimers_ s); cbn; (split_and!; [by apply (inv_same es s)|exact Harm|by apply ext_same]).
Qed.

(** ** Expired timers *)

(** Who holds the timers does not matter. *)
Lemma inv_shuffle es es' s s' :
  inv es s -> owned es' s' ≡ₚ owned es s -> timers_ s' = timers_ s -> heap s' = heap s ->
  activeTimers_ s' = activeTimers_ s -> s_numCreated_ s' = s_numCreated_ s -> (now_ s <= now_ s')%Z -> inv es' s'.
Proof.
  intros [H1 H2 H3 H4 H5 H6 H7 H8 H9 H10] O T H A C N. split; rewrite ?T, ?H, ?A, ?C; try done.
  - by rewrite O.
  - intros a. by rewrite O.
  - lia.
Qed.

Definition seq_of (s : t) (a : addr) : Z :=
  match heap s !! a with Some tm => Timer.sequece_ tm | None => 0%Z end.

(** The timers that are due at [n], and the others. *)
Definition due (n : Z) (s : t) : list Entry := (set_split (n, UINTPTR_MAX) (timers_ s)).1.
Definition undue (n : Z) (s : t) : list Entry := (set_split (n, UINTPTR_MAX) (timers_ s)).2.

Lemma due_spec n s :
  inv [] s ->
  timers_ s = due n s ++ undue n s /\ sorted (undue n s) /\
  (forall w a, (w, a) ∈ due n s -> (w <= n)%Z) /\ (forall w a, (w, a) ∈ undue n s -> (n < w)%Z).
Proof.
  intros Hi. unfold due, undue. destruct (set_split (n, UINTPTR_MAX) (timers_ s)) as [ex rest] eqn:E.
  destruct (set_split_spec _ _ _ _ (i_sorted _ _ Hi) E) as (Ht & Hs & Hex & Hrest). split_and!; [done|done|..].
  - intros w a Hin. rewrite Forall_forall in Hex. specialize (Hex _ Hin). rewrite entry_lt_spec in Hex. cbn in Hex. lia.
  - intros w a Hin. rewrite Forall_forall in Hrest. specialize (Hrest _ Hin). cbn beta in Hrest.
    rewrite entry_lt_spec in Hrest. cbn in Hrest.
    assert (is_Some (heap s !! a)) as Ha.
    { destruct (i_when _ _ Hi w a) as (tm & -> & _); [rewrite Ht; set_solver|done]. }
    pose proof (i_addr _ _ Hi a Ha). lia.
Qed.

Lemma erase_active_eq expired s :
  (forall w a, (w, a) ∈ expired -> is_Some (heap s !! a)) ->
  exists act, erase_active expired s = inr (tt, set_active act s) /\
    forall a q, (a, q) ∈ act <->
      (a, q) ∈ activeTimers_ s /\ ~ (exists tm, a ∈ expired.*2 /\ heap s !! a = Some tm /\ Timer.sequece_ tm = q).
Proof.
  revert s. induction expired as [|[w a] expired IH]; intros s Hh; cbn [erase_active].
  - exists (activeTimers_ s). split; [by destruct s|]. intros a q. split; [|by intros []].
    intros Hin. split; [done|]. intros (tm & []%elem_of_nil & _).
  - destruct (Hh w a) as [tm Htm]; [by left|]. unfold mbind, M_bind, deref. rewrite Htm. cbn.
    destruct (IH (set_active (activeTimers_ s ∖ {[(a, Timer.sequece_ tm)]}) s)) as (act & Hrun & Hact).
    { intros w' a' Hin. apply (Hh w'). by right. }
    exists act. split; [exact Hrun|]. intros b q. rewrite Hact. cbn. rewrite elem_of_difference, elem_of_singleton.
    split.
    + intros [[Hin Hne] Hno]. split; [done|]. intros (tb & [->|Hb]%elem_of_cons & Htb & <-); [congruence|].
      apply Hno. by exists tb.
    + intros [Hin Hno]. split; [split; [done|]|].
      * intros [= -> ->]. apply Hno. exists tm. split_and!; [by left|done|done].
      * intros (tb & Hb & Htb & Hq). apply Hno. exists tb. split_and!; [by right|done|done].
Qed.

Lemma wp_getExpired n s :
  inv [] s ->
  wp (getExpired n) (fun r s' => r = due n s /\ inv (due n s).*2 s' /\ timers_ s' = undue n s /\ heap s' = heap s /\
    armed s' = armed s /\ now_ s' = now_ s /\ log s' = log s /\ queue s' = queue s /\
    s_numCreated_ s' = s_numCreated_ s) s.
Proof.
  intros Hi. destruct (due_spec n s Hi) as (Ht & Hsort & _ & _). unfold getExpired.
  apply wp_bind. unfold wp at 1. cbn. unfold due, undue in *.
  destruct (set_split (n, UINTPTR_MAX) (timers_ s)) as [ex rest] eqn:E. cbn [fst snd] in *.
  assert (forall w a, (w, a) ∈ ex -> is_Some (heap (set_timers rest s) !! a)) as Hh.
  { intros w a Hin. destruct (i_when _ _ Hi w a) as (tm & Htm & _); [rewrite Ht; set_solver|by exists tm]. }
  destruct (erase_active_eq ex (set_timers rest s) Hh) as (act & Hrun & Hact).
  unfold wp, mbind, M_bind, modify. rewrite Hrun. cbn. split_and!; try done.
  assert (owned ex.*2 (set_active act (set_timers rest s)) ≡ₚ owned [] s) as Ho.
  { unfold owned. cbn. rewrite Ht, fmap_app, app_nil_r. rewrite (Permutation_app_comm (to_add _)), app_assoc.
    by rewrite (Permutation_app_comm rest.*2 ex.*2). }
  destruct Hi as [H1 H2 H3 H4 H5 H6 H7 H8 H9 H10]. rewrite Ht in *.
  pose proof H2 as Hnd. unfold owned in Hnd. rewrite Ht, fmap_app, <- app_assoc in Hnd. apply NoDup_app in Hnd as (_ & Hdis & _).
  split; cbn; try done.
  - by rewrite Ho.
  - intros a. by rewrite Ho.
  - intros w a Hin. apply H5. set_solver.
  - intros a q. rewrite Hact. cbn. rewrite H6, fmap_app, elem_of_app. split.
    + intros [[[Ha|Ha] (tm & Htm & Hq)] Hno]; [|by split; [|exists tm]]. destruct Hno. by exists tm.
    + intros [Ha (tm & Htm & Hq)]. split; [split; [by right|by exists tm]|]. intros (tm2 & Hex & _).
      apply (Hdis a Hex). set_solver.
Qed.

(** A held timer gets a new expiration. *)
Lemma inv_update es a tm tm' s :
  inv (a :: es) s -> heap s !! a = Some tm -> Timer.sequece_ tm' = Timer.sequece_ tm ->
  Timer.repeat_ tm' = Timer.repeat_ tm -> Timer.interval_ tm' = Timer.interval_ tm ->
  inv (a :: es) (set_heap (<[a := tm']> (heap s)) s).
Proof.
  intros Hi Ha Hq Hr Hv. pose proof (not_in_timers es a s Hi) as Hn.
  assert (forall b tb, <[a := tm']> (heap s) !! b = Some tb -> exists tb0, heap s !! b = Some tb0 /\
    Timer.sequece_ tb = Timer.sequece_ tb0 /\ Timer.repeat_ tb = Timer.repeat_ tb0 /\ Timer.interval_ tb = Timer.interval_ tb0) as Hold.
  { intros b tb [[<- <-]|[_ Hb]]%lookup_insert_Some; [by exists tm|by exists tb]. }
  destruct Hi as [H1 H2 H3 H4 H5 H6 H7 H8 H9 H10]. split; cbn; try done.
  - intros b. change (owned (a :: es) _) with (owned (a :: es) s). rewrite <- H3.
    destruct (decide (b = a)) as [->|Hne]; [rewrite lookup_insert_eq, Ha; split; by eexists|by rewrite lookup_insert_ne].
  - intros b [tb (tb0 & Hb & _)%Hold]. apply H4. by exists tb0.
  - intros w b Hin. rewrite lookup_insert_ne; [by apply H5|]. intros ->. apply Hn. by apply (list_elem_of_fmap_2' snd _ (w, b)).
  - intros b q. rewrite H6. split; intros [Hb (tb & Htb & Hbq)]; (split; [done|]); exists tb; (split; [|done]);
      rewrite lookup_insert_ne in *; try done; by intros ->.
  - intros b tb (tb0 & Hb & -> & _)%Hold. by apply (H7 b).
  - intros b c tb tc (tb0 & Hb & -> & _)%Hold (tc0 & Hc & -> & _)%Hold. by apply H8.
  - intros b tb (tb0 & Hb & _ & -> & ->)%Hold. by apply (H9 b).
Qed.

(** A held timer is deleted. *)
Lemma inv_delete es a s : inv (a :: es) s -> inv es (set_heap (delete a (heap s)) s).
Proof.
  intros Hi. pose proof (not_in_timers es a s Hi) as Hn.
  assert (owned (a :: es) s ≡ₚ a :: owned es s) as Ho.
  { unfold owned. by rewrite (app_assoc (timers_ s).*2 _ (a :: es)), <- Permutation_middle, <- app_assoc. }
  destruct Hi as [H1 H2 H3 H4 H5 H6 H7 H8 H9 H10]. rewrite Ho in H2. apply NoDup_cons in H2 as [Hna Hnd].
  split; cbn; try done.
  - intros b. change (owned es _) with (owned es s). rewrite lookup_delete_is_Some, H3, Ho, elem_of_cons.
    split; [naive_solver|]. intros Hb. split; [by intros ->|by right].
  - intros b [_ Hb]%lookup_delete_is_Some. by apply H4.
  - intros w b Hin. rewrite lookup_delete_ne; [by apply H5|]. intros ->. apply Hn. by apply (list_elem_of_fmap_2' snd _ (w, b)).
  - intros b q. rewrite H6. split; intros [Hb (tb & Htb & Hbq)]; (split; [done|]); exists tb; (split; [|done]).
    + rewrite lookup_delete_ne; [done|by intros ->].
    + by apply lookup_delete_Some in Htb as [_ ?].
  - intros b tb [_ Hb]%lookup_delete_Some. by apply (H7 b).
  - intros b c tb tc [_ Hb]%lookup_delete_Some [_ Hc]%lookup_delete_Some. by apply H8.
  - intros b tb [_ Hb]%lookup_delete_Some. by apply (H9 b).
Qed.

(** The destructor deletes each timer of the set once. *)
Lemma delete_entries_eq entries s :
  NoDup entries.*2 -> (forall a, a ∈ entries.*2 -> is_Some (heap s !! a)) ->
  exists s', delete_entries entries s = inr (tt, s') /\
    forall a, is_Some (heap s' !! a) <-> is_Some (heap s !! a) /\ a ∉ entries.*2.
Proof.
  revert s. induction entries as [|[w a] entries IH]; intros s Hnd Hl; cbn.
  { exists s. split; [done|]. intros a. split; [|naive_solver]. intros Ha. split; [done|apply not_elem_of_nil]. }
  apply NoDup_cons in Hnd as [Hna Hnd]. destruct (Hl a) as [tm Htm]; [by apply list_elem_of_here|].
  set (s1 := emit (Freed (Timer.sequece_ tm)) (set_heap (delete a (heap s)) s)).
  unfold mbind, M_bind. assert (delete_timer a s = inr (tt, s1)) as -> by (unfold delete_timer; by rewrite Htm).
  destruct (IH s1 Hnd) as (s' & Hs' & Hheap).
  { intros b Hb. cbn. rewrite lookup_delete_ne by (by intros ->). apply Hl. by apply list_elem_of_further. }
  exists s'. split; [done|]. intros b. rewrite Hheap. cbn. rewrite lookup_delete_is_Some, not_elem_of_cons. naive_solver.
Qed.

Lemma destroy_frees s :
  inv [] s -> exists s', destroy s = inr (tt, s') /\ forall a, is_Some (heap s' !! a) <-> a ∈ to_add (queue s).
Proof.
  intros Hi. pose proof (i_nodup _ _ Hi) as Hnd. pose proof (i_dom _ _ Hi) as Hdom. unfold owned in Hnd, Hdom.
  rewrite app_nil_r in Hnd. apply NoDup_app in Hnd as (Hn1 & Hdis & _).
  destruct (delete_entries_eq (timers_ s) (set_armed None s) Hn1) as (s' & Hs' & Hheap).
  { intros a Ha. apply Hdom. rewrite elem_of_app. by left. }
  exists s'. split; [exact Hs'|]. intros a. rewrite Hheap. cbn. rewrite Hdom, app_nil_r, elem_of_app. naive_solver.
Qed.

Section allocator.
Context (malloc : gset addr -> option addr) (code : nat -> list TimerId.t -> prog).
(** What operator new promises. *)
Hypothesis malloc_fresh : forall used a, malloc used = Some a -> (a ∉ used) /\ (a < UINTPTR_MAX)%Z.

(** ** New timers *)

Definition allocated (a : addr) (tm : Timer.t) (s : t) : t :=
  set_heap (<[a := tm]> (heap s)) (set_created (s_numCreated_ s + 1) s).

Lemma inv_allocated es a cb when interval s :
  inv es s -> a ∉ dom (heap s) -> (a < UINTPTR_MAX)%Z ->
  inv (a :: es) (allocated a (Timer.make cb when interval (s_numCreated_ s + 1)) s).
Proof.
  intros Hi Hfresh Hmax. apply not_elem_of_dom in Hfresh. pose proof Hi as [H1 H2 H3 H4 H5 H6 H7 H8 H9 H10].
  assert (a ∉ owned es s) as Hna by (rewrite <- H3, Hfresh; by intros []).
  assert (owned (a :: es) s ≡ₚ a :: owned es s) as Ho.
  { unfold owned. by rewrite (app_assoc (timers_ s).*2 _ (a :: es)), <- Permutation_middle, <- app_assoc. }
  assert (forall b, b ∈ (timers_ s).*2 -> b <> a) as Hts by (intros b Hb ->; apply Hna; unfold owned; set_solver).
  unfold allocated. split; cbn; try done.
  - unfold owned in *. cbn. rewrite Ho. by constructor.
  - intros b. change (owned (a :: es) _) with (owned (a :: es) s). rewrite Ho, elem_of_cons, <- H3.
    destruct (decide (b = a)) as [->|Hne]; [rewrite lookup_insert_eq; naive_solver|].
    rewrite lookup_insert_ne by done. naive_solver.
  - intros b. destruct (decide (b = a)) as [->|Hne]; [done|]. rewrite lookup_insert_ne by done. apply H4.
  - intros w b Hb. rewrite lookup_insert_ne; [by apply H5|].
    intros ->. apply (Hts b); [|done]. by apply (list_elem_of_fmap_2' snd _ (w, b)).
  - intros b q. rewrite H6. split; intros [Hb (tm & Htm & Hq)]; (split; [done|]); exists tm; (split; [|done]);
      rewrite lookup_insert_ne in *; try done; intros <-; by apply (Hts a).
  - intros b tm [[<- <-]|[_ Hb]]%lookup_insert_Some; [cbn; lia|]. specialize (H7 b tm Hb). lia.
  - intros b c tb tc [[<- <-]|[_ Hb]]%lookup_insert_Some [[<- <-]|[_ Hc]]%lookup_insert_Some; cbn; [done|..|by apply H8].
    + intros E. specialize (H7 c tc Hc). lia.
    + intros E. specialize (H7 b tb Hb). lia.
  - intros b tm [[<- <-]|[_ Hb]]%lookup_insert_Some; [done|by apply (H9 b)].
Qed.

Lemma wp_new_timer b es cb when interval s :
  inv es s -> arm b s ->
  wp (new_timer malloc cb when interval) (fun a s' =>
    inv (a :: es) s' /\ arm b s' /\ ext es s s' /\ is_Some (heap s' !! a) /\ queue s' = queue s) s.
Proof.
  intros Hi Harm. unfold new_timer. apply wp_bind. unfold wp at 1. cbn. apply wp_bind, wp_lift; [done|].
  intros a Ha. destruct (malloc_fresh _ _ Ha) as [Hf Hmax].
  unfold wp, mbind, M_bind, gets, modify. cbn. fold (allocated a (Timer.make cb when interval (s_numCreated_ s + 1)) s).
  split_and!; [by apply inv_allocated|exact Harm| |by rewrite lookup_insert_eq|done].
  apply not_elem_of_dom in Hf. split; cbn; try done.
  - intros c Hc. apply lookup_insert_ne. intros <-.
    assert (is_Some (heap s !! a)) as [? ?] by (apply (i_dom _ _ Hi); unfold owned; set_solver). congruence.
  - intros q [Hq Hd]. split; [cbn; lia|]. cbn. intros c tc [[<- <-]|[_ Hc]]%lookup_insert_Some; [cbn; lia|by apply (Hd c)].
Qed.

Lemma wp_addTimer b es cb when interval s :
  inv es s -> arm b s -> wp (addTimer malloc cb when interval) (fun _ s' => good b es s s') s.
Proof.
  intros Hi Harm. unfold addTimer. apply wp_bind. eapply wp_mono; [by apply (wp_new_timer b es)|].
  intros a s1 (Hi1 & Ha1 & He1 & Hs1 & _). apply wp_bind.
  eapply wp_mono; [by apply (wp_addTimerInLoop b es)|]. intros [] s2 [(Hi2 & Ha2 & He2) Hh].
  apply wp_bind. destruct Hs1 as [tm Htm]. apply (wp_deref a tm); [by rewrite Hh|].
  unfold wp, mbind, M_bind, modify. cbn. split_and!; [by apply (inv_same es s2)|exact Ha2|].
  trans s1; [done|]. trans s2; [done|by apply ext_same].
Qed.

Lemma wp_runAfter b es delay cb s :
  inv es s -> arm b s -> wp (runAfter malloc delay cb) (fun _ s' => good b es s s') s.
Proof.
  intros Hi Harm. unfold runAfter. apply wp_bind. unfold wp at 1. rewrite now_eq.
  destruct (good_now b es s Hi Harm) as (Hi1 & Ha1 & He1). apply wp_bind, wp_lift; [done|]. intros time _.
  eapply wp_mono; [by apply (wp_addTimer b es)|]. intros id s2 Hg. by eapply good_trans.
Qed.

Lemma wp_runEvery b es interval cb s :
  inv es s -> arm b s -> wp (runEvery malloc interval cb) (fun _ s' => good b es s s') s.
Proof.
  intros Hi Harm. unfold runEvery. apply wp_bind. unfold wp at 1. rewrite now_eq.
  destruct (good_now b es s Hi Harm) as (Hi1 & Ha1 & He1). apply wp_bind, wp_lift; [done|]. intros time _.
  eapply wp_mono; [by apply (wp_addTimer b es)|]. intros id s2 Hg. by eapply good_trans.
Qed.

(** User code, whatever it does with the loop's timers. *)
Lemma wp_exec b es p s : inv es s -> arm b s -> wp (exec malloc p) (fun _ s' => good b es s s') s.
Proof.
  revert s. induction p as [|time cb k IH|delay cb k IH|interval cb k IH|id k IH]; intros s Hi Harm; cbn [exec].
  - split_and!; [done|done|reflexivity].
  - apply wp_bind. eapply wp_mono; [by apply (wp_addTimer b es)|]. intros id s1 (Hi1 & Ha1 & He1).
    eapply wp_mono; [by apply IH|]. intros [] s2 Hg. by eapply good_trans.
  - apply wp_bind. eapply wp_mono; [by apply (wp_runAfter b es)|]. intros id s1 (Hi1 & Ha1 & He1).
    eapply wp_mono; [by apply IH|]. intros [] s2 Hg. by eapply good_trans.
  - apply wp_bind. eapply wp_mono; [by apply (wp_runEvery b es)|]. intros id s1 (Hi1 & Ha1 & He1).
    eapply wp_mono; [by apply IH|]. intros [] s2 Hg. by eapply good_trans.
  - apply wp_bind. eapply wp_mono; [by apply (wp_cancelInLoop b es)|]. intros [] s1 (Hi1 & Ha1 & He1).
    eapply wp_mono; [by apply IH|]. intros [] s2 Hg. by eapply good_trans.
Qed.

(** ** Running the expired timers *)

(** What one run of a callback does. *)
Definition ran_ext (es : list addr) (l : list (Z * Z)) (s s' : t) : Prop :=
  (now_ s <= now_ s')%Z /\ (forall a, a ∈ es -> heap s' !! a = heap s !! a) /\
  runs (log s') = runs (log s) ++ l /\ callingExpiredTimers_ s' = callingExpiredTimers_ s /\
  (forall q, dead q s -> dead q s').

Lemma wp_run_timer n a es s :
  inv es s -> arm true s -> a ∈ es ->
  wp (run_timer malloc code n a) (fun _ s' => inv es s' /\ arm true s' /\ ran_ext es [(seq_of s a, n)] s s') s.
Proof.
  intros Hi Harm Ha. assert (is_Some (heap s !! a)) as [tm Htm] by (apply (i_dom _ _ Hi); unfold owned; set_solver).
  unfold run_timer. apply wp_bind, (wp_deref a tm); [done|]. apply wp_bind. unfold wp at 1, modify. cbn [fst snd].
  set (s1 := emit (Ran (Timer.sequece_ tm) n) s).
  assert (inv es s1) as Hi1 by (by apply (inv_same es s)).
  apply wp_bind. unfold wp at 1, gets. eapply wp_mono; [by apply (wp_exec true es)|].
  intros [] s2 (Hi2 & Ha2 & [E1 E2 E3 E4 E5]). split_and!; [done|done|].
  split_and!; [done|done| |done|done]. rewrite E3. cbn. rewrite runs_app. unfold seq_of. by rewrite Htm.
Qed.

Lemma wp_run_timers n ex es s :
  inv es s -> arm true s -> (forall w a, (w, a) ∈ ex -> a ∈ es) ->
  wp (run_timers malloc code n ex) (fun _ s' =>
    inv es s' /\ arm true s' /\ ran_ext es ((fun e => (seq_of s e.2, n)) <$> ex) s s') s.
Proof.
  revert s. induction ex as [|[w a] ex IH]; intros s Hi Harm Hin; cbn [run_timers].
  - split_and!; [done|done|]. split_and!; try done. by rewrite app_nil_r.
  - apply wp_bind. eapply wp_mono; [apply (wp_run_timer n a es s Hi Harm), (Hin w); by left|].
    intros [] s1 (Hi1 & Ha1 & T1 & H1 & R1 & C1 & D1).
    eapply wp_mono; [apply (IH s1 Hi1 Ha1); intros w' a' H'; apply (Hin w'); by right|].
    intros [] s2 (Hi2 & Ha2 & T2 & H2 & R2 & C2 & D2). split_and!; [done|done|]. split_and!.
    + lia.
    + intros c Hc. rewrite H2 by done. by apply H1.
    + rewrite R2, R1, <- app_assoc. cbn. do 2 f_equal. apply list_fmap_ext. intros j [w' a'] Hj. cbn.
      unfold seq_of. rewrite H1; [done|]. apply (Hin w'). right. by eapply list_elem_of_lookup_2.
    + congruence.
    + auto.
Qed.

(** ** Putting them back *)

(** What becomes of an expired timer. *)
Definition outcome (n : Z) (canceling : gset ActiveTimer) (a : addr) (tm : Timer.t) (after : option Timer.t) : Prop :=
  if Timer.repeat_ tm && negb (bool_decide ((a, Timer.sequece_ tm) ∈ canceling)) then
    exists e, Timestamp.addTime n (Timer.interval_ tm) = Some e /\
      after = Some (Timer.mk (Timer.callback_ tm) e (Timer.interval_ tm) (Timer.repeat_ tm) (Timer.sequece_ tm))
  else after = None.

Record reset_ext (n : Z) (ex : list Entry) (s s' : t) : Prop := {
  r_clock : now_ s' = now_ s;
  r_armed : armed s' = armed s;
  r_runs : runs (log s') = runs (log s);
  r_calling : callingExpiredTimers_ s' = callingExpiredTimers_ s;
  r_canceling : cancelingTimers_ s' = cancelingTimers_ s;
  r_dead q : dead q s -> dead q s';
  r_other a : a ∉ ex.*2 -> heap s' !! a = heap s !! a;
  r_outcome a tm : a ∈ ex.*2 -> heap s !! a = Some tm -> outcome n (cancelingTimers_ s) a tm (heap s' !! a);
}.

Lemma arm_inserted a tm s :
  arm true s -> (0 < Timer.expiration_ tm)%Z -> arm true (inserted a tm s).
Proof.
  intros Harm Hpos w c rest E Hw. cbn in E |- *. apply set_insert_first in E as [[[= -> ->] _]|(l' & El & _)].
  - specialize (Hw eq_refl). lia.
  - by apply (Harm w c l').
Qed.

(** One expired timer. *)
Lemma wp_reset_one n w a es s (Q : unit -> t -> Prop) rest :
  inv (a :: es) s -> arm true s -> (0 < n)%Z -> NoDup (a :: es) ->
  (forall s1, inv es s1 -> arm true s1 -> reset_ext n [(w, a)] s s1 -> wp (reset_expired rest n) Q s1) ->
  wp (reset_expired ((w, a) :: rest) n) Q s.
Proof.
  intros Hi Harm Hn Hnd Hrest. cbn [reset_expired].
  assert (is_Some (heap s !! a)) as [tm Htm] by (apply (i_dom _ _ Hi); unfold owned; set_solver).
  apply wp_bind, (wp_deref a tm); [done|]. apply wp_bind. unfold wp at 1, gets. apply wp_bind.
  assert (forall c, c ∉ [(w, a)].*2 -> c <> a) as Hne by (cbn; set_solver).
  destruct (Timer.repeat_ tm && negb (bool_decide ((a, Timer.sequece_ tm) ∈ cancelingTimers_ s))) eqn:Eb.
  - apply wp_bind, wp_lift; [done|]. intros tm' Hr. unfold Timer.restart in Hr.
    pose proof Eb as [Hrep _]%andb_true_iff. rewrite Hrep in Hr.
    destruct (Timestamp.addTime n (Timer.interval_ tm)) as [e|] eqn:Et; [|done]. injection Hr as <-.
    set (tm' := Timer.mk _ _ _ _ _). apply wp_bind. unfold wp at 1, modify. apply wp_bind.
    set (s1 := set_heap _ s).
    assert (inv (a :: es) s1) as Hi1 by (by apply (inv_update es a tm tm')).
    assert (heap s1 !! a = Some tm') as Htm' by apply lookup_insert_eq.
    unfold wp at 1. rewrite (insert_eq a tm' s1 Htm'). unfold wp at 1. cbn [mret M_ret].
    apply Hrest.
    + by apply inv_inserted.
    + apply arm_inserted; [done|]. cbn. pose proof (addTime_positive n _ _ (i_repeat _ _ Hi a tm Htm Hrep) Et). lia.
    + split; cbn; try done.
      * intros q [Hq Hd]. split; [done|]. cbn.
        intros c tc [[<- <-]|[_ Hc]]%lookup_insert_Some; [exact (Hd a tm Htm)|by apply (Hd c)].
      * intros c Hc. apply lookup_insert_ne. intros ->. by apply (Hne c).
      * intros c tc ->%list_elem_of_singleton Hc. assert (tc = tm) as -> by congruence.
        unfold outcome. rewrite Eb. exists e. split; [done|]. rewrite Hrep. apply lookup_insert_eq.
  - unfold wp at 1, delete_timer. rewrite Htm. apply Hrest.
    + apply (inv_same es (set_heap (delete a (heap s)) s)); try done. by apply inv_delete.
    + exact Harm.
    + split; cbn; try done.
      * by rewrite runs_app, app_nil_r.
      * intros q [Hq Hd]. split; [done|]. cbn. intros c tc [_ Hc]%lookup_delete_Some. by apply (Hd c).
      * intros c Hc. apply lookup_delete_ne. intros ->. by apply (Hne c).
      * intros c tc ->%list_elem_of_singleton Hc. assert (tc = tm) as -> by congruence.
        unfold outcome. rewrite Eb. apply lookup_delete_eq.
Qed.

Lemma wp_reset_expired n ex s :
  inv ex.*2 s -> arm true s -> (0 < n)%Z -> NoDup ex.*2 ->
  wp (reset_expired ex n) (fun _ s' => inv [] s' /\ arm true s' /\ reset_ext n ex s s') s.
Proof.
  revert s. induction ex as [|[w a] ex IH]; intros s Hi Harm Hn Hnd.
  - cbn. split_and!; [done|done|]. split; try done. by intros a tm ?%elem_of_nil.
  - cbn in Hi, Hnd. apply (wp_reset_one n w a ex.*2); [done..|]. intros s1 Hi1 Ha1 [R1 R2 R3 R4 R5 R6 R7 R8].
    apply NoDup_cons in Hnd as [Hna Hnd].
    eapply wp_mono; [by apply IH|]. intros [] s2 (Hi2 & Ha2 & [Q1 Q2 Q3 Q4 Q5 Q6 Q7 Q8]).
    split_and!; [done|done|]. cbn in R7, R8. split; try congruence; auto.
    + intros c Hc. cbn in Hc. apply not_elem_of_cons in Hc as [Hc1 Hc2]. rewrite Q7 by done. apply R7. set_solver.
    + intros c tc Hc Htc. cbn in Hc. apply elem_of_cons in Hc as [->|Hc].
      * rewrite Q7 by done. apply R8; [set_solver|done].
      * rewrite <- R5. apply Q8; [done|]. rewrite R7; [done|]. intros ->%list_elem_of_singleton. done.
Qed.

Lemma wp_reset n ex s :
  inv ex.*2 s -> arm true s -> (0 < n)%Z -> NoDup ex.*2 ->
  wp (reset ex n) (fun _ s' => inv [] s' /\ arm false s' /\ (now_ s <= now_ s')%Z /\ runs (log s') = runs (log s) /\
    callingExpiredTimers_ s' = callingExpiredTimers_ s /\ (forall q, dead q s -> dead q s') /\
    forall a tm, a ∈ ex.*2 -> heap s !! a = Some tm -> outcome n (cancelingTimers_ s') a tm (heap s' !! a)) s.
Proof.
  intros Hi Harm Hn Hnd. unfold reset. apply wp_bind. eapply wp_mono; [by apply wp_reset_expired|].
  intros [] s1 (Hi1 & Ha1 & [R1 R2 R3 R4 R5 R6 R7 R8]). apply wp_bind. unfold wp at 1, gets.
  assert (forall w a rest, timers_ s1 = (w, a) :: rest -> exists tm, heap s1 !! a = Some tm /\ Timer.expiration_ tm = w) as Hfirst.
  { intros w a rest E. apply (i_when _ _ Hi1). rewrite E. by left. }
  rewrite <- R5 in R8.
  assert (arm false s1 -> inv [] s1 /\ arm false s1 /\ (now_ s <= now_ s1)%Z /\ runs (log s1) = runs (log s) /\
    callingExpiredTimers_ s1 = callingExpiredTimers_ s /\ (forall q, dead q s -> dead q s1) /\
    forall a tm, a ∈ ex.*2 -> heap s !! a = Some tm -> outcome n (cancelingTimers_ s1) a tm (heap s1 !! a)) as Hstay
    by (intros Hf; split_and!; try done; lia).
  apply wp_bind. destruct (timers_ s1) as [|[w a] rest] eqn:Et.
  - cbn. apply Hstay. intros w a rest E. congruence.
  - destruct (Hfirst w a rest eq_refl) as (tm & Htm & Hw). apply wp_bind, (wp_deref a tm); [done|]. cbn [wp mret M_ret].
    unfold wp at 1. rewrite Hw. unfold Timestamp.valid. destruct (Z.ltb_spec 0 w) as [Hpos|Hneg].
    + eapply wp_mono; [apply (wp_resetTimerfd false [] w s1 Hi1)|].
      * intros w' a' rest' E. left. congruence.
      * intros [] s2 ((Hi2 & Ha2 & [E1 E2 E3 E4 E5]) & Ht & Hh & Hc). split_and!; try done; [lia|congruence|congruence|auto|].
        intros b tb Hb Htb. rewrite Hc, Hh. by apply R8.
    + cbn. apply Hstay. intros w' a' rest' E _. rewrite Et in E. injection E as <- <- <-. by apply (Ha1 w a rest Et).
Qed.

Lemma wp_handleRead s :
  inv [] s -> arm false s ->
  wp (handleRead malloc code) (fun _ s' => inv [] s' /\ arm false s' /\ (now_ s <= now_ s')%Z /\
    callingExpiredTimers_ s' = false /\
    runs (log s') = runs (log s) ++ ((fun e => (seq_of s e.2, now_ s)) <$> due (now_ s) s) /\
    (forall q, dead q s -> dead q s') /\
    forall a tm, a ∈ (due (now_ s) s).*2 -> heap s !! a = Some tm ->
      outcome (now_ s) (cancelingTimers_ s') a tm (heap s' !! a)) s.
Proof.
  intros Hi Harm. unfold handleRead. set (n := now_ s). assert (0 < n)%Z as Hn by apply Hi.
  apply wp_bind. unfold wp at 1. rewrite now_eq. fold n.
  destruct (good_now false [] s Hi Harm) as (Hi1 & _ & [E1 _ E3 E4 E5]).
  assert (timers_ (after_now s) = timers_ s /\ heap (after_now s) = heap s) as [Ht Hh] by (unfold after_now; by destruct (ticks s)).
  set (s1 := after_now s) in *. apply wp_bind. unfold wp at 1, readTimerfd, modify.
  set (s2 := match armed s1 with Some d => _ | None => _ end).
  assert (inv [] s2 /\ timers_ s2 = timers_ s1 /\ heap s2 = heap s1 /\ now_ s2 = now_ s1 /\ log s2 = log s1 /\
    callingExpiredTimers_ s2 = callingExpiredTimers_ s1 /\ s_numCreated_ s2 = s_numCreated_ s1)
    as (Hi2 & Ht2 & Hh2 & Hn2 & Hl2 & Hc2 & Hs2).
  { unfold s2. destruct (armed s1) as [d|]; [destruct (d <=? n)%Z|]; split_and!; try done. by apply (inv_same [] s1). }
  clearbody s2. assert (due n s2 = due n s /\ undue n s2 = undue n s) as [Hdue Hundue]
    by (unfold due, undue; by rewrite Ht2, Ht).
  apply wp_bind. eapply wp_mono; [by apply wp_getExpired|].
  intros ex s3 (-> & Hi3 & Ht3 & Hh3 & _ & Hn3 & Hl3 & _ & Hs3). rewrite Hdue in *. rewrite Hundue in Ht3.
  destruct (due_spec n s Hi) as (_ & _ & _ & Hafter).
  set (s5 := set_canceling ∅ (set_calling true s3)).
  assert (inv (due n s).*2 s5) as Hi5 by (by apply (inv_same _ s3)).
  assert (arm true s5) as Ha5.
  { intros w a rest E Hw. cbn in E. rewrite Ht3 in E. specialize (Hw eq_refl).
    assert (n < w)%Z by (apply (Hafter w a); rewrite E; by left). lia. }
  assert (NoDup (due n s).*2) as Hnd by (pose proof (i_nodup _ _ Hi5) as Hnd; unfold owned in Hnd; by apply NoDup_app in Hnd as (_ & _ & [_ []]%NoDup_app)).
  apply wp_bind. unfold wp at 1, modify. apply wp_bind. unfold wp at 1. fold s5.
  apply wp_bind. eapply wp_mono; [apply (wp_run_timers n (due n s) (due n s).*2 s5 Hi5 Ha5)|].
  { intros w a Hin. by apply (list_elem_of_fmap_2' snd _ (w, a)). }
  intros [] s6 (Hi6 & Ha6 & T6 & H6 & R6 & C6 & D6).
  apply wp_bind. unfold wp at 1. set (s7 := set_calling false s6).
  assert (inv (due n s).*2 s7) as Hi7 by (by apply (inv_same _ s6)).
  eapply wp_mono; [by apply (wp_reset n (due n s) s7)|].
  intros [] s8 (Hi8 & Ha8 & T8 & R8 & C8 & D8 & O8). cbn in T6, T8, R6, H6, R8.
  assert (heap s5 = heap s) as Hh5 by (cbn; congruence).
  split_and!; [done|done|lia|done| | |].
  - rewrite R8, R6, Hl3, Hl2, E3. f_equal. apply list_fmap_ext. intros j e _. unfold seq_of. by rewrite Hh5.
  - intros q Hq. apply D8. assert (dead q s5) as H5.
    { destruct (E5 q Hq) as [Hq1 Hq2]. split; [unfold s5; cbn; by rewrite Hs3, Hs2|]. rewrite Hh5, <- Hh. exact Hq2. }
    by apply D6.
  - intros a tm Ha Htm. apply O8; [done|]. cbn. rewrite H6 by done. by rewrite Hh3, Hh2, Hh.
Qed.

(** ** Every event *)

Lemma inv_posted a s : inv [a] s -> inv [] (set_queue (queue s ++ [AddTimerInLoop a]) s).
Proof.
  intros Hi. apply (inv_shuffle [a] [] s); try done. unfold owned, to_add. cbn. by rewrite omap_app, app_nil_r.
Qed.

Lemma inv_taken f fs s :
  inv [] s -> queue s = f :: fs ->
  inv (match f with AddTimerInLoop a => [a] | CancelInLoop _ => [] end) (set_queue fs s).
Proof.
  intros Hi Hq. apply (inv_shuffle [] _ s); try done. unfold owned. cbn [set_queue queue timers_]. rewrite Hq.
  destruct f as [a|id]; [|done]. cbn. by rewrite app_nil_r, (Permutation_app_comm (to_add fs)).
Qed.

(** What every event leaves true. *)
Definition kept (s s' : t) : Prop :=
  inv [] s' /\ arm false s' /\ (now_ s <= now_ s')%Z /\ (forall q, dead q s -> dead q s') /\
  exists l, runs (log s') = runs (log s) ++ l /\ forall q at_, (q, at_) ∈ l -> ~ dead q s.

Lemma kept_good s s' : good false [] s s' -> kept s s'.
Proof.
  intros (Hi & Ha & [E1 _ E3 _ E5]). split_and!; [done..|]. exists []. split; [by rewrite app_nil_r|].
  by intros q at_ ?%elem_of_nil.
Qed.

(** The one step that may follow a dangling pointer: a thread that has posted a
    timer reads its number when the loop has deleted it. *)
Definition late_read (e : event) (s : t) : Prop :=
  exists i a, e = ReadSequece i /\ readers s !! i = Some a /\ heap s !! a = None.

#[local] Instance late_read_dec e s : Decision (late_read e s).
Proof.
  destruct e as [| | |i| |]; try (right; by intros (? & ? & [=] & _)).
  destruct (readers s !! i) as [a|] eqn:Er; [|right; intros (j & b & [= <-] & Hj & _); congruence].
  destruct (heap s !! a) as [tm|] eqn:Ea; [right; intros (j & b & [= <-] & Hj & Hb); congruence|left; by exists i, a].
Defined.

Lemma wp_step e s : inv [] s -> arm false s -> ~ late_read e s -> wp (step malloc code e) (fun _ s' => kept s s') s.
Proof.
  intros Hi Harm Hlate. destruct e as [|p|cb when interval|i|id|]; cbn [step].
  - eapply wp_mono; [by apply wp_handleRead|]. intros [] s' (Hi' & Ha' & T & _ & R & D & _).
    split_and!; [done..|]. eexists. split; [exact R|]. intros q at_ Hin [_ Hdead].
    apply list_elem_of_fmap in Hin as ([w a] & [= -> ->] & Hin). cbn in Hdead.
    destruct (due_spec (now_ s) s Hi) as (Ht & _).
    destruct (i_when _ _ Hi w a) as (tm & Htm & _); [rewrite Ht; set_solver|].
    apply (Hdead a tm Htm). unfold seq_of. by rewrite Htm.
  - eapply wp_mono; [by apply (wp_exec false [])|]. intros [] s' Hg. by apply kept_good.
  - apply wp_bind. eapply wp_mono; [by apply (wp_new_timer false [])|].
    intros a s1 (Hi1 & Ha1 & [E1 _ E3 E4 E5] & _ & _). unfold wp, modify. split_and!; [|done|done|done|].
    + apply (inv_posted a (set_readers (readers s1 ++ [a]) s1)). by apply (inv_same [a] s1).
    + exists []. split; [by rewrite app_nil_r|]. by intros q at_ ?%elem_of_nil.
  - apply wp_bind. unfold wp at 1, gets. destruct (readers s !! i) as [a|] eqn:Er.
    + destruct (heap s !! a) as [tm|] eqn:Ea; [|destruct Hlate; by exists i, a].
      apply wp_bind, (wp_deref a tm); [done|]. unfold wp, modify. cbn. apply kept_good.
      split_and!; [by apply (inv_same [] s)|done|by apply ext_same].
    + apply kept_good. split_and!; [done|done|reflexivity].
  - unfold wp, modify. apply kept_good. split_and!; [|done|by apply ext_same].
    apply (inv_same [] s); try done. cbn. unfold to_add. by rewrite omap_app, app_nil_r.
  - apply wp_bind. unfold wp at 1, gets. destruct (queue s) as [|f fs] eqn:Eq.
    + apply kept_good. split_and!; [done|done|reflexivity].
    + apply wp_bind. unfold wp at 1, modify. pose proof (inv_taken f fs s Hi Eq) as Hi1.
      set (s1 := set_queue fs s) in *. assert (arm false s1) as Ha1 by exact Harm.
      assert (forall s', good false [] s1 s' -> kept s s') as Hkept.
      { intros s' Hg. apply kept_good. eapply good_trans; [|exact Hg]. by apply ext_same. }
      destruct f as [a|id].
      * eapply wp_mono; [apply (wp_addTimerInLoop false [] a s1 Hi1 Ha1)|].
        -- apply (i_dom _ _ Hi1). unfold owned. set_solver.
        -- intros [] s' [Hg _]. by apply Hkept.
      * eapply wp_mono; [by apply (wp_cancelInLoop false [])|]. intros [] s' Hg. by apply Hkept.
Qed.

Lemma timers_inv_make now ticks : (0 < now)%Z -> inv [] (make now ticks) /\ arm false (make now ticks).
Proof.
  intros Hn. split; [|by intros w a rest ?]. split; cbn; try done.
  - constructor.
  - constructor.
  - intros a. rewrite lookup_empty. split; [by intros []|by intros ?%elem_of_nil].
  - intros a. rewrite lookup_empty. by intros [].
  - intros w a ?%elem_of_nil. done.
  - intros a q. rewrite elem_of_empty. split; [done|]. by intros [?%elem_of_nil _].
Qed.

Lemma steps_kept s s' : steps malloc code s s' -> inv [] s -> arm false s -> inv [] s' /\ arm false s' /\
  (forall q, dead q s -> dead q s') /\
  exists l, runs (log s') = runs (log s) ++ l /\ forall q at_, (q, at_) ∈ l -> ~ dead q s.
Proof.
  induction 1 as [s|e s1 s2 s3 _ IH Hs]; intros Hi Ha.
  - split_and!; [done..|]. exists []. split; [by rewrite app_nil_r|]. by intros q at_ ?%elem_of_nil.
  - destruct (IH Hi Ha) as (Hi2 & Ha2 & D & l & R & L).
    assert (~ late_read e s2) as Hl.
    { intros (i & a & -> & Hr & Hh). cbn in Hs. unfold gets, mbind, M_bind in Hs. rewrite Hr in Hs. unfold deref in Hs. by rewrite Hh in Hs. }
    destruct (wp_run _ _ _ _ _ (wp_step e s2 Hi2 Ha2 Hl) Hs) as (Hi3 & Ha3 & _ & D3 & l3 & R3 & L3).
    split_and!; [done|done|auto|]. exists (l ++ l3). rewrite R3, R, app_assoc. split; [done|].
    intros q at_ [Hin|Hin]%elem_of_app; [by eapply L|]. intros Hd. by eapply L3, D.
Qed.

Lemma timers_inv_reachable s : reachable malloc code s -> inv [] s /\ arm false s.
Proof.
  intros (now & ticks & Hn & Hs). destruct (timers_inv_make now ticks Hn) as [Hi Ha].
  by destruct (steps_kept _ _ Hs Hi Ha) as (? & ? & _).
Qed.

(** ** The properties *)

(** C13.  Memory safety of the timer queue: whatever the callbacks and the other
    threads do, no step follows a pointer to a timer that was deleted or
    deletes one twice, but for one: a thread that added a timer reads its number
    after it posted it, when the loop has run and deleted it.  The timers that
    exist are exactly those in the set and those that wait to be added; the two
    sets and the timers agree; and the destructor deletes those in the set once
    each, and leaves those that wait to be added. *)
Theorem timer_memory_safe s e :
  reachable malloc code s ->
  (step malloc code e s = inl UseAfterFree ->
   exists i a, e = ReadSequece i /\ readers s !! i = Some a /\ heap s !! a = None) /\
  (forall a, is_Some (heap s !! a) <-> a ∈ (timers_ s).*2 ++ to_add (queue s)) /\
  NoDup ((timers_ s).*2 ++ to_add (queue s)) /\
  sorted (timers_ s) /\
  (forall w a, (w, a) ∈ timers_ s -> exists tm, heap s !! a = Some tm /\ Timer.expiration_ tm = w) /\
  (forall a q, (a, q) ∈ activeTimers_ s <->
     a ∈ (timers_ s).*2 /\ exists tm, heap s !! a = Some tm /\ Timer.sequece_ tm = q) /\
  exists s', destroy s = inr (tt, s') /\ forall a, is_Some (heap s' !! a) <-> a ∈ to_add (queue s).
Proof.
  intros [Hi Ha]%timers_inv_reachable. split_and!; try apply Hi; [..|by apply destroy_frees].
  - intros E. destruct (decide (late_read e s)) as [H|H]; [exact H|].
    pose proof (wp_step e s Hi Ha H) as Hw. unfold wp in Hw. by rewrite E in Hw.
  - intros a. rewrite (i_dom _ _ Hi). unfold owned. by rewrite app_nil_r.
  - pose proof (i_nodup _ _ Hi) as Hn. unfold owned in Hn. by rewrite app_nil_r in Hn.
Qed.

(** C27.  When the timerfd fires, the callbacks that run are exactly those of the
    timers whose time has come by the clock reading, once each, in the order of
    their expiration; then every one of them is deleted, except a repeating one
    that was not cancelled meanwhile, which is set again one interval after
    the reading. *)
Theorem expired_timers_run s s' :
  reachable malloc code s -> handleRead malloc code s = inr (tt, s') ->
  runs (log s') = runs (log s) ++ ((fun e => (seq_of s e.2, now_ s)) <$> due (now_ s) s) /\
  (timers_ s = due (now_ s) s ++ undue (now_ s) s /\
   (forall w a, (w, a) ∈ due (now_ s) s -> (w <= now_ s)%Z) /\
   (forall w a, (w, a) ∈ undue (now_ s) s -> (now_ s < w)%Z)) /\
  (forall a tm, a ∈ (due (now_ s) s).*2 -> heap s !! a = Some tm ->
     outcome (now_ s) (cancelingTimers_ s') a tm (heap s' !! a)).
Proof.
  intros [Hi Ha]%timers_inv_reachable Hs.
  destruct (wp_run _ _ _ _ _ (wp_handleRead s Hi Ha) Hs) as (_ & _ & _ & _ & R & _ & O).
  destruct (due_spec (now_ s) s Hi) as (H1 & _ & H2 & H3). by split_and!.
Qed.

(** C36.  No timer is slept through: whenever timers are waiting, the timerfd is
    armed, and becomes readable no later than the first of them is due, or than
    100 microseconds after the present if that is later.  It may become readable
    earlier, for a timer that was cancelled.  One clock, which does not go back,
    stands for the system's and the monotonic one, and reading it and setting the
    timerfd is one moment. *)
Theorem timerfd_armed s w a rest :
  reachable malloc code s -> timers_ s = (w, a) :: rest ->
  exists d, armed s = Some d /\ (d <= Z.max w (now_ s + 100))%Z.
Proof. intros [_ Ha]%timers_inv_reachable E. by apply (Ha w a rest E). Qed.

(** C36.  Cancelling is final: once cancel has found a timer, its callback never
    runs again, whatever happens later, even when its address is used again. *)
Theorem cancelled_timer_never_runs s s1 s2 a q :
  reachable malloc code s -> (a, q) ∈ activeTimers_ s ->
  cancelInLoop (TimerId.mk a q) s = inr (tt, s1) -> steps malloc code s1 s2 ->
  exists l, runs (log s2) = runs (log s) ++ l /\ forall at_, (q, at_) ∉ l.
Proof.
  intros [Hi Ha]%timers_inv_reachable Hin Hs1 Hs2.
  destruct (active_timer _ _ _ _ Hi Hin) as (tm & Htm & Hq & Ht).
  destruct (wp_run _ _ _ _ _ (wp_cancelInLoop false [] (TimerId.mk a q) s Hi Ha) Hs1) as (Hi1 & Ha1 & [_ _ E3 _ _]).
  rewrite (cancelInLoop_active [] (TimerId.mk a q) tm s Hi Hin Htm Hq) in Hs1. injection Hs1 as <-.
  destruct (steps_kept _ _ Hs2 Hi1 Ha1) as (_ & _ & _ & l & R & L).
  exists l. split; [by rewrite R, E3|]. intros at_ Hl. apply (L q at_ Hl). split.
  - rewrite <- Hq. apply (i_seq _ _ Hi a tm Htm).
  - cbn. intros c tc [Hne Hc]%lookup_delete_Some Hcq. apply Hne. apply (i_inj _ _ Hi a c tm tc Htm Hc). congruence.
Qed.
End allocator.

(** ** A queue *)

(** An allocator that hands out the address behind the highest one in use. *)
Definition bump (used : gset addr) : option addr :=
  let a := (1 + foldr Z.max 0%Z (elements used))%Z in
  if (a <? UINTPTR_MAX)%Z then Some a else None.

Lemma bump_fresh used a : bump used = Some a -> (a ∉ used) /\ (a < UINTPTR_MAX)%Z.
Proof.
  unfold bump. destruct (Z.ltb_spec (1 + foldr Z.max 0%Z (elements used)) UINTPTR_MAX) as [Hlt|]; [|done].
  intros [= <-]. split; [|done]. rewrite <- elem_of_elements.
  assert (forall l : list Z, forall x, x ∈ l -> (x <= foldr Z.max 0%Z l)%Z) as Hmax.
  { induction l as [|y l IH]; intros x; [by intros ?%elem_of_nil|].
    intros [->|Hx]%elem_of_cons; cbn; [lia|]. specialize (IH x Hx). lia. }
  intros Hin%Hmax. lia.
Qed.

(** The first callback does nothing; the second cancels what was issued first. *)
Definition sample_code (cb : nat) (ids : list TimerId.t) : prog :=
  match cb, ids with
  | 1, id :: _ => Cancel id Done
  | _, _ => Done
  end.

(** Half a second. *)
Definition half : double := S754_finite false 4503599627370496 (-53).

Definition sample_events : list event :=
  [InLoop (RunEvery half 0 (fun _ => RunAfter half 1 (fun _ => Done))); AddElsewhere 0 2000000 (S754_zero false); RunFunctor].

Fixpoint run (es : list event) (s : t) : t :=
  match es with
  | [] => s
  | e :: es => match step bump sample_code e s with inr (_, s') => run es s' | inl _ => s end
  end.

Definition sample_queue : t := run sample_events (make 1000 [0; 5; 600000; 7]%N).

Lemma run_steps es s s0 : steps bump sample_code s0 s -> steps bump sample_code s0 (run es s).
Proof.
  revert s. induction es as [|e es IH]; intros s Hs; cbn; [done|].
  destruct (step bump sample_code e s) as [|[[] s']] eqn:E; [done|]. apply IH. by eapply steps_step.
Qed.

Lemma sample_queue_reachable : reachable bump sample_code sample_queue.
Proof. exists 1000%Z, [0; 5; 600000; 7]%N. split; [done|]. apply run_steps, steps_refl. Qed.

Lemma timer_memory_safe_witness :
  reachable bump sample_code sample_queue /\ step bump sample_code HandleRead sample_queue <> inl UseAfterFree.
Proof.
  split; [apply sample_queue_reachable|]. intros H.
  destruct (proj1 (timer_memory_safe bump sample_code bump_fresh sample_queue HandleRead sample_queue_reachable) H)
    as (i & a & E & _). discriminate E.
Defined.

Definition sample_fired : t :=
  match handleRead bump sample_code sample_queue with inr (_, s) => s | inl _ => sample_queue end.

Lemma sample_fires : handleRead bump sample_code sample_queue = inr (tt, sample_fired).
Proof.
  unfold sample_fired. destruct (handleRead bump sample_code sample_queue) as [e|[[] s]] eqn:E; [|done].
  assert (match handleRead bump sample_code sample_queue with inr _ => true | inl _ => false end = true) as Hok
    by (vm_compute; reflexivity).
  by rewrite E in Hok.
Qed.

Lemma expired_timers_run_witness :
  runs (log sample_fired) = runs (log sample_queue) ++ ((fun e => (seq_of sample_queue e.2, now_ sample_queue)) <$> due (now_ sample_queue) sample_queue) /\
  runs (log sample_fired) = [(1, 601005); (2, 601005)]%Z.
Proof.
  split; [|vm_compute; reflexivity].
  exact (proj1 (expired_timers_run bump sample_code bump_fresh sample_queue sample_fired sample_queue_reachable sample_fires)).
Defined.

Lemma timerfd_armed_witness :
  timers_ sample_queue = [(501000, 1); (501005, 2); (2000000, 3)]%Z /\
  exists d, armed sample_queue = Some d /\ (d <= Z.max 501000 (now_ sample_queue + 100))%Z.
Proof.
  assert (timers_ sample_queue = [(501000, 1); (501005, 2); (2000000, 3)]%Z) as E by (vm_compute; reflexivity).
  split; [exact E|]. exact (timerfd_armed bump sample_code bump_fresh sample_queue _ _ _ sample_queue_reachable E).
Defined.

Definition sample_cancelled : t := match cancelInLoop (TimerId.mk 1 1) sample_queue with inr (_, s) => s | inl _ => sample_queue end.

Lemma sample_cancels :
  ((1, 1) ∈ activeTimers_ sample_queue)%Z /\ cancelInLoop (TimerId.mk 1 1) sample_queue = inr (tt, sample_cancelled).
Proof.
  split.
  - apply (proj1 (bool_decide_eq_true ((1, 1)%Z ∈ activeTimers_ sample_queue))). vm_compute. reflexivity.
  - unfold sample_cancelled. destruct (cancelInLoop (TimerId.mk 1 1) sample_queue) as [e|[[] s]] eqn:E; [|done].
    assert (match cancelInLoop (TimerId.mk 1 1) sample_queue with inr _ => true | inl _ => false end = true) as Hok
      by (vm_compute; reflexivity).
    by rewrite E in Hok.
Qed.

Lemma cancelled_timer_never_runs_witness :
  exists l, runs (log (run [HandleRead; HandleRead] sample_cancelled)) = runs (log sample_queue) ++ l /\
    forall at_, ((1, at_) ∉ l)%Z.
Proof.
  exact (cancelled_timer_never_runs bump sample_code bump_fresh sample_queue sample_cancelled _ 1 1
    sample_queue_reachable (proj1 sample_cancels) (proj2 sample_cancels) (run_steps _ _ _ (steps_refl _ _ _))).
Defined.

(** A thread that adds a timer posts it before it reads the number for the
    TimerId: the loop may have run and deleted the timer by then. *)
Theorem sequence_read_races :
  exists s, reachable bump sample_code s /\ step bump sample_code (ReadSequece 0) s = inl UseAfterFree.
Proof.
  exists (run [AddElsewhere 0 1001 (S754_zero false); RunFunctor; HandleRead] (make 1000 [5]%N)). split.
  - exists 1000%Z, [5]%N. split; [done|apply run_steps, steps_refl].
  - vm_compute. reflexivity.
Qed.
