(* ===== verification/StdMap.v ===== *)
(** * std::map<std::string, V>

    An ordered map is the list of its entries in iteration order, that is
    sorted by key; keys are compared like [std::string]: byte by byte as
    unsigned characters, a proper prefix first.  The sources iterate over such
    maps (AMF0 objects, HTTP headers), so the order is part of the model. *)

From S2P Require Import Prelude Bytes.
From Stdlib Require Import Sorting.Sorted.

Fixpoint bytes_ltb (a b : bytes) : bool :=
  match a, b with
  | _, [] => false
  | [], _ :: _ => true
  | x :: a', y :: b' =>
      (byte.unsigned x <? byte.unsigned y)%Z ||
      ((byte.unsigned x =? byte.unsigned y)%Z && bytes_ltb a' b')
  end.

Definition bytes_lt (a b : bytes) : Prop := bytes_ltb a b = true.

Module StdMap.

Section map.
Context {V : Type}.
Implicit Types m : list (bytes * V).

(** [find] / [at] *)
Fixpoint find (k : bytes) m : option V :=
  match m with
  | [] => None
  | (k', v) :: m' => if decide (k = k') then Some v else find k m'
  end.

(** Insertion at the ordered position; [f] decides what happens to a value that
    is already there. *)
Fixpoint insert_with (f : V -> V) (k : bytes) (v : V) m : list (bytes * V) :=
  match m with
  | [] => [(k, v)]
  | (k', v') :: m' =>
      if decide (k = k') then (k', f v') :: m'
      else if bytes_ltb k k' then (k, v) :: m
      else (k', v') :: insert_with f k v m'
  end.

(** [emplace] keeps the value that is there. *)
Definition emplace (k : bytes) (v : V) m : list (bytes * V) := insert_with (fun v' => v') k v m.

(** [m[k] = v] replaces it. *)
Definition assign (k : bytes) (v : V) m : list (bytes * V) := insert_with (fun _ => v) k v m.

(** Sorted by key, hence without duplicates. *)
Definition wf m : Prop := StronglySorted bytes_lt (map fst m).

End map.
End StdMap.

(** ** The key order *)

Lemma unsigned_eq x y : byte.unsigned x = byte.unsigned y -> x = y.
Proof. apply byte.unsigned_inj. Qed.

Lemma bytes_lt_irrefl a : ~ bytes_lt a a.
Proof.
  unfold bytes_lt. induction a as [|x a IH]; cbn; [done|].
  rewrite Z.ltb_irrefl, Z.eqb_refl. done.
Qed.

Lemma bytes_lt_trans a b c : bytes_lt a b -> bytes_lt b c -> bytes_lt a c.
Proof.
  unfold bytes_lt. revert b c. induction a as [|x a IH]; intros [|y b] [|z c]; cbn; try done.
  rewrite !orb_true_iff, !andb_true_iff, !Z.ltb_lt, !Z.eqb_eq.
  intros [H1|[H1 H1']] [H2|[H2 H2']]; [left; lia|left; lia|left; lia|right; eauto with lia].
Qed.

Lemma bytes_lt_total a b : bytes_ltb a b = false -> a <> b -> bytes_lt b a.
Proof.
  unfold bytes_lt. revert b. induction a as [|x a IH]; intros [|y b]; cbn; try done.
  rewrite orb_false_iff, andb_false_iff, orb_true_iff, andb_true_iff.
  rewrite !Z.ltb_ge, !Z.ltb_lt, Z.eqb_neq, Z.eqb_eq. intros [H1 H2] Hne.
  destruct (Z.eq_dec (byte.unsigned x) (byte.unsigned y)) as [E|E]; [right|left; lia].
  split; [lia|]. destruct H2 as [H2|H2]; [lia|]. apply IH; [done|].
  intros ->. apply Hne. by rewrite (unsigned_eq _ _ E).
Qed.

Lemma bytes_lt_asym a b : bytes_lt a b -> bytes_ltb b a = false.
Proof.
  intros H. destruct (bytes_ltb b a) eqn:E; [|done].
  destruct (bytes_lt_irrefl a). by eapply bytes_lt_trans.
Qed.

Lemma bytes_lt_ne a b : bytes_lt a b -> a <> b.
Proof. intros H ->. by eapply bytes_lt_irrefl. Qed.

(** ** Lemmas on the operations *)

Module StdMapFacts.
Import StdMap.

Section facts.
Context {V : Type}.
Implicit Types m : list (bytes * V).

Lemma wf_cons k v m : wf ((k, v) :: m) <-> wf m /\ Forall (bytes_lt k) (map fst m).
Proof.
  unfold wf; cbn. split; [intros H; by inversion H|intros [? ?]; by constructor].
Qed.

Lemma find_None_lt k m : Forall (bytes_lt k) (map fst m) -> find k m = None.
Proof.
  induction m as [|[k' v'] m IH]; cbn; [done|]. inversion 1; subst.
  destruct (decide (k = k')) as [->|]; [by destruct (bytes_lt_irrefl k')|]. by apply IH.
Qed.

Lemma Forall_lt_trans k k' m :
  bytes_lt k k' -> Forall (bytes_lt k') (map fst m) -> Forall (bytes_lt k) (map fst m).
Proof. intros H Hf. eapply Forall_impl; [exact Hf|]. intros x Hx. by eapply bytes_lt_trans. Qed.

Lemma keys_insert_with f k v m x :
  x ∈ map fst (insert_with f k v m) -> x = k \/ x ∈ map fst m.
Proof.
  induction m as [|[k' v'] m IH]; cbn; [set_solver|].
  destruct (decide (k = k')); cbn; [set_solver|].
  destruct (bytes_ltb k k'); cbn; set_solver.
Qed.

Lemma wf_insert_with f k v m : wf m -> wf (insert_with f k v m).
Proof.
  induction m as [|[k' v'] m IH]; cbn; [intros; unfold wf; cbn; repeat constructor|].
  intros Hwf. pose proof Hwf as [Hm Hlt]%wf_cons.
  destruct (decide (k = k')) as [->|Hne]; [by apply wf_cons|].
  destruct (bytes_ltb k k') eqn:E.
  - apply wf_cons. split; [done|]. cbn. constructor; [done|]. by eapply Forall_lt_trans.
  - apply wf_cons. split; [by apply IH|]. apply Forall_forall. intros x Hx.
    apply keys_insert_with in Hx as [->|Hx]; [by apply bytes_lt_total|].
    by eapply Forall_forall in Hlt.
Qed.

Lemma find_insert_with_eq f k v m :
  wf m -> find k (insert_with f k v m) = Some (match find k m with Some v' => f v' | None => v end).
Proof.
  induction m as [|[k' v'] m IH]; cbn; intros Hwf.
  - by destruct (decide (k = k)).
  - apply wf_cons in Hwf as [Hm Hlt]. destruct (decide (k = k')) as [->|Hne]; cbn.
    + by destruct (decide (k' = k')).
    + destruct (bytes_ltb k k') eqn:E; cbn.
      * destruct (decide (k = k)); [|done].
        rewrite find_None_lt; [done|]. by eapply Forall_lt_trans.
      * destruct (decide (k = k')); [done|]. by apply IH.
Qed.

Lemma find_insert_with_ne f k v m k' :
  k' <> k -> find k' (insert_with f k v m) = find k' m.
Proof.
  intros Hne. induction m as [|[k1 v1] m IH]; cbn; [by destruct (decide (k' = k))|].
  destruct (decide (k = k1)) as [->|]; cbn; [by destruct (decide (k' = k1))|].
  destruct (bytes_ltb k k1); cbn.
  - by destruct (decide (k' = k)).
  - by rewrite IH.
Qed.

Lemma wf_emplace k v m : wf m -> wf (emplace k v m).
Proof. apply wf_insert_with. Qed.
Lemma wf_assign k v m : wf m -> wf (assign k v m).
Proof. apply wf_insert_with. Qed.

Lemma find_emplace_eq k v m : wf m -> find k (emplace k v m) = Some (default v (find k m)).
Proof. intros. unfold emplace. rewrite find_insert_with_eq by done. by destruct (find k m). Qed.
Lemma find_emplace_ne k v m k' : k' <> k -> find k' (emplace k v m) = find k' m.
Proof. apply find_insert_with_ne. Qed.
Lemma find_assign_eq k v m : wf m -> find k (assign k v m) = Some v.
Proof. intros. unfold assign. rewrite find_insert_with_eq by done. by destruct (find k m). Qed.
Lemma find_assign_ne k v m k' : k' <> k -> find k' (assign k v m) = find k' m.
Proof. apply find_insert_with_ne. Qed.

(** A key above every key of the map goes to the end. *)
Lemma insert_with_snoc f k v m :
  Forall (fun k' => bytes_lt k' k) (map fst m) -> insert_with f k v m = m ++ [(k, v)].
Proof.
  induction m as [|[k' v'] m IH]; cbn; [done|]. inversion 1 as [|? ? H1 H2]; subst.
  destruct (decide (k = k')) as [->|]; [by destruct (bytes_lt_irrefl k')|].
  by rewrite bytes_lt_asym, IH.
Qed.

Lemma wf_app_inv m1 k v m2 :
  wf (m1 ++ (k, v) :: m2) -> Forall (fun k' => bytes_lt k' k) (map fst m1) /\ wf ((k, v) :: m2).
Proof.
  induction m1 as [|[k1 v1] m1 IH]; cbn; [done|]. rewrite wf_cons.
  intros [H1 H2]. destruct (IH H1) as [H3 H4]. split; [|done].
  constructor; [|done]. rewrite map_app in H2. apply Forall_app in H2 as [_ H2].
  by inversion H2.
Qed.

(** Sorted maps with the same lookups are equal. *)
Lemma wf_ext m1 m2 : wf m1 -> wf m2 -> (forall k, find k m1 = find k m2) -> m1 = m2.
Proof.
  revert m2. induction m1 as [|[k1 v1] m1 IH]; intros [|[k2 v2] m2] H1 H2 Hf; [done| | |].
  - specialize (Hf k2). cbn in Hf. by destruct (decide (k2 = k2)).
  - specialize (Hf k1). cbn in Hf. by destruct (decide (k1 = k1)).
  - apply wf_cons in H1 as [H1 L1]. apply wf_cons in H2 as [H2 L2].
    assert (k1 = k2) as ->.
    { destruct (decide (k1 = k2)) as [|Hne]; [done|exfalso].
      destruct (bytes_ltb k1 k2) eqn:E.
      - specialize (Hf k1). cbn in Hf. destruct (decide (k1 = k1)); [|done].
        destruct (decide (k1 = k2)); [done|].
        rewrite find_None_lt in Hf; [done|]. by eapply Forall_lt_trans.
      - apply bytes_lt_total in E; [|done]. specialize (Hf k2). cbn in Hf.
        destruct (decide (k2 = k2)); [|done]. destruct (decide (k2 = k1)); [done|].
        rewrite find_None_lt in Hf; [done|]. by eapply Forall_lt_trans. }
    pose proof (Hf k2) as Hv. cbn in Hv. destruct (decide (k2 = k2)); [|done].
    simplify_eq. f_equal. apply IH; [done|done|]. intros k. specialize (Hf k). cbn in Hf.
    destruct (decide (k = k2)) as [->|]; [|done]. by rewrite !find_None_lt.
Qed.

End facts.
End StdMapFacts.

#[export] Hint Resolve StdMapFacts.wf_emplace StdMapFacts.wf_assign : core.
