(* ===== verification/HttpContext.v ===== *)
(** * src/http/HttpRequest.h, src/http/HttpContext.h, src/http/HttpContext.cc

    The incremental HTTP request parser over the connection's buffer.  Pointers
    into the readable range are offsets from [peek()]; a range is the slice. *)

From S2P Require Import Prelude Bytes ByteBuffer StdMap Text.

(** ** HttpRequest *)

Module HttpRequest.

Inductive Method := kInvalid | kGet | kPost | kHead | kPut | kDelete.
Inductive Version := kUnknown | kHttp10 | kHttp11.

#[global] Instance Method_eq_dec : EqDecision Method.
Proof. solve_decision. Defined.
#[global] Instance Version_eq_dec : EqDecision Version.
Proof. solve_decision. Defined.

Record t := mk {
  method_ : Method;
  version_ : Version;
  path_ : bytes;
  query_ : bytes;
  body_ : bytes;
  receiveTime_ : Z;
  headers_ : list (bytes * bytes);   (** std::map, in key order *)
}.

(** [HttpRequest()]; an invalid Timestamp is 0. *)
Definition make : t := mk kInvalid kUnknown [] [] [] 0 [].

Definition kMethods : list (bytes * Method) :=
  [(str "GET", kGet); (str "POST", kPost); (str "HEAD", kHead); (str "PUT", kPut);
   (str "DELETE", kDelete)].

(** [kMethods.find(m)] *)
Fixpoint find_method (m : bytes) (l : list (bytes * Method)) : option Method :=
  match l with
  | [] => None
  | (k, v) :: l' => if decide (k = m) then Some v else find_method m l'
  end.

Definition set_method_ (v : Method) (r : t) : t :=
  mk v (version_ r) (path_ r) (query_ r) (body_ r) (receiveTime_ r) (headers_ r).
Definition setVersion (v : Version) (r : t) : t :=
  mk (method_ r) v (path_ r) (query_ r) (body_ r) (receiveTime_ r) (headers_ r).
Definition setPath (v : bytes) (r : t) : t :=
  mk (method_ r) (version_ r) v (query_ r) (body_ r) (receiveTime_ r) (headers_ r).
Definition setQuery (v : bytes) (r : t) : t :=
  mk (method_ r) (version_ r) (path_ r) v (body_ r) (receiveTime_ r) (headers_ r).
Definition setBody (v : bytes) (r : t) : t :=
  mk (method_ r) (version_ r) (path_ r) (query_ r) v (receiveTime_ r) (headers_ r).
Definition setReceiveTime (v : Z) (r : t) : t :=
  mk (method_ r) (version_ r) (path_ r) (query_ r) (body_ r) v (headers_ r).
Definition set_headers_ (v : list (bytes * bytes)) (r : t) : t :=
  mk (method_ r) (version_ r) (path_ r) (query_ r) (body_ r) (receiveTime_ r) v.

Definition setMethod (m : bytes) (r : t) : bool * t :=
  match find_method m kMethods with
  | Some v => (true, set_method_ v r)
  | None => (false, set_method_ kInvalid r)
  end.

Definition method2Str (r : t) : bytes :=
  match method_ r with
  | kInvalid => str "UNKNOWN" | kGet => str "GET" | kPost => str "POST"
  | kHead => str "HEAD" | kPut => str "PUT" | kDelete => str "DELETE"
  end.

(** [line] is [start, end), [colon] the offset of the colon in it. *)
Definition addHeader (line : bytes) (colon : nat) (r : t) : t :=
  let field := take colon line in
  let value := rtrim (ltrim (drop (colon + 1) line)) in
  set_headers_ (StdMap.assign field value (headers_ r)) r.

Definition getHeader (field : bytes) (r : t) : bytes := default [] (StdMap.find field (headers_ r)).

Definition swap (this that : t) : t * t := (that, this).

End HttpRequest.

(** ** HttpContext *)

Module HttpContext.

Inductive HttpRequestParseState := kExpectRequestLine | kExpectHeaders | kExpectBody | kGotAll.

#[global] Instance state_eq_dec : EqDecision HttpRequestParseState.
Proof. solve_decision. Defined.

Record t := mk {
  state_ : HttpRequestParseState;
  request_ : HttpRequest.t;
  contentLength_ : Z;
}.

(** [HttpContext()] *)
Definition make : t := mk kExpectRequestLine HttpRequest.make 0.
Definition reset (c : t) : t :=
  let dummy := HttpRequest.make in
  let '(request_, dummy) := HttpRequest.swap (request_ c) dummy in
  mk kExpectRequestLine request_ 0.
Definition gotAll (c : t) : bool := bool_decide (state_ c = kGotAll).

Definition set_state_ (v : HttpRequestParseState) (c : t) : t := mk v (request_ c) (contentLength_ c).
Definition set_request_ (v : HttpRequest.t) (c : t) : t := mk (state_ c) v (contentLength_ c).
Definition set_contentLength_ (v : Z) (c : t) : t := mk (state_ c) (request_ c) v.

Definition kCRLF : bytes := [Byte.x0d; Byte.x0a].

(** [line] is [begin, end), the bytes before the CRLF. *)
Definition processRequestLine (line : bytes) (r : HttpRequest.t) : bool * HttpRequest.t :=
  match find_byte (chr 32) line with
  | None => (false, r)
  | Some space =>
      let '(ok, r) := HttpRequest.setMethod (take space line) r in
      if negb ok then (false, r)
      else
        let rest := drop (space + 1) line in
        match find_byte (chr 32) rest with
        | None => (false, r)
        | Some space =>
            let target := take space rest in
            let r := match find_byte (chr 63) target with
                     | Some question =>
                         HttpRequest.setQuery (drop question target)
                           (HttpRequest.setPath (take question target) r)
                     | None => HttpRequest.setPath target r
                     end in
            let version := drop (space + 1) rest in
            if (length version =? 8) && bool_decide (take 7 version = str "HTTP/1.") then
              let last := drop 7 version in
              if bool_decide (last = str "1") then (true, HttpRequest.setVersion HttpRequest.kHttp11 r)
              else if bool_decide (last = str "0")
              then (true, HttpRequest.setVersion HttpRequest.kHttp10 r)
              else (false, r)
            else (false, r)
        end
  end.

(** The loop over the headers; it stops at the first Content-Length. *)
Fixpoint content_length_loop (headers : list (bytes * bytes)) : option Z :=
  match headers with
  | [] => Some 0%Z
  | (field, value) :: headers' =>
      if negb (equalCaseInsensitive field (str "Content-Length")) then content_length_loop headers'
      else
        let value := rtrim (ltrim value) in
        if length value =? 0 then None
        else
          match from_chars value with
          | Some (v, []) => Some v
          | _ => None
          end
  end.

Definition parseContentLength (c : t) : bool * t :=
  match content_length_loop (HttpRequest.headers_ (request_ c)) with
  | Some v => (true, set_contentLength_ v c)
  | None => (false, set_contentLength_ 0 c)
  end.

Section parse.
Context {B : Type} `{ByteBuffer B}.

Definition findCRLF (buf : B) : option nat := search kCRLF (peek buf).

(** One turn of [while (hasMore)]: [ok], whether the loop goes on, the context
    and the buffer. *)
Definition parse_step (receiveTime : Z) (c : t) (buf : B) : bool * bool * t * B :=
  match state_ c with
  | kExpectRequestLine =>
      match findCRLF buf with
      | Some crlf =>
          let '(ok, r) := processRequestLine (take crlf (peek buf)) (request_ c) in
          let c := set_request_ r c in
          if ok then
            (true, true, set_state_ kExpectHeaders (set_request_ (HttpRequest.setReceiveTime receiveTime r) c),
             retrieve (crlf + 2) buf)
          else (false, false, c, buf)
      | None => (true, false, c, buf)
      end
  | kExpectHeaders =>
      match findCRLF buf with
      | Some crlf =>
          let line := take crlf (peek buf) in
          match find_byte (chr 58) line with
          | Some colon =>
              (true, true, set_request_ (HttpRequest.addHeader line colon (request_ c)) c,
               retrieve (crlf + 2) buf)
          | None =>
              let '(ok, c) := parseContentLength c in
              if negb ok then (false, false, c, buf)
              else if (0 <? contentLength_ c)%Z
              then (true, true, set_state_ kExpectBody c, retrieve (crlf + 2) buf)
              else (true, false, set_state_ kGotAll c, retrieve (crlf + 2) buf)
          end
      | None => (true, false, c, buf)
      end
  | kExpectBody =>
      if (contentLength_ c <=? Z.of_nat (readableBytes buf))%Z then
        let n := Z.to_nat (contentLength_ c) in
        (true, true,
         set_state_ kGotAll (set_request_ (HttpRequest.setBody (take n (peek buf)) (request_ c)) c),
         retrieve n buf)
      else (true, false, c, buf)
  | kGotAll => (true, false, c, buf)
  end.

Fixpoint parse_loop (fuel : nat) (receiveTime : Z) (c : t) (buf : B) : option (bool * t * B) :=
  match fuel with
  | O => None
  | S fuel =>
      let '(ok, hasMore, c, buf) := parse_step receiveTime c buf in
      if hasMore then parse_loop fuel receiveTime c buf else Some (ok, c, buf)
  end.

(** Every turn that goes on consumes a line or leaves kExpectBody
    ([parseRequest_total]). *)
Definition parseRequest (receiveTime : Z) (c : t) (buf : B) : option (bool * t * B) :=
  parse_loop (readableBytes buf + 3) receiveTime c buf.

(** Segments arrive one by one; a bad request ends the connection. *)
Fixpoint feed (receiveTime : Z) (segments : list bytes) (c : t) (buf : B) : option (bool * t * B) :=
  match segments with
  | [] => Some (true, c, buf)
  | seg :: segments' =>
      '(ok, c, buf) ← parseRequest receiveTime c (append seg buf);
      if ok : bool then feed receiveTime segments' c buf else Some (false, c, buf)
  end.

End parse.
End HttpContext.
