(* ===== verification/HttpContextFacts.v ===== *)
(** * Properties of the HTTP request parser

    The loop terminates, its result depends on the bytes and not on their
    segmentation, and a printed request is parsed back. *)

From S2P Require Import Prelude Bytes ByteBuffer StdMap Text HttpContext.

Import HttpContext.

(** ** The loop as a relation *)

Section queue.
Context (rt : Z).

(** With some fuel the loop ends with [r]. *)
Definition parses (c : t) (data : bytes) (r : bool * t * bytes) : Prop :=
  exists fuel, parse_loop fuel rt c data = Some r.

Lemma parse_loop_mono {B} `{ByteBuffer B} fuel fuel' c (buf : B) r :
  parse_loop fuel rt c buf = Some r -> fuel <= fuel' -> parse_loop fuel' rt c buf = Some r.
Proof.
  revert fuel' c buf. induction fuel as [|fuel IH]; intros fuel' c buf; cbn; [done|].
  destruct fuel' as [|fuel']; [lia|]. cbn.
  destruct (parse_step rt c buf) as [[[ok more] c1] buf1]. destruct more; [|done].
  intros. apply IH; [done|lia].
Qed.

Lemma parses_det c data r r' : parses c data r -> parses c data r' -> r = r'.
Proof.
  intros [f H] [f' H']. apply (parse_loop_mono _ (f + f')) in H, H'; [congruence|lia..].
Qed.

(** What is still to be done: the bytes, and one turn for the body. *)
Definition measure (c : t) (n : nat) : nat :=
  n + (if decide (state_ c = kGotAll) then 0 else 1).

Lemma measure_bound c n : n <= measure c n <= n + 1.
Proof. unfold measure. case_decide; lia. Qed.

Lemma measure_pending c n : state_ c <> kGotAll -> measure c n = n + 1.
Proof. intros H. unfold measure. by rewrite decide_False. Qed.

Lemma step_measure c data ok c' data' :
  parse_step rt c data = (ok, true, c', data') ->
  measure c' (length data') < measure c (length data).
Proof.
  intros Hs. pose proof (measure_bound c' (length data')). revert Hs.
  unfold parse_step, findCRLF. destruct (state_ c) eqn:E; cbn [peek queue_buffer retrieve readableBytes].
  all: rewrite ?(measure_pending c) by (by rewrite E).
  - destruct (search kCRLF data) as [i|] eqn:Es; [|done]. apply search_bound in Es; [|done].
    destruct (processRequestLine _ _) as [[] r]; [|done]. intros [= <- <- <-]. cbn in Es. lens. lia.
  - destruct (search kCRLF data) as [i|] eqn:Es; [|done]. apply search_bound in Es; [|done]. cbn in Es.
    destruct (find_byte _ _); [intros [= <- <- <-]; lens; lia|].
    destruct (parseContentLength c) as [[] c1]; [|done]. cbn [negb].
    destruct (_ <? _)%Z; [|done]. intros [= <- <- <-]. lens. lia.
  - destruct (_ <=? _)%Z; [|done]. intros [= <- <- <-]. unfold measure. cbn [state_ set_state_].
    rewrite decide_True by done. lens. lia.
  - done.
Qed.

Lemma parse_loop_total fuel c data :
  measure c (length data) < fuel -> exists r, parse_loop fuel rt c data = Some r.
Proof.
  revert c data. induction fuel as [|fuel IH]; intros c data Hf; [lia|]. cbn.
  destruct (parse_step rt c data) as [[[ok more] c1] data1] eqn:E. destruct more; [|by eexists].
  apply IH. apply step_measure in E. lia.
Qed.

Lemma parseRequest_total c data : exists r, parseRequest rt c data = Some r.
Proof. apply parse_loop_total. unfold measure. cbn. case_decide; lia. Qed.

Lemma parseRequest_parses c data r : parseRequest rt c data = Some r <-> parses c data r.
Proof.
  split; [by eexists|]. intros Hp. destruct (parseRequest_total c data) as [r' Hr'].
  rewrite Hr'. f_equal. eapply parses_det; [|done]. by eexists.
Qed.

Lemma parses_turn c data ok c1 data1 r :
  parse_step rt c data = (ok, true, c1, data1) -> parses c1 data1 r -> parses c data r.
Proof. intros Hs [f H]. exists (S f). cbn. by rewrite Hs. Qed.

Lemma parses_end c data ok c1 data1 :
  parse_step rt c data = (ok, false, c1, data1) -> parses c data (ok, c1, data1).
Proof. intros Hs. exists 1. cbn. by rewrite Hs. Qed.

(** ** More bytes *)

Lemma search_app pat l more i :
  pat <> [] -> search pat l = Some i -> search pat (l ++ more) = Some i.
Proof.
  intros Hne. revert i. induction l as [|x l IH]; intros i; cbn [search app].
  - case_decide as Hd; [|done]. intros [= <-]. rewrite take_nil in Hd. by subst.
  - case_decide as Hd.
    + intros [= <-]. rewrite decide_True; [done|]. change (x :: l ++ more) with ((x :: l) ++ more).
      rewrite take_app_le; [done|]. apply (f_equal length) in Hd. lens. lia.
    + intros (j & Hj & ->)%fmap_Some. rewrite decide_False.
      2: { intros Hd'. apply Hd. change (x :: l ++ more) with ((x :: l) ++ more) in Hd'.
           apply search_bound in Hj; [|done]. rewrite take_app_le in Hd'; [done|]. cbn. lia. }
      by rewrite (IH j).
Qed.

Lemma step_more c data more ok c' data' :
  parse_step rt c data = (ok, true, c', data') ->
  parse_step rt c (data ++ more) = (ok, true, c', data' ++ more).
Proof.
  unfold parse_step, findCRLF. cbn [peek queue_buffer retrieve readableBytes].
  destruct (state_ c).
  - destruct (search kCRLF data) as [i|] eqn:Es; [|done]. apply search_bound in Es as Hb; [|done].
    rewrite (search_app _ _ more i) by done. rewrite take_app_le by (cbn in Hb; lia).
    destruct (processRequestLine _ _) as [[] r]; [|done]. intros [= <- <- <-].
    by rewrite drop_app_le by (cbn in Hb; lia).
  - destruct (search kCRLF data) as [i|] eqn:Es; [|done]. apply search_bound in Es as Hb; [|done].
    rewrite (search_app _ _ more i) by done. rewrite take_app_le, drop_app_le by (cbn in Hb; lia).
    destruct (find_byte _ _); [by intros [= <- <- <-]|].
    destruct (parseContentLength c) as [[] c1]; [|done]. cbn [negb].
    destruct (_ <? _)%Z; [|done]. by intros [= <- <- <-].
  - destruct (Z.leb_spec (contentLength_ c) (Z.of_nat (length data))); [|done]. intros [= <- <- <-].
    lens. rewrite (proj2 (Z.leb_le _ _)) by lia.
    rewrite take_app_le, drop_app_le by lia. done.
  - done.
Qed.

(** A turn that stops: a bad request, a complete one, or waiting for bytes. *)
Lemma step_stop c data ok c' data' :
  parse_step rt c data = (ok, false, c', data') ->
  (forall more, parse_step rt c (data ++ more) = (ok, false, c', data' ++ more) /\
                (ok = true -> state_ c' = kGotAll)) \/
  (ok = true /\ c' = c /\ data' = data).
Proof.
  unfold parse_step, findCRLF. cbn [peek queue_buffer retrieve readableBytes].
  destruct (state_ c) eqn:Est.
  - destruct (search kCRLF data) as [i|] eqn:Es; [|intros [= <- <- <-]; by right].
    apply search_bound in Es as Hb; [|done].
    destruct (processRequestLine _ _) as [[] r] eqn:Ep; [done|]. intros [= <- <- <-]. left. intros more.
    rewrite (search_app _ _ more i) by done. rewrite take_app_le by (cbn in Hb; lia). by rewrite Ep.
  - destruct (search kCRLF data) as [i|] eqn:Es; [|intros [= <- <- <-]; by right].
    apply search_bound in Es as Hb; [|done].
    destruct (find_byte _ _) eqn:Ef; [done|].
    destruct (parseContentLength c) as [[] c1] eqn:Ec; cbn [negb].
    + destruct (_ <? _)%Z eqn:El; [done|]. intros [= <- <- <-]. left. intros more.
      rewrite (search_app _ _ more i) by done. rewrite take_app_le, drop_app_le by (cbn in Hb; lia).
      by rewrite Ef.
    + intros [= <- <- <-]. left. intros more.
      rewrite (search_app _ _ more i) by done. rewrite take_app_le by (cbn in Hb; lia). by rewrite Ef.
  - destruct (_ <=? _)%Z; [done|]. intros [= <- <- <-]. by right.
  - intros [= <- <- <-]. by right.
Qed.

Lemma parses_more c data c' rest more r :
  parses c data (true, c', rest) -> parses c' (rest ++ more) r -> parses c (data ++ more) r.
Proof.
  intros [fuel Hf]. revert c data Hf. induction fuel as [|fuel IH]; intros c data; cbn; [done|].
  destruct (parse_step rt c data) as [[[ok hasMore] c1] data1] eqn:E. destruct hasMore.
  - intros Hf Hr. apply step_more with (more := more) in E. eapply parses_turn; [done|]. by apply IH.
  - intros [= -> -> ->] Hr. destruct (step_stop _ _ _ _ _ E) as [Hs|(_ & -> & ->)]; [|done].
    destruct (Hs more) as [Hm Hg]. eapply parses_det in Hr.
    + rewrite <- Hr. by apply parses_end.
    + apply parses_end. unfold parse_step. by rewrite Hg.
Qed.

Lemma parses_fail c data c' rest more :
  parses c data (false, c', rest) -> parses c (data ++ more) (false, c', rest ++ more).
Proof.
  intros [fuel Hf]. revert c data Hf. induction fuel as [|fuel IH]; intros c data; cbn; [done|].
  destruct (parse_step rt c data) as [[[ok hasMore] c1] data1] eqn:E. destruct hasMore.
  - intros Hf. apply step_more with (more := more) in E. eapply parses_turn; [done|]. by apply IH.
  - intros [= -> -> ->]. destruct (step_stop _ _ _ _ _ E) as [Hs|(? & _)]; [|done].
    apply parses_end, Hs.
Qed.

End queue.

(** ** Any lawful buffer *)

Section buffers.
Context {B : Type} `{ByteBufferLaws B} (rt : Z).

Lemma parse_step_sim c (buf : B) :
  buf_wf buf ->
  let '(ok, more, c', buf') := parse_step rt c buf in
  parse_step rt c (peek buf) = (ok, more, c', peek buf') /\ buf_wf buf'.
Proof.
  intros Hw. unfold parse_step, findCRLF. rewrite (readable_peek buf) by done.
  cbn [peek queue_buffer retrieve readableBytes].
  destruct (state_ c).
  - destruct (search kCRLF (peek buf)) as [i|]; [|done].
    destruct (processRequestLine _ _) as [[] r]; [|done]. rewrite peek_retrieve by done. auto.
  - destruct (search kCRLF (peek buf)) as [i|]; [|done].
    destruct (find_byte _ _); [rewrite peek_retrieve by done; auto|].
    destruct (parseContentLength c) as [[] c1]; [|done]. cbn [negb].
    destruct (_ <? _)%Z; rewrite peek_retrieve by done; auto.
  - destruct (_ <=? _)%Z; [|done]. rewrite peek_retrieve by done. auto.
  - done.
Qed.

Lemma parse_loop_sim fuel c (buf : B) :
  buf_wf buf ->
  match parse_loop fuel rt c buf with
  | Some (ok, c', buf') => parse_loop fuel rt c (peek buf) = Some (ok, c', peek buf') /\ buf_wf buf'
  | None => parse_loop fuel rt c (peek buf) = None
  end.
Proof.
  revert c buf. induction fuel as [|fuel IH]; intros c buf Hw; cbn [parse_loop]; [done|].
  pose proof (parse_step_sim c buf Hw) as Hs.
  destruct (parse_step rt c buf) as [[[ok more] c1] buf1]. destruct Hs as [-> Hw1].
  destruct more; [by apply IH|done].
Qed.

Lemma parseRequest_spec c (buf : B) :
  buf_wf buf -> exists ok c' buf', parseRequest rt c buf = Some (ok, c', buf') /\ buf_wf buf' /\
    parses rt c (peek buf) (ok, c', peek buf').
Proof.
  intros Hw. unfold parseRequest. rewrite (readable_peek buf) by done.
  pose proof (parse_loop_sim (length (peek buf) + 3) c buf Hw) as Hs.
  destruct (parse_loop_total rt (length (peek buf) + 3) c (peek buf)) as [r Hr].
  { pose proof (measure_bound c (length (peek buf))). lia. }
  destruct (parse_loop _ rt c buf) as [[[ok c'] buf']|]; [|congruence].
  destruct Hs as [Hs Hw']. exists ok, c', buf'. split_and!; [done|done|]. by eexists.
Qed.

(** Feeding segments is parsing their concatenation. *)
Lemma feed_parses segs c (buf : B) :
  buf_wf buf -> parses rt c (peek buf) (true, c, peek buf) ->
  exists ok c' buf' rest, feed rt segs c buf = Some (ok, c', buf') /\
    parses rt c (peek buf ++ concat segs) (ok, c', rest) /\ (ok = true -> peek buf' = rest).
Proof.
  revert c buf. induction segs as [|seg segs IH]; intros c buf Hw Hstill; cbn [feed concat].
  - rewrite app_nil_r. by eexists _, _, _, _.
  - destruct (parseRequest_spec c (append seg buf)) as (ok & c1 & buf1 & -> & Hw1 & Hp1); [auto|].
    rewrite peek_append in Hp1 by done. cbn [mbind option_bind]. rewrite app_assoc.
    destruct ok.
    + assert (parses rt c1 (peek buf1) (true, c1, peek buf1)) as Hstill1.
      { destruct (parseRequest_total rt c1 (peek buf1)) as [r Hr].
        apply parseRequest_parses in Hr. replace (true, c1, peek buf1) with r; [done|].
        rewrite <- (app_nil_r (peek buf1)) in Hr. pose proof (parses_more _ _ _ _ _ [] _ Hp1 Hr) as Hr'.
        rewrite app_nil_r in Hr'. by eapply parses_det. }
      destruct (IH c1 buf1 Hw1 Hstill1) as (ok' & c2 & buf2 & rest & -> & Hp2 & Hrest).
      eexists _, _, _, _. split; [done|]. split; [|done]. by eapply parses_more.
    + eexists _, _, _, _. split; [done|]. split; [by apply parses_fail|done].
Qed.

Lemma feed_new segs :
  exists ok c' buf' rest, feed rt segs make (buf_new (B := B)) = Some (ok, c', buf') /\
    parses rt make (concat segs) (ok, c', rest) /\ (ok = true -> peek buf' = rest).
Proof.
  pose proof (feed_parses segs make buf_new) as Hf. rewrite peek_new in Hf.
  apply Hf; [auto|]. by apply parses_end.
Qed.

End buffers.

(** ** Printing a request *)

Definition no_cr (l : bytes) : Prop := Byte.x0d ∉ l.
Definition no_char (n : Z) (l : bytes) : Prop := chr n ∉ l.
Definition trimmed (l : bytes) : Prop := ltrim l = l /\ rtrim l = l.

Definition header_ok (h : bytes * bytes) : Prop :=
  no_cr h.1 /\ no_char 58 h.1 /\ no_cr h.2 /\ trimmed h.2.

Record request_ok (r : HttpRequest.t) : Prop := {
  ok_method : HttpRequest.method_ r <> HttpRequest.kInvalid;
  ok_version : HttpRequest.version_ r <> HttpRequest.kUnknown;
  ok_path : no_cr (HttpRequest.path_ r) /\ no_char 32 (HttpRequest.path_ r) /\
            no_char 63 (HttpRequest.path_ r);
  ok_query : HttpRequest.query_ r = [] \/
             exists q, HttpRequest.query_ r = chr 63 :: q /\ no_cr q /\ no_char 32 q;
  ok_headers : Forall header_ok (HttpRequest.headers_ r) /\ StdMap.wf (HttpRequest.headers_ r);
  ok_body : content_length_loop (HttpRequest.headers_ r) = Some (Z.of_nat (length (HttpRequest.body_ r)));
}.

Definition print_version (v : HttpRequest.Version) : bytes :=
  match v with
  | HttpRequest.kHttp10 => str "HTTP/1.0"
  | _ => str "HTTP/1.1"
  end.

Definition print_header (h : bytes * bytes) : bytes := h.1 ++ str ": " ++ h.2 ++ kCRLF.

Definition print_line (r : HttpRequest.t) : bytes :=
  HttpRequest.method2Str r ++ str " " ++ HttpRequest.path_ r ++ HttpRequest.query_ r ++ str " " ++
  print_version (HttpRequest.version_ r).

Definition print_request (r : HttpRequest.t) : bytes :=
  print_line r ++ kCRLF ++ concat (map print_header (HttpRequest.headers_ r)) ++ kCRLF ++
  HttpRequest.body_ r.

Lemma search_crlf line rest : no_cr line -> search kCRLF (line ++ kCRLF ++ rest) = Some (length line).
Proof.
  induction line as [|c line IH]; intros Hn; cbn [app search length].
  - change (kCRLF ++ rest) with (Byte.x0d :: Byte.x0a :: rest). cbn [search]. by rewrite decide_True.
  - rewrite decide_False.
    2: { unfold kCRLF; cbn. intros [= -> _]. apply Hn. apply list_elem_of_here. }
    rewrite IH; [done|]. intros Hin. apply Hn. by apply list_elem_of_further.
Qed.


Lemma not_in_app (c : byte) l1 l2 : c ∉ l1 -> c ∉ l2 -> c ∉ l1 ++ l2.
Proof. rewrite elem_of_app. tauto. Qed.

Lemma find_method_print r :
  HttpRequest.method_ r <> HttpRequest.kInvalid ->
  HttpRequest.find_method (HttpRequest.method2Str r) HttpRequest.kMethods =
  Some (HttpRequest.method_ r).
Proof. unfold HttpRequest.method2Str. by destruct (HttpRequest.method_ r). Qed.

Lemma method_chars r c : c ∈ HttpRequest.method2Str r -> c <> chr 32 /\ c <> Byte.x0d.
Proof.
  unfold HttpRequest.method2Str. intros Hin.
  destruct (HttpRequest.method_ r); cbn in Hin; unfold chr; set_solver by (by compute).
Qed.

Section print_parse.
Context (rt : Z) (r : HttpRequest.t) (Hr : request_ok r).

(** The request as read after the request line and the headers [hs]. *)
Definition partial (hs : list (bytes * bytes)) : HttpRequest.t :=
  HttpRequest.mk (HttpRequest.method_ r) (HttpRequest.version_ r) (HttpRequest.path_ r)
    (HttpRequest.query_ r) [] rt hs.

Lemma print_line_no_cr : no_cr (print_line r).
Proof.
  unfold print_line, no_cr. destruct (ok_path r Hr) as (Hp & _ & _).
  repeat apply not_in_app; try done.
  - intros Hin%method_chars. by destruct Hin.
  - cbn. set_solver by (by compute).
  - destruct (ok_query r Hr) as [->|(q & -> & Hq & _)]; [set_solver|].
    intros [E|Hin]%elem_of_cons; [done|by apply Hq].
  - cbn. set_solver by (by compute).
  - destruct (HttpRequest.version_ r); cbn; set_solver by (by compute).
Qed.

Lemma process_print_line :
  exists r0, processRequestLine (print_line r) HttpRequest.make = (true, r0) /\
    HttpRequest.setReceiveTime rt r0 = partial [].
Proof.
  destruct (ok_path r Hr) as (Hp1 & Hp2 & Hp3). unfold processRequestLine, print_line, partial.
  change (str " ") with [chr 32]. cbn [app].
  rewrite find_byte_app_not by (intros Hin%method_chars; by destruct Hin).
  rewrite take_app_length. unfold HttpRequest.setMethod. rewrite find_method_print by apply Hr.
  cbn [negb]. rewrite drop_app_ge by lia.
  replace (length (HttpRequest.method2Str r) + 1 - length (HttpRequest.method2Str r)) with 1 by lia.
  cbn [drop]. rewrite ?drop_0.
  set (target := HttpRequest.path_ r ++ HttpRequest.query_ r).
  assert (chr 32 ∉ target) as Hsp.
  { apply not_in_app; [done|]. destruct (ok_query r Hr) as [->|(q & -> & _ & Hq)]; [set_solver|].
    intros [E|Hin]%elem_of_cons; [done|by apply Hq]. }
  rewrite (app_assoc (HttpRequest.path_ r)). fold target.
  rewrite find_byte_app_not by done. rewrite take_app_length, drop_app_ge by lia.
  replace (length target + 1 - length target) with 1 by lia. cbn [drop]. rewrite ?drop_0.
  set (r1 := match find_byte (chr 63) target with Some _ => _ | None => _ end).
  assert (r1 = HttpRequest.mk (HttpRequest.method_ r) HttpRequest.kUnknown (HttpRequest.path_ r)
                 (HttpRequest.query_ r) [] 0 []) as ->.
  { unfold r1, target. destruct (ok_query r Hr) as [->|(q & -> & _ & _)].
    - rewrite app_nil_r. rewrite (proj2 (find_byte_None _ _)) by done. done.
    - rewrite find_byte_app_not by done. by rewrite take_app_length, drop_app_length. }
  pose proof (ok_version r Hr). destruct (HttpRequest.version_ r) eqn:Ev; [done|..]; by eexists.
Qed.

Lemma header_line h rest c :
  header_ok h -> state_ c = kExpectHeaders ->
  parse_step rt c (print_header h ++ rest) =
  (true, true, set_request_ (HttpRequest.set_headers_
     (StdMap.assign h.1 h.2 (HttpRequest.headers_ (request_ c))) (request_ c)) c, rest).
Proof.
  destruct h as [k v]. intros (H1 & H2 & H3 & Ht1 & Ht2) Hs. cbn [fst snd] in *.
  unfold parse_step, findCRLF, print_header. rewrite Hs. cbn [peek queue_buffer retrieve fst snd].
  replace ((k ++ str ": " ++ v ++ kCRLF) ++ rest) with ((k ++ chr 58 :: chr 32 :: v) ++ kCRLF ++ rest)
    by (by rewrite <- !app_assoc).
  rewrite search_crlf.
  2: { apply not_in_app; [done|]. intros [E|[E|Hin]%elem_of_cons]%elem_of_cons; [done|done|by apply H3]. }
  rewrite take_app_length. rewrite find_byte_app_not by done. cbn [peek queue_buffer].
  rewrite (drop_app_ge _ (kCRLF ++ rest)) by lia.
  replace (length (k ++ chr 58 :: chr 32 :: v) + 2 - length (k ++ chr 58 :: chr 32 :: v)) with 2 by lia.
  unfold HttpRequest.addHeader. rewrite take_app_length, drop_app_ge by lia.
  replace (length k + 1 - length k) with 1 by lia. cbn [drop]. rewrite ?drop_0.
  change (ltrim (chr 32 :: v)) with (ltrim v). by rewrite Ht1, Ht2.
Qed.

Lemma headers_parse hs1 hs2 c rest res :
  HttpRequest.headers_ r = hs1 ++ hs2 -> state_ c = kExpectHeaders -> request_ c = partial hs1 ->
  parses rt (set_request_ (partial (HttpRequest.headers_ r)) c) rest res ->
  parses rt c (concat (map print_header hs2) ++ rest) res.
Proof.
  destruct (ok_headers r Hr) as [Hok Hwf]. revert hs1 c.
  induction hs2 as [|[k v] hs2 IH]; intros hs1 c Hsplit Hs Hc Hp; cbn [map concat].
  - rewrite app_nil_r in Hsplit. rewrite Hsplit, <- Hc in Hp. by destruct c.
  - rewrite <- app_assoc. eapply parses_turn; [apply header_line; [|done]|].
    + rewrite Hsplit in Hok. apply Forall_app in Hok as [_ Hok]. by inversion Hok.
    + rewrite Hc. cbn [partial HttpRequest.headers_ fst snd].
      apply (IH (hs1 ++ [(k, v)])).
      * by rewrite <- app_assoc.
      * done.
      * rewrite Hsplit in Hwf. unfold StdMap.assign.
        rewrite StdMapFacts.insert_with_snoc; [done|].
        by apply StdMapFacts.wf_app_inv in Hwf as [? _].
      * done.
Qed.

Lemma print_request_parses extra :
  parses rt make (print_request r ++ extra)
    (true, mk kGotAll (HttpRequest.setReceiveTime rt r) (Z.of_nat (length (HttpRequest.body_ r))), extra).
Proof.
  destruct process_print_line as (r0 & Hline & Hr0).
  unfold print_request. rewrite <- !app_assoc.
  eapply parses_turn.
  { unfold parse_step, findCRLF. cbn [make state_ request_ peek queue_buffer retrieve].
    rewrite search_crlf by apply print_line_no_cr. rewrite take_app_length, Hline.
    cbn [set_request_ request_]. rewrite Hr0. rewrite drop_app_ge by lia.
    replace (length (print_line r) + 2 - length (print_line r)) with 2 by lia. reflexivity. }
  change (drop 2 _) with (concat (map print_header (HttpRequest.headers_ r)) ++ kCRLF ++
                          HttpRequest.body_ r ++ extra).
  eapply (headers_parse []); [done..|]. cbn [set_request_ set_state_ state_ request_ contentLength_].
  assert (HttpRequest.setBody (HttpRequest.body_ r) (partial (HttpRequest.headers_ r)) =
          HttpRequest.setReceiveTime rt r) as Hbody by (unfold partial; by destruct r).
  assert (parse_step rt (mk kExpectHeaders (partial (HttpRequest.headers_ r)) 0)
            (kCRLF ++ HttpRequest.body_ r ++ extra) =
          (true, (0 <? length (HttpRequest.body_ r)),
           mk (if 0 <? length (HttpRequest.body_ r) then kExpectBody else kGotAll)
             (partial (HttpRequest.headers_ r)) (Z.of_nat (length (HttpRequest.body_ r))),
           HttpRequest.body_ r ++ extra)) as Hblank.
  { unfold parse_step, findCRLF. cbn [state_ request_ peek queue_buffer retrieve].
    assert (search kCRLF (kCRLF ++ HttpRequest.body_ r ++ extra) = Some 0) as ->
      by (apply (search_crlf []); unfold no_cr; set_solver).
    cbn [take find_byte length].
    unfold parseContentLength. cbn [request_ partial HttpRequest.headers_]. rewrite (ok_body r Hr).
    cbn [negb set_contentLength_ contentLength_ set_state_ state_ request_].
    destruct (Nat.ltb_spec 0 (length (HttpRequest.body_ r))).
    - by rewrite (proj2 (Z.ltb_lt 0 _)) by lia.
    - by rewrite (proj2 (Z.ltb_ge 0 _)) by lia. }
  destruct (Nat.ltb_spec 0 (length (HttpRequest.body_ r))) as [Hpos|Hz].
  - eapply parses_turn; [exact Hblank|]. eapply parses_turn.
    { unfold parse_step. cbn [state_ contentLength_ readableBytes peek queue_buffer retrieve request_].
      rewrite (proj2 (Z.leb_le _ _)) by len_lia. rewrite Nat2Z.id, take_app_length, drop_app_length.
      reflexivity. }
    cbn [set_request_ set_state_ state_ request_ contentLength_]. rewrite Hbody. by apply parses_end.
  - assert (HttpRequest.body_ r = []) as Hnil by (apply nil_length_inv; lia).
    rewrite <- Hbody. rewrite Hnil in *. by apply parses_end.
Qed.

End print_parse.

(** ** Properties *)

(** The parser is incremental: for arbitrary input, cut into segments in any
    way and held in any lawful buffer, the loop of parseRequest ends at every
    call, and the verdict, the state and the request are those of one call on
    the whole input; when nothing was wrong, so are the bytes left over. *)
Theorem http_segmentation {B : Type} `{ByteBufferLaws B} (rt : Z) (segments : list bytes) :
  exists ok c (buf : B) rest,
    feed rt segments make buf_new = Some (ok, c, buf) /\
    parseRequest rt make (concat segments) = Some (ok, c, rest) /\
    (ok = true -> peek buf = rest).
Proof.
  destruct (feed_new (B := B) rt segments) as (ok & c & buf & rest & Hf & Hp & Hrest).
  exists ok, c, buf, rest. split_and!; [done| |done]. by apply parseRequest_parses.
Qed.

Lemma http_segmentation_witness :
  exists ok c (buf : bytes) rest,
    feed 5 [str "GET / HT"; str "TP/1.1"; kCRLF] make buf_new = Some (ok, c, buf) /\
    parseRequest 5 make (concat [str "GET / HT"; str "TP/1.1"; kCRLF]) = Some (ok, c, rest) /\
    (ok = true -> peek buf = rest).
Proof. apply (http_segmentation (B := bytes)). Defined.

(** C30 Round trip: a well-formed request (a known method and version, path and
    query without spaces, headers with distinct names and trimmed values, a body
    of the announced length) that is printed and received in any segmentation,
    followed by whatever comes next, is parsed to exactly this request, complete,
    with the following bytes still in the buffer. *)
Theorem http_request_roundtrip {B : Type} `{ByteBufferLaws B} (rt : Z) (r : HttpRequest.t)
    (segments : list bytes) (next : bytes) :
  request_ok r -> concat segments = print_request r ++ next ->
  exists buf : B,
    feed rt segments make buf_new =
      Some (true, mk kGotAll (HttpRequest.setReceiveTime rt r)
                    (Z.of_nat (length (HttpRequest.body_ r))), buf) /\
    peek buf = next.
Proof.
  intros Hr Hseg. destruct (feed_new (B := B) rt segments) as (ok & c & buf & rest & Hf & Hp & Hrest).
  rewrite Hseg in Hp. pose proof (print_request_parses rt r Hr next) as Hq.
  eapply parses_det in Hq; [|exact Hp]. injection Hq as -> -> ->.
  exists buf. auto.
Qed.

Definition sample_request : HttpRequest.t :=
  HttpRequest.mk HttpRequest.kPost HttpRequest.kHttp11 (str "/api/login") (str "?x=1") (str "hi") 0
    [(str "Host", str "rmuduo"); (str "content-length", str "2")].

Lemma sample_request_ok : request_ok sample_request.
Proof.
  split; try done.
  - unfold no_cr, no_char. split_and!; apply (bool_decide_unpack _); vm_compute; exact I.
  - right. exists (str "x=1"). unfold no_cr, no_char.
    split_and!; [done|apply (bool_decide_unpack _); vm_compute; exact I..].
  - split.
    + repeat (apply Forall_cons; split); [..|apply Forall_nil_2]; unfold header_ok, no_cr, no_char, trimmed;
        split_and!; try reflexivity; apply (bool_decide_unpack _); vm_compute; exact I.
    + unfold StdMap.wf; cbn [map fst sample_request HttpRequest.headers_]. repeat constructor.
Qed.

Lemma http_request_roundtrip_witness :
  let wire := print_request sample_request ++ str "GET" in
  exists buf : bytes,
    feed 9 [take 10 wire; drop 10 wire] make buf_new =
      Some (true, mk kGotAll (HttpRequest.setReceiveTime 9 sample_request)
                    (Z.of_nat (length (HttpRequest.body_ sample_request))), buf) /\
    peek buf = str "GET".
Proof.
  intros wire. apply (http_request_roundtrip (B := bytes) 9 sample_request).
  - exact sample_request_ok.
  - vm_compute. reflexivity.
Defined.

(** What a Content-Length value has to be: after trimming, digits only, at least
    one, and a number that fits [size_t]. *)
Definition length_value (value : bytes) : option Z :=
  let v := rtrim (ltrim value) in
  if decide (v <> [] /\ Forall isdigit v) then
    let n := foldl (fun a c => 10 * a + digit_value c)%Z 0%Z v in
    if (n <? 2 ^ 64)%Z then Some n else None
  else None.

(** Content-Length: the loop over the headers takes the value of the first
    header whose name matches without regard to case, accepts it exactly when it
    is a number that fits 64 bits, and says 0 when there is no such header. *)
Theorem content_length_correct (headers : list (bytes * bytes)) :
  content_length_loop headers =
  match List.find (fun h => equalCaseInsensitive h.1 (str "Content-Length")) headers with
  | Some h => length_value h.2
  | None => Some 0%Z
  end.
Proof.
  induction headers as [|[k v] headers IH]; [done|]. cbn [content_length_loop List.find fst snd].
  destruct (equalCaseInsensitive k (str "Content-Length")); cbn [negb]; [|exact IH]. clear IH.
  unfold length_value. cbn [snd]. generalize (rtrim (ltrim v)) as l. intros l.
  destruct l as [|c l]; [done|]. cbn [length Nat.eqb]. unfold from_chars.
  destruct (isdigit c) eqn:Ec.
  - destruct (decide (c :: l <> [] /\ Forall isdigit (c :: l))) as [[_ Hd]|Hno].
    + pose proof (read_digits_app (c :: l) [] 0 Hd I) as Hread. rewrite app_nil_r in Hread.
      rewrite Hread. by destruct (_ <? _)%Z.
    + destruct (read_digits (c :: l) 0) as [n rest] eqn:E.
      destruct rest as [|x rest]; [|by destruct (_ <? _)%Z].
      exfalso. apply Hno. split; [done|]. by eapply read_digits_all.
  - rewrite decide_False; [done|]. intros [_ Hd]. inversion Hd as [|? ? Hc _]; subst.
    by rewrite Ec in Hc.
Qed.
