(* ===== verification/HttpServer.v ===== *)
(** * src/http/HttpResponse.h, src/http/HttpResponse.cc, src/http/HttpServer.cc

    Responses, and what the HTTP server does with the bytes of one connection:
    its reads in order, the requests they complete and what is sent back. *)

From S2P Require Import Prelude Bytes ByteBuffer StdMap Text HttpContext HttpContextFacts.

Module HttpResponse.

Definition kUnknown : Z := 0.
Definition k200Ok : Z := 200.
Definition k301MovedPermanently : Z := 301.
Definition k400BadRequest : Z := 400.
Definition k401Unauthorized : Z := 401.
Definition k404NotFound : Z := 404.

Record t := mk {
  headers_ : list (bytes * bytes);
  statusCode_ : Z;
  statusMessage_ : bytes;
  closeConnection_ : bool;
  body_ : bytes;
}.

Definition make (close : bool) : t := mk [] kUnknown [] close [].

Definition setStatusCode (v : Z) (r : t) : t :=
  mk (headers_ r) v (statusMessage_ r) (closeConnection_ r) (body_ r).
Definition setStatusMessage (v : bytes) (r : t) : t :=
  mk (headers_ r) (statusCode_ r) v (closeConnection_ r) (body_ r).
Definition setCloseConnection (v : bool) (r : t) : t :=
  mk (headers_ r) (statusCode_ r) (statusMessage_ r) v (body_ r).
Definition addHeader (field value : bytes) (r : t) : t :=
  mk (StdMap.assign field value (headers_ r)) (statusCode_ r) (statusMessage_ r)
     (closeConnection_ r) (body_ r).
Definition setContentType (v : bytes) (r : t) : t := addHeader (str "Content-Type") v r.
Definition setBody (v : bytes) (r : t) : t :=
  mk (headers_ r) (statusCode_ r) (statusMessage_ r) (closeConnection_ r) v.

Definition CRLF : bytes := [Byte.x0d; Byte.x0a].

Definition header_line (h : bytes * bytes) : bytes := h.1 ++ str ": " ++ h.2 ++ CRLF.

Section append.
Context {B : Type} `{ByteBuffer B}.

Definition appendToBuffer (r : t) (output : B) : B :=
  let output := append (str "HTTP/1.1 " ++ format_dec (statusCode_ r) ++ str " " ++
                        statusMessage_ r ++ CRLF) output in
  let output :=
    if closeConnection_ r then append (str "Connection: close" ++ CRLF) output
    else
      let output := append (str "Content-Length: " ++ format_dec (Z.of_nat (length (body_ r))) ++ CRLF)
                      output in
      append (str "Connection: Keep-Alive" ++ CRLF) output in
  let output := foldl (fun output h => append (header_line h) output) output (headers_ r) in
  let output := append CRLF output in
  append (body_ r) output.

End append.

(** ** Specification: the lines of the head, a blank line, the body *)

Definition head_lines (r : t) : list bytes :=
  [str "HTTP/1.1 " ++ format_dec (statusCode_ r) ++ str " " ++ statusMessage_ r] ++
  (if closeConnection_ r then [str "Connection: close"]
   else [str "Content-Length: " ++ format_dec (Z.of_nat (length (body_ r)));
         str "Connection: Keep-Alive"]) ++
  map (fun h => h.1 ++ str ": " ++ h.2) (headers_ r).

Definition print (r : t) : bytes :=
  concat (map (fun l => l ++ CRLF) (head_lines r)) ++ CRLF ++ body_ r.

End HttpResponse.

(** ** HttpServer *)

Module HttpServer.

Inductive output := Send (data : bytes) | Shutdown.

Definition BADREQUEST : bytes := str "HTTP/1.1 400 Bad Request" ++ HttpResponse.CRLF ++ HttpResponse.CRLF.

Definition defaultHttpCallback (req : HttpRequest.t) (resp : HttpResponse.t) : HttpResponse.t :=
  HttpResponse.setCloseConnection true
    (HttpResponse.setStatusMessage (str "Not Found")
      (HttpResponse.setStatusCode HttpResponse.k404NotFound resp)).

(** [onConnection] for a connection that comes up: [setContext(HttpContext())]. *)
Definition onConnection : HttpContext.t := HttpContext.make.

Section server.
(** [httpCallback_], which fills the response. *)
Context (httpCallback_ : HttpRequest.t -> HttpResponse.t -> HttpResponse.t).
Context {B : Type} `{ByteBuffer B}.

Definition onRequest (req : HttpRequest.t) : list output :=
  let connection := HttpRequest.getHeader (str "Connection") req in
  let close := bool_decide (connection = str "close") ||
               (bool_decide (HttpRequest.version_ req = HttpRequest.kHttp10) &&
                bool_decide (connection <> str "Keep-Alive")) in
  let response := httpCallback_ req (HttpResponse.make close) in
  let buf : B := HttpResponse.appendToBuffer response buf_new in
  [Send (peek buf)] ++ (if HttpResponse.closeConnection_ response then [Shutdown] else []).

Definition onMessage (receiveTime : Z) (context : HttpContext.t) (buf : B)
    : option (HttpContext.t * B * list output) :=
  '(ok, context, buf) ← HttpContext.parseRequest receiveTime context buf;
  let out := if negb ok then [Send BADREQUEST; Shutdown] else [] in
  if HttpContext.gotAll context
  then Some (HttpContext.reset context, buf, out ++ onRequest (HttpContext.request_ context))
  else Some (context, buf, out).

(** The reads of one connection, in order. *)
Fixpoint serve (receiveTime : Z) (reads : list bytes) (context : HttpContext.t) (buf : B)
    : option (HttpContext.t * B * list output) :=
  match reads with
  | [] => Some (context, buf, [])
  | data :: reads' =>
      '(context, buf, out) ← onMessage receiveTime context (append data buf);
      '(context, buf, more) ← serve receiveTime reads' context buf;
      Some (context, buf, out ++ more)
  end.

End server.
End HttpServer.

(** ** Lemmas *)

Import HttpResponse HttpServer.

Section responses.
Context {B : Type} `{ByteBufferLaws B}.

Lemma append_headers_peek hs (buf : B) :
  buf_wf buf ->
  let buf' := foldl (fun output h => append (header_line h) output) buf hs in
  buf_wf buf' /\ peek buf' = peek buf ++ concat (map header_line hs).
Proof.
  revert buf. induction hs as [|h hs IH]; intros buf Hw; cbn; [by rewrite app_nil_r|].
  destruct (IH (append (header_line h) buf)) as [Hw' ->]; [auto|].
  split; [done|]. by rewrite peek_append, <- app_assoc.
Qed.

Lemma concat_lines_app l1 l2 :
  concat (map (fun l : bytes => l ++ CRLF) (l1 ++ l2)) =
  concat (map (fun l => l ++ CRLF) l1) ++ concat (map (fun l => l ++ CRLF) l2).
Proof. by rewrite map_app, concat_app. Qed.

Lemma append_response_peek r (buf : B) :
  buf_wf buf -> buf_wf (appendToBuffer r buf) /\ peek (appendToBuffer r buf) = peek buf ++ print r.
Proof.
  intros Hw. unfold appendToBuffer, print, head_lines.
  set (b1 := append _ buf). assert (buf_wf b1) as Hw1 by (unfold b1; auto).
  set (b2 := if closeConnection_ r then _ else _).
  assert (buf_wf b2) as Hw2 by (unfold b2; destruct (closeConnection_ r); auto).
  destruct (append_headers_peek (headers_ r) b2 Hw2) as [Hw3 Hp3]. cbv zeta in Hp3, Hw3.
  split; [auto|]. rewrite !peek_append by auto. rewrite Hp3.
  rewrite !concat_lines_app, map_map.
  replace (concat (map (fun x => (x.1 ++ str ": " ++ x.2) ++ CRLF) (headers_ r)))
    with (concat (map header_line (headers_ r))).
  2: { f_equal. apply map_ext. intros [k v]. unfold header_line; cbn. by rewrite <- !app_assoc. }
  unfold b2, b1. destruct (closeConnection_ r); rewrite !peek_append by auto; cbn [map concat];
    rewrite ?app_nil_r, <- !app_assoc; done.
Qed.

End responses.

(** ** Where the head ends *)

Definition blank : bytes := CRLF ++ CRLF.

(** A byte that does not start the pattern is skipped. *)
Lemma search_skip (c : byte) l : c <> Byte.x0d -> search blank (c :: l) = S <$> search blank l.
Proof. intros Hc. cbn [search]. rewrite decide_False; [done|]. unfold blank. cbn. congruence. Qed.

Lemma search_line line l :
  no_cr line -> search blank (line ++ l) = (fun n => length line + n) <$> search blank l.
Proof.
  intros Hn. induction line as [|c line IH]; cbn [app length].
  - by destruct (search blank l).
  - rewrite search_skip by (intros ->; apply Hn, list_elem_of_here).
    rewrite IH by (intros Hin; by apply Hn, list_elem_of_further).
    by destruct (search blank l).
Qed.

Lemma search_crlf_line c l :
  c <> Byte.x0d -> search blank (CRLF ++ c :: l) = (fun n => 2 + n) <$> search blank (c :: l).
Proof.
  intros Hc. change (CRLF ++ c :: l) with (Byte.x0d :: Byte.x0a :: c :: l).
  assert (search blank (Byte.x0a :: c :: l) = S <$> search blank (c :: l)) as Hlf
    by (apply search_skip; discriminate).
  assert (take (length blank) (Byte.x0d :: Byte.x0a :: c :: l) <> blank) as Hne
    by (intros [= Hx _]; by apply Hc).
  generalize dependent (c :: l). intros m Hlf Hne. cbn [search]. cbn [search] in Hlf.
  rewrite decide_False, Hlf by exact Hne. by destruct (search blank m).
Qed.

(** The head: lines that are not empty and have no CR. *)
Lemma search_head lines body :
  Forall (fun l => no_cr l /\ l <> []) lines -> lines <> [] ->
  search blank (concat (map (fun l => l ++ CRLF) lines) ++ CRLF ++ body) =
  Some (length (concat (map (fun l => l ++ CRLF) lines)) - 2).
Proof.
  induction 1 as [|l lines [Hcr Hne] Hl IH]; intros Hlines; [done|].
  cbn [map concat]. rewrite <- !app_assoc, search_line by done. lens.
  destruct lines as [|l2 lines].
  - cbn [map concat app]. change (CRLF ++ CRLF ++ body) with (blank ++ body).
    destruct body; cbn [app blank CRLF search]; rewrite decide_True by done; cbn; f_equal; lia.
  - specialize (IH ltac:(done)). inversion Hl as [|? ? [Hcr2 Hne2] _]; subst.
    destruct l2 as [|c l2]; [done|].
    assert (c <> Byte.x0d) as Hc by (intros ->; apply Hcr2, list_elem_of_here).
    revert IH. cbn [map concat app]. intros IH. rewrite search_crlf_line by done.
    rewrite IH. cbn [fmap option_fmap option_map]. f_equal. lens. change (length CRLF) with 2. lia.
Qed.

Definition response_ok (r : HttpResponse.t) : Prop :=
  (0 <= statusCode_ r < 10 ^ 20)%Z /\ no_cr (statusMessage_ r) /\
  Forall (fun h => no_cr h.1 /\ no_cr h.2) (headers_ r).

Lemma digits_no_cr l : Forall isdigit l -> no_cr l.
Proof.
  intros Hl Hin. rewrite Forall_forall in Hl. by apply Hl in Hin.
Qed.

Lemma str_no_cr s : bool_decide (no_cr (str s)) = true -> no_cr (str s).
Proof. apply bool_decide_eq_true. Qed.

Lemma head_lines_ok r :
  response_ok r -> (Z.of_nat (length (body_ r)) < 10 ^ 20)%Z ->
  Forall (fun l => no_cr l /\ l <> []) (head_lines r).
Proof.
  intros (Hcode & Hmsg & Hhs) Hbody. unfold head_lines.
  destruct (format_dec_digits (statusCode_ r) Hcode) as [Hd1 _].
  destruct (format_dec_digits (Z.of_nat (length (body_ r)))) as [Hd2 _]; [lia|].
  apply Forall_app; split; [|apply Forall_app; split].
  - apply Forall_singleton. split; [|done].
    repeat apply not_in_app; [by apply str_no_cr|by apply digits_no_cr|by apply str_no_cr|done].
  - destruct (closeConnection_ r).
    + apply Forall_singleton. split; [by apply str_no_cr|done].
    + apply Forall_cons. split; [|apply Forall_singleton; split; [by apply str_no_cr|done]].
      split; [|done]. apply not_in_app; [by apply str_no_cr|by apply digits_no_cr].
  - apply Forall_map. eapply Forall_impl; [exact Hhs|]. intros [k v] [Hk Hv]. cbn [fst snd] in *. split.
    + apply not_in_app; [done|]. apply not_in_app; [by apply str_no_cr|done].
    + by destruct k.
Qed.

(** ** The reads of one request *)

Import HttpContext.

Section serving.
Context (httpCallback_ : HttpRequest.t -> HttpResponse.t -> HttpResponse.t).
Context {B : Type} `{ByteBufferLaws B} (rt : Z).

#[local] Abbreviation answer r := (onRequest httpCallback_ (B := B) r).

(** What is left to parse gives what the whole would. *)
Lemma parses_rest c data c' rest more r :
  parses rt c data (true, c', rest) -> parses rt c (data ++ more) r -> parses rt c' (rest ++ more) r.
Proof.
  intros Hp Hr. destruct (parseRequest_total rt c' (rest ++ more)) as [r' Hr'].
  apply parseRequest_parses in Hr'. pose proof (parses_more rt _ _ _ _ _ _ Hp Hr') as Hq.
  by rewrite (parses_det rt _ _ _ _ Hr Hq).
Qed.

(** Requests cut into non-empty reads: nothing is sent before the last of
    them, which completes it. *)
Lemma serve_request segs c (buf : B) fin next :
  buf_wf buf -> state_ fin = kGotAll -> segs <> [] ->
  (forall pre post, segs = pre ++ post -> post <> [] -> length next < length (concat post)) ->
  parses rt c (peek buf ++ concat segs) (true, fin, next) ->
  exists buf' : B, serve httpCallback_ rt segs c buf = Some (make, buf', answer (request_ fin)) /\
    buf_wf buf' /\ peek buf' = next.
Proof.
  intros Hw Hfin. revert c buf Hw. induction segs as [|seg segs IH]; intros c buf Hw Hne Hlen Hp; [done|].
  cbn [serve concat] in *. rewrite app_assoc in Hp. unfold onMessage.
  destruct (parseRequest_spec rt c (append seg buf)) as (ok & c1 & buf1 & -> & Hw1 & Hp1); [auto|].
  rewrite peek_append in Hp1 by done. cbn [mbind option_bind].
  destruct ok.
  2: { apply parses_fail with (more := concat segs) in Hp1. by pose proof (parses_det rt _ _ _ _ Hp Hp1). }
  pose proof (parses_rest _ _ _ _ _ _ Hp1 Hp) as Hrest. cbn [negb app].
  destruct segs as [|seg2 segs].
  - cbn [concat] in Hp. rewrite app_nil_r in Hp. pose proof (parses_det rt _ _ _ _ Hp Hp1) as [= <- Hn].
    unfold gotAll. rewrite bool_decide_eq_true_2 by done. cbn [serve mbind option_bind].
    exists buf1. rewrite app_nil_r. done.
  - assert (state_ c1 <> kGotAll) as Hc1.
    { intros Hc1. assert (parses rt c1 (peek buf1 ++ concat (seg2 :: segs))
                            (true, c1, peek buf1 ++ concat (seg2 :: segs))) as Hd
        by (apply parses_end; unfold parse_step; by rewrite Hc1).
      pose proof (parses_det rt _ _ _ _ Hd Hrest) as [= _ E].
      specialize (Hlen [seg] (seg2 :: segs) eq_refl ltac:(done)).
      apply (f_equal length) in E. cbn [concat] in Hlen. revert E. lens. lia. }
    unfold gotAll at 1. rewrite bool_decide_eq_false_2 by done.
    destruct (IH c1 buf1 Hw1) as (buf' & Hs & Hw' & Hpk); [done| |exact Hrest|].
    { intros pre post E. apply (Hlen (seg :: pre)). by rewrite E. }
    cbn [serve mbind option_bind] in *. rewrite Hs. by exists buf'.
Qed.

End serving.

(** ** Properties *)

(** What a request that was read at [rt] has to be answered. *)
Definition wants_close (r : HttpRequest.t) : bool :=
  let connection := HttpRequest.getHeader (str "Connection") r in
  match HttpRequest.version_ r with
  | HttpRequest.kHttp10 => negb (bool_decide (connection = str "Keep-Alive"))
  | _ => bool_decide (connection = str "close")
  end.

Definition expected (cb : HttpRequest.t -> HttpResponse.t -> HttpResponse.t) (rt : Z)
    (r : HttpRequest.t) : list output :=
  let response := cb (HttpRequest.setReceiveTime rt r) (HttpResponse.make (wants_close r)) in
  Send (print response) :: if closeConnection_ response then [Shutdown] else [].

Lemma onRequest_expected {B : Type} `{ByteBufferLaws B} cb rt r :
  onRequest cb (B := B) (HttpRequest.setReceiveTime rt r) = expected cb rt r.
Proof.
  unfold onRequest, expected. set (r' := HttpRequest.setReceiveTime rt r).
  assert (forall b : bool, b = wants_close r ->
    Send (peek (appendToBuffer (cb r' (HttpResponse.make b)) (buf_new : B))) ::
      (if closeConnection_ (cb r' (HttpResponse.make b)) then [Shutdown] else []) =
    Send (print (cb r' (HttpResponse.make (wants_close r)))) ::
      (if closeConnection_ (cb r' (HttpResponse.make (wants_close r))) then [Shutdown] else [])) as Hb.
  { intros b ->. destruct (append_response_peek (cb r' (HttpResponse.make (wants_close r))) (buf_new : B))
      as [_ ->]; [auto|]. by rewrite peek_new. }
  cbn [app]. rewrite Hb; [done|]. unfold wants_close.
  change (HttpRequest.getHeader (str "Connection") r') with (HttpRequest.getHeader (str "Connection") r).
  change (HttpRequest.version_ r') with (HttpRequest.version_ r).
  generalize (HttpRequest.getHeader (str "Connection") r) as con. intros con.
  destruct (HttpRequest.version_ r); try (rewrite orb_false_r; done).
  repeat case_bool_decide; subst; done.
Qed.

Lemma nonempty_reads (pre post : list bytes) : 
  Forall (fun d => d <> []) (pre ++ post) -> post <> [] -> 0 < length (concat post).
Proof.
  intros [_ Hp]%Forall_app Hne. destruct post as [|x post]; [done|].
  inversion Hp as [|? ? Hx _]; subst. cbn. lens. destruct x; [done|]. cbn. lia.
Qed.

Lemma serve_app {B : Type} `{ByteBuffer B} cb rt s1 s2 c (buf : B) c1 buf1 out1 c2 buf2 out2 :
  serve cb rt s1 c buf = Some (c1, buf1, out1) -> serve cb rt s2 c1 buf1 = Some (c2, buf2, out2) ->
  serve cb rt (s1 ++ s2) c buf = Some (c2, buf2, out1 ++ out2).
Proof.
  revert c buf out1. induction s1 as [|seg s1 IH]; intros c buf out1; cbn [serve app].
  - by intros [= <- <- <-].
  - destruct (onMessage _ _ _ _) as [[[c' buf'] out]|]; cbn [mbind option_bind]; [|done].
    destruct (serve cb rt s1 c' buf') as [[[c'' buf''] more]|] eqn:E; cbn [mbind option_bind]; [|done].
    intros [= <- <- <-] H2. rewrite (IH _ _ _ E H2). cbn [mbind option_bind]. by rewrite <- app_assoc.
Qed.

(** The context when the request has been read. *)
Definition complete (rt : Z) (r : HttpRequest.t) : HttpContext.t :=
  mk kGotAll (HttpRequest.setReceiveTime rt r) (Z.of_nat (length (HttpRequest.body_ r))).

Lemma print_request_nonempty r : print_request r <> [].
Proof.
  intros E. apply (f_equal length) in E. revert E. unfold print_request, print_line. lens.
  change (length kCRLF) with 2. lia.
Qed.

(** Keep-alive: on one connection a sequence of well-formed requests, each cut
    into non-empty reads in any way, is answered in order, each request exactly
    once and with the printed response of the callback for exactly that request;
    the connection is shut down after the responses that say close; the context is
    reset and the input buffer empty at the end. *)
Theorem keep_alive_sequence {B : Type} `{ByteBufferLaws B}
    (cb : HttpRequest.t -> HttpResponse.t -> HttpResponse.t) (rt : Z)
    (reqs : list (HttpRequest.t * list bytes)) :
  Forall (fun q => request_ok q.1 /\ Forall (fun d => d <> []) q.2 /\ concat q.2 = print_request q.1) reqs ->
  exists buf : B,
    serve cb rt (concat (map snd reqs)) onConnection buf_new =
      Some (make, buf, concat (map (fun q => expected cb rt q.1) reqs)) /\
    peek buf = [].
Proof.
  intros Hall.
  assert (forall buf : B, buf_wf buf -> peek buf = [] -> exists buf' : B,
    serve cb rt (concat (map snd reqs)) make buf =
      Some (make, buf', concat (map (fun q => expected cb rt q.1) reqs)) /\ peek buf' = []) as Hgen.
  2: { apply Hgen; [auto|apply peek_new]. }
  induction Hall as [|[r segs] reqs (Hr & Hne & Hseg) _ IH]; intros buf Hw Hpk; cbn [map concat fst snd] in *.
  - by exists buf.
  - pose proof (print_request_parses rt r Hr []) as Hp. rewrite app_nil_r, <- Hseg in Hp.
    destruct (serve_request cb rt segs make buf (complete rt r) [] Hw eq_refl) as (buf1 & Hs & Hw1 & Hp1).
    + intros ->. cbn in Hseg. by apply (print_request_nonempty r).
    + intros pre post -> Hpost. by eapply nonempty_reads.
    + by rewrite Hpk.
    + destruct (IH buf1 Hw1 Hp1) as (buf' & Hs' & Hp'). exists buf'. split; [|done].
      cbn [complete request_] in Hs. rewrite onRequest_expected in Hs. by eapply serve_app.
Qed.

(** [GET / HTTP/1.1] and a request with a body that asks to close. *)
Definition get_request : HttpRequest.t :=
  HttpRequest.mk HttpRequest.kGet HttpRequest.kHttp11 (str "/") [] [] 0 [].

Lemma get_request_ok : request_ok get_request.
Proof.
  split; try done.
  - unfold no_cr, no_char. split_and!; apply (bool_decide_unpack _); vm_compute; exact I.
  - by left.
  - split; [apply Forall_nil_2|]. unfold StdMap.wf. cbn. constructor.
Qed.

Lemma keep_alive_sequence_witness :
  let w1 := print_request get_request in
  let w2 := print_request sample_request in
  let reqs := [(get_request, [take 3 w1; drop 3 w1]); (sample_request, [w2])] in
  exists buf : bytes,
    serve defaultHttpCallback 7 (concat (map snd reqs)) onConnection buf_new =
      Some (make, buf, concat (map (fun q => expected defaultHttpCallback 7 q.1) reqs)) /\
    peek buf = [].
Proof.
  intros w1 w2 reqs. apply (keep_alive_sequence (B := bytes)).
  apply Forall_cons; split; [|apply Forall_singleton]; cbn [fst snd].
  - split; [exact get_request_ok|]. split; [|reflexivity].
    apply Forall_cons; split; [|apply Forall_singleton]; discriminate.
  - split; [exact sample_request_ok|]. split; [|reflexivity]. apply Forall_singleton. discriminate.
Defined.

(** A read that completes a request is answered for that request only: what
    follows it in the same read, be it a complete request, stays in the buffer
    unanswered until more bytes arrive. *)
Theorem pipelined_request_waits {B : Type} `{ByteBufferLaws B}
    (cb : HttpRequest.t -> HttpResponse.t -> HttpResponse.t) (rt : Z) (r1 r2 : HttpRequest.t) :
  request_ok r1 -> request_ok r2 ->
  exists buf : B,
    serve cb rt [print_request r1 ++ print_request r2] onConnection buf_new =
      Some (make, buf, expected cb rt r1) /\
    peek buf = print_request r2.
Proof.
  intros H1 H2. pose proof (print_request_parses rt r1 H1 (print_request r2)) as Hp.
  destruct (serve_request cb rt [print_request r1 ++ print_request r2] make (buf_new : B)
              (complete rt r1) (print_request r2) wf_new eq_refl) as (buf & Hs & _ & Hpk).
  - done.
  - intros [|x [|y pre]] post E Hpost; [|destruct post; [done|discriminate E]|discriminate E].
    cbn in E. subst post. cbn. lens.
    pose proof (print_request_nonempty r1). destruct (print_request r1); [done|]. cbn. lia.
  - rewrite peek_new. cbn. rewrite app_nil_r. exact Hp.
  - exists buf. cbn [complete request_] in Hs. by rewrite onRequest_expected in Hs.
Qed.

Lemma pipelined_request_waits_witness :
  exists buf : bytes,
    serve defaultHttpCallback 7 [print_request get_request ++ print_request sample_request]
      onConnection buf_new = Some (make, buf, expected defaultHttpCallback 7 get_request) /\
    peek buf = print_request sample_request.
Proof.
  apply (pipelined_request_waits (B := bytes)); [exact get_request_ok|exact sample_request_ok].
Defined.

(** Framing: the bytes of a response whose status is a number of at most 20
    digits and whose message and headers have no CR are the lines of its head,
    a blank line that is the first one, and exactly the body; the lines announce
    either that the connection closes or the exact number of body bytes. *)
Theorem response_framing {B : Type} `{ByteBufferLaws B} (r : HttpResponse.t) :
  response_ok r -> (Z.of_nat (length (body_ r)) < 2 ^ 64)%Z ->
  let wire := peek (appendToBuffer r (buf_new : B)) in
  exists n,
    search blank wire = Some n /\
    take (n + 2) wire = concat (map (fun l => l ++ CRLF) (head_lines r)) /\
    drop (n + 4) wire = body_ r /\
    (closeConnection_ r = true -> str "Connection: close" ∈ head_lines r) /\
    (closeConnection_ r = false -> exists d,
      (str "Content-Length: " ++ d) ∈ head_lines r /\
      from_chars d = Some (Z.of_nat (length (body_ r)), [])).
Proof.
  intros Hr Hbody. destruct (append_response_peek r (buf_new : B)) as [_ ->]; [auto|].
  rewrite peek_new. cbn [app]. set (h := concat (map (fun l => l ++ CRLF) (head_lines r))).
  assert (2 <= length h) as Hh.
  { unfold h, head_lines. cbn [app map concat]. lens. change (length CRLF) with 2. lia. }
  exists (length h - 2). unfold print. fold h. replace (length h - 2 + 2) with (length h) by lia.
  replace (length h - 2 + 4) with (length (h ++ CRLF)) by (lens; change (length CRLF) with 2; lia).
  split_and!.
  - apply search_head; [apply head_lines_ok; [done|lia]|]. unfold head_lines. by destruct (closeConnection_ r).
  - by rewrite take_app_length.
  - by rewrite app_assoc, drop_app_length.
  - unfold head_lines. intros ->. set_solver.
  - unfold head_lines. intros ->. exists (format_dec (Z.of_nat (length (body_ r)))). split; [set_solver|].
    pose proof (from_chars_format (Z.of_nat (length (body_ r))) []) as Hf. rewrite app_nil_r in Hf.
    apply Hf; [lia|done].
Qed.

Lemma response_framing_witness :
  let r := HttpResponse.setBody (str "hi") (HttpResponse.setStatusCode k200Ok (HttpResponse.make false)) in
  let wire := peek (appendToBuffer r (buf_new : bytes)) in
  exists n,
    search blank wire = Some n /\
    take (n + 2) wire = concat (map (fun l => l ++ CRLF) (head_lines r)) /\
    drop (n + 4) wire = body_ r /\
    (closeConnection_ r = true -> str "Connection: close" ∈ head_lines r) /\
    (closeConnection_ r = false -> exists d,
      (str "Content-Length: " ++ d) ∈ head_lines r /\
      from_chars d = Some (Z.of_nat (length (body_ r)), [])).
Proof.
  intros r. apply (response_framing (B := bytes) r).
  - split; [|split]; [cbn; unfold k200Ok; lia|unfold no_cr; cbn; set_solver|apply Forall_nil_2].
  - cbn. lia.
Defined.
