(* ===== verification/TcpApplication.v ===== *)
(** * Applications on a TCP connection

    What src/example/echo_server.cc and src/http/HttpServer.cc do with a
    connection: callbacks that only answer what they read.  The bytes such an
    application puts on the wire depend on nothing but the reads: not on how
    the kernel cuts the writes, nor on when the socket becomes writable. *)

From S2P Require Import Prelude Bytes ByteBuffer NetBuffer Channel TcpConnection TcpConnectionFacts HttpContext HttpContextFacts HttpServer.
Import TcpConnection.

(** The bytes given to sendInLoop. *)
Definition offered (log : list effect) : bytes := concat (given log).

Lemma offered_app l1 l2 : offered (l1 ++ l2) = offered l1 ++ offered l2.
Proof. unfold offered. by rewrite given_app, concat_app. Qed.

#[local] Arguments offered : simpl never.

Section application.
Context {B U : Type} `{ByteBufferLaws B} (cbs : callbacks B U) (u0 : U).
Implicit Types c : TcpConnection.t B U.

(** ** What the callbacks say, read by read *)

Definition app_start : U * B * list action :=
  let '(u, acts) := connectionCallback_ cbs true u0 in (u, buf_new, acts).

Definition app_read (s : U * B * list action) (data : bytes) : U * B * list action :=
  let '(u, buf, acts) := s in
  let '(u, buf, more) := messageCallback_ cbs u (append data buf) in
  (u, buf, acts ++ more).

Definition app_run (reads : list bytes) : U * B * list action := foldl app_read app_start reads.

(** What is sent before the connection is shut down. *)
Fixpoint spoken (acts : list action) : bytes :=
  match acts with
  | [] => []
  | Send data :: acts => data ++ spoken acts
  | Shutdown :: _ => []
  end.

Definition is_shutdown (a : action) : bool := match a with Shutdown => true | _ => false end.
Definition shuts (acts : list action) : bool := existsb is_shutdown acts.

#[local] Arguments shuts : simpl never.

Lemma shuts_cons a acts : shuts (a :: acts) = is_shutdown a || shuts acts.
Proof. done. Qed.

Lemma spoken_app a1 a2 : spoken (a1 ++ a2) = spoken a1 ++ (if shuts a1 then [] else spoken a2).
Proof.
  induction a1 as [|[data|] a1 IH]; cbn; [done| |done]. by rewrite IH, shuts_cons, app_assoc.
Qed.

Lemma shuts_app a1 a2 : shuts (a1 ++ a2) = shuts a1 || shuts a2.
Proof. apply existsb_app. Qed.

(** ** The connection *)

(** The data one event hands to the message callback. *)
Definition delivered (e : event) : list bytes :=
  match e with
  | Polled revents (Buffer.ReadData (b :: data)) =>
      if has revents (Z.lor EPOLLIN EPOLLPRI) then [b :: data] else []
  | _ => []
  end.

(** Nobody but the callbacks calls the connection. *)
Definition own (e : event) : bool :=
  match e with UserSend _ _ | UserShutdown _ => false | _ => true end.

Inductive runs : list bytes -> TcpConnection.t B U -> Prop :=
| runs_make sockfd ks : runs [] (make sockfd u0 ks)
| runs_step reads e c :
    runs reads c -> own e = true -> enabled e c = true -> runs (reads ++ delivered e) (step cbs e c).

Lemma runs_reachable reads c : runs reads c -> reachable cbs c.
Proof. induction 1; [apply reach_make|by apply reach_step]. Qed.

Fixpoint may_run (es : list event) c : bool :=
  match es with [] => true | e :: es => own e && enabled e c && may_run es (step cbs e c) end.

Lemma runs_events es reads c :
  runs reads c -> may_run es c = true ->
  runs (reads ++ concat (map delivered es)) (foldl (fun c e => step cbs e c) c es).
Proof.
  revert reads c. induction es as [|e es IH]; intros reads c Hr He; cbn in He |- *; [by rewrite app_nil_r|].
  apply andb_true_iff in He as [[Ho He]%andb_true_iff Hes]. rewrite app_assoc. apply IH; [by apply runs_step|done].
Qed.

(** Steps that leave the application alone, except that [more] is given to sendInLoop. *)
Record quiet (more : bytes) c c' : Prop := {
  quiet_state : state_ c' = state_ c;
  quiet_context : context_ c' = context_ c;
  quiet_input : inputBuffer_ c' = inputBuffer_ c;
  quiet_queue : queue c' = queue c;
  quiet_offered : offered (log c') = offered (log c) ++ more;
}.

Hypothesis no_write_complete : writeCompleteCallback_ cbs = None.
Hypothesis no_high_water : highWaterMarkCallback_ cbs = None.

Lemma no_wc : has_write_complete cbs = false.
Proof. unfold has_write_complete. by rewrite no_write_complete. Qed.
Lemma no_hw : has_high_water cbs = false.
Proof. unfold has_high_water. by rewrite no_high_water. Qed.

Lemma offered_silent l e : (forall d, e <> Accepted d /\ e <> Dropped d) -> offered (l ++ [e]) = offered l.
Proof. intros He. rewrite offered_app. destruct e; try (by rewrite app_nil_r); by destruct (He data). Qed.

Lemma offered_one l d (b : bool) : offered (l ++ [if b then Dropped d else Accepted d]) = offered l ++ d.
Proof. rewrite offered_app. unfold offered at 2. destruct b; cbn; by rewrite app_nil_r. Qed.

(** What [::write] answers, and what it leaves. *)
Lemma write_quiet data c r c' :
  write data c = (r, c') -> quiet [] c c' /\ outputBuffer_ c' = outputBuffer_ c /\ channel_ c' = channel_ c.
Proof.
  unfold write. destruct (kernel c) as [|[e|n] ks] eqn:E; intros [= <- <-].
  - split; [|done]. split; rewrite ?app_nil_r; done.
  - split; [|done]. split; cbn; rewrite ?app_nil_r; done.
  - split; [|done]. split; cbn; rewrite ?app_nil_r; try done. by apply offered_silent.
Qed.

Lemma quiet_trans m1 m2 c1 c2 c3 : quiet m1 c1 c2 -> quiet m2 c2 c3 -> quiet (m1 ++ m2) c1 c3.
Proof. intros [] []. split; [congruence..|]. rewrite app_assoc. congruence. Qed.

Lemma quiet_same c c' :
  state_ c' = state_ c -> context_ c' = context_ c -> inputBuffer_ c' = inputBuffer_ c -> queue c' = queue c ->
  offered (log c') = offered (log c) -> quiet [] c c'.
Proof. intros. split; rewrite ?app_nil_r; done. Qed.

Lemma quiet_saveRemaining rest c : quiet [] c (saveRemaining cbs rest c).
Proof.
  unfold saveRemaining. rewrite no_hw, !andb_false_r. apply quiet_same; by destruct (negb _).
Qed.

Lemma quiet_accept data (b : bool) c : quiet data c (emit (if b then Dropped data else Accepted data) c).
Proof. split; cbn; try done. apply offered_one. Qed.

Lemma quiet_sendInLoop data c : state_ c <> kDisconnected -> quiet data c (sendInLoop cbs data c).
Proof.
  intros Hs. unfold sendInLoop. rewrite bool_decide_eq_false_2 by done.
  assert (forall n (b : bool) c1, quiet [] c c1 ->
    let c2 := emit (if b then Dropped data else Accepted data) c1 in
    quiet data c (if negb b && (0 <? length data - n) then saveRemaining cbs (drop n data) c2 else c2)) as Hrest.
  { intros n b c1 Hq c2. assert (quiet data c c2) as Hq'
      by (change data with ([] ++ data); by eapply quiet_trans, quiet_accept).
    destruct (_ && _); [|done].
    pose proof (quiet_trans data [] _ _ _ Hq' (quiet_saveRemaining (drop n data) _)) as Hq2. by rewrite app_nil_r in Hq2. }
  destruct (negb _ && _).
  - destruct (write data c) as [[e|n] c1] eqn:Ew; apply write_quiet in Ew as (Hq & _ & _).
    + by apply (Hrest 0).
    + rewrite no_wc, andb_false_r. by apply (Hrest n false).
  - apply (Hrest 0 false). by apply quiet_same.
Qed.

Lemma quiet_shutdownInLoop c : quiet [] c (shutdownInLoop c).
Proof. unfold shutdownInLoop. apply quiet_same; destruct (negb _); try done. by apply offered_silent. Qed.

Lemma quiet_handleWrite c : quiet [] c (handleWrite cbs c).
Proof.
  unfold handleWrite. destruct (Channel.isWriting _); [|by apply quiet_same].
  destruct (write _ c) as [[e|n] c1] eqn:Ew; apply write_quiet in Ew as (Hq & _ & _); [done|].
  destruct (0 <? n); [|done]. rewrite no_wc.
  assert (quiet [] c (set_output (retrieve n (outputBuffer_ c1)) c1)) as Hq1
    by (apply (quiet_trans [] [] c c1); [done|by apply quiet_same]).
  destruct (_ =? 0); [|done].
  assert (quiet [] c (set_channel Channel.disableWriting (set_output (retrieve n (outputBuffer_ c1)) c1))) as Hq2
    by (eapply (quiet_trans [] []); [exact Hq1|by apply quiet_same]).
  destruct (bool_decide _); [|done]. eapply (quiet_trans [] []); [exact Hq2|apply quiet_shutdownInLoop].
Qed.

(** ** The calls of a callback *)

(** The state after the calls [acts] of a callback on a connection that is up. *)
Definition after (acts : list action) (s : StateE) : StateE :=
  if shuts acts then match s with kConnected => kDisconnecting | _ => s end else s.

Definition said (acts : list action) (s : StateE) : bytes :=
  match s with kConnected => spoken acts | _ => [] end.

Record performed acts c c' : Prop := {
  performed_state : state_ c' = after acts (state_ c);
  performed_context : context_ c' = context_ c;
  performed_input : inputBuffer_ c' = inputBuffer_ c;
  performed_queue : queue c' = queue c;
  performed_offered : offered (log c') = offered (log c) ++ said acts (state_ c);
}.

Lemma perform_performed acts c : performed acts c (perform cbs acts c).
Proof.
  revert c. induction acts as [|[data|] acts IH]; intros c; cbn [perform].
  - split; try done. unfold said. by destruct (state_ c); rewrite app_nil_r.
  - unfold send. destruct (decide (state_ c = kConnected)) as [Hs|Hs].
    + rewrite bool_decide_eq_true_2 by done.
      destruct (quiet_sendInLoop data c ltac:(congruence)) as [Q1 Q2 Q3 Q4 Q6].
      destruct (IH (sendInLoop cbs data c)) as [P1 P2 P3 P4 P6].
      split; try congruence; [by rewrite P1, Q1|]. rewrite P6, Q6, Q1, Hs. cbn. by rewrite app_assoc.
    + rewrite bool_decide_eq_false_2 by done. destruct (IH c) as [P1 P2 P3 P4 P6].
      split; try done. rewrite P6. unfold said. by destruct (state_ c).
  - unfold shutdown. destruct (decide (state_ c = kConnected)) as [Hs|Hs].
    + rewrite bool_decide_eq_true_2 by done. cbv zeta iota.
      destruct (quiet_shutdownInLoop (setState kDisconnecting c)) as [Q1 Q2 Q3 Q4 Q6].
      destruct (IH (shutdownInLoop (setState kDisconnecting c))) as [P1 P2 P3 P4 P6].
      split; [|by rewrite P2, Q2|by rewrite P3, Q3|by rewrite P4, Q4|].
      * rewrite P1, Q1, Hs. unfold after. cbn. by destruct (shuts acts).
      * rewrite P6, Q6, Q1, Hs. cbn. by rewrite !app_nil_r.
    + rewrite bool_decide_eq_false_2 by done. destruct (IH c) as [P1 P2 P3 P4 P6].
      split; try done.
      * rewrite P1. unfold after. cbn. destruct (shuts acts), (state_ c); done.
      * rewrite P6. unfold said. by destruct (state_ c).
Qed.

(** ** The connection and the application keep in step *)

Record link (reads : list bytes) c : Prop := {
  link_queue : queue c = [];
  link_connecting : state_ c = kConnecting ->
    reads = [] /\ context_ c = u0 /\ inputBuffer_ c = buf_new /\ offered (log c) = [];
  link_up : up c ->
    (context_ c, inputBuffer_ c) = (app_run reads).1 /\
    state_ c = after (app_run reads).2 kConnected;
  link_offered : state_ c <> kConnecting -> offered (log c) = spoken (app_run reads).2;
}.

Lemma link_make sockfd ks : link [] (make sockfd u0 ks).
Proof. split; try done. by intros []. Qed.

Lemma after_connected acts : after acts kConnected = if shuts acts then kDisconnecting else kConnected.
Proof. done. Qed.

Lemma after_app a1 a2 s : after (a1 ++ a2) s = after a2 (after a1 s).
Proof. unfold after. rewrite shuts_app. by destruct (shuts a1), (shuts a2), s. Qed.

Lemma link_quiet reads c c' : link reads c -> quiet [] c c' -> link reads c'.
Proof.
  intros [L1 L3 L4 L5] [Q1 Q2 Q3 Q4 Q6]. rewrite app_nil_r in Q6.
  split; unfold up; rewrite ?Q1, ?Q2, ?Q3, ?Q4, ?Q6; auto.
Qed.

Lemma link_set_channel reads f c : link reads c -> link reads (set_channel f c).
Proof. intros H1. apply (link_quiet reads c); [done|by apply quiet_same]. Qed.

(** A message: the callback, and its calls. *)
Lemma link_read reads data c :
  data <> [] -> up c -> link reads c -> link (reads ++ [data]) (handleRead cbs (Buffer.ReadData data) c).
Proof.
  intros Hd Hup [L1 L3 L4 L5]. destruct data as [|b data]; [done|]. cbn [handleRead].
  destruct (L4 Hup) as [Eapp Est]. specialize (L5 ltac:(by apply not_up_down)).
  assert (app_run (reads ++ [b :: data]) = app_read (app_run reads) (b :: data)) as Erun
    by (unfold app_run; by rewrite foldl_app).
  unfold app_read in Erun. destruct (app_run reads) as [[u buf] acts]. cbn in Eapp, Est, L5. injection Eapp as Eu Eb.
  cbn [inputBuffer_ set_input context_]. rewrite Eu, Eb.
  destruct (messageCallback_ cbs u (append (b :: data) buf)) as [[u' buf'] more].
  set (c1 := emit CalledMessage _).
  destruct (perform_performed more c1) as [P1 P2 P3 P4 P6].
  assert (state_ c1 = state_ c) as S1 by done.
  assert (offered (log c1) = offered (log c)) as T1 by (by apply offered_silent).
  split.
  - rewrite P4. exact L1.
  - rewrite P1, S1, Est. unfold after. by destruct (shuts acts), (shuts more).
  - intros _. rewrite Erun, P2, P3, P1, S1, Est. cbn. by rewrite <- after_app.
  - intros _. rewrite Erun, P6, T1, L5, S1, Est. cbn. rewrite spoken_app, after_connected.
    by destruct (shuts acts).
Qed.

(** The connection comes up. *)
Lemma link_established reads c : state_ c = kConnecting -> link reads c -> link reads (connectEstablished cbs c).
Proof.
  intros Hs [L1 L3 L4 L5]. destruct (L3 Hs) as (-> & Eu & Eb & Et).
  unfold connectEstablished, call_connection.
  change (connected (set_channel Channel.enableReading (set_channel Channel.tie (setState kConnected c)))) with true.
  cbn [context_ set_channel setState]. rewrite Eu.
  destruct (connectionCallback_ cbs true u0) as [u acts] eqn:Ec.
  assert (app_run [] = (u, buf_new, acts)) as Erun by (unfold app_run, app_start; cbn; by rewrite Ec).
  set (c1 := emit (CalledConnection true) _).
  destruct (perform_performed acts c1) as [P1 P2 P3 P4 P6].
  assert (offered (log c1) = offered (log c)) as T1 by (by apply offered_silent).
  assert (state_ (perform cbs acts c1) <> kConnecting) as Hne by (rewrite P1; unfold after; by destruct (shuts acts)).
  split; try done.
  - by rewrite P4.
  - rewrite Erun, P1, P2, P3. cbn. by rewrite Eb.
  - rewrite Erun, P6, T1, Et. done.
Qed.

Lemma link_down reads u c : up c -> link reads c -> link reads (down u c).
Proof.
  intros [_ Hne]%not_up_down [L1 L3 L4 L5]. split; try done.
  - by intros [|].
  - intros _. cbn. rewrite offered_silent by done. by apply L5.
Qed.

Lemma link_handleClose reads c : up c -> link reads c -> link reads (handleClose cbs c).
Proof.
  intros Hup Hl. unfold handleClose. destruct (call_connection_down cbs c) as [u ->].
  apply (link_quiet reads (down u c)); [by apply link_down|]. apply quiet_same; try done. by apply offered_silent.
Qed.

Lemma link_connectDestroyed reads c : link reads c -> link reads (connectDestroyed cbs c).
Proof.
  intros Hl. unfold connectDestroyed. apply link_set_channel. destruct (decide (state_ c = kConnected)) as [Hs|Hs].
  - rewrite bool_decide_eq_true_2 by done. destruct (call_connection_down cbs c) as [u ->].
    apply link_down; [by left|done].
  - by rewrite bool_decide_eq_false_2 by done.
Qed.

(** One report of the poller: a close or a read, then a write. *)
Lemma handleEvent_parts revents res c :
  enabled (Polled revents res) c = true ->
  let c1 := set_channel (Channel.set_revents revents) c in
  let c2 := if has revents (Z.lor EPOLLIN EPOLLPRI) then handleRead cbs res c1
            else if has revents EPOLLHUP && negb (has revents EPOLLIN) then handleClose cbs c1 else c1 in
  handleEvent cbs revents res c = if has revents EPOLLOUT then handleWrite cbs c2 else c2.
Proof.
  intros [_ Hsane%negb_true_iff]%andb_true_iff. cbv zeta. unfold handleEvent.
  set (c1 := set_channel _ c). 
  assert (Channel.handleEvent true (channel_ c1) =
          Channel.handleEventWithGuard (Channel.set_revents revents (channel_ c))) as -> by apply Channel.handleEvent_alive.
  unfold Channel.handleEventWithGuard. cbn [Channel.revents_ Channel.set_revents]. rewrite !foldl_app.
  destruct (has revents EPOLLHUP && negb (has revents EPOLLIN)) eqn:Eclose.
  - assert (has revents (Z.lor EPOLLIN EPOLLPRI) = false) as ->.
    { apply andb_true_iff in Eclose as [_ Ein%negb_true_iff]. cbn [andb] in Hsane.
      unfold has in *. apply negb_false_iff, Z.eqb_eq. apply negb_false_iff, Z.eqb_eq in Ein, Hsane.
      by rewrite Z.land_lor_distr_r, Ein, Hsane. }
    by destruct (has revents EPOLLERR), (has revents EPOLLOUT).
  - by destruct (has revents EPOLLERR), (has revents (Z.lor EPOLLIN EPOLLPRI)), (has revents EPOLLOUT).
Qed.

Lemma link_step reads e c :
  own e = true -> enabled e c = true -> inv c -> link reads c -> link (reads ++ delivered e) (step cbs e c).
Proof.
  intros Ho He Hi Hl. destruct e as [|revents res|inLoop data|inLoop| |]; try done; cbn [delivered step]; rewrite ?app_nil_r.
  - apply link_established; [by apply bool_decide_eq_true in He|done].
  - pose proof (polled_up revents res c He Hi) as Hup. rewrite (handleEvent_parts revents res c He).
    set (c1 := set_channel _ c). assert (up c1) as Hup1 by exact Hup.
    assert (link reads c1) as Hl1 by (by apply link_set_channel).
    set (c2 := if has revents (Z.lor EPOLLIN EPOLLPRI) then _ else _).
    assert (link (reads ++ delivered (Polled revents res)) c2) as Hl2.
    { unfold c2. cbn [delivered]. destruct res as [e|[|b data]]; rewrite ?app_nil_r.
      - destruct (has revents (Z.lor EPOLLIN EPOLLPRI)); [done|]. destruct (_ && _); [by apply link_handleClose|done].
      - destruct (has revents (Z.lor EPOLLIN EPOLLPRI)); [by apply link_handleClose|].
        destruct (_ && _); [by apply link_handleClose|done].
      - destruct (has revents (Z.lor EPOLLIN EPOLLPRI)); rewrite ?app_nil_r; [by apply link_read|].
        destruct (_ && _); [by apply link_handleClose|done]. }
    destruct (has revents EPOLLOUT); [|exact Hl2]. by apply (link_quiet _ c2), quiet_handleWrite.
  - by rewrite (link_queue _ _ Hl).
  - by apply link_connectDestroyed.
Qed.

Lemma runs_link reads c : runs reads c -> link reads c.
Proof.
  induction 1 as [sockfd ks|reads e c Hr IH Ho He]; [by apply link_make|].
  apply link_step; try done. by eapply inv_reachable, runs_reachable.
Qed.

(** What was given to sendInLoop is what the application says to its reads, in
    order, up to its first shutdown; what is on the wire and what waits to be
    written is all of it but the messages that were dropped. *)
Lemma application_stream reads c :
  runs reads c -> state_ c <> kConnecting ->
  offered (log c) = spoken (app_run reads).2 /\
  wire (log c) ++ peek (outputBuffer_ c) = concat (accepted (log c)) /\
  (dropped (log c) = [] -> wire (log c) ++ peek (outputBuffer_ c) = spoken (app_run reads).2).
Proof.
  intros Hr Hs. pose proof (link_offered _ _ (runs_link _ _ Hr) Hs) as Ho.
  destruct (inv_reachable cbs c (runs_reachable _ _ Hr)) as [Hc _]. pose proof (flow_bytes c (core_flow c Hc)) as Hb.
  split_and!; [done|exact Hb|]. intros Hd. rewrite Hb, <- Ho. unfold offered. by rewrite given_accepted.
Qed.

End application.

(** ** Servers that take each read as one message and send one reply to it *)

Section replies.
Context {B : Type} `{ByteBufferLaws B} (cbs : callbacks B unit) (reply : bytes -> bytes).
Hypothesis connection : connectionCallback_ cbs = fun _ u => (u, []).
Hypothesis message : forall u buf,
  messageCallback_ cbs u buf = (u, retrieve (readableBytes buf) buf, [Send (reply (peek buf))]).

Lemma reply_run reads :
  exists buf : B, buf_wf buf /\ peek buf = [] /\
    (app_run cbs tt reads).1 = (tt, buf) /\ shuts (app_run cbs tt reads).2 = false /\
    spoken (app_run cbs tt reads).2 = concat (map reply reads).
Proof.
  induction reads as [|data reads IH] using rev_ind.
  - unfold app_run, app_start. rewrite connection. exists buf_new. split_and!; auto. apply peek_new.
  - destruct IH as (buf & Hw & Hp & E & Hs & Hsp). unfold app_run in *. rewrite foldl_app. cbn [foldl].
    destruct (foldl _ _ reads) as [[u buf'] acts]. cbn [fst snd] in *. injection E as -> ->.
    unfold app_read. rewrite message. cbn [fst snd].
    assert (buf_wf (append data buf)) as Hw' by auto.
    exists (retrieve (readableBytes (append data buf)) (append data buf)). split_and!.
    + auto.
    + rewrite peek_retrieve, readable_peek by auto. by apply drop_ge.
    + done.
    + by rewrite shuts_app, Hs.
    + rewrite spoken_app, Hs, Hsp, map_app, concat_app. cbn. by rewrite peek_append, Hp by auto.
Qed.

End replies.

(** ** src/example/echo_server.cc *)

#[local] Arguments shuts : simpl never.

Module EchoServer.

Section echo.
Context {B : Type} `{ByteBufferLaws B}.

(** The lambda of [setMessageCallback]: retrieveAllAsString, then send. *)
Definition onMessage (u : unit) (buf : B) : unit * B * list action :=
  let msg := peek buf in
  (u, retrieve (readableBytes buf) buf, [Send msg]).

Definition callbacks : TcpConnection.callbacks B unit :=
  mkCallbacks (fun _ u => (u, [])) onMessage None None.

(** An echo connection says back exactly what it read: at every moment at which
    no write has failed with EPIPE or ECONNRESET, the bytes the kernel took and
    those that wait to be written are, together and in order, the bytes that were
    read. *)
Theorem echo_stream reads c :
  runs callbacks tt reads c -> state_ c <> kConnecting -> dropped (log c) = [] ->
  wire (log c) ++ peek (outputBuffer_ c) = concat reads.
Proof.
  intros Hr Hs Hd. destruct (application_stream callbacks tt eq_refl eq_refl reads c Hr Hs) as (_ & _ & ->); [|done].
  destruct (reply_run callbacks id eq_refl (fun _ _ => eq_refl) reads) as (buf & _ & _ & _ & _ & ->).
  by rewrite map_id.
Qed.
End echo.

(** The kernel takes two bytes, then says that it is full. *)
Definition sample_read : event := Polled EPOLLIN (Buffer.ReadData [Byte.x61; Byte.x62; Byte.x63]).

Definition sample : TcpConnection.t bytes unit :=
  step callbacks (Polled EPOLLOUT (Buffer.ReadErr 0))
    (step callbacks sample_read (step callbacks Established (make 7%Z tt [Buffer.Written 2; Buffer.WriteErr EWOULDBLOCK]))).

Lemma echo_stream_witness :
  runs callbacks tt [[Byte.x61; Byte.x62; Byte.x63]] sample /\
  wire (log sample) ++ peek (outputBuffer_ sample) = [Byte.x61; Byte.x62; Byte.x63] /\
  wire (log sample) = [Byte.x61; Byte.x62].
Proof.
  assert (runs callbacks tt [[Byte.x61; Byte.x62; Byte.x63]] sample) as Hr.
  { apply (runs_step callbacks tt [[Byte.x61; Byte.x62; Byte.x63]] (Polled EPOLLOUT (Buffer.ReadErr 0)));
      [|reflexivity..].
    apply (runs_step callbacks tt [] sample_read); [|reflexivity..].
    apply (runs_step callbacks tt [] Established); [|reflexivity..].
    apply runs_make. }
  split; [done|]. split; [|reflexivity]. by rewrite (echo_stream _ _ Hr) by done.
Defined.

End EchoServer.

(** ** HttpServer on its connections *)

Module HttpConnection.

Section http.
Context {B : Type} `{ByteBufferLaws B}.
Context (httpCallback_ : HttpRequest.t -> HttpResponse.t -> HttpResponse.t) (receiveTime : Z).

Definition action_of (o : HttpServer.output) : action :=
  match o with HttpServer.Send data => Send data | HttpServer.Shutdown => Shutdown end.

(** HttpServer::onConnection: only a connection that comes up gets a context. *)
Definition onConnection (connected : bool) (u : HttpContext.t) : HttpContext.t * list action :=
  (if connected then HttpServer.onConnection else u, []).

(** HttpServer::onMessage; it always returns. *)
Definition onMessage (context : HttpContext.t) (buf : B) : HttpContext.t * B * list action :=
  match HttpServer.onMessage httpCallback_ receiveTime context buf with
  | Some (context, buf, out) => (context, buf, action_of <$> out)
  | None => (context, buf, [])
  end.

Definition callbacks : TcpConnection.callbacks B HttpContext.t :=
  mkCallbacks onConnection onMessage None None.

Lemma http_run reads : forall u buf acts u' buf' out,
  HttpServer.serve httpCallback_ receiveTime reads u buf = Some (u', buf', out) ->
  foldl (app_read callbacks) (u, buf, acts) reads = (u', buf', acts ++ (action_of <$> out)).
Proof.
  induction reads as [|data reads IH]; intros u buf acts u' buf' out; cbn [HttpServer.serve foldl].
  - intros [= <- <- <-]. by rewrite app_nil_r.
  - unfold app_read at 2. cbn [messageCallback_ callbacks]. unfold onMessage.
    destruct (HttpServer.onMessage _ _ _ _) as [[[u1 buf1] out1]|]; cbn [mbind option_bind]; [|done].
    destruct (HttpServer.serve _ _ reads u1 buf1) as [[[u2 buf2] out2]|] eqn:E; cbn [mbind option_bind]; [|done].
    intros [= <- <- <-]. rewrite (IH _ _ _ _ _ _ E). by rewrite fmap_app, app_assoc.
Qed.

(** The response to a request, and what the client of a connection has to see:
    the responses up to the first that closes it. *)
Definition response (r : HttpRequest.t) : HttpResponse.t :=
  httpCallback_ (HttpRequest.setReceiveTime receiveTime r) (HttpResponse.make (wants_close r)).

Fixpoint answers (reqs : list HttpRequest.t) : bytes :=
  match reqs with
  | [] => []
  | r :: reqs =>
      HttpResponse.print (response r) ++
      (if HttpResponse.closeConnection_ (response r) then [] else answers reqs)
  end.

Lemma spoken_expected reqs :
  spoken (action_of <$> concat (map (expected httpCallback_ receiveTime) reqs)) = answers reqs.
Proof.
  induction reqs as [|r reqs IH]; [done|]. cbn [map concat answers]. rewrite fmap_app, spoken_app, IH.
  unfold expected. fold (response r). unfold shuts. cbn.
  destruct (HttpResponse.closeConnection_ (response r)); cbn; by rewrite ?app_nil_r.
Qed.

(** C17  HTTP end to end: well-formed requests, each cut into non-empty reads in any
    way (no read holds bytes of two requests), are answered by the printed
    responses of the callback, one per request and in order, up to the first that
    closes the connection: these are what sendInLoop is given.  On the wire, with
    what still waits in the output buffer, are all of them but those whose write
    failed at once with EPIPE or ECONNRESET, in their order, however the kernel
    cuts the writes; without such a failure, all. *)
Theorem http_end_to_end (u0 : HttpContext.t) (reqs : list (HttpRequest.t * list bytes)) c :
  Forall (fun q => request_ok q.1 /\ Forall (fun d => d <> []) q.2 /\
                   concat q.2 = print_request q.1) reqs ->
  runs callbacks u0 (concat (map snd reqs)) c -> state_ c <> kConnecting ->
  concat (given (log c)) = answers (map fst reqs) /\
  wire (log c) ++ peek (outputBuffer_ c) = concat (accepted (log c)) /\
  accepted (log c) `sublist_of` given (log c) /\
  (dropped (log c) = [] -> wire (log c) ++ peek (outputBuffer_ c) = answers (map fst reqs)).
Proof.
  intros Hreqs Hr Hs.
  assert (spoken (app_run callbacks u0 (concat (map snd reqs))).2 = answers (map fst reqs)) as <-.
  { destruct (keep_alive_sequence (B := B) httpCallback_ receiveTime reqs Hreqs) as (buf & Hserve & _).
    unfold app_run. change (app_start callbacks u0) with (HttpServer.onConnection, buf_new : B, [] : list action).
    rewrite (http_run _ _ _ [] _ _ _ Hserve). cbn [snd app].
    rewrite <- spoken_expected, map_map. done. }
  destruct (application_stream callbacks u0 eq_refl eq_refl _ c Hr Hs) as (? & ? & ?).
  split_and!; [done|done|apply accepted_given|done].
Qed.
End http.

(** Two requests on one connection; the second asks to close. *)
Definition hello (req : HttpRequest.t) (resp : HttpResponse.t) : HttpResponse.t :=
  HttpResponse.setBody (str "hello") (HttpResponse.setStatusMessage (str "OK") (HttpResponse.setStatusCode HttpResponse.k200Ok resp)).

Definition sample_reqs : list (HttpRequest.t * list bytes) :=
  let w1 := print_request get_request in
  [(get_request, [take 3 w1; drop 3 w1]); (sample_request, [print_request sample_request])].

Definition sample_callbacks : TcpConnection.callbacks bytes HttpContext.t := callbacks hello 7.

Definition sample_events : list event :=
  Established :: ((fun d => Polled EPOLLIN (Buffer.ReadData d)) <$> concat (map snd sample_reqs)).

Definition sample_made : TcpConnection.t bytes HttpContext.t :=
  make 7%Z HttpContext.make (replicate 9 (Buffer.Written 50)).

Definition sample_http : TcpConnection.t bytes HttpContext.t :=
  foldl (fun c e => step sample_callbacks e c) sample_made sample_events.

Lemma http_end_to_end_witness :
  runs sample_callbacks HttpContext.make (concat (map snd sample_reqs)) sample_http /\
  concat (given (log sample_http)) = answers hello 7 (map fst sample_reqs) /\
  wire (log sample_http) ++ peek (outputBuffer_ sample_http) = answers hello 7 (map fst sample_reqs).
Proof.
  assert (runs sample_callbacks HttpContext.make (concat (map snd sample_reqs)) sample_http) as Hr.
  { apply (runs_events sample_callbacks HttpContext.make sample_events [] sample_made); [|by vm_compute].
    apply runs_make. }
  split; [done|].
  destruct (http_end_to_end (B := bytes) hello 7 HttpContext.make sample_reqs sample_http) as (Hg & _ & _ & Hw);
    [|done|by vm_compute|].
  - apply Forall_cons; split; [|apply Forall_singleton]; cbn [fst snd].
    + split; [exact get_request_ok|]. split; [|reflexivity].
      apply Forall_cons; split; [|apply Forall_singleton]; discriminate.
    + split; [exact sample_request_ok|]. split; [|reflexivity]. apply Forall_singleton. discriminate.
  - split; [exact Hg|]. apply Hw. vm_compute. reflexivity.
Defined.

(** The peer is gone: the kernel answers EPIPE, and the response is lost. *)
Example response_dropped :
  let c := foldl (fun c e => step sample_callbacks e c) (make 7%Z HttpContext.make [Buffer.WriteErr EPIPE])
             [Established; Polled EPOLLIN (Buffer.ReadData (print_request get_request))] in
  length (given (log c)) = 1 /\ accepted (log c) = [] /\ state_ c = kConnected.
Proof. vm_compute. by split_and!. Qed.

End HttpConnection.
