(* ===== verification/ExampleServers.v ===== *)
(** * src/example/test.cpp and src/example/Httpserver_test.cc

    The two demonstration servers: callbacks on the modelled connection and the
    modelled HttpServer. *)

From S2P Require Import Prelude Bytes Text ByteBuffer NetBuffer TcpConnection TcpConnectionFacts HttpContext HttpContextFacts HttpServer TcpApplication.
Import TcpConnection.

(** ** test.cpp: a fixed page for whatever contains GET, an echo for the rest *)

Module TestServer.

Definition CRLF : bytes := HttpResponse.CRLF.

Definition page : bytes := str "<html><body>Hello Muduo!</body></html>".

Definition httpResponse : bytes :=
  str "HTTP/1.1 200 OK" ++ CRLF ++
  str "Content-Type: text/html; charset=utf-8" ++ CRLF ++
  str "Content-Length: 38" ++ CRLF ++
  str "Connection: Keep-Alive" ++ CRLF ++
  CRLF ++ page.

Definition reply (msg : bytes) : bytes :=
  match search (str "GET") msg with Some _ => httpResponse | None => msg end.

Section server.
Context {B : Type} `{ByteBufferLaws B}.

Definition onMessage (u : unit) (buf : B) : unit * B * list action :=
  let msg := peek buf in
  let buf := retrieve (readableBytes buf) buf in
  match search (str "GET") msg with
  | Some _ => (u, buf, [Send httpResponse])
  | None => (u, buf, [Send msg])
  end.

Definition callbacks : TcpConnection.callbacks B unit := mkCallbacks (fun _ u => (u, [])) onMessage None None.

(** Each read is answered, in order, by the page or by itself, as long as no write
    fails with EPIPE or ECONNRESET. *)
Lemma test_stream reads c :
  runs callbacks tt reads c -> state_ c <> kConnecting -> dropped (log c) = [] ->
  wire (log c) ++ peek (outputBuffer_ c) = concat (map reply reads).
Proof.
  intros Hr Hs Hd. destruct (application_stream callbacks tt eq_refl eq_refl reads c Hr Hs) as (_ & _ & ->); [|done].
  destruct (reply_run callbacks reply eq_refl) with (reads := reads) as (buf & _ & _ & _ & _ & ->); [|done].
  intros u buf. cbn. unfold onMessage, reply. by destruct (search _ _).
Qed.

(** The length the page announces is its length. *)
Lemma page_length : format_dec (Z.of_nat (length page)) = str "38".
Proof. by vm_compute. Qed.

End server.
End TestServer.

(** ** Httpserver_test.cc: the callback of the HTTP demo *)

Module HttpDemo.

(** 555 bytes of a picture. *)
Definition favicon : bytes := chr <$> [
    137; 80; 78; 71; 13; 10; 26; 10; 0; 0; 0; 13; 73; 72; 68; 82; 0; 0; 0; 16; 0; 0; 0; 16; 8; 6; 0;
    0; 0; 31; 243; 255; 97; 0; 0; 0; 25; 116; 69; 88; 116; 83; 111; 102; 116; 119; 97; 114; 101; 0;
    65; 100; 111; 98; 101; 32; 73; 109; 97; 103; 101; 82; 101; 97; 100; 121; 113; 201; 101; 60; 0;
    0; 1; 205; 73; 68; 65; 84; 120; 218; 148; 147; 57; 72; 3; 65; 20; 134; 255; 93; 98; 167; 4; 82;
    196; 109; 34; 30; 160; 70; 36; 8; 22; 22; 118; 10; 54; 186; 74; 154; 128; 8; 65; 180; 113; 133;
    88; 137; 71; 176; 73; 169; 81; 36; 205; 166; 8; 164; 72; 99; 145; 66; 11; 175; 86; 193; 70; 180;
    21; 207; 34; 88; 152; 11; 84; 72; 138; 100; 147; 141; 251; 70; 103; 201; 26; 20; 125; 240; 102;
    118; 102; 223; 124; 239; 231; 103; 70; 168; 213; 106; 72; 36; 18; 42; 0; 5; 191; 71; 212; 239;
    247; 47; 54; 236; 18; 32; 30; 143; 215; 170; 213; 234; 175; 73; 53; 70; 170; 84; 95; 159; 34;
    65; 42; 149; 10; 131; 229; 114; 57; 100; 179; 89; 150; 153; 76; 6; 233; 116; 154; 37; 133; 44;
    203; 84; 167; 196; 98; 49; 181; 94; 0; 3; 104; 154; 198; 22; 130; 32; 88; 82; 20; 69; 54; 83;
    148; 203; 101; 120; 189; 94; 170; 85; 84; 35; 76; 192; 224; 226; 193; 143; 0; 158; 188; 9; 65;
    124; 62; 31; 131; 68; 34; 17; 213; 84; 64; 63; 56; 128; 119; 229; 51; 7; 184; 92; 46; 72; 146;
    4; 135; 195; 129; 64; 32; 64; 103; 152; 233; 54; 26; 166; 103; 21; 4; 227; 215; 200; 189; 21;
    225; 105; 183; 67; 171; 234; 120; 47; 106; 88; 146; 187; 24; 32; 159; 207; 51; 195; 184; 233;
    78; 167; 211; 108; 74; 0; 105; 54; 124; 142; 225; 254; 86; 132; 231; 60; 159; 114; 43; 58; 66;
    123; 55; 102; 119; 174; 142; 14; 243; 189; 82; 169; 100; 2; 66; 175; 133; 50; 102; 70; 186; 12;
    217; 159; 29; 154; 108; 34; 230; 199; 58; 44; 128; 239; 193; 21; 144; 7; 147; 162; 40; 160; 83;
    106; 177; 184; 223; 41; 53; 67; 14; 63; 88; 252; 152; 218; 121; 106; 80; 64; 0; 135; 174; 27;
    23; 66; 180; 58; 63; 190; 121; 199; 10; 38; 182; 238; 217; 154; 96; 20; 147; 219; 143; 13; 10;
    46; 233; 35; 149; 41; 88; 0; 39; 235; 110; 86; 112; 188; 214; 203; 214; 71; 171; 61; 108; 125;
    184; 210; 221; 160; 96; 131; 186; 239; 95; 164; 234; 204; 2; 78; 174; 94; 112; 26; 236; 179; 64;
    57; 172; 254; 242; 145; 137; 103; 145; 133; 33; 168; 135; 183; 88; 126; 126; 133; 187; 205; 78;
    78; 98; 116; 64; 250; 147; 137; 236; 30; 236; 134; 2; 72; 38; 147; 208; 117; 29; 127; 9; 50;
    149; 191; 31; 219; 215; 99; 138; 26; 247; 92; 193; 255; 34; 74; 195; 135; 0; 3; 0; 75; 187; 248;
    214; 42; 118; 152; 73; 0; 0; 0; 0; 73; 69; 78; 68; 174; 66; 96; 130]%Z.

Section demo.
(** [Timestamp::now().toFormattedString()] *)
Context (now : bytes).

Definition ok (resp : HttpResponse.t) : HttpResponse.t :=
  HttpResponse.setStatusMessage (str "OK") (HttpResponse.setStatusCode HttpResponse.k200Ok resp).

Definition onRequest (req : HttpRequest.t) (resp : HttpResponse.t) : HttpResponse.t :=
  if decide (HttpRequest.path_ req = str "/") then
    let resp := HttpResponse.setContentType (str "text/html") (ok resp) in
    let resp := HttpResponse.addHeader (str "Server") (str "Muduo") resp in
    HttpResponse.setBody
      (str "<html><head><title>This is title</title></head>" ++
       str "<body><h1>Hello</h1>Now is " ++ now ++ str "</body></html>") resp
  else if decide (HttpRequest.path_ req = str "/favicon.ico") then
    HttpResponse.setBody favicon (HttpResponse.setContentType (str "image/png") (ok resp))
  else if decide (HttpRequest.path_ req = str "/hello") then
    let resp := HttpResponse.setContentType (str "text/plain") (ok resp) in
    let resp := HttpResponse.addHeader (str "Server") (str "Muduo") resp in
    HttpResponse.setBody (str "hello, world!" ++ [Byte.x0a]) resp
  else if decide (HttpRequest.method_ req = HttpRequest.kPost /\ HttpRequest.path_ req = str "/post") then
    let resp := HttpResponse.setContentType (str "text/plain") (ok resp) in
    let resp := HttpResponse.addHeader (str "Server") (str "Muduo") resp in
    HttpResponse.setBody (HttpRequest.body_ req) resp
  else
    HttpResponse.setCloseConnection true
      (HttpResponse.setStatusMessage (str "Not Found")
        (HttpResponse.setStatusCode HttpResponse.k404NotFound resp)).

(** What a request asks for is what it gets. *)
Definition known (req : HttpRequest.t) : bool :=
  bool_decide (HttpRequest.path_ req ∈ [str "/"; str "/favicon.ico"; str "/hello"]) ||
  bool_decide (HttpRequest.method_ req = HttpRequest.kPost /\ HttpRequest.path_ req = str "/post").

(** 200 exactly for the known pages; everything else is 404 and closes; a known
    page keeps the connection as it was asked to. *)
Lemma onRequest_status req close :
  let resp := onRequest req (HttpResponse.make close) in
  HttpResponse.statusCode_ resp = (if known req then HttpResponse.k200Ok else HttpResponse.k404NotFound) /\
  HttpResponse.closeConnection_ resp = (if known req then close else true).
Proof.
  unfold onRequest, known.
  destruct (decide (HttpRequest.path_ req = str "/")) as [->|H1];
    [rewrite (bool_decide_eq_true_2 (_ ∈ _)) by (by left); done|].
  destruct (decide (HttpRequest.path_ req = str "/favicon.ico")) as [->|H2];
    [rewrite (bool_decide_eq_true_2 (_ ∈ _)) by (by right; left); done|].
  destruct (decide (HttpRequest.path_ req = str "/hello")) as [->|H3];
    [rewrite (bool_decide_eq_true_2 (_ ∈ _)) by (by right; right; left); done|].
  rewrite (bool_decide_eq_false_2 (_ ∈ _))
    by (intros [?|[?|[?|[]%not_elem_of_nil]%elem_of_cons]%elem_of_cons]%elem_of_cons; done).
  destruct (decide (_ /\ _)) as [H4|H4]; [by rewrite bool_decide_eq_true_2|by rewrite bool_decide_eq_false_2].
Qed.

(** A post is answered with its own body. *)
Lemma onRequest_post req close :
  HttpRequest.method_ req = HttpRequest.kPost -> HttpRequest.path_ req = str "/post" ->
  HttpResponse.body_ (onRequest req (HttpResponse.make close)) = HttpRequest.body_ req.
Proof. intros Hm Hp. unfold onRequest. by rewrite Hm, Hp. Qed.

End demo.
End HttpDemo.
