(* ===== verification/Json.v ===== *)
(** * src/api/JsonRequest.h, src/api/JsonRequest.cc, src/api/JsonResponse.h

    The JSON of the HTTP API: a parser for flat objects of strings and the
    printers of responses.  A position in the input is the suffix from there. *)

From S2P Require Import Prelude Bytes Text.

(** ** JsonResponse.h *)

Module JsonResponse.

Definition dquote : byte := Byte.x22.
Definition backslash : byte := Byte.x5c.

Definition escapeChar (ch : byte) : bytes :=
  if decide (ch = dquote) then [backslash; dquote]
  else if decide (ch = backslash) then [backslash; backslash]
  else if decide (ch = Byte.x08) then [backslash; chr 98]
  else if decide (ch = Byte.x0c) then [backslash; chr 102]
  else if decide (ch = Byte.x0a) then [backslash; chr 110]
  else if decide (ch = Byte.x0d) then [backslash; chr 114]
  else if decide (ch = Byte.x09) then [backslash; chr 116]
  else [ch].

Fixpoint escape_loop (value result : bytes) : bytes :=
  match value with
  | [] => result
  | ch :: value' => escape_loop value' (result ++ escapeChar ch)
  end.

Definition escapeJson (value : bytes) : bytes := escape_loop value [].

Definition quote (value : bytes) : bytes := [dquote] ++ escapeJson value ++ [dquote].

Definition makeJsonResponse (code : Z) (message dataJson : bytes) : bytes :=
  str "{" ++ [dquote] ++ str "code" ++ [dquote] ++ str ":" ++ to_string code ++ str "," ++
  [dquote] ++ str "message" ++ [dquote] ++ str ":" ++ quote message ++ str "," ++
  [dquote] ++ str "data" ++ [dquote] ++ str ":" ++ dataJson ++ str "}".

Definition makeOk (dataJson : bytes) : bytes := makeJsonResponse 0 (str "ok") dataJson.

Definition makeError (code : Z) (message : bytes) : bytes :=
  makeJsonResponse code message (str "null").

Definition makeField (key value : bytes) : bytes := quote key ++ str ":" ++ quote value.

Definition makeNumberField (key : bytes) (value : Z) : bytes :=
  quote key ++ str ":" ++ to_string value.

End JsonResponse.

(** ** JsonRequest *)

Module JsonRequest.
Import JsonResponse.

(** [strings_] *)
Definition JsonObject : Type := gmap bytes bytes.

Definition contains (key : bytes) (o : JsonObject) : bool := bool_decide (is_Some (o !! key)).
Definition getString (key : bytes) (o : JsonObject) : option bytes := o !! key.

Definition skipSpaces (input : bytes) : bytes := ltrim input.

(** The switch over the character after a backslash. *)
Definition unescape (escaped : byte) : option byte :=
  if decide (escaped = dquote) then Some escaped
  else if decide (escaped = backslash) then Some escaped
  else if decide (escaped = chr 47) then Some escaped
  else if decide (escaped = chr 98) then Some Byte.x08
  else if decide (escaped = chr 102) then Some Byte.x0c
  else if decide (escaped = chr 110) then Some Byte.x0a
  else if decide (escaped = chr 114) then Some Byte.x0d
  else if decide (escaped = chr 116) then Some Byte.x09
  else None.

Fixpoint parseString_loop (input output : bytes) : option (bytes * bytes) :=
  match input with
  | [] => None
  | ch :: input =>
      if decide (ch = dquote) then Some (output, input)
      else if decide (ch <> backslash) then parseString_loop input (output ++ [ch])
      else
        match input with
        | [] => None
        | escaped :: input =>
            match unescape escaped with
            | Some c => parseString_loop input (output ++ [c])
            | None => None
            end
        end
  end.

(** The string and the position after it; [None] is [false]. *)
Definition parseString (input : bytes) : option (bytes * bytes) :=
  match input with
  | ch :: input => if decide (ch <> dquote) then None else parseString_loop input []
  | [] => None
  end.

(** The key, the colon and the value of one turn of the loop. *)
Definition parse_member (input : bytes) : option (bytes * bytes * bytes) :=
  '(key, input) ← parseString (skipSpaces input);
  match skipSpaces input with
  | ch :: input =>
      if decide (ch <> chr 58) then None
      else '(value, input) ← parseString (skipSpaces input); Some (key, value, input)
  | [] => None
  end.

(** The end of the object: nothing but spaces may follow. *)
Definition finish (input : bytes) (object : JsonObject) : option JsonObject :=
  if decide (skipSpaces input = []) then Some object else None.

(** [while (pos < input.size())]; the outer [None] is lack of fuel. *)
Fixpoint parse_members (fuel : nat) (input : bytes) (object : JsonObject)
    : option (option JsonObject) :=
  match fuel with
  | O => None
  | S fuel =>
      match input with
      | [] => Some None
      | _ :: _ =>
          match parse_member input with
          | None => Some None
          | Some (key, value, input) =>
              let object := <[key := value]> object in
              match skipSpaces input with
              | [] => Some None
              | ch :: input =>
                  if decide (ch = chr 125) then Some (finish input object)
                  else if decide (ch <> chr 44) then Some None
                  else parse_members fuel input object
              end
          end
      end
  end.

(** Every turn consumes more than one byte ([parseJsonObject_total]). *)
Definition parseJsonObject (input : bytes) : option (option JsonObject) :=
  match skipSpaces input with
  | ch :: input =>
      if decide (ch <> chr 123) then Some None
      else
        let input := skipSpaces input in
        match input with
        | ch :: input' =>
            if decide (ch = chr 125) then Some (finish input' ∅)
            else parse_members (S (length input)) input ∅
        | [] => parse_members (S (length input)) input ∅
        end
  | [] => Some None
  end.

End JsonRequest.

(** ** The grammar the parser is for

    Strings of characters and escapes, objects of string members with spaces
    between the tokens. *)

Import JsonResponse JsonRequest.

Definition escapes : list (byte * byte) :=
  [(dquote, dquote); (backslash, backslash); (chr 47, chr 47); (chr 98, Byte.x08);
   (chr 102, Byte.x0c); (chr 110, Byte.x0a); (chr 114, Byte.x0d); (chr 116, Byte.x09)].

Inductive string_text : bytes -> bytes -> Prop :=
| text_nil : string_text [] []
| text_plain c t v :
    c <> dquote -> c <> backslash -> string_text t v -> string_text (c :: t) (c :: v)
| text_escape e c t v :
    (e, c) ∈ escapes -> string_text t v -> string_text (backslash :: e :: t) (c :: v).

Definition spaces (ws : bytes) : Prop := Forall isspace ws.

Definition quoted (t : bytes) : bytes := dquote :: t ++ [dquote].

Inductive member_text : bytes -> bytes * bytes -> Prop :=
| member ws1 kt k ws2 ws3 vt v :
    spaces ws1 -> string_text kt k -> spaces ws2 -> spaces ws3 -> string_text vt v ->
    member_text (ws1 ++ quoted kt ++ ws2 ++ [chr 58] ++ ws3 ++ quoted vt) (k, v).

Inductive members_text : bytes -> list (bytes * bytes) -> Prop :=
| members_last t kv ws : member_text t kv -> spaces ws -> members_text (t ++ ws) [kv]
| members_more t kv ws ts kvs :
    member_text t kv -> spaces ws -> members_text ts kvs ->
    members_text (t ++ ws ++ [chr 44] ++ ts) (kv :: kvs).

Inductive object_text : bytes -> list (bytes * bytes) -> Prop :=
| object_empty ws0 ws1 ws2 :
    spaces ws0 -> spaces ws1 -> spaces ws2 ->
    object_text (ws0 ++ [chr 123] ++ ws1 ++ [chr 125] ++ ws2) []
| object_members ws0 ts kvs ws2 :
    spaces ws0 -> members_text ts kvs -> spaces ws2 ->
    object_text (ws0 ++ [chr 123] ++ ts ++ [chr 125] ++ ws2) kvs.

(** A later member replaces an earlier one of the same key. *)
Definition object_of (kvs : list (bytes * bytes)) (o : JsonObject) : JsonObject :=
  foldl (fun o kv => <[kv.1 := kv.2]> o) o kvs.

(** ** Spaces *)

Lemma skip_spaces ws l : spaces ws -> skipSpaces (ws ++ l) = skipSpaces l.
Proof. apply ltrim_app_spaces. Qed.

Lemma skip_char c l : isspace c = false -> skipSpaces (c :: l) = c :: l.
Proof. intros Hc. unfold skipSpaces. cbn. by rewrite Hc. Qed.

Lemma skip_split l : exists ws, spaces ws /\ l = ws ++ skipSpaces l.
Proof.
  unfold skipSpaces. induction l as [|c l (ws & Hws & E)]; cbn; [exists []; split; [apply Forall_nil_2|done]|].
  destruct (isspace c) eqn:Ec; [|exists []; split; [apply Forall_nil_2|done]].
  exists (c :: ws). split; [apply Forall_cons; split; [by rewrite Ec|done]|]. cbn. by f_equal.
Qed.

Lemma skip_all l : skipSpaces l = [] <-> spaces l.
Proof.
  split.
  - intros E. destruct (skip_split l) as (ws & Hws & ->). rewrite E in *. by rewrite app_nil_r.
  - intros Hs. by rewrite <- (app_nil_r l), skip_spaces.
Qed.

Lemma skip_idem l : skipSpaces (skipSpaces l) = skipSpaces l.
Proof.
  destruct (skip_split l) as (ws & Hws & E). rewrite <- (skip_spaces ws (skipSpaces l)) by done. by rewrite <- E.
Qed.

Lemma skip_length l : length (skipSpaces l) <= length l.
Proof. destruct (skip_split l) as (ws & _ & E). rewrite E at 2. lens. lia. Qed.

(** ** Strings *)

Lemma unescape_spec e c : unescape e = Some c <-> (e, c) ∈ escapes.
Proof.
  unfold unescape, escapes. rewrite !elem_of_cons, elem_of_nil.
  split; [intros Hu; repeat case_decide; simplify_eq; tauto|].
  intros Hin. repeat destruct Hin as [[= -> ->]|Hin]; done.
Qed.

Lemma parseString_loop_text t v rest out :
  string_text t v -> parseString_loop (t ++ dquote :: rest) out = Some (out ++ v, rest).
Proof.
  intros Ht. revert out. induction Ht as [|c t v H1 H2 _ IH|e c t v He _ IH]; intros out;
    cbn [app parseString_loop].
  - by rewrite decide_True, app_nil_r.
  - rewrite decide_False, decide_True, IH by done. by rewrite <- app_assoc.
  - rewrite decide_False by done. rewrite decide_False by tauto.
    apply unescape_spec in He as ->. by rewrite IH, <- app_assoc.
Qed.

Lemma parseString_text t v rest :
  string_text t v -> parseString (quoted t ++ rest) = Some (v, rest).
Proof.
  intros Ht. unfold quoted. cbn. rewrite decide_False by tauto.
  rewrite <- app_assoc. by apply (parseString_loop_text t v rest []).
Qed.

Lemma parseString_loop_sound fuel input out v rest :
  length input <= fuel -> parseString_loop input out = Some (v, rest) ->
  exists t w, input = t ++ dquote :: rest /\ v = out ++ w /\ string_text t w.
Proof.
  revert input out. induction fuel as [|fuel IH]; intros [|c input] out Hf; cbn [length] in Hf; try lia; try done.
  cbn [parseString_loop]. destruct (decide (c = dquote)) as [->|Hq].
  - intros [= <- <-]. exists [], []. rewrite app_nil_r. split_and!; [done|done|constructor].
  - destruct (decide (c <> backslash)) as [Hb|Hb].
    + intros (t & w & -> & -> & Ht)%IH; [|lia]. exists (c :: t), (c :: w).
      split_and!; [done|by rewrite <- app_assoc|by constructor].
    + apply dec_stable in Hb as ->. destruct input as [|e input]; [done|].
      destruct (unescape e) as [c|] eqn:He; [|done]. apply unescape_spec in He. cbn in Hf.
      intros (t & w & -> & -> & Ht)%IH; [|lia]. exists (backslash :: e :: t), (c :: w).
      split_and!; [done|by rewrite <- app_assoc|by constructor].
Qed.

Lemma parseString_sound input v rest :
  parseString input = Some (v, rest) -> exists t, input = quoted t ++ rest /\ string_text t v.
Proof.
  unfold parseString. destruct input as [|c input]; [done|]. case_decide as Hc; [done|]. subst c.
  intros Hp. eapply parseString_loop_sound in Hp as (t & w & -> & -> & Ht); [|done].
  exists t. split; [|done]. unfold quoted. cbn. by rewrite <- app_assoc.
Qed.

(** What escapeJson writes is a string text, of any bytes. *)
Lemma escape_loop_app value result : escape_loop value result = result ++ escapeJson value.
Proof.
  unfold escapeJson. revert result. induction value as [|c value IH]; intros result; cbn.
  - by rewrite app_nil_r.
  - rewrite IH, (IH (escapeChar c)). by rewrite app_assoc.
Qed.

Lemma escapeJson_cons c value : escapeJson (c :: value) = escapeChar c ++ escapeJson value.
Proof. unfold escapeJson at 1. cbn. by rewrite escape_loop_app. Qed.

Lemma escapeJson_text value : string_text (escapeJson value) value.
Proof.
  induction value as [|c value IH]; [constructor|]. rewrite escapeJson_cons. unfold escapeChar.
  repeat case_decide; subst; cbn [app];
    first [by apply text_plain | apply text_escape; [|done]; unfold escapes; rewrite !elem_of_cons; tauto].
Qed.

(** ** Members *)

Lemma spaces_dquote t l : skipSpaces (quoted t ++ l) = quoted t ++ l.
Proof. done. Qed.

Lemma parse_member_text t kv rest :
  member_text t kv -> parse_member (t ++ rest) = Some (kv.1, kv.2, rest).
Proof.
  intros Ht. destruct Ht as [ws1 kt k ws2 ws3 vt v H1 Hk H2 H3 Hv]. unfold parse_member.
  rewrite <- !app_assoc, skip_spaces, spaces_dquote, (parseString_text _ _ _ Hk) by done.
  cbn [mbind option_bind]. rewrite skip_spaces by done. cbn [app]. rewrite skip_char by done.
  rewrite decide_False by tauto. rewrite skip_spaces, spaces_dquote, (parseString_text _ _ _ Hv) by done.
  done.
Qed.

Lemma parse_member_sound input k v rest :
  parse_member input = Some (k, v, rest) -> exists t, input = t ++ rest /\ member_text t (k, v).
Proof.
  unfold parse_member. destruct (parseString (skipSpaces input)) as [[k' input1]|] eqn:E1; [|done].
  cbn [mbind option_bind]. destruct (skipSpaces input1) as [|c input2] eqn:E2; [done|].
  case_decide as Hc; [done|]. subst c.
  destruct (parseString (skipSpaces input2)) as [[v' input3]|] eqn:E3; [|done].
  cbn [mbind option_bind]. intros [= <- <- <-].
  apply parseString_sound in E1 as (kt & E1 & Hk). apply parseString_sound in E3 as (vt & E3 & Hv).
  destruct (skip_split input) as (ws1 & H1 & ->), (skip_split input1) as (ws2 & H2 & E2'),
    (skip_split input2) as (ws3 & H3 & E3').
  exists (ws1 ++ quoted kt ++ ws2 ++ [chr 58] ++ ws3 ++ quoted vt). split; [|by constructor].
  rewrite E1, E2', E2, E3', E3. by rewrite <- !app_assoc.
Qed.

Lemma member_nonempty t kv : member_text t kv -> 0 < length t.
Proof. intros Ht. destruct Ht. unfold quoted. cbn. lens. lia. Qed.

Lemma finish_text ws o : spaces ws -> finish ws o = Some o.
Proof. intros Hws%skip_all. unfold finish. by rewrite decide_True. Qed.

Lemma finish_sound input o m : finish input o = Some m -> spaces input /\ m = o.
Proof. unfold finish. case_decide as Hs; [|done]. intros [= ->]. split; [by apply skip_all|done]. Qed.

Lemma member_starts t kv rest : member_text t kv -> exists c l, t ++ rest = c :: l.
Proof.
  intros Ht%member_nonempty. destruct t as [|c t]; [cbn in Ht; lia|]. by eexists _, _.
Qed.

Lemma parse_members_text ts kvs ws fuel o :
  members_text ts kvs -> spaces ws -> length ts <= fuel ->
  parse_members fuel (ts ++ chr 125 :: ws) o = Some (Some (object_of kvs o)).
Proof.
  intros Hts Hws. revert fuel o. induction Hts as [t [k v] ws1 Ht Hws1|t [k v] ws1 ts kvs Ht Hws1 _ IH];
    intros fuel o Hf; pose proof (member_nonempty _ _ Ht); revert Hf; lens; intros Hf;
    (destruct fuel as [|fuel]; [lia|]); rewrite <- !app_assoc; cbn [parse_members];
    match goal with |- context [t ++ ?r] => destruct (member_starts t (k, v) r Ht) as (c & l & E) end;
    rewrite E, <- E, (parse_member_text _ _ _ Ht); cbn [fst snd];
    rewrite skip_spaces by done; cbn [app]; rewrite skip_char by done.
  - rewrite decide_True, finish_text by done. done.
  - rewrite decide_False, decide_False by (done || tauto). rewrite IH by lia. done.
Qed.

Lemma parse_members_sound fuel input o m :
  parse_members fuel input o = Some (Some m) ->
  exists ts kvs ws, input = ts ++ chr 125 :: ws /\ members_text ts kvs /\ spaces ws /\ m = object_of kvs o.
Proof.
  revert input o. induction fuel as [|fuel IH]; intros input o; [done|]. cbn [parse_members].
  destruct input as [|c0 input0]; [done|]. set (input := c0 :: input0). clearbody input.
  destruct (parse_member input) as [[[k v] input1]|] eqn:E; [|done].
  apply parse_member_sound in E as (t & -> & Ht).
  destruct (skip_split input1) as (ws & Hws & E1). destruct (skipSpaces input1) as [|c input2]; [done|].
  subst input1. case_decide as Hc.
  - subst c. intros [= [Hs ->]%finish_sound]. exists (t ++ ws), [(k, v)], input2.
    split_and!; [by rewrite <- app_assoc|by constructor|done|done].
  - case_decide as Hc2; [done|]. subst c.
    intros (ts & kvs & ws2 & -> & Hts & Hws2 & ->)%IH.
    exists (t ++ ws ++ [chr 44] ++ ts), ((k, v) :: kvs), ws2.
    split_and!; [by rewrite <- !app_assoc|by constructor|done|done].
Qed.

Lemma parse_members_total fuel input o :
  length input < fuel -> exists r, parse_members fuel input o = Some r.
Proof.
  revert input o. induction fuel as [|fuel IH]; intros input o Hf; [lia|]. cbn [parse_members].
  destruct input as [|c0 input0]; [by eexists|]. set (input := c0 :: input0) in *. clearbody input.
  destruct (parse_member input) as [[[k v] input1]|] eqn:E; [|by eexists].
  apply parse_member_sound in E as (t & -> & Ht). pose proof (member_nonempty _ _ Ht).
  pose proof (skip_length input1). destruct (skipSpaces input1) as [|c input2]; [by eexists|].
  case_decide; [by eexists|]. case_decide; [by eexists|]. apply IH. revert Hf. lens. lia.
Qed.

Lemma parseJsonObject_total input : exists r, parseJsonObject input = Some r.
Proof.
  unfold parseJsonObject. destruct (skipSpaces input) as [|c l]; [by eexists|].
  case_decide; [by eexists|]. destruct (skipSpaces l) as [|c2 l2]; [by eexists|].
  case_decide; [by eexists|]. apply parse_members_total. lia.
Qed.

(** Leading spaces of the first member are no part of what is looked at. *)
Lemma member_skip t kv :
  member_text t kv -> exists l, member_text (dquote :: l) kv /\
    forall r, skipSpaces (t ++ r) = dquote :: l ++ r.
Proof.
  intros Ht. destruct Ht as [ws1 kt k ws2 ws3 vt v H1 Hk H2 H3 Hv].
  exists ((kt ++ [dquote]) ++ ws2 ++ [chr 58] ++ ws3 ++ quoted vt). split.
  - apply (member [] kt k ws2 ws3 vt v); try done. apply Forall_nil_2.
  - intros r. rewrite <- !app_assoc, skip_spaces, spaces_dquote by done. unfold quoted.
    cbn. by rewrite <- !app_assoc.
Qed.

Lemma members_skip ts kvs :
  members_text ts kvs -> exists l, members_text (dquote :: l) kvs /\
    forall r, skipSpaces (ts ++ r) = dquote :: l ++ r.
Proof.
  intros Ht. destruct Ht as [t kv ws Ht Hws|t kv ws ts kvs Ht Hws Hts];
    destruct (member_skip t kv Ht) as (l & Hl & Hr).
  - exists (l ++ ws). split; [by apply (members_last (dquote :: l))|].
    intros r. by rewrite <- app_assoc, Hr, app_assoc.
  - exists (l ++ ws ++ [chr 44] ++ ts). split; [by apply (members_more (dquote :: l))|].
    intros r. rewrite <- app_assoc, Hr. by rewrite (app_assoc l).
Qed.

Lemma parse_complete input kvs :
  object_text input kvs -> parseJsonObject input = Some (Some (object_of kvs ∅)).
Proof.
  intros Ht. destruct Ht as [ws0 ws1 ws2 H0 H1 H2|ws0 ts kvs ws2 H0 Hts H2]; unfold parseJsonObject;
    rewrite skip_spaces by done; cbn [app]; rewrite skip_char by done; rewrite decide_False by tauto.
  - rewrite skip_spaces by done. rewrite skip_char by done. by rewrite decide_True, finish_text by done.
  - destruct (members_skip ts kvs Hts) as (l & Hl & Hr). rewrite Hr. rewrite decide_False by done.
    apply (parse_members_text (dquote :: l) kvs ws2 _ _ Hl H2). cbn. lens. lia.
Qed.

Lemma members_prepend ws ts kvs : spaces ws -> members_text ts kvs -> members_text (ws ++ ts) kvs.
Proof.
  intros Hws Ht. destruct Ht as [t kv ws1 Ht Hws1|t kv ws1 ts kvs Ht Hws1 Hts];
    destruct Ht as [w1 kt k w2 w3 vt v Hw1 Hk Hw2 Hw3 Hv].
  - rewrite app_assoc. apply members_last; [|done]. rewrite app_assoc. apply member; try done.
    apply Forall_app. done.
  - rewrite app_assoc. apply members_more; [|done|done]. rewrite app_assoc. apply member; try done.
    apply Forall_app. done.
Qed.

Lemma parse_sound input m :
  parseJsonObject input = Some (Some m) -> exists kvs, object_text input kvs /\ m = object_of kvs ∅.
Proof.
  unfold parseJsonObject. destruct (skip_split input) as (ws0 & H0 & E0).
  destruct (skipSpaces input) as [|c l]; [done|]. case_decide as Hc; [done|]. subst c.
  destruct (skip_split l) as (ws1 & H1 & E1). remember (skipSpaces l) as rest eqn:Er.
  assert (forall fuel, parse_members fuel rest ∅ = Some (Some m) -> exists kvs,
    object_text input kvs /\ m = object_of kvs ∅) as Hm.
  { intros fuel (ts & kvs & ws2 & E & Hts & H2 & Hkv)%parse_members_sound. exists kvs. split; [|done].
    rewrite E0, E1, E, app_assoc. change (chr 123 :: (ws1 ++ ts) ++ chr 125 :: ws2)
      with ([chr 123] ++ (ws1 ++ ts) ++ [chr 125] ++ ws2).
    constructor; [done|by apply members_prepend|done]. }
  destruct rest as [|c rest]; [by apply Hm|]. case_decide as Hc; [|by apply Hm]. subst c.
  intros [= [Hs ->]%finish_sound]. exists []. split; [|done]. rewrite E0, E1.
  by apply (object_empty ws0 ws1 rest).
Qed.

(** ** Properties *)

(** C39 The parser ends on every input and accepts exactly the grammar: an
    object is returned if and only if the input is a text of it, with the members
    of the text in order, later ones replacing earlier ones. *)
Theorem json_parser_exact (input : bytes) :
  (exists r, parseJsonObject input = Some r) /\
  forall m : JsonObject,
    parseJsonObject input = Some (Some m) <->
    exists kvs, object_text input kvs /\ m = object_of kvs ∅.
Proof.
  split; [apply parseJsonObject_total|]. intros m. split; [apply parse_sound|].
  intros (kvs & Ht & ->). by apply parse_complete.
Qed.

(** A printed object: fields separated by commas. *)
Definition print_object (fields : list (bytes * bytes)) : bytes :=
  match fields with
  | [] => str "{}"
  | kv :: fields =>
      str "{" ++ makeField kv.1 kv.2 ++ concat (map (fun kv => str "," ++ makeField kv.1 kv.2) fields) ++ str "}"
  end.

Lemma field_text k v : member_text (makeField k v) (k, v).
Proof.
  apply (member [] (escapeJson k) k [] [] (escapeJson v) v);
    try apply Forall_nil_2; apply escapeJson_text.
Qed.

Lemma fields_text kv fields :
  members_text (makeField kv.1 kv.2 ++ concat (map (fun kv => str "," ++ makeField kv.1 kv.2) fields))
    (kv :: fields).
Proof.
  revert kv. induction fields as [|kv2 fields IH]; intros [k v]; cbn [map concat fst snd].
  - apply members_last; [apply field_text|apply Forall_nil_2].
  - apply (members_more _ (k, v) []); [apply field_text|apply Forall_nil_2|apply (IH kv2)].
Qed.

Lemma print_object_parses fields :
  parseJsonObject (print_object fields) = Some (Some (object_of fields ∅)).
Proof.
  apply parse_complete. destruct fields as [|kv fields].
  - apply (object_empty [] [] []); apply Forall_nil_2.
  - unfold print_object. rewrite (app_assoc (makeField _ _)).
    apply (object_members [] _ (kv :: fields) []); [apply Forall_nil_2|apply fields_text|apply Forall_nil_2].
Qed.

(** Round trip: an object of any byte strings, printed with makeField (which
    escapes quotes, backslashes and control characters), is parsed back to the
    same keys and values; in particular escapeJson loses nothing. *)
Theorem json_print_parse (fields : list (bytes * bytes)) :
  parseJsonObject (print_object fields) = Some (Some (object_of fields ∅)).
Proof. apply print_object_parses. Qed.
