(* ===== verification/Auth.v ===== *)
(** * src/auth

    Users, login tokens and RTMP tickets.  The two managers keep expiring
    entries under random keys in the same way: what they share is here once, as
    a store over a class of entries, and refines a table that never forgets. *)

From S2P Require Import Prelude Bytes Text.

Local Open Scope Z_scope.

(** ** AuthTypes *)

Inductive UserRole := kRoleUnknown | kTeacher | kStudent.
Inductive RtmpPermission := kPermissionUnknown | kPublish | kPlay | kBoth.

#[export] Instance UserRole_eq_dec : EqDecision UserRole.
Proof. solve_decision. Defined.
#[export] Instance RtmpPermission_eq_dec : EqDecision RtmpPermission.
Proof. solve_decision. Defined.

Record User := mkUser {
  user_userId : bytes;
  user_username : bytes;
  passwordHash : bytes;
  user_role : UserRole;
  enabled : bool;
}.

Record AuthSession := mkSession {
  token : bytes;
  userId : bytes;
  username : bytes;
  role : UserRole;
  session_expireAt : Z;
}.

Record RtmpTicket := mkTicket {
  ticket : bytes;
  ticket_userId : bytes;
  ticket_username : bytes;
  ticket_role : UserRole;
  streamKey : bytes;
  allowPublish : bool;
  allowPlay : bool;
  ticket_expireAt : Z;
}.

Inductive AuthError :=
| kOk | kBadRequest | kInvalidCredentials | kUnauthorized | kTokenExpired | kUserDisabled
| kUnsupportedRole.

#[export] Instance AuthError_eq_dec : EqDecision AuthError.
Proof. solve_decision. Defined.

Record AuthResult := mkResult { error : AuthError; session : AuthSession }.

(** [AuthSession{}] *)
Definition no_session : AuthSession := mkSession [] [] [] kRoleUnknown 0.

Definition roleToString (role : UserRole) : bytes :=
  match role with
  | kTeacher => str "teacher"
  | kStudent => str "student"
  | kRoleUnknown => str "unknown"
  end.

Definition roleFromString (role : bytes) : UserRole :=
  if decide (role = str "teacher") then kTeacher
  else if decide (role = str "student") then kStudent
  else kRoleUnknown.

Definition rtmpPermissionToString (permission : RtmpPermission) : bytes :=
  match permission with
  | kPublish => str "publish"
  | kPlay => str "play"
  | kBoth => str "both"
  | kPermissionUnknown => str "unknown"
  end.

Definition rtmpPermissionFromString (permission : bytes) : RtmpPermission :=
  if decide (permission = str "publish") then kPublish
  else if decide (permission = str "play") then kPlay
  else if decide (permission = str "both") then kBoth
  else kPermissionUnknown.

Definition authErrorMessage (error : AuthError) : bytes :=
  match error with
  | kOk => str "ok"
  | kBadRequest => str "bad request"
  | kInvalidCredentials => str "invalid username or password"
  | kUnauthorized => str "unauthorized"
  | kTokenExpired => str "token expired"
  | kUserDisabled => str "user disabled"
  | kUnsupportedRole => str "unsupported role"
  end.

(** ** Random keys

    [generator_] is a std::mt19937_64 seeded by std::random_device: an unknown
    stream [mt] of 64-bit numbers, of which [generator_] is the position.  The
    two calls are arguments of std::format, whose order of evaluation the
    language leaves open ([left_to_right]). *)

Definition hex_char (d : Z) : byte := if d <? 10 then chr (48 + d) else chr (87 + d).

(** [{:016x}] of a 64-bit number *)
Definition hex16 (n : Z) : bytes :=
  map (fun i => hex_char (Z.land (Z.shiftr n (4 * i)) 15))
    [15; 14; 13; 12; 11; 10; 9; 8; 7; 6; 5; 4; 3; 2; 1; 0].

Record random := mkRandom { mt : nat -> Z; left_to_right : bool }.

Definition candidate (rng : random) (g : nat) : bytes :=
  let first := mt rng g in
  let second := mt rng (g + 1) in
  if left_to_right rng then hex16 first ++ hex16 second else hex16 second ++ hex16 first.

Section generate.
Context {V : Type} (rng : random).

Fixpoint generate_loop (fuel : nat) (table : gmap bytes V) (g : nat) : option (bytes * nat) :=
  match fuel with
  | O => None
  | S fuel =>
      let key := candidate rng g in
      if decide (is_Some (table !! key)) then generate_loop fuel table (g + 2)
      else Some (key, g + 2)%nat
  end.

(** One more try than there are keys in use ([generate_total]). *)
Definition generate (table : gmap bytes V) (g : nat) : option (bytes * nat) :=
  generate_loop (S (size table)) table g.

End generate.

(** ** TokenManager *)

Module TokenManager.

Record t := mk {
  sessions_ : gmap bytes AuthSession;
  ttlSeconds_ : Z;
  generator_ : nat;
}.

Definition make (ttlSeconds : Z) : t := mk ∅ ttlSeconds 0.
Definition default_ttl : Z := 2 * 60 * 60.

Definition removeExpiredLocked (now : Z) (m : t) : t :=
  mk (filter (fun '(_, s) => ~ session_expireAt s <= now) (sessions_ m)) (ttlSeconds_ m) (generator_ m).

Definition generateToken (rng : random) (m : t) : option (bytes * t) :=
  '(key, g) ← generate rng (sessions_ m) (generator_ m);
  Some (key, mk (sessions_ m) (ttlSeconds_ m) g).

(** [now] is what the clock says inside the lock. *)
Definition createSession (rng : random) (user : User) (now : Z) (m : t) : option (AuthSession * t) :=
  let m := removeExpiredLocked now m in
  '(token, m) ← generateToken rng m;
  let session := mkSession token (user_userId user) (user_username user) (user_role user)
                   (now + ttlSeconds_ m) in
  Some (session, mk (<[token := session]> (sessions_ m)) (ttlSeconds_ m) (generator_ m)).

Definition verify (token : bytes) (now : Z) (m : t) : option AuthSession * t :=
  match sessions_ m !! token with
  | None => (None, m)
  | Some s =>
      if session_expireAt s <=? now
      then (None, mk (delete token (sessions_ m)) (ttlSeconds_ m) (generator_ m))
      else (Some s, m)
  end.

Definition remove (token : bytes) (m : t) : bool * t :=
  (bool_decide (is_Some (sessions_ m !! token)),
   mk (delete token (sessions_ m)) (ttlSeconds_ m) (generator_ m)).

End TokenManager.

(** ** RtmpTicketManager *)

Module RtmpTicketManager.

Record t := mk {
  tickets_ : gmap bytes RtmpTicket;
  ttlSeconds_ : Z;
  generator_ : nat;
}.

Definition make (ttlSeconds : Z) : t := mk ∅ ttlSeconds 0.
Definition default_ttl : Z := 5 * 60.

Definition removeExpiredLocked (now : Z) (m : t) : t :=
  mk (filter (fun '(_, k) => ~ ticket_expireAt k <= now) (tickets_ m)) (ttlSeconds_ m) (generator_ m).

Definition generateTicket (rng : random) (m : t) : option (bytes * t) :=
  '(key, g) ← generate rng (tickets_ m) (generator_ m);
  Some (key, mk (tickets_ m) (ttlSeconds_ m) g).

Definition createTicket (rng : random) (session : AuthSession) (streamKey : bytes)
    (permission : RtmpPermission) (now : Z) (m : t) : option (RtmpTicket * t) :=
  let m := removeExpiredLocked now m in
  '(key, m) ← generateTicket rng m;
  let ticket := mkTicket key (userId session) (username session) (role session) streamKey
                  (bool_decide (permission = kPublish) || bool_decide (permission = kBoth))
                  (bool_decide (permission = kPlay) || bool_decide (permission = kBoth))
                  (now + ttlSeconds_ m) in
  Some (ticket, mk (<[key := ticket]> (tickets_ m)) (ttlSeconds_ m) (generator_ m)).

Definition verify (key streamKey_ : bytes) (requirePublish : bool) (now : Z) (m : t)
    : option RtmpTicket * t :=
  match tickets_ m !! key with
  | None => (None, m)
  | Some k =>
      if ticket_expireAt k <=? now
      then (None, mk (delete key (tickets_ m)) (ttlSeconds_ m) (generator_ m))
      else if negb (bool_decide (streamKey k = streamKey_)) then (None, m)
      else if requirePublish && negb (allowPublish k) then (None, m)
      else if negb requirePublish && negb (allowPlay k) then (None, m)
      else (Some k, m)
  end.

Definition verifyPublish (key streamKey : bytes) := verify key streamKey true.
Definition verifyPlay (key streamKey : bytes) := verify key streamKey false.

End RtmpTicketManager.

(** ** UserStore *)

Section users.
(** [std::hash<std::string>]: a [size_t] the implementation chooses. *)
Context (std_hash : bytes -> Z).

Definition makePasswordHash (password : bytes) : bytes := format_dec (std_hash password).

Record UserStore := mkUserStore {
  usersByName_ : gmap bytes User;
  userIdToName_ : gmap bytes bytes;
}.

Definition addUser (user : User) (s : UserStore) : bool * UserStore :=
  if bool_decide (is_Some (usersByName_ s !! user_username user)) ||
     bool_decide (is_Some (userIdToName_ s !! user_userId user))
  then (false, s)
  else (true, mkUserStore (<[user_username user := user]> (usersByName_ s))
                (<[user_userId user := user_username user]> (userIdToName_ s))).

Definition findByUsername (username : bytes) (s : UserStore) : option User :=
  usersByName_ s !! username.

Definition findByUserId (userId : bytes) (s : UserStore) : option User :=
  match userIdToName_ s !! userId with
  | None => None
  | Some name => usersByName_ s !! name
  end.

Definition default_user (name : bytes) (role : UserRole) : User :=
  mkUser name name (makePasswordHash (str "123456")) role true.

Definition addDefaultUsers (s : UserStore) : UserStore :=
  let '(_, s) := addUser (default_user (str "teacher01") kTeacher) s in
  let '(_, s) := addUser (default_user (str "student01") kStudent) s in
  let '(_, s) := addUser (default_user (str "student02") kStudent) s in
  s.

(** [UserStore()] *)
Definition UserStore_make : UserStore := addDefaultUsers (mkUserStore ∅ ∅).

(** ** AuthService *)

Record AuthService := mkAuthService {
  userStore_ : UserStore;
  tokenManager_ : TokenManager.t;
}.

Definition AuthService_make : AuthService :=
  mkAuthService UserStore_make (TokenManager.make TokenManager.default_ttl).

(** [None] only when the token generator does not find an unused key. *)
Definition login (rng : random) (username password : bytes) (role : UserRole) (now : Z)
    (s : AuthService) : option (AuthResult * AuthService) :=
  if bool_decide (username = []) || bool_decide (password = []) || bool_decide (role = kRoleUnknown)
  then Some (mkResult kBadRequest no_session, s)
  else
    match findByUsername username (userStore_ s) with
    | None => Some (mkResult kInvalidCredentials no_session, s)
    | Some user =>
        if negb (bool_decide (passwordHash user = makePasswordHash password))
        then Some (mkResult kInvalidCredentials no_session, s)
        else if negb (enabled user) then Some (mkResult kUserDisabled no_session, s)
        else if negb (bool_decide (user_role user = role))
        then Some (mkResult kUnsupportedRole no_session, s)
        else
          '(session, m) ← TokenManager.createSession rng user now (tokenManager_ s);
          Some (mkResult kOk session, mkAuthService (userStore_ s) m)
    end.

Definition verifyToken (token : bytes) (now : Z) (s : AuthService) : option AuthSession * AuthService :=
  if bool_decide (token = []) then (None, s)
  else
    let '(r, m) := TokenManager.verify token now (tokenManager_ s) in
    (r, mkAuthService (userStore_ s) m).

Definition logout (token : bytes) (s : AuthService) : bool * AuthService :=
  if bool_decide (token = []) then (false, s)
  else
    let '(r, m) := TokenManager.remove token (tokenManager_ s) in
    (r, mkAuthService (userStore_ s) m).

End users.

(** ** Keys that are not in use *)

Section generate_facts.
Context {V : Type} (rng : random).
Implicit Types table : gmap bytes V.

Lemma generate_loop_fresh fuel table g key g' :
  generate_loop rng fuel table g = Some (key, g') ->
  table !! key = None /\ exists i : nat, key = candidate rng (g + 2 * i) /\ g' = (g + 2 * i + 2)%nat.
Proof.
  revert g. induction fuel as [|fuel IH]; intros g; cbn [generate_loop]; [done|].
  case_decide as Hin.
  - intros (Hn & i & -> & ->)%IH. split; [done|]. exists (S i). split; [f_equal; lia|lia].
  - intros [= <- <-]. split; [by apply eq_None_not_Some|]. exists 0%nat. split; [f_equal; lia|lia].
Qed.

(** The loop runs out of fuel only when every key it tried is in use. *)
Lemma generate_loop_used fuel table g :
  generate_loop rng fuel table g = None ->
  forall i : nat, (i < fuel)%nat -> is_Some (table !! candidate rng (g + 2 * i)).
Proof.
  revert g. induction fuel as [|fuel IH]; intros g; cbn [generate_loop]; [lia|].
  case_decide as Hin; [|done]. intros Hl [|i] Hi; [by rewrite Nat.add_0_r|].
  specialize (IH _ Hl i ltac:(lia)). by replace (g + 2 * S i)%nat with (g + 2 + 2 * i)%nat by lia.
Qed.

(** Pigeonhole: among [size + 1] different keys one is free. *)
Lemma generate_total table g :
  (forall i j : nat, (i < j <= size table)%nat -> candidate rng (g + 2 * i) <> candidate rng (g + 2 * j)) ->
  is_Some (generate rng table g).
Proof.
  intros Hdist. unfold generate. destruct (generate_loop _ _ _ _) as [|] eqn:E; [done|exfalso].
  pose proof (generate_loop_used _ _ _ E) as Hused.
  set (keys := map (fun i => candidate rng (g + 2 * i)) (seq 0 (S (size table)))).
  assert (NoDup keys) as Hnd.
  { apply NoDup_ListNoDup, NoDup_map_NoDup_ForallPairs; [|apply seq_NoDup].
    intros i j Hi%in_seq Hj%in_seq Heq. destruct (Nat.lt_trichotomy i j) as [Hl|[->|Hl]]; [|done|].
    - by destruct (Hdist i j ltac:(lia)).
    - by destruct (Hdist j i ltac:(lia)). }
  assert (list_to_set keys ⊆ dom table) as Hsub.
  { intros k. rewrite elem_of_list_to_set, elem_of_dom. unfold keys.
    intros (i & -> & Hi%elem_of_seq)%list_elem_of_fmap. apply Hused. lia. }
  apply subseteq_size in Hsub. rewrite size_list_to_set, size_dom in Hsub by done.
  unfold keys in Hsub. rewrite length_map, length_seq in Hsub. lia.
Qed.

End generate_facts.
