(* ===== verification/AuthFacts.v ===== *)
(** * Properties of the login tokens, the RTMP tickets and the user table

    Both managers refine a table that forgets an entry only when it is removed:
    purging expired entries is not observable. *)

From S2P Require Import Prelude Bytes Text Auth.

Local Open Scope Z_scope.

(** ** What the managers share *)

Class Entry (V : Type) := entry_expireAt : V -> Z.
#[export] Instance session_entry : Entry AuthSession := session_expireAt.
#[export] Instance ticket_entry : Entry RtmpTicket := ticket_expireAt.

(** The clock does not run backwards. *)
Fixpoint nondecreasing {A} (t0 : Z) (evs : list (Z * A)) : Prop :=
  match evs with
  | [] => True
  | (now, _) :: evs => t0 <= now /\ nondecreasing now evs
  end.

(** The first [n] keys the generator makes are different. *)
Definition distinct_keys (rng : random) (n : nat) : Prop :=
  forall i j : nat, (i < j < n)%nat -> candidate rng (2 * i) <> candidate rng (2 * j).

Section store.
Context {V : Type} `{Entry V}.
Implicit Types issued table : gmap bytes V.

(** The table has what was issued and not removed, except for expired entries. *)
Definition live (now : Z) issued table : Prop :=
  table ⊆ issued /\
  forall k v, issued !! k = Some v -> now < entry_expireAt v -> table !! k = Some v.

Definition purge (now : Z) table : gmap bytes V :=
  filter (fun '(_, v) => ~ entry_expireAt v <= now) table.

Lemma live_later now now' issued table : live now issued table -> now <= now' -> live now' issued table.
Proof. intros [H1 H2] Hn. split; [done|]. intros k v Hk Hv. apply H2; [done|lia]. Qed.

Lemma live_empty now : live now ∅ ∅.
Proof. split; [done|]. intros k v. by rewrite lookup_empty. Qed.

Lemma live_purge now issued table : live now issued table -> live now issued (purge now table).
Proof.
  intros [H1 H2]. split.
  - etrans; [apply map_filter_subseteq|done].
  - intros k v Hk Hv. apply map_lookup_filter_Some. split; [by apply H2|lia].
Qed.

Lemma purge_lookup now table k v : purge now table !! k = Some v -> now < entry_expireAt v.
Proof. intros [_ Hv]%map_lookup_filter_Some. lia. Qed.

Lemma live_insert now issued table k v :
  live now issued table -> live now (<[k := v]> issued) (<[k := v]> table).
Proof.
  intros [H1 H2]. split; [by apply insert_mono|]. intros k' v' Hk Hv.
  destruct (decide (k = k')) as [->|Hne].
  - by rewrite lookup_insert in *; destruct (decide _).
  - rewrite lookup_insert_ne in * by done. by apply H2.
Qed.

Lemma live_delete now issued table k :
  live now issued table -> live now (delete k issued) (delete k table).
Proof.
  intros [H1 H2]. split; [by apply delete_mono|].
  intros k' v [Hne Hk]%lookup_delete_Some Hv. apply lookup_delete_Some. auto.
Qed.

(** An expired entry may go at any time. *)
Lemma live_drop now issued table k v :
  live now issued table -> table !! k = Some v -> entry_expireAt v <= now ->
  live now issued (delete k table).
Proof.
  intros [H1 H2] Hk Hv. split; [etrans; [apply delete_subseteq|done]|].
  intros k' v' Hk' Hv'. destruct (decide (k' = k)) as [->|Hne].
  - apply H2 in Hk' as E; [|done]. rewrite Hk in E. simplify_eq. lia.
  - rewrite lookup_delete_ne by done. by apply H2.
Qed.

Lemma live_lookup now issued table k v :
  live now issued table -> table !! k = Some v -> issued !! k = Some v.
Proof. intros [H1 _] Hk. by eapply lookup_weaken. Qed.

Lemma live_absent now issued table k :
  live now issued table -> table !! k = None ->
  forall v, issued !! k = Some v -> entry_expireAt v <= now.
Proof.
  intros [_ H2] Hn v Hk. destruct (Z.le_gt_cases (entry_expireAt v) now) as [|Hv]; [done|].
  apply H2 in Hk; [congruence|lia].
Qed.

(** A new key is not the key of a live entry. *)
Lemma live_generate now issued table rng g key g' :
  live now issued table -> generate rng table g = Some (key, g') ->
  forall v, issued !! key = Some v -> entry_expireAt v <= now.
Proof. intros Hl [Hn _]%generate_loop_fresh. by eapply live_absent. Qed.

(** Keys in use were drawn before. *)
Definition drawn (rng : random) (c : nat) table : Prop :=
  forall k, is_Some (table !! k) -> exists i : nat, (i < c)%nat /\ k = candidate rng (2 * i).

Lemma drawn_mono rng c c' table table' :
  drawn rng c table -> (c <= c')%nat -> table' ⊆ table -> drawn rng c' table'.
Proof.
  intros Hd Hc Hs k [v Hk]. destruct (Hd k) as (i & Hi & ->); [|exists i; split; [lia|done]].
  exists v. by eapply lookup_weaken.
Qed.

Lemma drawn_insert rng c table v :
  drawn rng c table -> drawn rng (S c) (<[candidate rng (2 * c) := v]> table).
Proof.
  intros Hd k [v' [[<- _]|[_ Hk]]%lookup_insert_Some]; [exists c; split; [lia|done]|].
  destruct (Hd k) as (i & Hi & ->); [by exists v'|]. exists i. split; [lia|done].
Qed.

Lemma drawn_generate rng c n table :
  distinct_keys rng n -> (c < n)%nat -> drawn rng c table ->
  generate rng table (2 * c) = Some (candidate rng (2 * c), 2 * S c)%nat.
Proof.
  intros Hdist Hc Hd. unfold generate. cbn [generate_loop]. rewrite decide_False.
  - do 2 f_equal. lia.
  - intros (i & Hi & E)%Hd. by apply (Hdist i c ltac:(lia)).
Qed.

End store.

(** ** Runs of the token manager *)

Module TokenRuns.
Import TokenManager.

Inductive op := Create (user : User) | Verify (token : bytes) | Remove (token : bytes).
Inductive out := Created (s : AuthSession) | Verified (s : option AuthSession) | Removed (b : bool).

Definition exec (rng : random) (ev : Z * op) (m : t) : option (out * t) :=
  let '(now, o) := ev in
  match o with
  | Create user => '(s, m) ← createSession rng user now m; Some (Created s, m)
  | Verify token => let '(s, m) := verify token now m in Some (Verified s, m)
  | Remove token => let '(b, m) := remove token m in Some (Removed b, m)
  end.

Fixpoint run (rng : random) (evs : list (Z * op)) (m : t) : option (list out * t) :=
  match evs with
  | [] => Some ([], m)
  | ev :: evs => '(o, m) ← exec rng ev m; '(os, m) ← run rng evs m; Some (o :: os, m)
  end.

(** The specification: a session is valid from its creation to its expiry or
    removal, a new token is not that of a valid session, and removing says true
    for a valid session and false for one that was never issued. *)
Inductive allowed (ttl : Z) : Z * op -> out -> gmap bytes AuthSession -> gmap bytes AuthSession -> Prop :=
| allowed_create now user key issued :
    (forall s, issued !! key = Some s -> session_expireAt s <= now) ->
    let s := mkSession key (user_userId user) (user_username user) (user_role user) (now + ttl) in
    allowed ttl (now, Create user) (Created s) issued (<[key := s]> issued)
| allowed_verify now key issued :
    allowed ttl (now, Verify key)
      (Verified (s ← issued !! key; if now <? session_expireAt s then Some s else None)) issued issued
| allowed_remove now key b issued :
    (b = true -> is_Some (issued !! key)) ->
    (forall s, issued !! key = Some s -> now < session_expireAt s -> b = true) ->
    allowed ttl (now, Remove key) (Removed b) issued (delete key issued).

Inductive allowed_run (ttl : Z) : list (Z * op) -> list out -> gmap bytes AuthSession -> Prop :=
| allowed_nil issued : allowed_run ttl [] [] issued
| allowed_cons ev evs o os issued issued' :
    allowed ttl ev o issued issued' -> allowed_run ttl evs os issued' ->
    allowed_run ttl (ev :: evs) (o :: os) issued.

Lemma exec_allowed rng now o m issued x m' :
  live now issued (sessions_ m) -> exec rng (now, o) m = Some (x, m') ->
  ttlSeconds_ m' = ttlSeconds_ m /\
  exists issued', allowed (ttlSeconds_ m) (now, o) x issued issued' /\ live now issued' (sessions_ m').
Proof.
  intros Hl. destruct o as [user|key|key]; cbn [exec].
  - unfold createSession, generateToken. cbn [removeExpiredLocked sessions_ generator_ ttlSeconds_].
    apply live_purge in Hl. change (filter _ (sessions_ m)) with (purge now (sessions_ m)).
    destruct (generate _ _ _) as [[key g]|] eqn:Eg; [|done]. intros [= <- <-].
    split; [done|]. eexists. split; [|by apply live_insert].
    apply (allowed_create _ now user key issued). by eapply live_generate.
  - unfold verify. destruct (sessions_ m !! key) as [s|] eqn:Ek.
    + pose proof (live_lookup _ _ _ _ _ Hl Ek) as Hs.
      destruct (Z.leb_spec (session_expireAt s) now); intros [= <- <-]; (split; [done|]); exists issued.
      * split; [|by eapply live_drop]. pose proof (allowed_verify (ttlSeconds_ m) now key issued) as Ha.
        rewrite Hs in Ha. cbn in Ha. by rewrite (proj2 (Z.ltb_ge _ _)) in Ha by lia.
      * split; [|done]. pose proof (allowed_verify (ttlSeconds_ m) now key issued) as Ha.
        rewrite Hs in Ha. cbn in Ha. by rewrite (proj2 (Z.ltb_lt _ _)) in Ha by lia.
    + intros [= <- <-]. split; [done|]. exists issued. split; [|done].
      pose proof (allowed_verify (ttlSeconds_ m) now key issued) as Ha.
      destruct (issued !! key) as [s|] eqn:Es; [|done]. cbn in Ha.
      by rewrite (proj2 (Z.ltb_ge _ _)) in Ha by by eapply live_absent.
  - intros [= <- <-]. split; [done|]. exists (delete key issued). split; [|by apply live_delete].
    apply allowed_remove.
    + intros [s Hs]%bool_decide_eq_true. exists s. by eapply live_lookup.
    + intros s Hs Hv. apply bool_decide_eq_true. exists s. by apply Hl.
Qed.

Lemma run_allowed rng evs now issued m os m' :
  live now issued (sessions_ m) -> nondecreasing now evs -> run rng evs m = Some (os, m') ->
  allowed_run (ttlSeconds_ m) evs os issued.
Proof.
  revert now issued m os. induction evs as [|[now' o] evs IH]; intros now issued m os Hl Ht; cbn [run].
  - intros [= <- <-]. constructor.
  - destruct Ht as [Hle Ht].
    destruct (exec rng (now', o) m) as [[x m1]|] eqn:E; cbn [mbind option_bind]; [|done].
    destruct (run rng evs m1) as [[xs m2]|] eqn:Er; cbn [mbind option_bind]; [|done].
    intros [= <- <-]. eapply live_later in Hl; [|exact Hle].
    destruct (exec_allowed rng now' o m issued x m1 Hl E) as (Httl & issued' & Ha & Hl').
    econstructor; [exact Ha|]. rewrite <- Httl. by eapply IH.
Qed.

(** Each creation draws one key. *)
Lemma exec_total rng n c now o m :
  distinct_keys rng n -> (c < n)%nat -> drawn rng c (sessions_ m) -> generator_ m = (2 * c)%nat ->
  exists x m' c', exec rng (now, o) m = Some (x, m') /\ (c' <= S c)%nat /\
    drawn rng c' (sessions_ m') /\ generator_ m' = (2 * c')%nat.
Proof.
  intros Hdist Hc Hd Hg. destruct o as [user|key|key]; cbn [exec].
  - unfold createSession, generateToken. cbn [removeExpiredLocked sessions_ generator_ ttlSeconds_].
    apply (drawn_mono _ _ c _ (purge now (sessions_ m))) in Hd; [|done|apply map_filter_subseteq].
    change (filter _ (sessions_ m)) with (purge now (sessions_ m)).
    rewrite Hg, (drawn_generate _ _ n) by done. cbn [mbind option_bind].
    eexists _, _, (S c). split; [done|]. split; [done|]. split; [by apply drawn_insert|done].
  - unfold verify. destruct (sessions_ m !! key) as [s|]; [destruct (_ <=? _)|]; eexists _, _, c;
      (split; [done|]); (split; [lia|]); (split; [|done]); try done.
    eapply drawn_mono; [exact Hd|done|apply delete_subseteq].
  - eexists _, _, c. split; [done|]. split; [lia|]. split; [|done].
    eapply drawn_mono; [exact Hd|done|apply delete_subseteq].
Qed.

Lemma run_total rng n evs c m :
  distinct_keys rng n -> (c + length evs <= n)%nat -> drawn rng c (sessions_ m) ->
  generator_ m = (2 * c)%nat -> exists os m', run rng evs m = Some (os, m').
Proof.
  intros Hdist. revert c m. induction evs as [|[now o] evs IH]; intros c m Hc Hd Hg; cbn [run length] in *.
  - by eexists _, _.
  - destruct (exec_total rng n c now o m Hdist ltac:(lia) Hd Hg) as (x & m1 & c1 & -> & Hc1 & Hd1 & Hg1).
    cbn [mbind option_bind]. destruct (IH c1 m1 ltac:(lia) Hd1 Hg1) as (os & m2 & ->). by eexists _, _.
Qed.

End TokenRuns.

(** ** Runs of the ticket manager *)

Module TicketRuns.
Import RtmpTicketManager.

Inductive op :=
| Create (session : AuthSession) (streamKey : bytes) (permission : RtmpPermission)
| VerifyPublish (ticket streamKey : bytes)
| VerifyPlay (ticket streamKey : bytes).
Inductive out := Created (k : RtmpTicket) | Verified (k : option RtmpTicket).

Definition exec (rng : random) (ev : Z * op) (m : t) : option (out * t) :=
  let '(now, o) := ev in
  match o with
  | Create s key permission =>
      '(k, m) ← createTicket rng s key permission now m; Some (Created k, m)
  | VerifyPublish k key => let '(r, m) := verifyPublish k key now m in Some (Verified r, m)
  | VerifyPlay k key => let '(r, m) := verifyPlay k key now m in Some (Verified r, m)
  end.

Fixpoint run (rng : random) (evs : list (Z * op)) (m : t) : option (list out * t) :=
  match evs with
  | [] => Some ([], m)
  | ev :: evs => '(o, m) ← exec rng ev m; '(os, m) ← run rng evs m; Some (o :: os, m)
  end.

(** The permissions that allow an action. *)
Definition may_publish (p : RtmpPermission) : bool := bool_decide (p ∈ [kPublish; kBoth]).
Definition may_play (p : RtmpPermission) : bool := bool_decide (p ∈ [kPlay; kBoth]).

(** A ticket is good for one stream, for what it was asked for, until it
    expires. *)
Definition good (now : Z) (key : bytes) (may : RtmpTicket -> bool) (k : RtmpTicket) : option RtmpTicket :=
  if (now <? ticket_expireAt k) && bool_decide (streamKey k = key) && may k then Some k else None.

Inductive allowed (ttl : Z) : Z * op -> out -> gmap bytes RtmpTicket -> gmap bytes RtmpTicket -> Prop :=
| allowed_create now s key p id issued :
    (forall k, issued !! id = Some k -> ticket_expireAt k <= now) ->
    let k := mkTicket id (userId s) (username s) (role s) key (may_publish p) (may_play p) (now + ttl) in
    allowed ttl (now, Create s key p) (Created k) issued (<[id := k]> issued)
| allowed_publish now id key issued :
    allowed ttl (now, VerifyPublish id key)
      (Verified (issued !! id ≫= good now key allowPublish)) issued issued
| allowed_play now id key issued :
    allowed ttl (now, VerifyPlay id key)
      (Verified (issued !! id ≫= good now key allowPlay)) issued issued.

Inductive allowed_run (ttl : Z) : list (Z * op) -> list out -> gmap bytes RtmpTicket -> Prop :=
| allowed_nil issued : allowed_run ttl [] [] issued
| allowed_cons ev evs o os issued issued' :
    allowed ttl ev o issued issued' -> allowed_run ttl evs os issued' ->
    allowed_run ttl (ev :: evs) (o :: os) issued.

(** Verifying answers what the specification says and keeps the table live. *)
Lemma verify_good now issued m id key publish r m' :
  live now issued (tickets_ m) -> verify id key publish now m = (r, m') ->
  r = issued !! id ≫= good now key (if publish then allowPublish else allowPlay) /\
  live now issued (tickets_ m') /\ ttlSeconds_ m' = ttlSeconds_ m /\ generator_ m' = generator_ m /\
  tickets_ m' ⊆ tickets_ m.
Proof.
  intros Hl. unfold verify, good. destruct (tickets_ m !! id) as [k|] eqn:Ek.
  - rewrite (live_lookup _ _ _ _ _ Hl Ek). cbn [mbind option_bind].
    destruct (Z.leb_spec (ticket_expireAt k) now).
    + intros [= <- <-]. rewrite (proj2 (Z.ltb_ge _ _)) by lia.
      split_and!; [done|by eapply live_drop|done|done|apply delete_subseteq].
    + rewrite (proj2 (Z.ltb_lt _ _)) by lia.
      case_bool_decide; [|intros [= <- <-]; split_and!; done].
      destruct publish, (allowPublish k), (allowPlay k); intros [= <- <-]; split_and!; done.
  - intros [= <- <-]. split_and!; try done. destruct (issued !! id) as [k|] eqn:Es; [|done]. cbn.
    by rewrite (proj2 (Z.ltb_ge _ _)) by by eapply live_absent.
Qed.

Lemma permission_bits p :
  (bool_decide (p = kPublish) || bool_decide (p = kBoth)) = may_publish p /\
  (bool_decide (p = kPlay) || bool_decide (p = kBoth)) = may_play p.
Proof. by destruct p. Qed.

Lemma ticket_exec_allowed rng now o m issued x m' :
  live now issued (tickets_ m) -> exec rng (now, o) m = Some (x, m') ->
  ttlSeconds_ m' = ttlSeconds_ m /\
  exists issued', allowed (ttlSeconds_ m) (now, o) x issued issued' /\ live now issued' (tickets_ m').
Proof.
  intros Hl. destruct o as [s key p|id key|id key]; cbn [exec].
  - unfold createTicket, generateTicket. cbn [removeExpiredLocked tickets_ generator_ ttlSeconds_].
    apply live_purge in Hl. change (filter _ (tickets_ m)) with (purge now (tickets_ m)).
    destruct (generate _ _ _) as [[id g]|] eqn:Eg; [|done]. cbn [mbind option_bind].
    destruct (permission_bits p) as [-> ->]. intros [= <- <-].
    split; [done|]. eexists. split; [|by apply live_insert].
    apply (allowed_create _ now s key p id issued). by eapply live_generate.
  - unfold verifyPublish. destruct (verify _ _ _ _ _) as [r m1] eqn:Ev. intros [= <- <-].
    destruct (verify_good _ _ _ _ _ _ _ _ Hl Ev) as (-> & Hl' & Httl & _).
    split; [done|]. exists issued. split; [constructor|done].
  - unfold verifyPlay. destruct (verify _ _ _ _ _) as [r m1] eqn:Ev. intros [= <- <-].
    destruct (verify_good _ _ _ _ _ _ _ _ Hl Ev) as (-> & Hl' & Httl & _).
    split; [done|]. exists issued. split; [constructor|done].
Qed.

Lemma ticket_run_allowed rng evs now issued m os m' :
  live now issued (tickets_ m) -> nondecreasing now evs -> run rng evs m = Some (os, m') ->
  allowed_run (ttlSeconds_ m) evs os issued.
Proof.
  revert now issued m os. induction evs as [|[now' o] evs IH]; intros now issued m os Hl Ht; cbn [run].
  - intros [= <- <-]. constructor.
  - destruct Ht as [Hle Ht].
    destruct (exec rng (now', o) m) as [[x m1]|] eqn:E; cbn [mbind option_bind]; [|done].
    destruct (run rng evs m1) as [[xs m2]|] eqn:Er; cbn [mbind option_bind]; [|done].
    intros [= <- <-]. eapply live_later in Hl; [|exact Hle].
    destruct (ticket_exec_allowed rng now' o m issued x m1 Hl E) as (Httl & issued' & Ha & Hl').
    econstructor; [exact Ha|]. rewrite <- Httl. by eapply IH.
Qed.

Lemma ticket_exec_total rng n c now o m :
  distinct_keys rng n -> (c < n)%nat -> drawn rng c (tickets_ m) -> generator_ m = (2 * c)%nat ->
  exists x m' c', exec rng (now, o) m = Some (x, m') /\ (c' <= S c)%nat /\
    drawn rng c' (tickets_ m') /\ generator_ m' = (2 * c')%nat.
Proof.
  intros Hdist Hc Hd Hg.
  assert (forall id key publish, exists r m', verify id key publish now m = (r, m') /\
            drawn rng c (tickets_ m') /\ generator_ m' = (2 * c)%nat) as Hv.
  { intros id key publish. destruct (verify id key publish now m) as [r m'] eqn:E. exists r, m'.
    destruct (verify_good now (tickets_ m) m id key publish r m') as (_ & _ & _ & Hg' & Hs); [done|done|].
    split; [done|]. split; [|congruence]. by eapply drawn_mono. }
  destruct o as [s key p|id key|id key]; cbn [exec].
  - unfold createTicket, generateTicket. cbn [removeExpiredLocked tickets_ generator_ ttlSeconds_].
    apply (drawn_mono _ _ c _ (purge now (tickets_ m))) in Hd; [|done|apply map_filter_subseteq].
    change (filter _ (tickets_ m)) with (purge now (tickets_ m)).
    rewrite Hg, (drawn_generate _ _ n) by done. cbn [mbind option_bind].
    eexists _, _, (S c). split; [done|]. split; [done|]. split; [by apply drawn_insert|done].
  - destruct (Hv id key true) as (r & m' & E & Hd' & Hg'). unfold verifyPublish. rewrite E.
    eexists _, _, c. split; [done|]. split; [lia|]. done.
  - destruct (Hv id key false) as (r & m' & E & Hd' & Hg'). unfold verifyPlay. rewrite E.
    eexists _, _, c. split; [done|]. split; [lia|]. done.
Qed.

Lemma ticket_run_total rng n evs c m :
  distinct_keys rng n -> (c + length evs <= n)%nat -> drawn rng c (tickets_ m) ->
  generator_ m = (2 * c)%nat -> exists os m', run rng evs m = Some (os, m').
Proof.
  intros Hdist. revert c m. induction evs as [|[now o] evs IH]; intros c m Hc Hd Hg; cbn [run length] in *.
  - by eexists _, _.
  - destruct (ticket_exec_total rng n c now o m Hdist ltac:(lia) Hd Hg) as (x & m1 & c1 & -> & Hc1 & Hd1 & Hg1).
    cbn [mbind option_bind]. destruct (IH c1 m1 ltac:(lia) Hd1 Hg1) as (os & m2 & ->). by eexists _, _.
Qed.

End TicketRuns.

(** ** The user table *)

Record users_ok (s : UserStore) : Prop := {
  users_name : forall n u, usersByName_ s !! n = Some u -> user_username u = n;
  users_id : forall i n, userIdToName_ s !! i = Some n <->
               exists u, usersByName_ s !! n = Some u /\ user_userId u = i;
}.

Lemma users_ok_empty : users_ok (mkUserStore ∅ ∅).
Proof.
  split; cbn.
  - intros n u. by rewrite lookup_empty.
  - intros i n. rewrite lookup_empty. split; [done|]. intros (u & Hu & _). by rewrite lookup_empty in Hu.
Qed.

Lemma users_ok_add u s : users_ok s -> users_ok (addUser u s).2.
Proof.
  intros [H1 H2]. unfold addUser. destruct (bool_decide _) eqn:E1; [done|].
  destruct (bool_decide (is_Some (userIdToName_ s !! _))) eqn:E2; [done|]. cbn.
  apply bool_decide_eq_false, eq_None_not_Some in E1, E2.
  split; cbn.
  - intros n v [[<- <-]|[_ Hv]]%lookup_insert_Some; [done|by apply H1].
  - intros i n. rewrite lookup_insert_Some, H2. split.
    + intros [[<- <-]|[Hne (v & Hv & Hi)]].
      * exists u. split; [|done]. by rewrite lookup_insert, decide_True.
      * exists v. split; [|done]. rewrite lookup_insert_ne; [done|]. intros Heq. congruence.
    + intros (v & Hv & <-). apply lookup_insert_Some in Hv as [[<- <-]|[Hne Hv]]; [by left|].
      right. split; [|by exists v]. intros Hid.
      assert (userIdToName_ s !! user_userId u = Some n) by (apply H2; by exists v). congruence.
Qed.

(** Adding users one after the other, from the constructor's state. *)
Fixpoint add_all (us : list User) (s : UserStore) : UserStore :=
  match us with
  | [] => s
  | u :: us => add_all us (addUser u s).2
  end.

Lemma users_ok_add_all us s : users_ok s -> users_ok (add_all us s).
Proof. revert s. induction us as [|u us IH]; intros s Hs; cbn; [done|]. by apply IH, users_ok_add. Qed.

Lemma default_users_added std_hash s :
  addDefaultUsers std_hash s =
  add_all [default_user std_hash (str "teacher01") kTeacher; default_user std_hash (str "student01") kStudent;
           default_user std_hash (str "student02") kStudent] s.
Proof.
  unfold addDefaultUsers, add_all. destruct (addUser _ s) as [b1 s1]. cbn [snd].
  destruct (addUser _ s1) as [b2 s2]. cbn [snd]. by destruct (addUser _ s2).
Qed.

Lemma users_ok_make std_hash : users_ok (UserStore_make std_hash).
Proof. unfold UserStore_make. rewrite default_users_added. apply users_ok_add_all, users_ok_empty. Qed.

(** ** Properties *)

(** C26 The token manager refines a table that never purges: along every run of
    creations, verifications and removals with a clock that does not go back,
    what it returns is what the specification allows (a session is verified from
    its creation to its expiry or removal and never otherwise, a new token never
    belongs to a valid session, a removal says whether there was one); and the
    run does return when the keys the generator makes are different. *)
Theorem token_manager_refines (rng : random) (ttl t0 : Z) (evs : list (Z * TokenRuns.op)) :
  nondecreasing t0 evs ->
  (forall os m, TokenRuns.run rng evs (TokenManager.make ttl) = Some (os, m) ->
     TokenRuns.allowed_run ttl evs os ∅) /\
  (distinct_keys rng (length evs) ->
     exists os m, TokenRuns.run rng evs (TokenManager.make ttl) = Some (os, m)).
Proof.
  intros Ht. split.
  - intros os m Hr. by apply (TokenRuns.run_allowed rng evs t0 ∅ (TokenManager.make ttl) os m);
      [apply live_empty|..].
  - intros Hd. apply (TokenRuns.run_total rng (length evs) evs 0); [done|done| |done].
    intros k [v Hk]. cbn in Hk. by rewrite lookup_empty in Hk.
Qed.

(** A generator for the witnesses: a counter. *)
Definition counting : random := mkRandom Z.of_nat true.
Definition alice : User := mkUser (str "u1") (str "alice") (str "0") kStudent true.

Lemma token_manager_refines_witness :
  let evs := [(10, TokenRuns.Create alice);
              (20, TokenRuns.Verify (candidate counting 0));
              (30, TokenRuns.Remove (candidate counting 0));
              (30, TokenRuns.Verify (candidate counting 0))] in
  nondecreasing 0 evs /\ distinct_keys counting (length evs) /\
  (forall os m, TokenRuns.run counting evs (TokenManager.make 5) = Some (os, m) ->
     TokenRuns.allowed_run 5 evs os ∅) /\
  exists os m, TokenRuns.run counting evs (TokenManager.make 5) = Some (os, m).
Proof.
  intros evs.
  assert (nondecreasing 0 evs) as Ht by (cbn; lia).
  assert (distinct_keys counting (length evs)) as Hd.
  { intros i j Hij. cbn in Hij.
    destruct i as [|[|[|i]]], j as [|[|[|[|j]]]]; try lia; vm_compute; discriminate. }
  destruct (token_manager_refines counting 5 0 evs Ht) as [H1 H2]. auto.
Defined.

(** The ticket manager refines the same kind of table: a ticket is accepted
    exactly for the stream and the action it was created for and until it
    expires, however often it is checked; a new ticket never has the key of one
    that is still valid; and runs return when the generated keys are different. *)
Theorem ticket_manager_refines (rng : random) (ttl t0 : Z) (evs : list (Z * TicketRuns.op)) :
  nondecreasing t0 evs ->
  (forall os m, TicketRuns.run rng evs (RtmpTicketManager.make ttl) = Some (os, m) ->
     TicketRuns.allowed_run ttl evs os ∅) /\
  (distinct_keys rng (length evs) ->
     exists os m, TicketRuns.run rng evs (RtmpTicketManager.make ttl) = Some (os, m)).
Proof.
  intros Ht. split.
  - intros os m Hr. by apply (TicketRuns.ticket_run_allowed rng evs t0 ∅ (RtmpTicketManager.make ttl) os m);
      [apply live_empty|..].
  - intros Hd. apply (TicketRuns.ticket_run_total rng (length evs) evs 0); [done|done| |done].
    intros k [v Hk]. cbn in Hk. by rewrite lookup_empty in Hk.
Qed.

Lemma ticket_manager_refines_witness :
  let s := mkSession (str "t") (str "u1") (str "alice") kStudent 100 in
  let evs := [(10, TicketRuns.Create s (str "/live/a") kPublish);
              (20, TicketRuns.VerifyPublish (candidate counting 0) (str "/live/a"));
              (21, TicketRuns.VerifyPlay (candidate counting 0) (str "/live/a"))] in
  nondecreasing 0 evs /\ distinct_keys counting (length evs) /\
  (forall os m, TicketRuns.run counting evs (RtmpTicketManager.make 300) = Some (os, m) ->
     TicketRuns.allowed_run 300 evs os ∅) /\
  exists os m, TicketRuns.run counting evs (RtmpTicketManager.make 300) = Some (os, m).
Proof.
  intros s evs.
  assert (nondecreasing 0 evs) as Ht by (cbn; lia).
  assert (distinct_keys counting (length evs)) as Hd.
  { intros i j Hij. cbn in Hij.
    destruct i as [|[|i]], j as [|[|[|j]]]; try lia; vm_compute; discriminate. }
  destruct (ticket_manager_refines counting 300 0 evs Ht) as [H1 H2]. auto.
Defined.

(** The loop that draws a key ends with one that is not in use as soon as
    one more different keys than entries come out of the generator; whatever the
    generator gives, a key that is returned is not in use. *)
Theorem key_generation {V : Type} (rng : random) (table : gmap bytes V) (g : nat) :
  (forall key g', generate rng table g = Some (key, g') -> table !! key = None) /\
  ((forall i j : nat, (i < j <= size table)%nat ->
      candidate rng (g + 2 * i) <> candidate rng (g + 2 * j)) ->
   exists key g', generate rng table g = Some (key, g')).
Proof.
  split.
  - intros key g' Hg. by apply generate_loop_fresh in Hg as [? _].
  - intros Hd. destruct (generate_total rng table g Hd) as [[key g'] Hg]. by exists key, g'.
Qed.

(** One key in use: the second draw is free. *)
Lemma key_generation_witness :
  exists key g', generate counting ({[candidate counting 0 := alice]} : gmap bytes User) 0 = Some (key, g').
Proof.
  apply (key_generation counting ({[candidate counting 0 := alice]} : gmap bytes User) 0).
  rewrite map_size_singleton. intros i j Hij.
  destruct i as [|[|i]], j as [|[|j]]; try lia. vm_compute. discriminate.
Defined.

(** In the user table every operation sequence keeps the two maps in step:
    looking up by id finds exactly the user of that id that the name lookup has;
    adding fails, without a change, exactly for a name or an id in use, and
    otherwise adds that user and nothing else. *)
Theorem user_store_consistent (std_hash : bytes -> Z) (us : list User) :
  let s := add_all us (UserStore_make std_hash) in
  (forall i u, findByUserId i s = Some u <-> findByUsername (user_username u) s = Some u /\ user_userId u = i) /\
  forall u,
    let '(ok, s') := addUser u s in
    (ok = false <-> exists v, findByUsername (user_username v) s = Some v /\
                      (user_username v = user_username u \/ user_userId v = user_userId u)) /\
    (ok = false -> s' = s) /\
    (ok = true -> forall v, findByUsername (user_username v) s' = Some v <->
                   v = u \/ findByUsername (user_username v) s = Some v).
Proof.
  intros s. assert (users_ok s) as [Hname Hid] by apply users_ok_add_all, users_ok_make.
  unfold findByUserId, findByUsername. split.
  - intros i u. destruct (userIdToName_ s !! i) as [n|] eqn:E.
    + pose proof (proj1 (Hid i n) E) as (v & Hv & Hi). split.
      * intros Hu. rewrite Hv in Hu. simplify_eq. by rewrite (Hname n u Hv).
      * intros [Hu <-]. assert (userIdToName_ s !! user_userId u = Some (user_username u)) as E2
          by (apply Hid; by exists u). congruence.
    + split; [done|]. intros [Hu <-].
      assert (userIdToName_ s !! user_userId u = Some (user_username u)) as E2
        by (apply Hid; by exists u). congruence.
  - intros u. unfold addUser.
    destruct (bool_decide (is_Some (usersByName_ s !! _))) eqn:E1;
      [|destruct (bool_decide (is_Some (userIdToName_ s !! _))) eqn:E2]; cbn [orb].
    + apply bool_decide_eq_true in E1 as [v Hv]. pose proof (Hname _ _ Hv) as Hn.
      split; [|done]. split; [|done]. intros _. exists v. rewrite Hn. auto.
    + apply bool_decide_eq_true in E2 as [n Hn]. pose proof (proj1 (Hid _ _) Hn) as (v & Hv & Hi).
      split; [|done]. split; [|done]. intros _. exists v. rewrite (Hname _ _ Hv). auto.
    + apply bool_decide_eq_false, eq_None_not_Some in E1, E2. split; [split; [done|]|split; [done|]].
      * intros (v & Hv & [Hn|Hi]); [congruence|].
        assert (userIdToName_ s !! user_userId v = Some (user_username v)) by (apply Hid; by exists v).
        congruence.
      * intros _ v. cbn [usersByName_]. rewrite lookup_insert_Some. split.
        -- intros [[_ <-]|[_ Hv]]; auto.
        -- intros [->|Hv]; [auto|]. right. split; [|done]. intros Heq. congruence.
Qed.

(** Login: it succeeds only for an enabled user of that name, with a password
    of the same hash and the user's role; the session is of that user, its token
    is accepted for exactly two hours (of the manager's time to live) and no
    longer once logged out; a login that fails changes nothing. *)
Theorem login_lifecycle (std_hash : bytes -> Z) (rng : random) (name password : bytes)
    (role : UserRole) (now : Z) (s s' : AuthService) (r : AuthResult) :
  login std_hash rng name password role now s = Some (r, s') ->
  (error r <> kOk -> s' = s /\ session r = no_session) /\
  (error r = kOk -> exists u,
     findByUsername name (userStore_ s) = Some u /\ enabled u = true /\ user_role u = role /\
     passwordHash u = makePasswordHash std_hash password /\
     userId (session r) = user_userId u /\ username (session r) = user_username u /\
     Auth.role (session r) = role /\
     let expiry := now + TokenManager.ttlSeconds_ (tokenManager_ s) in
     (forall now', (verifyToken (token (session r)) now' s').1 =
                   if now' <? expiry then Some (session r) else None) /\
     (logout (token (session r)) s').1 = true /\
     (forall now', (verifyToken (token (session r)) now' (logout (token (session r)) s').2).1 = None)).
Proof.
  unfold login. destruct (bool_decide _ || _ || _); [by intros [= <- <-]|].
  destruct (findByUsername name (userStore_ s)) as [u|] eqn:Eu; [|by intros [= <- <-]].
  case_bool_decide as Eh; cbn [negb]; [|by intros [= <- <-]].
  destruct (enabled u) eqn:Een; cbn [negb]; [|by intros [= <- <-]].
  case_bool_decide as Er; cbn [negb]; [|by intros [= <- <-]].
  unfold TokenManager.createSession, TokenManager.generateToken.
  destruct (generate _ _ _) as [[key g]|] eqn:Eg; cbn [mbind option_bind]; [|done].
  intros [= <- <-]. cbn [error session token userId username Auth.role]. split; [done|]. intros _.
  assert (key <> []) as Hkey.
  { apply generate_loop_fresh in Eg as (_ & i & -> & _). unfold candidate.
    by destruct (left_to_right rng). }
  exists u. split_and!; try done.
  - intros now'. unfold verifyToken, TokenManager.verify. rewrite bool_decide_eq_false_2 by done.
    cbn [tokenManager_ TokenManager.sessions_]. rewrite lookup_insert, decide_True by done.
    cbn [session_expireAt TokenManager.ttlSeconds_ TokenManager.removeExpiredLocked].
    rewrite Z.leb_antisym. by destruct (_ <? _).
  - unfold logout, TokenManager.remove. rewrite bool_decide_eq_false_2 by done.
    cbn [tokenManager_ TokenManager.sessions_ fst]. by rewrite lookup_insert, decide_True by done.
  - intros now'. unfold logout, verifyToken, TokenManager.remove, TokenManager.verify.
    rewrite bool_decide_eq_false_2 by done. cbn [snd tokenManager_ TokenManager.sessions_].
    by rewrite lookup_delete_eq.
Qed.

Lemma login_lifecycle_witness :
  let h := fun pw => Z.of_nat (length pw) in
  exists r s',
    login h counting (str "teacher01") (str "123456") kTeacher 0 (AuthService_make h) = Some (r, s') /\
    error r = kOk /\ (verifyToken (token (session r)) 7200 s').1 = None.
Proof.
  intros h.
  assert (option_map (fun p => error p.1)
            (login h counting (str "teacher01") (str "123456") kTeacher 0 (AuthService_make h)) = Some kOk)
    as Hok by (vm_compute; reflexivity).
  destruct (login h counting (str "teacher01") (str "123456") kTeacher 0 (AuthService_make h))
    as [[r s']|] eqn:E; [|discriminate Hok].
  exists r, s'. cbn in Hok. injection Hok as Hok. split; [reflexivity|]. split; [exact Hok|].
  destruct (login_lifecycle _ _ _ _ _ _ _ _ _ E) as [_ Hs].
  destruct (Hs Hok) as (u & _ & _ & _ & _ & _ & _ & _ & Hv & _).
  rewrite Hv. vm_compute. reflexivity.
Defined.
