(* ===== verification/LoginServer.v ===== *)
(** * src/api/Router.h, src/api/Router.cc, src/example/login_server.cc

    The HTTP API of the teacher backend: the router, the handlers that main
    registers, and the callback that lets the RTMP server check a ticket.  A
    handler threads the backend's state; [clock i] is what the clock says at its
    [i]-th reading during the request. *)

From S2P Require Import Prelude Bytes Text HttpContext HttpServer Json Auth.
Import JsonResponse JsonRequest.

(** ** Router *)

Module Router.

#[export] Instance Method_countable : Countable HttpRequest.Method.
Proof.
  refine (inj_countable'
    (fun m => match m with
              | HttpRequest.kInvalid => 0 | HttpRequest.kGet => 1 | HttpRequest.kPost => 2
              | HttpRequest.kHead => 3 | HttpRequest.kPut => 4 | HttpRequest.kDelete => 5
              end)
    (fun n => match n with
              | 0 => HttpRequest.kInvalid | 1 => HttpRequest.kGet | 2 => HttpRequest.kPost
              | 3 => HttpRequest.kHead | 4 => HttpRequest.kPut | _ => HttpRequest.kDelete
              end) _).
  by intros [].
Defined.

(** [static_cast<int>(method)] *)
Definition method_int (m : HttpRequest.Method) : Z :=
  match m with
  | HttpRequest.kInvalid => 0 | HttpRequest.kGet => 1 | HttpRequest.kPost => 2
  | HttpRequest.kHead => 3 | HttpRequest.kPut => 4 | HttpRequest.kDelete => 5
  end.

(** [std::hash<int>] and [std::hash<std::string>] are the implementation's. *)
Definition RouteKeyHash (hash_int : Z -> Z) (hash_string : bytes -> Z)
    (key : HttpRequest.Method * bytes) : Z :=
  let methodHash := hash_int (method_int key.1) in
  let pathHash := hash_string key.2 in
  Z.lxor methodHash
    (u64 (pathHash + 0x9e3779b9 + u64 (Z.shiftl methodHash 6) + Z.shiftr methodHash 2)).

Section router.
Context {St : Type}.

Definition Handler : Type :=
  (nat -> Z) -> HttpRequest.t -> HttpResponse.t -> St -> option (HttpResponse.t * St).

(** [routes_] *)
Definition t : Type := gmap (HttpRequest.Method * bytes) Handler.

Definition addRoute (method : HttpRequest.Method) (path : bytes) (handler : Handler) (r : t) : t :=
  <[(method, path) := handler]> r.
Definition get (path : bytes) (handler : Handler) (r : t) : t :=
  addRoute HttpRequest.kGet path handler r.
Definition post (path : bytes) (handler : Handler) (r : t) : t :=
  addRoute HttpRequest.kPost path handler r.

Definition route (r : t) : Handler := fun clock request response st =>
  match r !! (HttpRequest.method_ request, HttpRequest.path_ request) with
  | None =>
      let response := HttpResponse.setStatusCode HttpResponse.k404NotFound response in
      let response := HttpResponse.setStatusMessage (str "Not Found") response in
      let response := HttpResponse.setContentType (str "application/json") response in
      Some (HttpResponse.setBody (makeError 404 (str "not found")) response, st)
  | Some handler => handler clock request response st
  end.

End router.
Arguments Handler St : clear implicits.
Arguments t St : clear implicits.

End Router.

(** ** login_server.cc *)

Module LoginServer.

Definition authErrorCode (error : AuthError) : Z :=
  match error with
  | kOk => 0
  | kBadRequest => 1000
  | kInvalidCredentials => 1001
  | kUnauthorized => 1002
  | kTokenExpired => 1004
  | kUserDisabled => 1005
  | kUnsupportedRole => 1006
  end.

Definition makeLoginData (session : AuthSession) : bytes :=
  str "{" ++ makeField (str "token") (token session) ++ str "," ++
  makeField (str "userId") (userId session) ++ str "," ++
  makeField (str "username") (username session) ++ str "," ++
  makeField (str "role") (roleToString (role session)) ++ str "," ++
  makeNumberField (str "expireAt") (session_expireAt session) ++ str "}".

Definition makeUserData (session : AuthSession) : bytes :=
  str "{" ++ makeField (str "userId") (userId session) ++ str "," ++
  makeField (str "username") (username session) ++ str "," ++
  makeField (str "role") (roleToString (role session)) ++ str "}".

Definition makeStreamKey (app streamName : bytes) : bytes := str "/" ++ app ++ str "/" ++ streamName.

Definition isValidStreamName (streamName : bytes) : bool :=
  negb (bool_decide (streamName = [])) &&
  forallb (fun ch => isalnum ch || bool_decide (ch = chr 95) || bool_decide (ch = chr 45) ||
                     bool_decide (ch = chr 46)) streamName.

Definition makeRtmpTicketData (k : RtmpTicket) (host : bytes) (rtmpPort : Z) (app streamName : bytes)
    : bytes :=
  let url := str "rtmp://" ++ host ++ str ":" ++ format_dec rtmpPort ++ str "/" ++ app ++ str "/" ++
             streamName ++ str "?ticket=" ++ ticket k in
  let data := str "{" ++ makeField (str "streamKey") (streamKey k) ++ str "," in
  let data := if allowPublish k then data ++ makeField (str "publishUrl") url ++ str "," else data in
  let data := if allowPlay k then data ++ makeField (str "playUrl") url ++ str "," else data in
  data ++ makeNumberField (str "expireAt") (ticket_expireAt k) ++ str "}".

Definition kPrefix : bytes := str "Bearer ".

Definition getBearerToken (request : HttpRequest.t) : option bytes :=
  let authorization := HttpRequest.getHeader (str "Authorization") request in
  if (length authorization <=? length kPrefix) ||
     negb (bool_decide (take (length kPrefix) authorization = kPrefix))
  then None
  else Some (drop (length kPrefix) authorization).

Definition setJson (status : Z) (statusMessage body : bytes) (response : HttpResponse.t) : HttpResponse.t :=
  let response := HttpResponse.setStatusCode status response in
  let response := HttpResponse.setStatusMessage statusMessage response in
  let response := HttpResponse.setContentType (str "application/json") response in
  HttpResponse.setBody body response.

Definition setUnauthorized (response : HttpResponse.t) : HttpResponse.t :=
  setJson HttpResponse.k401Unauthorized (str "Unauthorized")
    (makeError (authErrorCode kUnauthorized) (authErrorMessage kUnauthorized)) response.

(** The answer to a body that is no object or lacks a field. *)
Definition setBadRequest (response : HttpResponse.t) : HttpResponse.t :=
  setJson HttpResponse.k400BadRequest (str "Bad Request") (makeError 1000 (str "bad request")) response.

Definition kRtmpHost : bytes := str "127.0.0.1".
Definition kRtmpApp : bytes := str "live".

(** What main's lambdas capture by reference. *)
Record backend := mkBackend {
  authService : AuthService;
  rtmpTicketManager : RtmpTicketManager.t;
}.

Section handlers.
Context (std_hash : bytes -> Z) (token_rng ticket_rng : random) (rtmpPort : Z).

Definition initial : backend :=
  mkBackend (AuthService_make std_hash) (RtmpTicketManager.make RtmpTicketManager.default_ttl).

Definition health : Router.Handler backend := fun clock request response st =>
  Some (setJson HttpResponse.k200Ok (str "OK")
          (makeOk (str "{" ++ quote (str "service") ++ str ":" ++ quote (str "login_server") ++ str "}"))
          response, st).

Definition login_request : Router.Handler backend := fun clock request response st =>
  body ← parseJsonObject (HttpRequest.body_ request);
  match body with
  | None => Some (setBadRequest response, st)
  | Some body =>
      match getString (str "username") body, getString (str "password") body, getString (str "role") body with
      | Some username, Some password, Some roleText =>
          let role := roleFromString roleText in
          '(result, auth) ← login std_hash token_rng username password role (clock 0) (authService st);
          let st := mkBackend auth (rtmpTicketManager st) in
          if negb (bool_decide (error result = kOk))
          then Some (setJson HttpResponse.k200Ok (str "OK")
                       (makeError (authErrorCode (error result)) (authErrorMessage (error result))) response, st)
          else Some (setJson HttpResponse.k200Ok (str "OK") (makeOk (makeLoginData (session result))) response, st)
      | _, _, _ => Some (setBadRequest response, st)
      end
  end.

Definition me : Router.Handler backend := fun clock request response st =>
  match getBearerToken request with
  | None => Some (setUnauthorized response, st)
  | Some token =>
      let '(session, auth) := verifyToken token (clock 0) (authService st) in
      let st := mkBackend auth (rtmpTicketManager st) in
      match session with
      | None => Some (setUnauthorized response, st)
      | Some session =>
          Some (setJson HttpResponse.k200Ok (str "OK") (makeOk (makeUserData session)) response, st)
      end
  end.

Definition logout_request : Router.Handler backend := fun clock request response st =>
  match getBearerToken request with
  | None => Some (setUnauthorized response, st)
  | Some token =>
      let '(ok, auth) := logout token (authService st) in
      let st := mkBackend auth (rtmpTicketManager st) in
      if negb ok then Some (setUnauthorized response, st)
      else Some (setJson HttpResponse.k200Ok (str "OK") (makeOk (str "null")) response, st)
  end.

Definition rtmp_ticket : Router.Handler backend := fun clock request response st =>
  match getBearerToken request with
  | None => Some (setUnauthorized response, st)
  | Some token =>
      let '(session, auth) := verifyToken token (clock 0) (authService st) in
      let st := mkBackend auth (rtmpTicketManager st) in
      match session with
      | None => Some (setUnauthorized response, st)
      | Some session =>
          body ← parseJsonObject (HttpRequest.body_ request);
          match body with
          | None => Some (setBadRequest response, st)
          | Some body =>
              match getString (str "streamName") body, getString (str "permission") body with
              | Some streamName, Some permissionText =>
                  if negb (isValidStreamName streamName) then Some (setBadRequest response, st)
                  else
                    let permission := rtmpPermissionFromString permissionText in
                    if bool_decide (permission = kPermissionUnknown) then Some (setBadRequest response, st)
                    else
                      let streamKey := makeStreamKey kRtmpApp streamName in
                      '(ticket, tickets) ← RtmpTicketManager.createTicket ticket_rng session streamKey
                                             permission (clock 1) (rtmpTicketManager st);
                      let st := mkBackend (authService st) tickets in
                      Some (setJson HttpResponse.k200Ok (str "OK")
                              (makeOk (makeRtmpTicketData ticket kRtmpHost rtmpPort kRtmpApp streamName))
                              response, st)
              | _, _ => Some (setBadRequest response, st)
              end
          end
      end
  end.

(** The routes main adds, in order. *)
Definition router : Router.t backend :=
  let router := ∅ in
  let router := Router.get (str "/api/health") health router in
  let router := Router.post (str "/api/login") login_request router in
  let router := Router.get (str "/api/me") me router in
  let router := Router.post (str "/api/logout") logout_request router in
  Router.post (str "/api/rtmp/ticket") rtmp_ticket router.

(** The callback given to the RTMP server. *)
Definition authCallback (streamKey ticket : bytes) (publish : bool) (now : Z) (st : backend)
    : bool * backend :=
  let '(r, tickets) :=
    if publish then RtmpTicketManager.verifyPublish ticket streamKey now (rtmpTicketManager st)
    else RtmpTicketManager.verifyPlay ticket streamKey now (rtmpTicketManager st) in
  (bool_decide (is_Some r), mkBackend (authService st) tickets).

(** ** What the backend sees: requests and ticket checks, in any order *)

Inductive event :=
| Http (clock : nat -> Z) (request : HttpRequest.t) (close : bool)
| Authorize (streamKey ticket : bytes) (publish : bool) (now : Z).

Inductive answer :=
| Response (r : HttpResponse.t)
| Authorized (ok : bool).

Definition exec (ev : event) (st : backend) : option (answer * backend) :=
  match ev with
  | Http clock request close =>
      '(r, st) ← Router.route router clock request (HttpResponse.make close) st;
      Some (Response r, st)
  | Authorize key k publish now => let '(ok, st) := authCallback key k publish now st in Some (Authorized ok, st)
  end.

Fixpoint run (evs : list event) (st : backend) : option (list answer * backend) :=
  match evs with
  | [] => Some ([], st)
  | ev :: evs => '(a, st) ← exec ev st; '(rest, st) ← run evs st; Some (a :: rest, st)
  end.

End handlers.
End LoginServer.
