(* ===== verification/LoginServerFacts.v ===== *)
(** * Who gets RTMP access

    Where the tokens and tickets of the backend come from, over any sequence of
    HTTP requests and ticket checks, and what a granted ticket is good for. *)

From S2P Require Import Prelude Bytes Text HttpContext HttpServer Json Auth AuthFacts LoginServer.
Import JsonResponse JsonRequest LoginServer.

Section facts.
Context (std_hash : bytes -> Z) (token_rng ticket_rng : random) (rtmpPort : Z).

#[local] Abbreviation exec := (exec std_hash token_rng ticket_rng rtmpPort).
#[local] Abbreviation run := (run std_hash token_rng ticket_rng rtmpPort).
#[local] Abbreviation initial := (initial std_hash).

(** ** Provenance *)

Definition is_request (method : HttpRequest.Method) (path : bytes) (request : HttpRequest.t) : Prop :=
  HttpRequest.method_ request = method /\ HttpRequest.path_ request = path.

(** The body is an object with this field. *)
Definition field (request : HttpRequest.t) (key value : bytes) : Prop :=
  exists body, parseJsonObject (HttpRequest.body_ request) = Some (Some body) /\
               getString key body = Some value.

(** A login request of [hist] with the right password and role of an enabled
    user opened the session. *)
Definition logged_in (hist : list event) (s : AuthSession) : Prop :=
  exists clock request close name password roleText u,
    Http clock request close ∈ hist /\
    is_request HttpRequest.kPost (str "/api/login") request /\
    field request (str "username") name /\ field request (str "password") password /\
    field request (str "role") roleText /\
    findByUsername name (UserStore_make std_hash) = Some u /\
    passwordHash u = makePasswordHash std_hash password /\ enabled u = true /\
    user_role u = roleFromString roleText /\
    userId s = user_userId u /\ username s = user_username u /\ role s = user_role u /\
    session_expireAt s = (clock 0%nat + 7200)%Z.

(** A ticket request of [hist], under the token of a session that was opened
    before it and had not expired, asked for the ticket's stream and permission. *)
Definition granted (hist : list event) (k : RtmpTicket) : Prop :=
  exists before clock request close after s name permission,
    hist = before ++ Http clock request close :: after /\
    is_request HttpRequest.kPost (str "/api/rtmp/ticket") request /\
    getBearerToken request = Some (token s) /\ logged_in before s /\
    (clock 0%nat < session_expireAt s)%Z /\
    field request (str "streamName") name /\ isValidStreamName name = true /\
    field request (str "permission") permission /\
    streamKey k = makeStreamKey kRtmpApp name /\
    allowPublish k = TicketRuns.may_publish (rtmpPermissionFromString permission) /\
    allowPlay k = TicketRuns.may_play (rtmpPermissionFromString permission) /\
    ticket_userId k = userId s /\ ticket_expireAt k = (clock 1%nat + 300)%Z.

Lemma logged_in_mono hist more s : logged_in hist s -> logged_in (hist ++ more) s.
Proof.
  intros (clock & request & close & name & pw & rt & u & Hin & Hrest).
  exists clock, request, close, name, pw, rt, u. split; [|exact Hrest]. apply elem_of_app. by left.
Qed.

Lemma granted_mono hist more k : granted hist k -> granted (hist ++ more) k.
Proof.
  intros (before & clock & request & close & after & s & name & p & -> & Hrest).
  exists before, clock, request, close, (after ++ more), s, name, p.
  split; [by rewrite <- app_assoc|exact Hrest].
Qed.

(** Sessions and tickets are filed under their own keys. *)
Record backend_ok (hist : list event) (st : backend) : Prop := {
  ok_users : userStore_ (authService st) = UserStore_make std_hash;
  ok_token_ttl : TokenManager.ttlSeconds_ (tokenManager_ (authService st)) = 7200%Z;
  ok_ticket_ttl : RtmpTicketManager.ttlSeconds_ (rtmpTicketManager st) = 300%Z;
  ok_sessions : map_Forall (fun key s => token s = key /\ logged_in hist s)
                  (TokenManager.sessions_ (tokenManager_ (authService st)));
  ok_tickets : map_Forall (fun key k => ticket k = key /\ granted hist k)
                 (RtmpTicketManager.tickets_ (rtmpTicketManager st));
}.

Lemma backend_ok_initial : backend_ok [] initial.
Proof. split; try done; apply map_Forall_empty. Qed.

Lemma backend_ok_mono hist more st : backend_ok hist st -> backend_ok (hist ++ more) st.
Proof.
  intros [H1 H2 H3 H4 H5]. split; try done.
  - eapply map_Forall_impl; [exact H4|]. intros k s [? ?]. split; [done|by apply logged_in_mono].
  - eapply map_Forall_impl; [exact H5|]. intros k s [? ?]. split; [done|by apply granted_mono].
Qed.

(** Only the sessions, or only the tickets, become fewer. *)
Lemma backend_ok_sub hist st auth tickets :
  backend_ok hist st ->
  userStore_ auth = userStore_ (authService st) ->
  TokenManager.ttlSeconds_ (tokenManager_ auth) = TokenManager.ttlSeconds_ (tokenManager_ (authService st)) ->
  TokenManager.sessions_ (tokenManager_ auth) ⊆ TokenManager.sessions_ (tokenManager_ (authService st)) ->
  RtmpTicketManager.ttlSeconds_ tickets = RtmpTicketManager.ttlSeconds_ (rtmpTicketManager st) ->
  RtmpTicketManager.tickets_ tickets ⊆ RtmpTicketManager.tickets_ (rtmpTicketManager st) ->
  backend_ok hist (mkBackend auth tickets).
Proof.
  intros [H1 H2 H3 H4 H5] Hu Ht Hs Htt Hts. split; cbn; try congruence.
  - intros key s Hk. apply H4. by eapply lookup_weaken.
  - intros key s Hk. apply H5. by eapply lookup_weaken.
Qed.

Lemma verify_token_sub key now auth s auth' :
  verifyToken key now auth = (s, auth') ->
  userStore_ auth' = userStore_ auth /\
  TokenManager.ttlSeconds_ (tokenManager_ auth') = TokenManager.ttlSeconds_ (tokenManager_ auth) /\
  TokenManager.sessions_ (tokenManager_ auth') ⊆ TokenManager.sessions_ (tokenManager_ auth) /\
  forall x, s = Some x ->
    TokenManager.sessions_ (tokenManager_ auth) !! key = Some x /\ (now < session_expireAt x)%Z.
Proof.
  unfold verifyToken, TokenManager.verify. case_bool_decide; [by intros [= <- <-]|].
  destruct (TokenManager.sessions_ _ !! key) as [x|] eqn:E; [|by intros [= <- <-]].
  destruct (Z.leb_spec (session_expireAt x) now); intros [= <- <-]; split_and!; try done.
  - apply delete_subseteq.
  - by intros ? [= ->].
Qed.

Lemma logout_sub key auth ok auth' :
  logout key auth = (ok, auth') ->
  userStore_ auth' = userStore_ auth /\
  TokenManager.ttlSeconds_ (tokenManager_ auth') = TokenManager.ttlSeconds_ (tokenManager_ auth) /\
  TokenManager.sessions_ (tokenManager_ auth') ⊆ TokenManager.sessions_ (tokenManager_ auth).
Proof.
  unfold logout, TokenManager.remove. case_bool_decide; intros [= <- <-]; split_and!; try done.
  apply delete_subseteq.
Qed.

(** The login, seen from the outside. *)
Lemma login_effect name password r0 now auth res auth' :
  login std_hash token_rng name password r0 now auth = Some (res, auth') ->
  (error res <> kOk /\ auth' = auth) \/
  (error res = kOk /\ exists u key m,
     findByUsername name (userStore_ auth) = Some u /\
     passwordHash u = makePasswordHash std_hash password /\ enabled u = true /\ user_role u = r0 /\
     session res = mkSession key (user_userId u) (user_username u) (user_role u)
                     (now + TokenManager.ttlSeconds_ (tokenManager_ auth)) /\
     auth' = mkAuthService (userStore_ auth) m /\
     TokenManager.ttlSeconds_ m = TokenManager.ttlSeconds_ (tokenManager_ auth) /\
     TokenManager.sessions_ m ⊆ <[key := session res]> (TokenManager.sessions_ (tokenManager_ auth))).
Proof.
  unfold login. destruct (bool_decide _ || _ || _); [intros [= <- <-]; by left|].
  destruct (findByUsername name (userStore_ auth)) as [u|] eqn:Eu; [|intros [= <- <-]; by left].
  case_bool_decide as Eh; cbn [negb]; [|intros [= <- <-]; by left].
  destruct (enabled u) eqn:Een; cbn [negb]; [|intros [= <- <-]; by left].
  case_bool_decide as Er; cbn [negb]; [|intros [= <- <-]; by left].
  unfold TokenManager.createSession, TokenManager.generateToken.
  destruct (generate _ _ _) as [[key g]|] eqn:Eg; cbn [mbind option_bind]; [|done].
  intros [= <- <-]. right. split; [done|]. eexists u, key, _. split_and!; try done.
  cbn. apply insert_mono, map_filter_subseteq.
Qed.

(** ** The handlers keep the provenance *)

Lemma route_key m p request :
  (m, p) = (HttpRequest.method_ request, HttpRequest.path_ request) -> is_request m p request.
Proof. by intros [= -> ->]. Qed.

Lemma route_cases clock request response st r :
  Router.route (router std_hash token_rng ticket_rng rtmpPort) clock request response st = Some r ->
  (is_request HttpRequest.kPost (str "/api/login") request /\
     login_request std_hash token_rng clock request response st = Some r) \/
  (is_request HttpRequest.kGet (str "/api/me") request /\ me clock request response st = Some r) \/
  (is_request HttpRequest.kPost (str "/api/logout") request /\ logout_request clock request response st = Some r) \/
  (is_request HttpRequest.kPost (str "/api/rtmp/ticket") request /\
     rtmp_ticket ticket_rng rtmpPort clock request response st = Some r) \/
  r.2 = st.
Proof.
  unfold Router.route. destruct (router _ _ _ _ !! _) as [h|] eqn:E; [|intros [= <-]; tauto].
  unfold router, Router.get, Router.post, Router.addRoute, Router.t in E. intros Hr.
  apply lookup_insert_Some in E as [[Hk%route_key <-]|[_ E]]; [tauto|].
  apply lookup_insert_Some in E as [[Hk%route_key <-]|[_ E]]; [tauto|].
  apply lookup_insert_Some in E as [[Hk%route_key <-]|[_ E]]; [tauto|].
  apply lookup_insert_Some in E as [[Hk%route_key <-]|[_ E]]; [tauto|].
  apply lookup_insert_Some in E as [[_ <-]|[_ E]]; [|by rewrite lookup_empty in E].
  injection Hr as <-. tauto.
Qed.

Lemma login_ok hist st clock request close response r st' :
  backend_ok hist st -> is_request HttpRequest.kPost (str "/api/login") request ->
  login_request std_hash token_rng clock request response st = Some (r, st') ->
  backend_ok (hist ++ [Http clock request close]) st'.
Proof.
  intros Hok Hreq. pose proof (backend_ok_mono hist [Http clock request close] st Hok) as Hok'.
  unfold login_request. destruct (parseJsonObject _) as [[body|]|] eqn:Eb; cbn [mbind option_bind];
    [|by intros [= <- <-]|done].
  destruct (getString (str "username") body) as [name|] eqn:E1; [|by intros [= <- <-]].
  destruct (getString (str "password") body) as [pw|] eqn:E2; [|by intros [= <- <-]].
  destruct (getString (str "role") body) as [rt|] eqn:E3; [|by intros [= <- <-]].
  destruct (login _ _ _ _ _ _ _) as [[res auth]|] eqn:El; cbn [mbind option_bind]; [|done].
  assert (forall k v, getString k body = Some v -> field request k v) as Hf by (intros; by exists body).
  apply login_effect in El as [[Hne ->]|(Hek & u & key & m & Hu & Hpw & Hen & Hrole & Hs & -> & Httl & Hsub)].
  - rewrite bool_decide_eq_false_2 by done. intros [= <- <-]. destruct st. apply Hok'.
  - rewrite bool_decide_eq_true_2 by done. intros [= <- <-].
    destruct Hok as [H1 H2 H3 H4 H5]. split; cbn; try done.
    + congruence.
    + intros k s Hk. eapply lookup_weaken in Hk; [|exact Hsub].
      apply lookup_insert_Some in Hk as [[<- <-]|[_ Hk]].
      * rewrite Hs. split; [done|]. exists clock, request, close, name, pw, rt, u. rewrite H1 in Hu.
        split_and!; auto; [apply elem_of_app; right; by apply list_elem_of_singleton|..]; try done.
        cbn. by rewrite H2.
      * by apply (ok_sessions _ _ Hok').
    + apply Hok'.
Qed.

Lemma ticket_ok hist st clock request close response r st' :
  backend_ok hist st -> is_request HttpRequest.kPost (str "/api/rtmp/ticket") request ->
  rtmp_ticket ticket_rng rtmpPort clock request response st = Some (r, st') ->
  backend_ok (hist ++ [Http clock request close]) st'.
Proof.
  intros Hok Hreq. pose proof (backend_ok_mono hist [Http clock request close] st Hok) as Hok'.
  unfold rtmp_ticket. destruct (getBearerToken request) as [tok|] eqn:Et; [|by intros [= <- <-]].
  destruct (verifyToken tok (clock 0) (authService st)) as [s auth] eqn:Ev.
  apply verify_token_sub in Ev as (Hu & Httl & Hsub & Hs).
  assert (forall auth', auth' = auth -> backend_ok (hist ++ [Http clock request close])
            (mkBackend auth' (rtmpTicketManager st))) as Hkeep
    by (intros ? ->; by eapply backend_ok_sub).
  destruct s as [s|]; [|intros [= <- <-]; by apply Hkeep].
  destruct (parseJsonObject _) as [[body|]|] eqn:Eb; cbn [mbind option_bind];
    [|intros [= <- <-]; by apply Hkeep|done].
  destruct (getString (str "streamName") body) as [name|] eqn:E1; [|intros [= <- <-]; by apply Hkeep].
  destruct (getString (str "permission") body) as [p|] eqn:E2; [|intros [= <- <-]; by apply Hkeep].
  destruct (isValidStreamName name) eqn:En; cbn [negb]; [|intros [= <- <-]; by apply Hkeep].
  case_bool_decide; [intros [= <- <-]; by apply Hkeep|].
  unfold RtmpTicketManager.createTicket, RtmpTicketManager.generateTicket.
  destruct (generate _ _ _) as [[key g]|] eqn:Eg; cbn [mbind option_bind]; [|done].
  destruct (TicketRuns.permission_bits (rtmpPermissionFromString p)) as [-> ->]. intros [= <- <-].
  destruct (Hs s eq_refl) as [Hin Hlive]. destruct (ok_sessions _ _ Hok _ _ Hin) as [<- Hlog].
  destruct (Hkeep auth eq_refl) as [K1 K2 K3 K4 K5]. split; cbn; try done.
  intros k t Hk. apply lookup_insert_Some in Hk as [[<- <-]|[_ Hk]].
  - split; [done|]. exists hist, clock, request, close, [], s, name, p.
    assert (forall k v, getString k body = Some v -> field request k v) as Hf by (intros; by exists body).
    split_and!; auto; try done. cbn. by rewrite (ok_ticket_ttl _ _ Hok).
  - apply K5. eapply lookup_weaken; [exact Hk|]. apply map_filter_subseteq.
Qed.

Lemma exec_ok hist st ev a st' :
  backend_ok hist st -> exec ev st = Some (a, st') -> backend_ok (hist ++ [ev]) st'.
Proof.
  intros Hok. destruct ev as [clock request close|key k publish now]; cbn [LoginServer.exec].
  - destruct (Router.route _ _ _ _ _) as [[r st1]|] eqn:Er; cbn [mbind option_bind]; [|done].
    intros [= <- <-]. pose proof (backend_ok_mono hist [Http clock request close] st Hok) as Hok'.
    apply route_cases in Er as [[Hq Hr]|[[Hq Hr]|[[Hq Hr]|[[Hq Hr]|Hr]]]].
    + by eapply login_ok.
    + unfold me in Hr. destruct (getBearerToken request) as [tok|]; [|by simplify_eq].
      destruct (verifyToken _ _ _) as [s auth] eqn:Ev. apply verify_token_sub in Ev as (Hu & Httl & Hsub & _).
      destruct s; simplify_eq; by eapply backend_ok_sub.
    + unfold logout_request in Hr. destruct (getBearerToken request) as [tok|]; [|by simplify_eq].
      destruct (logout _ _) as [ok auth] eqn:Ev. apply logout_sub in Ev as (Hu & Httl & Hsub).
      destruct ok; simplify_eq/=; by eapply backend_ok_sub.
    + by eapply ticket_ok.
    + cbn in Hr. by subst st1.
  - unfold authCallback, RtmpTicketManager.verifyPublish, RtmpTicketManager.verifyPlay.
    assert (forall b, exists r m, RtmpTicketManager.verify k key b now (rtmpTicketManager st) = (r, m) /\
      RtmpTicketManager.ttlSeconds_ m = RtmpTicketManager.ttlSeconds_ (rtmpTicketManager st) /\
      RtmpTicketManager.tickets_ m ⊆ RtmpTicketManager.tickets_ (rtmpTicketManager st)) as Hv.
    { intros b. destruct (RtmpTicketManager.verify k key b now (rtmpTicketManager st)) as [r m] eqn:Ev.
      exists r, m. split; [done|].
      by destruct (TicketRuns.verify_good now (RtmpTicketManager.tickets_ (rtmpTicketManager st))
                  _ _ _ _ _ _ ltac:(done) Ev) as (_ & _ & ? & _ & ?). }
    destruct publish; [destruct (Hv true) as (r & m & -> & H1 & H2)|destruct (Hv false) as (r & m & -> & H1 & H2)];
      cbn [mbind option_bind]; intros [= <- <-];
      (eapply backend_ok_sub; [by apply backend_ok_mono|done..]).
Qed.

Lemma run_ok hist evs st answers st' :
  backend_ok hist st -> run evs st = Some (answers, st') -> backend_ok (hist ++ evs) st'.
Proof.
  revert hist st answers. induction evs as [|ev evs IH]; intros hist st answers Hok; cbn [LoginServer.run].
  - intros [= <- <-]. by rewrite app_nil_r.
  - destruct (exec ev st) as [[a st1]|] eqn:E; cbn [mbind option_bind]; [|done].
    destruct (run evs st1) as [[rest st2]|] eqn:Er; cbn [mbind option_bind]; [|done].
    intros [= <- <-]. rewrite (cons_middle ev hist evs), app_assoc.
    eapply IH; [by eapply exec_ok|done].
Qed.

End facts.

(** What the callback answers, from the table. *)
Lemma authCallback_spec key id (publish : bool) now st :
  (authCallback key id publish now st).1 =
  bool_decide (is_Some (RtmpTicketManager.tickets_ (rtmpTicketManager st) !! id ≫=
    TicketRuns.good now key (if publish then allowPublish else allowPlay))).
Proof.
  unfold authCallback, RtmpTicketManager.verifyPublish, RtmpTicketManager.verifyPlay.
  set (tickets := RtmpTicketManager.tickets_ (rtmpTicketManager st)).
  destruct publish; destruct (RtmpTicketManager.verify _ _ _ _ _) as [r m] eqn:Ev;
    by apply (TicketRuns.verify_good now tickets) in Ev as (-> & _).
Qed.

Lemma good_some now key may k :
  is_Some (TicketRuns.good now key may k) <->
  (now < ticket_expireAt k)%Z /\ streamKey k = key /\ may k = true.
Proof.
  unfold TicketRuns.good. split.
  - intros [k' Hk]. destruct (now <? ticket_expireAt k)%Z eqn:E1; [|done]. apply Z.ltb_lt in E1.
    case_bool_decide; [|done]. by destruct (may k).
  - intros (H1%Z.ltb_lt & H2 & H3). rewrite H1, H3, bool_decide_eq_true_2 by done. by eexists.
Qed.

(** ** Properties *)

(** RTMP access needs a login: whatever requests and checks came before, and
    whatever the clock said, a ticket that the RTMP server accepts for a stream
    and an action was issued by a ticket request for that stream with a
    permission for that action, less than five minutes before; the request came
    with the token of a session that had not expired, and that session was opened
    by an earlier login with the right password and role of an enabled user. *)
Theorem rtmp_access_needs_login (std_hash : bytes -> Z) (token_rng ticket_rng : random) (rtmpPort : Z)
    (evs : list event) (answers : list answer) (st : backend) (key id : bytes) (publish : bool) (now : Z) :
  run std_hash token_rng ticket_rng rtmpPort evs (initial std_hash) = Some (answers, st) ->
  (authCallback key id publish now st).1 = true ->
  exists k, granted std_hash evs k /\ ticket k = id /\ streamKey k = key /\
    (now < ticket_expireAt k)%Z /\ (if publish then allowPublish k else allowPlay k) = true.
Proof.
  intros Hrun Hauth. pose proof (run_ok std_hash token_rng ticket_rng rtmpPort [] evs _ _ _
    (backend_ok_initial std_hash) Hrun) as Hok. cbn [app] in Hok.
  rewrite authCallback_spec in Hauth. apply bool_decide_eq_true in Hauth.
  destruct (RtmpTicketManager.tickets_ (rtmpTicketManager st) !! id) as [k|] eqn:E; [|by destruct Hauth].
  apply good_some in Hauth as (Hlive & Hkey & Hmay).
  destruct (ok_tickets _ _ _ Hok _ _ E) as [Hid Hg]. exists k. split_and!; try done. by destruct publish.
Qed.

(** The end to end flow of the witnesses: log in, ask for a ticket, publish. *)
Definition with_body (method : HttpRequest.Method) (path : bytes) (headers fields : list (bytes * bytes))
    : HttpRequest.t :=
  HttpRequest.mk method HttpRequest.kHttp11 path [] (print_object fields) 0 headers.

Definition sample_events : list event :=
  [Http (fun _ => 1000%Z)
     (with_body HttpRequest.kPost (str "/api/login") []
        [(str "username", str "student01"); (str "password", str "123456"); (str "role", str "student")]) false;
   Http (fun _ => 1010%Z)
     (with_body HttpRequest.kPost (str "/api/rtmp/ticket")
        [(str "Authorization", str "Bearer " ++ candidate counting 0)]
        [(str "streamName", str "screen"); (str "permission", str "publish")]) false].

Definition sample_hash (pw : bytes) : Z := Z.of_nat (length pw).

Lemma rtmp_access_needs_login_witness :
  exists k, granted sample_hash sample_events k /\ ticket k = candidate counting 0 /\
    streamKey k = str "/live/screen" /\ (1200 < ticket_expireAt k)%Z /\ allowPublish k = true.
Proof.
  assert (option_map (fun r => (authCallback (str "/live/screen") (candidate counting 0) true 1200 r.2).1)
            (run sample_hash counting counting 1935 sample_events (initial sample_hash)) = Some true) as Ha
    by (vm_compute; reflexivity).
  destruct (run sample_hash counting counting 1935 sample_events (initial sample_hash))
    as [[answers st]|] eqn:E; [|discriminate Ha].
  apply (rtmp_access_needs_login sample_hash counting counting 1935 sample_events answers st
           (str "/live/screen") (candidate counting 0) true 1200 E).
  injection Ha as Ha. exact Ha.
Defined.

(** A valid ticket request is served and its ticket works: with the token of
    a live session, a valid stream name and a known permission, in any state, the
    handler (when the generator finds a key) answers 200 with the new ticket, and
    from then on the RTMP server accepts that ticket for exactly this stream, the
    actions of the permission, and until it expires. *)
Theorem ticket_request_accepted (ticket_rng : random) (rtmpPort : Z) (clock : nat -> Z)
    (request : HttpRequest.t) (response response' : HttpResponse.t) (st st' : backend)
    (tok name permission : bytes) (s : AuthSession) :
  getBearerToken request = Some tok -> (verifyToken tok (clock 0%nat) (authService st)).1 = Some s ->
  field request (str "streamName") name -> isValidStreamName name = true ->
  field request (str "permission") permission -> rtmpPermissionFromString permission <> kPermissionUnknown ->
  rtmp_ticket ticket_rng rtmpPort clock request response st = Some (response', st') ->
  let p := rtmpPermissionFromString permission in
  let expiry := (clock 1%nat + RtmpTicketManager.ttlSeconds_ (rtmpTicketManager st))%Z in
  exists k,
    response' = setJson HttpResponse.k200Ok (str "OK")
                  (makeOk (makeRtmpTicketData k kRtmpHost rtmpPort kRtmpApp name)) response /\
    ticket_userId k = userId s /\
    forall key publish now,
      (authCallback key (ticket k) publish now st').1 =
      (now <? expiry)%Z && bool_decide (key = makeStreamKey kRtmpApp name) &&
      (if publish then TicketRuns.may_publish p else TicketRuns.may_play p).
Proof.
  intros Ht Hv (body & Hb & Hname) Hvalid (body' & Hb' & Hp) Hknown. rewrite Hb in Hb'. injection Hb' as <-.
  unfold rtmp_ticket. rewrite Ht. destruct (verifyToken _ _ _) as [s' auth]. cbn [fst] in Hv. subst s'.
  rewrite Hb. cbn [mbind option_bind]. rewrite Hname, Hp, Hvalid. cbn [negb].
  rewrite bool_decide_eq_false_2 by done.
  unfold RtmpTicketManager.createTicket, RtmpTicketManager.generateTicket.
  destruct (generate _ _ _) as [[id g]|] eqn:Eg; cbn [mbind option_bind]; [|done].
  destruct (TicketRuns.permission_bits (rtmpPermissionFromString permission)) as [-> ->].
  intros [= <- <-]. eexists. split; [reflexivity|]. split; [done|]. intros key publish now.
  rewrite authCallback_spec. cbn [rtmpTicketManager RtmpTicketManager.tickets_ ticket].
  rewrite lookup_insert, decide_True by done. cbn [mbind option_bind].
  apply eq_bool_prop_intro. rewrite bool_decide_spec, good_some.
  cbn [ticket_expireAt streamKey allowPublish allowPlay].
  rewrite !andb_True, bool_decide_spec, Is_true_true, Z.ltb_lt.
  destruct publish; rewrite Is_true_true; cbn; intuition congruence.
Qed.

Lemma sample_body method path headers fields :
  parseJsonObject (HttpRequest.body_ (with_body method path headers fields)) = Some (Some (object_of fields ∅)).
Proof. apply print_object_parses. Qed.

Lemma ticket_request_accepted_witness :
  let st := mkBackend
    (mkAuthService (UserStore_make sample_hash)
       (TokenManager.mk {[str "t" := mkSession (str "t") (str "u") (str "u") kStudent 100]} 7200 2))
    (RtmpTicketManager.make 300) in
  let request := with_body HttpRequest.kPost (str "/api/rtmp/ticket")
    [(str "Authorization", str "Bearer t")] [(str "streamName", str "a"); (str "permission", str "both")] in
  exists response st' k,
    rtmp_ticket counting 1935 (fun _ => 50%Z) request (HttpResponse.make false) st = Some (response, st') /\
    (authCallback (str "/live/a") (ticket k) false 349 st').1 = true /\
    (authCallback (str "/live/a") (ticket k) false 350 st').1 = false.
Proof.
  intros st request.
  assert (option_map (fun _ => true)
            (rtmp_ticket counting 1935 (fun _ => 50%Z) request (HttpResponse.make false) st) = Some true) as Ha
    by (vm_compute; reflexivity).
  destruct (rtmp_ticket counting 1935 (fun _ => 50%Z) request (HttpResponse.make false) st)
    as [[response st']|] eqn:E; [|discriminate Ha].
  destruct (ticket_request_accepted counting 1935 (fun _ => 50%Z) request (HttpResponse.make false) response
              st st' (str "t") (str "a") (str "both") (mkSession (str "t") (str "u") (str "u") kStudent 100))
    as (k & _ & _ & Hk).
  - vm_compute. reflexivity.
  - vm_compute. reflexivity.
  - exists (object_of [(str "streamName", str "a"); (str "permission", str "both")] ∅).
    split; [apply sample_body|vm_compute; reflexivity].
  - vm_compute. reflexivity.
  - exists (object_of [(str "streamName", str "a"); (str "permission", str "both")] ∅).
    split; [apply sample_body|vm_compute; reflexivity].
  - vm_compute. discriminate.
  - exact E.
  - exists response, st', k. split; [reflexivity|]. rewrite !Hk. split; vm_compute; reflexivity.
Defined.
