(* ===== verification/Amf0.v ===== *)
(** * src/rtmp/Amf0Value.*, Amf0Encoder.*, Amf0Decoder.*

    AMF0 values, their serialisation and its inverse.  A [double] is its
    64-bit pattern, which is how encoder and decoder move it.  The recursion of
    the decoder (nested objects) is on fuel; [decode_good] shows that the fuel
    the entry points use always suffices. *)

From S2P Require Import Prelude Bytes StdMap.

Local Open Scope rmuduo_scope.

(** ** Amf0Value *)

Inductive Amf0Type := kNumber | kBoolean | kString | kObject | kNull | kEcmaArray.

(** The constructors are the static factories; the private fields a factory does
    not set keep their defaults, which the accessors below return. *)
Inductive Amf0Value :=
| Number (value : Z)
| Boolean (value : bool)
| String (value : bytes)
| ObjectValue (value : list (bytes * Amf0Value))
| EcmaArray (value : list (bytes * Amf0Value))
| Null.

Abbreviation Object := (list (bytes * Amf0Value)).

Definition type (v : Amf0Value) : Amf0Type :=
  match v with
  | Number _ => kNumber
  | Boolean _ => kBoolean
  | String _ => kString
  | ObjectValue _ => kObject
  | EcmaArray _ => kEcmaArray
  | Null => kNull
  end.

(** The bits of the double [0.0]. *)
Definition double_zero : Z := 0.

Definition numberValue (v : Amf0Value) : Z := match v with Number d => d | _ => double_zero end.
Definition booleanValue (v : Amf0Value) : bool := match v with Boolean b => b | _ => false end.
Definition stringValue (v : Amf0Value) : bytes := match v with String s => s | _ => [] end.
Definition objectValue (v : Amf0Value) : Object :=
  match v with ObjectValue o => o | EcmaArray o => o | _ => [] end.

Definition isString (v : Amf0Value) : bool :=
  match type v with kString => true | _ => false end.
Definition isNumber (v : Amf0Value) : bool :=
  match type v with kNumber => true | _ => false end.
Definition isObjectLike (v : Amf0Value) : bool :=
  match type v with kObject | kEcmaArray => true | _ => false end.

Definition typeName (v : Amf0Value) : bytes :=
  match type v with
  | kNumber => str "number"
  | kBoolean => str "boolean"
  | kString => str "string"
  | kObject => str "object"
  | kNull => str "null"
  | kEcmaArray => str "ecma-array"
  end.

(** ** Type markers (both files declare the same constants) *)

Definition kAmf0Number : Z := 0x00.
Definition kAmf0Boolean : Z := 0x01.
Definition kAmf0String : Z := 0x02.
Definition kAmf0Object : Z := 0x03.
Definition kAmf0Null : Z := 0x05.
Definition kAmf0EcmaArray : Z := 0x08.
Definition kAmf0ObjectEnd : Z := 0x09.

(** ** Amf0Encoder: every method appends to [data_] *)

Definition push_back (v : Z) (data_ : bytes) : bytes := data_ ++ [chr v].

Definition appendString (value data_ : bytes) : bytes :=
  appendUint16BE (u16 (Z.of_nat (length value))) (push_back kAmf0String data_) ++ value.

Definition appendNumber (value : Z) (data_ : bytes) : bytes :=
  appendDoubleBE value (push_back kAmf0Number data_).

Definition appendBoolean (value : bool) (data_ : bytes) : bytes :=
  push_back (if value then 1 else 0) (push_back kAmf0Boolean data_).

Definition appendNull (data_ : bytes) : bytes := push_back kAmf0Null data_.

Section encode_object.
(** [appendValue], which [appendObject] calls back. *)
Context (appendValue : Amf0Value -> bytes -> bytes).

Definition appendObjectProperty_with (key : bytes) (value : Amf0Value) (data_ : bytes) : bytes :=
  appendValue value (appendUint16BE (u16 (Z.of_nat (length key))) data_ ++ key).

Fixpoint appendProperties_with (object : Object) (data_ : bytes) : bytes :=
  match object with
  | [] => data_
  | (key, value) :: object' =>
      appendProperties_with object' (appendObjectProperty_with key value data_)
  end.

Definition appendObject_with (object : Object) (ecma_array : bool) (data_ : bytes) : bytes :=
  let data_ := push_back (if ecma_array then kAmf0EcmaArray else kAmf0Object) data_ in
  let data_ := if ecma_array then appendUint32BE (u32 (Z.of_nat (length object))) data_
               else data_ in
  push_back kAmf0ObjectEnd (appendUint16BE 0 (appendProperties_with object data_)).

End encode_object.

Fixpoint appendValue (value : Amf0Value) (data_ : bytes) : bytes :=
  match value with
  | Number d => appendNumber d data_
  | Boolean b => appendBoolean b data_
  | String s => appendString s data_
  | ObjectValue o => appendObject_with appendValue o false data_
  | EcmaArray o => appendObject_with appendValue o true data_
  | Null => appendNull data_
  end.

Definition appendObject (object : Object) (ecma_array : bool) (data_ : bytes) : bytes :=
  appendObject_with appendValue object ecma_array data_.

(** ** Amf0Decoder *)

Definition decodeString (data : bytes) : result (bytes * nat) :=
  if length data <? 2 then Err "amf0 string length is truncated"
  else
    let length_ := Z.to_nat (ReadUint16BE data) in
    if length data <? 2 + length_ then Err "amf0 string payload is truncated"
    else Ok (take length_ (drop 2 data), 2 + length_).

(** [decodeObject] is the loop of the source with its two variables. *)
Fixpoint decodeValue_fuel (fuel : nat) (data : bytes) : result (Amf0Value * nat) :=
  match fuel with
  | O => NoFuel
  | S fuel =>
    if length data =? 0 then Ok (Null, 0)
    else
      let ty := at8 data 0 in
      if (ty =? kAmf0Number)%Z then
        if length data <? 1 + 8 then Err "amf0 number payload is truncated"
        else Ok (Number (ReadDoubleBE (drop 1 data)), 9)
      else if (ty =? kAmf0Boolean)%Z then
        if length data <? 2 then Err "amf0 boolean payload is truncated"
        else Ok (Boolean (negb (at8 data 1 =? 0)%Z), 2)
      else if (ty =? kAmf0String)%Z then
        let* (string_value, string_bytes) := decodeString (drop 1 data) in
        Ok (String string_value, 1 + string_bytes)
      else if (ty =? kAmf0Object)%Z then
        let* (object_value, object_bytes) := decodeObject_fuel fuel (drop 1 data) 0 [] in
        Ok (ObjectValue object_value, 1 + object_bytes)
      else if (ty =? kAmf0EcmaArray)%Z then
        if length data <? 5 then Err "amf0 ecma array payload is truncated"
        else
          let* (object_value, object_bytes) := decodeObject_fuel fuel (drop 5 data) 0 [] in
          Ok (EcmaArray object_value, 5 + object_bytes)
      else if (ty =? kAmf0Null)%Z then Ok (Null, 1)
      else Err "unsupported amf0 type marker"
  end
with decodeObject_fuel (fuel : nat) (data : bytes) (offset : nat) (object : Object)
    : result (Object * nat) :=
  match fuel with
  | O => NoFuel
  | S fuel =>
    if offset <? length data then
      if (3 <=? length data - offset) && (at8 data offset =? 0)%Z &&
         (at8 data (offset + 1) =? 0)%Z && (at8 data (offset + 2) =? kAmf0ObjectEnd)%Z
      then Ok (object, offset + 3)
      else
        let* (key, key_bytes) := decodeString (drop offset data) in
        let offset := offset + key_bytes in
        let* (property, value_bytes) := decodeValue_fuel fuel (drop offset data) in
        if value_bytes =? 0 then Err "amf0 object property is empty"
        else decodeObject_fuel fuel data (offset + value_bytes) (StdMap.emplace key property object)
    else Err "amf0 object end marker is missing"
  end.

Definition decodeValue (data : bytes) : result (Amf0Value * nat) :=
  decodeValue_fuel (S (length data)) data.

Definition decodeObject (data : bytes) : result (Object * nat) :=
  decodeObject_fuel (S (length data)) data 0 [].

Fixpoint decodeAll_fuel (fuel : nat) (data : bytes) (offset : nat) (values : list Amf0Value)
    : result (list Amf0Value) :=
  match fuel with
  | O => NoFuel
  | S fuel =>
    if offset <? length data then
      let* (value, bytes_used) := decodeValue (drop offset data) in
      if bytes_used =? 0 then Ok values
      else decodeAll_fuel fuel data (offset + bytes_used) (values ++ [value])
    else Ok values
  end.

Definition decodeAll (data : bytes) : result (list Amf0Value) :=
  decodeAll_fuel (S (length data)) data 0 [].

(** ** Values that can be encoded

    Objects are maps, strings and keys fit the 16-bit length, numbers are
    64-bit patterns. *)

Section all_entries.
Context (P : bytes -> Amf0Value -> Prop).
Fixpoint all_entries (o : Object) : Prop :=
  match o with
  | [] => True
  | (k, v) :: o' => P k v /\ all_entries o'
  end.
End all_entries.

Definition max_string : nat := Z.to_nat 65536.

Fixpoint amf_wf (v : Amf0Value) : Prop :=
  match v with
  | Number d => (0 <= d < 2 ^ 64)%Z
  | String s => length s < max_string
  | ObjectValue o | EcmaArray o =>
      StdMap.wf o /\ all_entries (fun k v => length k < max_string /\ amf_wf v) o
  | Boolean _ | Null => True
  end.

Definition object_wf (o : Object) : Prop :=
  StdMap.wf o /\ all_entries (fun k v => length k < max_string /\ amf_wf v) o.

(** ** Induction over values and their entries *)

Lemma Amf0Value_entries_ind (P : Amf0Value -> Prop) :
  (forall d, P (Number d)) -> (forall b, P (Boolean b)) -> (forall s, P (String s)) ->
  (forall o, all_entries (fun _ v => P v) o -> P (ObjectValue o)) ->
  (forall o, all_entries (fun _ v => P v) o -> P (EcmaArray o)) ->
  P Null -> forall v, P v.
Proof.
  intros HN HB HS HO HE HU.
  fix IH 1. intros [d|b|s|o|o|]; [apply HN|apply HB|apply HS| | |apply HU].
  - apply HO. induction o as [|[k v] o IHo]; [exact I|exact (conj (IH v) IHo)].
  - apply HE. induction o as [|[k v] o IHo]; [exact I|exact (conj (IH v) IHo)].
Qed.

Lemma all_entries_app P o1 o2 :
  all_entries P (o1 ++ o2) <-> all_entries P o1 /\ all_entries P o2.
Proof. induction o1 as [|[k v] o1 IH]; cbn; [tauto|]. rewrite IH. tauto. Qed.

Lemma all_entries_insert (P : bytes -> Amf0Value -> Prop) k v o :
  P k v -> all_entries P o -> all_entries P (StdMap.emplace k v o).
Proof.
  unfold StdMap.emplace. intros HP. induction o as [|[k' v'] o IH]; cbn; [done|].
  intros [H1 H2]. destruct (decide (k = k')); cbn; [done|].
  destruct (bytes_ltb k k'); cbn; auto.
Qed.

Lemma object_wf_nil : object_wf [].
Proof. split; [|done]. unfold StdMap.wf; cbn. constructor. Qed.

Lemma object_wf_emplace k v o :
  length k < max_string -> amf_wf v -> object_wf o -> object_wf (StdMap.emplace k v o).
Proof.
  intros Hk Hv [H1 H2]. split; [by apply StdMapFacts.wf_emplace|].
  by apply all_entries_insert.
Qed.

(** ** The decoder is total, stays in bounds and yields well-formed values *)

Lemma decodeString_good data :
  match decodeString data with
  | Ok (s, n) => 2 <= n <= length data /\ length s < max_string
  | Err _ => True
  | NoFuel => False
  end.
Proof.
  unfold decodeString. destruct (Nat.ltb_spec (length data) 2); [done|].
  set (l := Z.to_nat (ReadUint16BE data)).
  destruct (Nat.ltb_spec (length data) (2 + l)); [done|].
  pose proof (ReadUint16BE_range data). unfold max_string.
  rewrite length_take. subst l. lia.
Qed.

Definition good_value (data : bytes) (r : result (Amf0Value * nat)) : Prop :=
  match r with
  | Ok (v, n) => n <= length data /\ (data <> [] -> 0 < n) /\ amf_wf v
  | Err _ => True
  | NoFuel => False
  end.

Definition good_object (data : bytes) (offset : nat) (r : result (Object * nat)) : Prop :=
  match r with
  | Ok (o, n) => offset + 3 <= n <= length data /\ object_wf o
  | Err _ => True
  | NoFuel => False
  end.

(** One step of each function, given good callees. *)
Lemma decodeValue_step fuel data :
  length data < S fuel ->
  (forall d, length d < fuel -> good_object d 0 (decodeObject_fuel fuel d 0 [])) ->
  good_value data (decodeValue_fuel (S fuel) data).
Proof.
  intros Hlen IH. cbn [decodeValue_fuel].
  destruct (Nat.eqb_spec (length data) 0) as [E|Hne].
  { unfold good_value. cbn. repeat split; [lia|]. intros H%not_nil_length. lia. }
  repeat case_match; bool_hyps; try done.
  - pose proof (ReadDoubleBE_range (drop 1 data)). unfold good_value; cbn. split_and!; lia.
  - unfold good_value; cbn. split_and!; [lia|lia|done].
  - pose proof (decodeString_good (drop 1 data)) as Hs.
    destruct (decodeString (drop 1 data)) as [[s n]|m|]; cbn in *; [|done|done].
    lens. split_and!; [lia|lia|tauto].
  - specialize (IH (drop 1 data)). unfold good_object in IH. lens.
    destruct (decodeObject_fuel fuel (drop 1 data) 0 []) as [[o n]|m|]; cbn; [|done|apply IH; lia].
    lens. destruct IH as [? [? ?]]; [lia|]. split_and!; try done; lia.
  - specialize (IH (drop 5 data)). unfold good_object in IH. lens.
    destruct (decodeObject_fuel fuel (drop 5 data) 0 []) as [[o n]|m|]; cbn; [|done|apply IH; lia].
    lens. destruct IH as [? [? ?]]; [lia|]. split_and!; try done; lia.
  - unfold good_value; cbn. split_and!; [lia|lia|done].
Qed.

Lemma decodeObject_step fuel data offset o :
  length data - offset < S fuel -> object_wf o ->
  (forall d, length d < fuel -> good_value d (decodeValue_fuel fuel d)) ->
  (forall off o', length data - off < fuel -> object_wf o' ->
                  good_object data off (decodeObject_fuel fuel data off o')) ->
  good_object data offset (decodeObject_fuel (S fuel) data offset o).
Proof.
  intros Hlen Hwf IHv IHo. cbn [decodeObject_fuel].
  destruct (Nat.ltb_spec offset (length data)) as [Hlt|]; [|done].
  case_match.
  { bool_hyps. unfold good_object. split; [lia|done]. }
  pose proof (decodeString_good (drop offset data)) as Hs.
  destruct (decodeString (drop offset data)) as [[key kb]|m|]; cbn [result_bind]; [|done|done].
  lens. destruct Hs as [Hkb Hkey].
  specialize (IHv (drop (offset + kb) data)). lens.
  destruct (decodeValue_fuel fuel (drop (offset + kb) data)) as [[v vb]|m|]; cbn [result_bind];
    [|done|apply IHv; lia].
  destruct (Nat.eqb_spec vb 0) as [|Hvb]; [done|].
  destruct IHv as (Hb & _ & Hv); [lia|]. lens.
  specialize (IHo (offset + kb + vb) (StdMap.emplace key v o)).
  unfold good_object in *.
  destruct (decodeObject_fuel _ _ _ _) as [[o' n]|m|]; [|done|].
  - destruct IHo as [? ?]; [lia|by apply object_wf_emplace|]. split; [lia|done].
  - apply IHo; [lia|by apply object_wf_emplace].
Qed.

Lemma decode_good fuel :
  (forall data, length data < fuel -> good_value data (decodeValue_fuel fuel data)) /\
  (forall data offset o, length data - offset < fuel -> object_wf o ->
     good_object data offset (decodeObject_fuel fuel data offset o)).
Proof.
  induction fuel as [|fuel [IHv IHo]]; [split; intros; lia|]. split.
  - intros data Hd. apply decodeValue_step; [lia|].
    intros d Hlt. apply IHo; [lia|apply object_wf_nil].
  - intros data offset o Hd Hwf. apply decodeObject_step; [lia|done| |].
    + intros d ?. by apply IHv.
    + intros off o' ? ?. by apply IHo.
Qed.

Lemma decodeValue_good data : good_value data (decodeValue data).
Proof. apply decode_good. lia. Qed.

Lemma decodeAll_fuel_good fuel data offset values :
  length data - offset < fuel -> Forall amf_wf values ->
  match decodeAll_fuel fuel data offset values with
  | Ok vs => Forall amf_wf vs
  | Err _ => True
  | NoFuel => False
  end.
Proof.
  revert offset values. induction fuel as [|fuel IH]; intros offset values Hlen Hvs; [lia|].
  cbn [decodeAll_fuel]. destruct (Nat.ltb_spec offset (length data)) as [Hlt|]; [|done].
  pose proof (decodeValue_good (drop offset data)) as Hg. unfold good_value in Hg.
  destruct (decodeValue (drop offset data)) as [[v n]|m|]; cbn [result_bind]; [|done|done].
  destruct Hg as (Hn & Hpos & Hv). destruct (Nat.eqb_spec n 0); [done|].
  apply IH; [lia|]. apply Forall_app. auto.
Qed.

(** ** The encoder appends: its output as a function of the value alone *)

Definition encode (v : Amf0Value) : bytes := appendValue v [].

Definition encode_key (k : bytes) : bytes := appendUint16BE (u16 (Z.of_nat (length k))) [] ++ k.

Fixpoint encode_entries (o : Object) : bytes :=
  match o with
  | [] => []
  | (k, v) :: o' => encode_key k ++ encode v ++ encode_entries o'
  end.

Definition object_end : bytes := [Byte.x00; Byte.x00; Byte.x09].

Lemma length_object_end : length object_end = 3.
Proof. done. Qed.

Lemma length_encode_key k : length (encode_key k) = 2 + length k.
Proof. unfold encode_key. len_lia. Qed.
#[local] Hint Rewrite length_object_end length_encode_key : lens.

Lemma appendProperties_app o d :
  all_entries (fun _ v => forall d, appendValue v d = d ++ encode v) o ->
  appendProperties_with appendValue o d = d ++ encode_entries o.
Proof.
  revert d. induction o as [|[k v] o IH]; intros d; cbn -[encode encode_key appendUint16BE].
  - by rewrite app_nil_r.
  - intros [Hv Ho]. rewrite IH by done. unfold appendObjectProperty_with, encode_key.
    rewrite Hv, appendUint16BE_app, <- !app_assoc. done.
Qed.

Lemma appendObject_app o e d :
  all_entries (fun _ v => forall d, appendValue v d = d ++ encode v) o ->
  appendObject_with appendValue o e d =
  d ++ (if e then chr kAmf0EcmaArray :: appendUint32BE (u32 (Z.of_nat (length o))) []
        else [chr kAmf0Object]) ++ encode_entries o ++ object_end.
Proof.
  intros H. unfold appendObject_with, push_back.
  rewrite appendProperties_app, appendUint16BE_app, <- !app_assoc by done.
  destruct e; [rewrite appendUint32BE_app|]; rewrite <- !app_assoc; done.
Qed.

Lemma appendValue_app v d : appendValue v d = d ++ encode v.
Proof.
  revert d. unfold encode.
  induction v as [x|b|s|o IH|o IH|] using Amf0Value_entries_ind; intros d;
    cbn [appendValue].
  - unfold appendNumber, push_back. by rewrite appendDoubleBE_app, <- app_assoc.
  - unfold appendBoolean, push_back. by rewrite <- !app_assoc.
  - unfold appendString, push_back.
    by rewrite (appendUint16BE_app _ (d ++ _)), (appendUint16BE_app _ ([] ++ _)), <- !app_assoc.
  - rewrite !appendObject_app by done. done.
  - rewrite !appendObject_app by done. done.
  - unfold appendNull, push_back. done.
Qed.

Lemma all_entries_True (P : bytes -> Amf0Value -> Prop) o :
  (forall k v, P k v) -> all_entries P o.
Proof. intros H. induction o as [|[k v] o IH]; cbn; auto. Qed.

Lemma encode_object o :
  encode (ObjectValue o) = chr kAmf0Object :: encode_entries o ++ object_end.
Proof.
  unfold encode; cbn [appendValue].
  rewrite appendObject_app by (apply all_entries_True; auto using appendValue_app). done.
Qed.

Lemma encode_ecma o :
  encode (EcmaArray o) = chr kAmf0EcmaArray :: appendUint32BE (u32 (Z.of_nat (length o))) [] ++
                         encode_entries o ++ object_end.
Proof.
  unfold encode; cbn [appendValue].
  rewrite appendObject_app by (apply all_entries_True; auto using appendValue_app). done.
Qed.

(** The first byte is never the object-end marker. *)
Lemma encode_head v r : at8 (encode v ++ r) 0 <> kAmf0ObjectEnd /\ 0 < length (encode v).
Proof.
  destruct v as [x|b|s|o|o|]; [..|rewrite encode_object|rewrite encode_ecma|];
    (split; [vm_compute; congruence|cbn; lia]) || idtac.
  all: split; [vm_compute; congruence|cbn; lia].
Qed.

(** ** Round trip *)

Lemma decodeString_encode s rest :
  length s < max_string -> decodeString (encode_key s ++ rest) = Ok (s, 2 + length s).
Proof.
  unfold max_string, encode_key. intros Hs. unfold decodeString.
  rewrite <- app_assoc, read_write_16BE.
  rewrite u16_small, Z.mod_small, Nat2Z.id by lia.
  destruct (Nat.ltb_spec (length (appendUint16BE (Z.of_nat (length s)) [] ++ s ++ rest)) 2)
    as [Hlt|_]; [lens; lia|].
  destruct (Nat.ltb_spec (length (appendUint16BE (Z.of_nat (length s)) [] ++ s ++ rest))
              (2 + length s)) as [Hlt|_]; [lens; lia|].
  rewrite drop_app_exact by done. by rewrite take_app_length.
Qed.

(** The end-marker test fails in front of an encoded entry. *)
Lemma not_end_marker b k v r :
  length k < max_string ->
  b && (at8 (encode_key k ++ encode v ++ r) 0 =? 0)%Z &&
  (at8 (encode_key k ++ encode v ++ r) 1 =? 0)%Z &&
  (at8 (encode_key k ++ encode v ++ r) 2 =? kAmf0ObjectEnd)%Z = false.
Proof.
  unfold max_string. intros Hk. destruct (_ && _ && _ && _) eqn:E; [|done]. bool_hyps.
  assert (length k = 0) as Hk0.
  { pose proof (read_write_16BE (u16 (Z.of_nat (length k))) (k ++ encode v ++ r)) as Hr.
    unfold encode_key in *. rewrite <- app_assoc in *. unfold ReadUint16BE in Hr.
    rewrite u16_small in * by lia. rewrite Z.mod_small in Hr by lia.
    destruct_and?. replace (at8 _ 0) with 0%Z in Hr. replace (at8 _ 1) with 0%Z in Hr.
    rewrite Z.shiftl_0_l, Z.lor_0_r in Hr. lia. }
  apply nil_length_inv in Hk0 as ->. destruct_and?.
  destruct (encode_head v r) as [Hh _]. by destruct Hh.
Qed.

(** The loop of [decodeObject] on the encoding of the entries still to come. *)
Lemma decodeObject_encode fuel pre o1 o2 rest :
  let data := pre ++ encode_entries o2 ++ object_end ++ rest in
  length data - length pre < fuel ->
  StdMap.wf (o1 ++ o2) ->
  all_entries (fun k v => length k < max_string /\
    forall fuel r, length (encode v ++ r) < fuel ->
      decodeValue_fuel fuel (encode v ++ r) = Ok (v, length (encode v))) o2 ->
  decodeObject_fuel fuel data (length pre) o1 =
  Ok (o1 ++ o2, length pre + length (encode_entries o2) + 3).
Proof.
  revert fuel pre o1. induction o2 as [|[k v] o2 IH]; intros fuel pre o1 data Hlen Hwf Ho;
    (destruct fuel as [|fuel]; [lia|]); cbn [decodeObject_fuel encode_entries] in *.
  - destruct (Nat.ltb_spec (length pre) (length data)) as [_|Hge]; [|subst data; lens; lia].
    replace (3 <=? length data - length pre) with true
      by (symmetry; apply Nat.leb_le; subst data; lens; lia).
    subst data. rewrite at8_app_r0, !at8_app_r. cbn. by rewrite Nat.add_0_r, app_nil_r.
  - destruct Ho as [[Hk Hv] Ho]. set (r := encode_entries o2 ++ object_end ++ rest) in *.
    assert (data = pre ++ encode_key k ++ encode v ++ r) as Hd.
    { subst data r. by rewrite <- !app_assoc. }
    clearbody data. subst data.
    destruct (Nat.ltb_spec (length pre) (length (pre ++ encode_key k ++ encode v ++ r)))
      as [_|Hge]; [|lens; lia].
    rewrite at8_app_r0, !at8_app_r.
    rewrite not_end_marker by done.
    rewrite drop_app_exact, decodeString_encode by done. cbn [result_bind].
    assert (length (pre ++ encode_key k) = length pre + (2 + length k)) as Hpk
      by len_lia.
    rewrite (app_assoc pre), drop_app_exact by done.
    rewrite Hv by (lens; lia). cbn [result_bind].
    destruct (Nat.eqb_spec (length (encode v)) 0) as [E|_];
      [destruct (encode_head v []); lia|].
    unfold StdMap.emplace. rewrite StdMapFacts.insert_with_snoc by (by apply StdMapFacts.wf_app_inv in Hwf as [? _]).
    rewrite <- Hpk, <- length_app, (app_assoc (pre ++ _)).
    rewrite (cons_middle (k, v)), app_assoc in Hwf.
    subst r. rewrite IH; [|lens; lia|done|done].
    f_equal. f_equal; [by rewrite <- app_assoc|]. lens. lia.
Qed.

Lemma all_entries_and (P Q : bytes -> Amf0Value -> Prop) o :
  all_entries P o -> all_entries Q o -> all_entries (fun k v => P k v /\ Q k v) o.
Proof. induction o as [|[k v] o IH]; cbn; [done|]. intros [? ?] [? ?]. auto. Qed.

Lemma all_entries_impl (P Q : bytes -> Amf0Value -> Prop) o :
  (forall k v, P k v -> Q k v) -> all_entries P o -> all_entries Q o.
Proof. intros HPQ. induction o as [|[k v] o IH]; cbn; [done|]. intros [? ?]. auto. Qed.

(** What the induction on values carries: a well-formed value decodes to itself
    whatever follows it and whatever fuel above the length is used. *)
Definition roundtrips (v : Amf0Value) : Prop :=
  amf_wf v -> forall fuel rest, length (encode v ++ rest) < fuel ->
  decodeValue_fuel fuel (encode v ++ rest) = Ok (v, length (encode v)).

Lemma decodeObject_roundtrip fuel o rest :
  length (encode_entries o ++ object_end ++ rest) < fuel ->
  object_wf o -> all_entries (fun _ v => roundtrips v) o ->
  decodeObject_fuel fuel (encode_entries o ++ object_end ++ rest) 0 [] =
  Ok (o, length (encode_entries o) + 3).
Proof.
  intros Hlen [Hwf Ho] Hr. apply (decodeObject_encode fuel [] [] o rest); [by rewrite Nat.sub_0_r|done|].
  eapply all_entries_impl; [|exact (all_entries_and _ _ _ Ho Hr)].
  intros k v [[Hk Hv] Hrt]. split; [done|]. intros. by apply Hrt.
Qed.

Lemma decodeValue_object fuel rest :
  decodeValue_fuel (S fuel) (chr kAmf0Object :: rest) =
  let* (o, n) := decodeObject_fuel fuel rest 0 [] in Ok (ObjectValue o, 1 + n).
Proof. done. Qed.

Lemma decodeValue_ecma fuel rest :
  4 <= length rest ->
  decodeValue_fuel (S fuel) (chr kAmf0EcmaArray :: rest) =
  let* (o, n) := decodeObject_fuel fuel (drop 4 rest) 0 [] in Ok (EcmaArray o, 5 + n).
Proof.
  intros H. destruct rest as [|b0 [|b1 [|b2 [|b3 rest]]]]; [cbn in H; lia..|]. done.
Qed.

Lemma decodeValue_string fuel rest :
  decodeValue_fuel (S fuel) (chr kAmf0String :: rest) =
  let* (s, n) := decodeString rest in Ok (String s, 1 + n).
Proof. done. Qed.

Lemma encode_string s : encode (String s) = chr kAmf0String :: encode_key s.
Proof. done. Qed.

Lemma encode_decode v : roundtrips v.
Proof.
  unfold roundtrips.
  induction v as [x|b|s|o IH|o IH|] using Amf0Value_entries_ind;
    intros Hwf fuel rest Hlen; (destruct fuel as [|fuel]; [lia|]).
  - change (encode (Number x)) with (chr kAmf0Number :: appendDoubleBE x []) in *.
    cbn in Hwf. rewrite <- (Z.mod_small x (2 ^ 64)) at 2 by lia.
    by rewrite <- (read_write_double x rest).
  - by destruct b.
  - rewrite encode_string in *. cbn [app]. rewrite decodeValue_string.
    by rewrite decodeString_encode.
  - rewrite encode_object in *. cbn [app] in *. rewrite <- app_assoc in *.
    rewrite decodeValue_object, decodeObject_roundtrip; [cbn [result_bind]; do 2 f_equal; len_lia| |done..].
    lens. lia.
  - rewrite encode_ecma in *. cbn [app] in *. rewrite <- !app_assoc in *.
    rewrite decodeValue_ecma by (lens; lia). rewrite drop_app_exact by done.
    rewrite decodeObject_roundtrip; [cbn [result_bind]; do 2 f_equal; len_lia| |done..].
    lens. lia.
  - done.
Qed.

(** An [Amf0Encoder] to which a sequence of values has been appended. *)
Definition encodeAll (vs : list Amf0Value) (data_ : bytes) : bytes :=
  foldl (fun d v => appendValue v d) data_ vs.

Lemma encodeAll_app vs d : encodeAll vs d = d ++ encodeAll vs [].
Proof.
  revert d. induction vs as [|v vs IH]; intros d; cbn; [by rewrite app_nil_r|].
  unfold encodeAll in *. rewrite IH, (IH (appendValue v [])), appendValue_app.
  by rewrite <- app_assoc.
Qed.

Lemma encodeAll_cons v vs : encodeAll (v :: vs) [] = encode v ++ encodeAll vs [].
Proof. exact (encodeAll_app vs (encode v)). Qed.

Lemma decodeAll_encode fuel pre vs1 vs :
  let data := pre ++ encodeAll vs [] in
  length data - length pre < fuel -> Forall amf_wf vs ->
  decodeAll_fuel fuel data (length pre) vs1 = Ok (vs1 ++ vs).
Proof.
  revert fuel pre vs1. induction vs as [|v vs IH]; intros fuel pre vs1 data Hlen Hwf;
    (destruct fuel as [|fuel]; [lia|]); cbn [decodeAll_fuel]; subst data.
  - rewrite !app_nil_r. by rewrite Nat.ltb_irrefl.
  - inversion Hwf as [|? ? Hv Hvs]; subst. rewrite encodeAll_cons in *.
    destruct (encode_head v []) as [_ Hpos].
    destruct (Nat.ltb_spec (length pre) (length (pre ++ encode v ++ encodeAll vs [])))
      as [_|Hge]; [|lens; lia].
    rewrite drop_app_exact by done. unfold decodeValue.
    rewrite encode_decode by (done || lia). cbn [result_bind].
    destruct (Nat.eqb_spec (length (encode v)) 0) as [|_]; [lia|].
    rewrite <- length_app, app_assoc, IH; [by rewrite <- app_assoc| |done]. lens. lia.
Qed.

(** ** Properties *)

(** C21 Round trip: appending any sequence of well-formed values to an encoder
    and decoding the resulting payload gives the same sequence back, nested
    objects, ECMA arrays and empty keys included. *)
Theorem amf0_roundtrip (vs : list Amf0Value) :
  Forall amf_wf vs -> decodeAll (encodeAll vs []) = Ok vs.
Proof. intros H. by apply (decodeAll_encode _ [] []); [cbn [length app]; lia|]. Qed.

Definition amf0_sample : list Amf0Value :=
  [String (str "connect"); Number 0x3FF0000000000000;
   ObjectValue [([], Null); (str "app", String (str "live"));
                (str "caps", EcmaArray [(str "x", Boolean true)])]].

Lemma amf0_roundtrip_witness :
  Forall amf_wf amf0_sample /\ decodeAll (encodeAll amf0_sample []) = Ok amf0_sample.
Proof.
  assert (Forall amf_wf amf0_sample) as H.
  { unfold amf0_sample.
    repeat match goal with
    | |- Forall _ _ => constructor
    | |- amf_wf _ => cbn [amf_wf all_entries]
    | |- _ /\ _ => split
    | |- True => exact I
    | |- (_ <= _)%Z => lia
    | |- (_ < _)%Z => lia
    | |- _ < _ => apply Nat.ltb_lt; vm_compute; reflexivity
    | |- StdMap.wf _ => unfold StdMap.wf; cbn [map fst]; repeat constructor
    end. }
  exact (conj H (amf0_roundtrip _ H)).
Defined.

(** Totality and typing of the decoder: on every input [decodeAll] returns
    (the fuel the model gives the nested recursion never runs out), it either
    reports an error or yields values all of whose objects are proper maps,
    whose strings fit 16 bits and whose numbers are 64-bit patterns. *)
Theorem amf0_decode_total (data : bytes) :
  decodeAll data <> NoFuel /\ (forall vs, decodeAll data = Ok vs -> Forall amf_wf vs).
Proof.
  pose proof (decodeAll_fuel_good (S (length data)) data 0 []) as H.
  unfold decodeAll. destruct (decodeAll_fuel _ _ _ _) as [vs|m|].
  - split; [done|]. intros vs' [= <-]. apply H; [lia|done].
  - by split.
  - destruct H; [lia|done].
Qed.

(** Bounds: a decoded value never claims more bytes than the view holds (so
    every [substr] offset of the callers is in range), and claims at least one
    when the view is not empty (so the loops of [decodeAll] and [decodeObject]
    advance). *)
Theorem amf0_value_bounds (data : bytes) (v : Amf0Value) (bytes_used : nat) :
  decodeValue data = Ok (v, bytes_used) ->
  bytes_used <= length data /\ (data <> [] -> 0 < bytes_used).
Proof.
  intros H. pose proof (decodeValue_good data) as Hg. rewrite H in Hg.
  destruct Hg as (? & ? & ?). done.
Qed.

Lemma amf0_value_bounds_witness :
  let data := encode (String (str "live")) ++ str "rest" in
  decodeValue data = Ok (String (str "live"), 7) /\
  (7 <= length data /\ (data <> [] -> 0 < 7)).
Proof.
  intros data. assert (decodeValue data = Ok (String (str "live"), 7)) as H by reflexivity.
  exact (conj H (amf0_value_bounds data _ _ H)).
Defined.

(** The 16-bit length: a string of 65536 bytes or more is written with its
    length truncated, and no decoder run gives it back; below that length it
    always comes back.  So [appendString] is invertible exactly on the strings
    that fit, and nothing in the encoder refuses the others. *)
Theorem amf0_string_length_limit (s rest : bytes) :
  (exists n, decodeValue (appendString s [] ++ rest) = Ok (String s, n)) <->
  length s < max_string.
Proof.
  change (appendString s []) with (encode (String s)). split.
  - intros [n H]. pose proof (decodeValue_good (encode (String s) ++ rest)) as Hg.
    rewrite H in Hg. destruct Hg as (_ & _ & Hwf). exact Hwf.
  - intros Hs. eexists. apply encode_decode; [done|lia].
Qed.
