(* ===== verification/RtmpTypes.v ===== *)
(** * src/rtmp/RtmpTypes.h, src/rtmp/RtmpMessage.h

    Protocol constants, the enumerations of the RTMP layer and the message
    structure that the chunk layer produces and consumes. *)

From S2P Require Import Prelude Bytes.

Local Open Scope Z_scope.

Definition kVersion : Z := 3.
Definition kDefaultChunkSize : Z := 128.
Definition kDefaultAcknowledgementWindow : Z := 5000000.
Definition kDefaultPeerBandwidth : Z := 5000000.

Definition kChunkHeaderType0 : Z := 0.
Definition kChunkHeaderType1 : Z := 1.
Definition kChunkHeaderType2 : Z := 2.
Definition kChunkHeaderType3 : Z := 3.

Definition kMessageTypeSetChunkSize : Z := 1.
Definition kMessageTypeWindowAcknowledgementSize : Z := 5.
Definition kMessageTypeSetPeerBandwidth : Z := 6.
Definition kMessageTypeAudio : Z := 8.
Definition kMessageTypeVideo : Z := 9.
Definition kMessageTypeDataAmf0 : Z := 18.
Definition kMessageTypeCommandAmf0 : Z := 20.

Definition kChunkStreamIdControl : Z := 2.
Definition kChunkStreamIdCommand : Z := 3.

Inductive HandshakeState := kWaitC0C1 | kSendS0S1S2 | kWaitC2 | kHandshakeDone.
Inductive ConnectionRole := kUnknown | kPublisher | kPlayer.

#[export] Instance HandshakeState_eq_dec : EqDecision HandshakeState.
Proof. solve_decision. Defined.
#[export] Instance ConnectionRole_eq_dec : EqDecision ConnectionRole.
Proof. solve_decision. Defined.

Definition MakeStreamKey (app stream_name : bytes) : bytes :=
  str "/" ++ app ++ str "/" ++ stream_name.

(** [uint32_t]/[uint8_t] fields are [Z]; [msg_wf] gives their ranges. *)
Record RtmpMessage := mkMessage {
  timestamp : Z;
  messageLength : Z;
  typeId : Z;
  messageStreamId : Z;
  chunkStreamId : Z;
  payload : bytes;
}.

#[export] Instance RtmpMessage_eq_dec : EqDecision RtmpMessage.
Proof. solve_decision. Defined.

(** A message that the chunk format can carry: field widths, a length field that
    is the payload's, and a chunk stream id with an encoding. *)
Definition msg_wf (m : RtmpMessage) : Prop :=
  0 <= timestamp m < 2 ^ 32 /\ 0 <= typeId m < 2 ^ 8 /\
  0 <= messageStreamId m < 2 ^ 32 /\ 2 <= chunkStreamId m < 65600 /\
  messageLength m = Z.of_nat (length (payload m)) /\ messageLength m < 2 ^ 24.
