(* ===== verification/ChunkWriter.v ===== *)
(** * src/rtmp/RtmpChunkWriter.*

    Serialisation of a message into chunks: one fmt-0 chunk, then fmt-3
    continuation chunks of at most [out_chunk_size] payload bytes each. *)

From S2P Require Import Prelude Bytes RtmpTypes.

Module RtmpChunkWriter.

Definition push_back (out : bytes) (v : Z) : bytes := out ++ [chr v].

Definition appendBasicHeader (out : bytes) (fmt csid : Z) : bytes :=
  if (csid <? 64)%Z then push_back out (Z.lor (Z.shiftl fmt 6) csid)
  else if (csid <? 320)%Z then push_back (push_back out (Z.shiftl fmt 6)) (csid - 64)
  else
    let out := push_back out (Z.lor (Z.shiftl fmt 6) 1) in
    let value := (csid - 64)%Z in
    push_back (push_back out (Z.land value 0xFF)) (Z.land (Z.shiftr value 8) 0xFF).

Definition appendMessageHeader (out : bytes) (message : RtmpMessage) : bytes :=
  let out := appendUint24BE (Z.min (timestamp message) 0x00FFFFFF) out in
  let out := appendUint24BE (messageLength message) out in
  let out := push_back out (typeId message) in
  let out := appendUint32LE (messageStreamId message) out in
  if (0x00FFFFFF <=? timestamp message)%Z then appendUint32BE (timestamp message) out else out.

(** The [while] loop; [None] when the fuel does not suffice. *)
Fixpoint chunk_loop (fuel : nat) (message : RtmpMessage) (out_chunk_size : Z)
    (payload_offset : nat) (out : bytes) : option bytes :=
  match fuel with
  | O => None
  | S fuel =>
    if payload_offset <? length (payload message) then
      let remaining := length (payload message) - payload_offset in
      let chunk_bytes := Nat.min remaining (Z.to_nat out_chunk_size) in
      let out := out ++ take chunk_bytes (drop payload_offset (payload message)) in
      let payload_offset := payload_offset + chunk_bytes in
      let out := if payload_offset <? length (payload message)
                 then appendBasicHeader out 3 (chunkStreamId message) else out in
      chunk_loop fuel message out_chunk_size payload_offset out
    else Some out
  end.

Definition EncodeMessage_fuel (fuel : nat) (message : RtmpMessage) (out_chunk_size : Z)
    : option bytes :=
  let out := appendBasicHeader [] 0 (chunkStreamId message) in
  let out := appendMessageHeader out message in
  chunk_loop fuel message out_chunk_size 0 out.

(** One iteration per chunk and one for the exit test: with a positive chunk size
    the payload's length and one is enough ([encode_fuel_eq]); with chunk size 0
    and a payload the source loops for ever ([encode_terminates_iff]), and the
    model yields the empty string. *)
Definition EncodeMessage (message : RtmpMessage) (out_chunk_size : Z) : bytes :=
  default [] (EncodeMessage_fuel (S (length (payload message))) message out_chunk_size).

End RtmpChunkWriter.
