(* ===== verification/ChunkParser.v ===== *)
(** * src/rtmp/RtmpChunkParser.*

    The incremental chunk parser of a connection: per chunk stream the header
    fields it inherits from chunk to chunk and the message being reassembled.
    Written against the [ByteBuffer] interface.  Every read of the buffer and the
    [std::copy] into the payload are bounds-checked in the model: [OutOfBounds] is
    undefined behaviour of the source, which [parser_memory_safe] excludes. *)

From S2P Require Import Prelude Bytes ByteBuffer RtmpTypes.

Module RtmpChunkParser.

Record ChunkStreamState := mkState {
  cs_timestamp : Z;
  cs_timestampDelta : Z;
  cs_extendedTimestamp : Z;
  cs_messageLength : Z;
  cs_typeId : Z;
  cs_messageStreamId : Z;
  cs_bytesRead : Z;
  cs_payload : bytes;
  cs_headerInitialized : bool;
}.

Definition initial_state : ChunkStreamState := mkState 0 0 0 0 0 0 0 [] false.

Record t := mk {
  inChunkSize_ : Z;
  chunkStreams_ : gmap Z ChunkStreamState;
}.

Definition initial : t := mk kDefaultChunkSize ∅.

Definition setInChunkSize (chunk_size : Z) (p : t) : t := mk chunk_size (chunkStreams_ p).

Definition inChunkSize (p : t) : Z := inChunkSize_ p.

(** [chunkStreams_[csid]]: a new entry starts from the defaults. *)
Definition stream_state (csid : Z) (p : t) : ChunkStreamState :=
  default initial_state (chunkStreams_ p !! csid).

Definition store_state (csid : Z) (s : ChunkStreamState) (p : t) : t :=
  mk (inChunkSize_ p) (<[csid := s]> (chunkStreams_ p)).

(** Assignments to the fields. *)
Section setters.
Context (s : ChunkStreamState).
Definition set_timestamp (v : Z) := mkState v (cs_timestampDelta s) (cs_extendedTimestamp s)
  (cs_messageLength s) (cs_typeId s) (cs_messageStreamId s) (cs_bytesRead s) (cs_payload s)
  (cs_headerInitialized s).
Definition set_timestampDelta (v : Z) := mkState (cs_timestamp s) v (cs_extendedTimestamp s)
  (cs_messageLength s) (cs_typeId s) (cs_messageStreamId s) (cs_bytesRead s) (cs_payload s)
  (cs_headerInitialized s).
Definition set_extendedTimestamp (v : Z) := mkState (cs_timestamp s) (cs_timestampDelta s) v
  (cs_messageLength s) (cs_typeId s) (cs_messageStreamId s) (cs_bytesRead s) (cs_payload s)
  (cs_headerInitialized s).
Definition set_messageLength (v : Z) := mkState (cs_timestamp s) (cs_timestampDelta s)
  (cs_extendedTimestamp s) v (cs_typeId s) (cs_messageStreamId s) (cs_bytesRead s)
  (cs_payload s) (cs_headerInitialized s).
Definition set_typeId (v : Z) := mkState (cs_timestamp s) (cs_timestampDelta s)
  (cs_extendedTimestamp s) (cs_messageLength s) v (cs_messageStreamId s) (cs_bytesRead s)
  (cs_payload s) (cs_headerInitialized s).
Definition set_messageStreamId (v : Z) := mkState (cs_timestamp s) (cs_timestampDelta s)
  (cs_extendedTimestamp s) (cs_messageLength s) (cs_typeId s) v (cs_bytesRead s)
  (cs_payload s) (cs_headerInitialized s).
Definition set_bytesRead (v : Z) := mkState (cs_timestamp s) (cs_timestampDelta s)
  (cs_extendedTimestamp s) (cs_messageLength s) (cs_typeId s) (cs_messageStreamId s) v
  (cs_payload s) (cs_headerInitialized s).
Definition set_payload (v : bytes) := mkState (cs_timestamp s) (cs_timestampDelta s)
  (cs_extendedTimestamp s) (cs_messageLength s) (cs_typeId s) (cs_messageStreamId s)
  (cs_bytesRead s) v (cs_headerInitialized s).
Definition set_headerInitialized (v : bool) := mkState (cs_timestamp s) (cs_timestampDelta s)
  (cs_extendedTimestamp s) (cs_messageLength s) (cs_typeId s) (cs_messageStreamId s)
  (cs_bytesRead s) (cs_payload s) v.
End setters.

(** [state->payload.assign(state->messageLength, '\0')] *)
Definition assign_payload (s : ChunkStreamState) : ChunkStreamState :=
  set_payload s (replicate (Z.to_nat (cs_messageLength s)) Byte.x00).

(** [true] of the source is [Done], [false] with its message is [Failed]. *)
Inductive status := Done | Failed (error_message : String.string) | OutOfBounds.

(** A read of the first [n] bytes of [data], at which only [length data] bytes are
    there: [fault] is undefined behaviour. *)
Definition reads {A} (n : nat) (data : bytes) (fault result : A) : A :=
  if length data <? n then fault else result.

Lemma reads_ok {A} n data (fault result : A) : n <= length data -> reads n data fault result = result.
Proof. intros Hn. unfold reads. by rewrite (proj2 (Nat.ltb_ge _ _)). Qed.

(** The basic header: fmt, chunk stream id and its size, which is 0 while it is
    incomplete; [None]: a read beyond the buffer.  The function of the source
    always returns true. *)
Definition parseBasicHeader (data : bytes) : option (Z * Z * nat) :=
  if length data <? 1 then Some (0, 0, 0%nat)%Z
  else reads 1 data None
    (let first := at8 data 0 in
     let fmt := Z.shiftr first 6 in
     let csid_mark := Z.land first 0x3F in
     if (2 <=? csid_mark)%Z then Some (fmt, csid_mark, 1)
     else if (csid_mark =? 0)%Z then
       if length data <? 2 then Some (fmt, 0%Z, 0)
       else reads 2 data None (Some (fmt, (64 + at8 data 1)%Z, 2))
     else if length data <? 3 then Some (fmt, 0%Z, 0)
     else reads 3 data None (Some (fmt, (64 + at8 data 1 + Z.shiftl (at8 data 2) 8)%Z, 3))).

(** What fmt 0, 1 and 2 have in common after their own fields: an extended
    timestamp follows when the 24-bit field is all ones.  [used] is what the
    fixed part took; [Some None] is the early return with 0 bytes used, [None] a
    read beyond the buffer. *)
Definition read_extended (data : bytes) (used : nat) (field : Z) (s : ChunkStreamState)
    : option (option (Z * ChunkStreamState * nat)) :=
  if (field =? 0x00FFFFFF)%Z then
    if length data <? used + 4 then Some None
    else reads (used + 4) data None
      (let ext := ReadUint32BE (drop used data) in
       Some (Some (ext, set_extendedTimestamp s ext, used + 4)))
  else Some (Some (field, set_extendedTimestamp s 0, used)).

Definition restart_message (s : ChunkStreamState) : ChunkStreamState :=
  assign_payload (set_bytesRead s 0).

(** [parseMessageHeader]: status, the new state and [*bytes_used]. *)
Definition parseMessageHeader (data : bytes) (fmt : Z) (s : ChunkStreamState)
    : status * ChunkStreamState * nat :=
  if (fmt =? kChunkHeaderType0)%Z then
    if length data <? 11 then (Done, s, 0)
    else reads 11 data (OutOfBounds, s, 0) (
      let timestamp := ReadUint24BE data in
      let s := set_messageLength s (ReadUint24BE (drop 3 data)) in
      let s := set_typeId s (at8 data 6) in
      let s := set_messageStreamId s (ReadUint32LE (drop 7 data)) in
      let s := set_timestampDelta s 0 in
      match read_extended data 11 timestamp s with
      | None => (OutOfBounds, s, 0)
      | Some None => (Done, s, 0)
      | Some (Some (ts, s, used)) =>
          let s := set_timestamp s ts in
          (Done, set_headerInitialized (restart_message s) true, used)
      end)
  else if negb (cs_headerInitialized s) then
    (Failed "received continuation chunk before first fmt=0 header", s, 0)
  else if (fmt =? kChunkHeaderType1)%Z then
    if length data <? 7 then (Done, s, 0)
    else reads 7 data (OutOfBounds, s, 0) (
      let timestamp_delta := ReadUint24BE data in
      let s := set_messageLength s (ReadUint24BE (drop 3 data)) in
      let s := set_typeId s (at8 data 6) in
      match read_extended data 7 timestamp_delta s with
      | None => (OutOfBounds, s, 0)
      | Some None => (Done, s, 0)
      | Some (Some (delta, s, used)) =>
          let s := set_timestampDelta s delta in
          let s := set_timestamp s (u32 (cs_timestamp s + cs_timestampDelta s)) in
          (Done, restart_message s, used)
      end)
  else if (fmt =? kChunkHeaderType2)%Z then
    if length data <? 3 then (Done, s, 0)
    else reads 3 data (OutOfBounds, s, 0) (
      let timestamp_delta := ReadUint24BE data in
      match read_extended data 3 timestamp_delta s with
      | None => (OutOfBounds, s, 0)
      | Some None => (Done, s, 0)
      | Some (Some (delta, s, used)) =>
          let s := set_timestampDelta s delta in
          let s := set_timestamp s (u32 (cs_timestamp s + cs_timestampDelta s)) in
          (Done, restart_message s, used)
      end)
  else if (fmt =? kChunkHeaderType3)%Z then
    let s := if (cs_bytesRead s =? 0)%Z && (0 <? cs_messageLength s)%Z
             then assign_payload (set_timestamp s (u32 (cs_timestamp s + cs_timestampDelta s)))
             else s in
    if negb (cs_extendedTimestamp s =? 0)%Z then
      if length data <? 4 then (Done, s, 0) else (Done, s, 4)
    else (Done, s, 0)
  else (Failed "invalid chunk header fmt", s, 0).

Section parse.
Context {B : Type} `{ByteBuffer B}.

(** The copy of a chunk's payload and the completion of a message. *)
Definition take_payload (csid : Z) (offset : nat) (s : ChunkStreamState) (p : t) (buf : B)
    (messages : list RtmpMessage) : status * t * B * list RtmpMessage :=
  let data := peek buf in
  let readable := readableBytes buf in
  let remaining := u32 (cs_messageLength s - cs_bytesRead s) in
  let chunk_payload := Z.min remaining (inChunkSize_ p) in
  let n := Z.to_nat chunk_payload in
  if readable <? offset + n then (Done, store_state csid s p, buf, messages)
  else reads (offset + n) data (OutOfBounds, store_state csid s p, buf, messages)
    match copy_into (cs_payload s) (Z.to_nat (cs_bytesRead s)) (take n (drop offset data)) with
    | None => (OutOfBounds, store_state csid s p, buf, messages)
    | Some payload =>
        let s := set_bytesRead (set_payload s payload) (u32 (cs_bytesRead s + chunk_payload)) in
        let buf := retrieve (offset + n) buf in
        if (cs_bytesRead s =? cs_messageLength s)%Z then
          let message := mkMessage (cs_timestamp s) (cs_messageLength s) (cs_typeId s)
                           (cs_messageStreamId s) csid (cs_payload s) in
          let s := set_payload (set_bytesRead s 0) [] in
          (Done, store_state csid s p, buf, messages ++ [message])
        else (Done, store_state csid s p, buf, messages)
    end.

Definition parseOneChunk (p : t) (buf : B) (messages : list RtmpMessage)
    : status * t * B * list RtmpMessage :=
  let data := peek buf in
  match parseBasicHeader data with
  | None => (OutOfBounds, p, buf, messages)
  | Some (fmt, csid, basic_header_size) =>
  if basic_header_size =? 0 then (Done, p, buf, messages)
  else
    let '(st, s, message_header_size) :=
      parseMessageHeader (drop basic_header_size data) fmt (stream_state csid p) in
    match st with
    | Done =>
        let fmt3_without_extra_header :=
          (fmt =? kChunkHeaderType3)%Z && cs_headerInitialized s &&
          (cs_extendedTimestamp s =? 0)%Z in
        if (message_header_size =? 0) && negb fmt3_without_extra_header
        then (Done, store_state csid s p, buf, messages)
        else if negb (cs_headerInitialized s)
        then (Done, store_state csid s p, buf, messages)
        else take_payload csid (basic_header_size + message_header_size) s p buf messages
    | _ => (st, store_state csid s p, buf, messages)
    end
  end.

(** The loop of [parse]: every iteration that goes on consumed a byte, so one
    more than the readable bytes is enough fuel ([parse_spec]). *)
Fixpoint parse_fuel (fuel : nat) (p : t) (buf : B) (messages : list RtmpMessage)
    : option (status * t * B * list RtmpMessage) :=
  match fuel with
  | O => None
  | S fuel =>
    if 0 <? readableBytes buf then
      let before := readableBytes buf in
      let '(st, p, buf, messages) := parseOneChunk p buf messages in
      match st with
      | Done =>
          if readableBytes buf =? before then Some (Done, p, buf, messages)
          else parse_fuel fuel p buf messages
      | _ => Some (st, p, buf, messages)
      end
    else Some (Done, p, buf, messages)
  end.

Definition parse (p : t) (buf : B) (messages : list RtmpMessage)
    : option (status * t * B * list RtmpMessage) :=
  parse_fuel (S (readableBytes buf)) p buf messages.

(** ** Deliveries

    What happens to a connection's parser over time: bytes arrive and [parse]
    runs (TcpConnection::handleRead, RtmpConnection::onMessage), or the peer's
    SetChunkSize message changes the chunk size (RtmpConnection::handleMessage).
    A failed parse ends the run: the server shuts the connection down. *)
Inductive event := Deliver (data : bytes) | ChunkSize (size : Z).

Fixpoint deliveries (evs : list event) (p : t) (buf : B) (messages : list RtmpMessage)
    : option (status * t * B * list RtmpMessage) :=
  match evs with
  | [] => Some (Done, p, buf, messages)
  | ChunkSize n :: evs' => deliveries evs' (setInChunkSize n p) buf messages
  | Deliver data :: evs' =>
      '(st, p1, buf1, messages1) ← parse p (append data buf) messages;
      match st with
      | Done => deliveries evs' p1 buf1 messages1
      | _ => Some (st, p1, buf1, messages1)
      end
  end.

End parse.
End RtmpChunkParser.
