(* ===== verification/ChunkParserFacts.v ===== *)
(** * The chunk parser: memory safety, totality, well-formed messages

    The invariant of a parser that is fed piecewise, and what follows from it. *)

From S2P Require Import Prelude Bytes ByteBuffer RtmpTypes ChunkParser.
Import RtmpChunkParser.

(** ** The state of one chunk stream *)

(** Field ranges, kept by every assignment. *)
Definition in_range (s : ChunkStreamState) : Prop :=
  (0 <= cs_timestamp s < 2 ^ 32 /\ 0 <= cs_typeId s < 2 ^ 8 /\
   0 <= cs_messageStreamId s < 2 ^ 32 /\ 0 <= cs_messageLength s < 2 ^ 24)%Z.

(** A message is being reassembled: the payload has its final size. *)
Definition ready (s : ChunkStreamState) : Prop :=
  cs_headerInitialized s = true /\
  (0 <= cs_bytesRead s <= cs_messageLength s)%Z /\
  length (cs_payload s) = Z.to_nat (cs_messageLength s).

(** Between two messages: the payload has been cleared. *)
Definition idle (s : ChunkStreamState) : Prop := cs_bytesRead s = 0%Z /\ cs_payload s = [].

Definition state_ok (s : ChunkStreamState) : Prop :=
  cs_headerInitialized s = true -> ready s \/ idle s.

(** The buffer starts with a chunk of stream [csid] whose header is of a kind
    that replaces the message length. *)
Definition replacing_head (csid : Z) (data : bytes) : Prop :=
  exists fmt n, parseBasicHeader data = Some (fmt, csid, n) /\ n <> 0 /\
                (fmt = kChunkHeaderType0 \/ fmt = kChunkHeaderType1).

(** The invariant.  A chunk stream may only be inconsistent (new message length,
    old payload) while the chunk header that made it so is still unread. *)
Definition parser_inv (p : t) (data : bytes) : Prop :=
  (0 <= inChunkSize_ p)%Z /\
  forall csid s, chunkStreams_ p !! csid = Some s ->
    in_range s /\ (state_ok s \/ replacing_head csid data).

Lemma initial_ok : in_range initial_state /\ state_ok initial_state.
Proof. unfold in_range, state_ok; cbn. split; [lia|done]. Qed.

Lemma parser_inv_initial data : parser_inv initial data.
Proof. split; [done|]. intros csid s H. cbn in H. by rewrite lookup_empty in H. Qed.

(** ** Headers *)

Lemma basic_header_size data fmt csid n :
  parseBasicHeader data = Some (fmt, csid, n) -> n <= length data.
Proof.
  unfold parseBasicHeader, reads. intros H.
  repeat step_case_in H; bool_hyps; simplify_eq; lia.
Qed.

Lemma basic_header_csid data fmt csid n :
  parseBasicHeader data = Some (fmt, csid, n) -> n <> 0 ->
  (0 <= fmt < 4 /\ 2 <= csid < 65600)%Z.
Proof.
  unfold parseBasicHeader, reads. intros H Hn.
  pose proof (at8_range data 0) as H0. pose proof (at8_range data 1) as H1.
  pose proof (at8_range data 2) as H2.
  assert (0 <= Z.shiftr (at8 data 0) 6 < 4)%Z as Hf
    by (rewrite Z.shiftr_div_pow2 by lia; split;
        [apply Z.div_pos; lia|apply Z.div_lt_upper_bound; lia]).
  assert (0 <= Z.land (at8 data 0) 63 < 64)%Z as Hm
    by (change 63%Z with (Z.ones 6); rewrite Z.land_ones by lia; apply Z.mod_pos_bound; lia).
  rewrite Z.shiftl_mul_pow2 in H by lia.
  repeat step_case_in H; bool_hyps; simplify_eq; lia.
Qed.

(** Every read is within the data. *)
Lemma basic_header_total data : is_Some (parseBasicHeader data).
Proof.
  unfold parseBasicHeader. destruct (Nat.ltb_spec (length data) 1); [eauto|]. rewrite reads_ok by lia. cbv zeta.
  destruct (2 <=? _)%Z; [eauto|]. destruct (_ =? 0)%Z.
  - destruct (Nat.ltb_spec (length data) 2); [eauto|]. rewrite reads_ok by lia. eauto.
  - destruct (Nat.ltb_spec (length data) 3); [eauto|]. rewrite reads_ok by lia. eauto.
Qed.

(** A complete basic header does not depend on what follows. *)
Lemma basic_header_app data rest fmt csid n :
  parseBasicHeader data = Some (fmt, csid, n) -> n <> 0 ->
  parseBasicHeader (data ++ rest) = Some (fmt, csid, n).
Proof.
  unfold parseBasicHeader, reads. intros H Hn. rewrite !length_app.
  destruct (Nat.ltb_spec (length data) 1); [simplify_eq|].
  rewrite (proj2 (Nat.ltb_ge (length data + length rest) 1)), at8_app by lia.
  step_case_in H; [done|]. step_case_in H.
  - destruct (Nat.ltb_spec (length data) 2); [simplify_eq|].
    by rewrite (proj2 (Nat.ltb_ge (length data + length rest) 2)), at8_app by lia.
  - destruct (Nat.ltb_spec (length data) 3); [simplify_eq|].
    by rewrite (proj2 (Nat.ltb_ge (length data + length rest) 3)), !at8_app by lia.
Qed.

Lemma replacing_head_app csid data rest :
  replacing_head csid data -> replacing_head csid (data ++ rest).
Proof.
  intros (fmt & n & H & Hn & Hf). exists fmt, n. split; [|done].
  by apply basic_header_app.
Qed.

Lemma restart_ready s :
  in_range s -> cs_headerInitialized s = true ->
  in_range (restart_message s) /\ ready (restart_message s).
Proof.
  unfold in_range, ready, restart_message, assign_payload; cbn.
  intros ? ?. rewrite length_replicate. split_and!; try done; lia.
Qed.

(** What a successfully parsed message header leaves: a stream that is ready for
    payload, or an incomplete header ([used = 0]) that may have replaced the
    length only if its fmt is 0 or 1. *)
Definition header_post (fmt : Z) (s : ChunkStreamState) (used : nat) : Prop :=
  in_range s /\
  ((ready s /\ (used <> 0 \/ fmt = kChunkHeaderType3 /\ cs_extendedTimestamp s = 0%Z)) \/
   (used = 0 /\ ~ (fmt = kChunkHeaderType3 /\ cs_extendedTimestamp s = 0%Z) /\
    (state_ok s \/ fmt = kChunkHeaderType0 \/ fmt = kChunkHeaderType1))).

Lemma read_extended_total data used field s : is_Some (read_extended data used field s).
Proof.
  unfold read_extended. destruct (_ =? _)%Z; [|eauto]. destruct (Nat.ltb_spec (length data) (used + 4)); [eauto|].
  rewrite reads_ok by lia. eauto.
Qed.

Lemma read_extended_Some data used field s ts s' used' :
  read_extended data used field s = Some (Some (ts, s', used')) -> used <> 0 -> used <= length data ->
  (0 <= field < 2 ^ 24)%Z ->
  (0 <= ts < 2 ^ 32)%Z /\ used' <> 0 /\ used' <= length data /\
  s' = set_extendedTimestamp s (cs_extendedTimestamp s').
Proof.
  unfold read_extended, reads. intros H Hu Hl Hf.
  step_case_in H; [step_case_in H|]; bool_hyps; simplify_eq/=; [|split_and!; lia || done].
  pose proof (ReadUint32BE_range (drop used data)). split_and!; lia || done.
Qed.

Ltac header_done := unfold header_post, in_range, state_ok in *; cbn; split_and!;
  auto; try lia.

Section header_cases.
Context (data : bytes) (s : ChunkStreamState).
Context (Hs : in_range s).

Lemma header_fmt0 :
  exists s' used, parseMessageHeader data kChunkHeaderType0 s = (Done, s', used) /\
    used <= length data /\ header_post kChunkHeaderType0 s' used.
Proof using Hs.
  unfold parseMessageHeader. cbn [Z.eqb kChunkHeaderType0].
  destruct (Nat.ltb_spec (length data) 11) as [|Hlen].
  { exists s, 0. split_and!; [done|lia|]. split; [done|]. right. split_and!; auto. by intros []. }
  rewrite reads_ok by lia.
  pose proof (ReadUint24BE_range data) as R1.
  pose proof (ReadUint24BE_range (drop 3 data)) as R2.
  pose proof (at8_range data 6) as R3.
  pose proof (ReadUint32LE_range (drop 7 data)) as R4.
  set (s1 := set_timestampDelta _ _).
  assert (in_range s1) as Hs1 by (unfold in_range in *; cbn; lia).
  destruct (read_extended_total data 11 (ReadUint24BE data) s1) as [o E]. rewrite E. destruct o as [[[ts s2] used]|].
  - apply read_extended_Some in E as (Hts & Hu & Hl & ->); [|lia..].
    eexists _, used. split_and!; [done|lia|].
    assert (in_range (set_headerInitialized (set_timestamp (set_extendedTimestamp s1
              (cs_extendedTimestamp s2)) ts) true)) as Hr by (unfold in_range in *; cbn; lia).
    destruct (restart_ready _ Hr) as [H1 H2]; [done|].
    split; [exact H1|left]. split; [exact H2|by left].
  - exists s1, 0. split_and!; [done|lia|]. split; [done|]. right. split_and!; auto. by intros [].
Qed.

Context (Hinit : cs_headerInitialized s = true).

(** The common end of fmt 1 and 2. *)
Lemma restart_with_delta s1 delta ext fmt used :
  in_range s1 -> cs_headerInitialized s1 = true -> used <> 0 ->
  let s2 := set_timestampDelta (set_extendedTimestamp s1 ext) delta in
  header_post fmt
    (restart_message (set_timestamp s2 (u32 (cs_timestamp s2 + cs_timestampDelta s2)))) used.
Proof.
  intros Hr Hi Hu s2.
  pose proof (u32_range (cs_timestamp s2 + cs_timestampDelta s2)) as Ht.
  destruct (restart_ready (set_timestamp s2 (u32 (cs_timestamp s2 + cs_timestampDelta s2))))
    as [H1 H2]; [unfold in_range in *; cbn in *; lia|done|].
  split; [exact H1|left]. split; [exact H2|by left].
Qed.

Lemma header_fmt1 :
  exists s' used, parseMessageHeader data kChunkHeaderType1 s = (Done, s', used) /\
    used <= length data /\ header_post kChunkHeaderType1 s' used.
Proof using Hs Hinit.
  unfold parseMessageHeader. cbn [Z.eqb kChunkHeaderType0 kChunkHeaderType1].
  rewrite Hinit. cbn [negb].
  destruct (Nat.ltb_spec (length data) 7) as [|Hlen].
  { exists s, 0. split_and!; [done|lia|]. split; [done|]. right. split_and!; auto. by intros []. }
  rewrite reads_ok by lia.
  pose proof (ReadUint24BE_range data) as R1.
  pose proof (ReadUint24BE_range (drop 3 data)) as R2.
  pose proof (at8_range data 6) as R3.
  set (s1 := set_typeId _ _).
  assert (in_range s1) as Hs1 by (unfold in_range in *; cbn; lia).
  destruct (read_extended_total data 7 (ReadUint24BE data) s1) as [o E]. rewrite E. destruct o as [[[ts s2] used]|].
  - apply read_extended_Some in E as (Hts & Hu & Hl & ->); [|lia..].
    eexists _, used. split_and!; [done|lia|]. by apply restart_with_delta.
  - exists s1, 0. split_and!; [done|lia|]. split; [done|]. right. split_and!; auto. by intros [].
Qed.

Context (Hok : state_ok s).

Lemma header_fmt2 :
  exists s' used, parseMessageHeader data kChunkHeaderType2 s = (Done, s', used) /\
    used <= length data /\ header_post kChunkHeaderType2 s' used.
Proof using Hs Hinit Hok.
  unfold parseMessageHeader. cbn [Z.eqb kChunkHeaderType0 kChunkHeaderType1 kChunkHeaderType2].
  rewrite Hinit. cbn [negb].
  destruct (Nat.ltb_spec (length data) 3) as [|Hlen].
  { exists s, 0. split_and!; [done|lia|]. split; [done|]. right. split_and!; auto. by intros []. }
  rewrite (reads_ok 3) by lia.
  pose proof (ReadUint24BE_range data) as R1.
  destruct (read_extended_total data 3 (ReadUint24BE data) s) as [o E]. rewrite E. destruct o as [[[ts s2] used]|].
  - apply read_extended_Some in E as (Hts & Hu & Hl & ->); [|lia..].
    eexists _, used. split_and!; [done|lia|]. by apply restart_with_delta.
  - exists s, 0. split_and!; [done|lia|]. split; [done|]. right. split_and!; auto. by intros [].
Qed.

Lemma header_fmt3 :
  exists s' used, parseMessageHeader data kChunkHeaderType3 s = (Done, s', used) /\
    used <= length data /\ header_post kChunkHeaderType3 s' used.
Proof using Hs Hinit Hok.
  unfold parseMessageHeader.
  cbn [Z.eqb kChunkHeaderType0 kChunkHeaderType1 kChunkHeaderType2 kChunkHeaderType3].
  rewrite Hinit. cbn [negb]. set (s1 := if _ && _ then _ else s).
  assert (in_range s1 /\ ready s1) as [Hs1 Hr1].
  { subst s1. destruct ((cs_bytesRead s =? 0)%Z && (0 <? cs_messageLength s)%Z) eqn:E.
    - pose proof (u32_range (cs_timestamp s + cs_timestampDelta s)) as Ht. bool_hyps.
      unfold in_range, ready, assign_payload in *; cbn. rewrite length_replicate.
      split_and!; try done; lia.
    - split; [done|]. destruct (Hok Hinit) as [?|[H1 H2]]; [done|].
      unfold ready, in_range in *. rewrite H1, H2 in *. apply andb_false_iff in E.
      destruct E as [E|E]; bool_hyps; [done|]. split_and!; [done|lia|lia|]. cbn. lia. }
  destruct (cs_extendedTimestamp s1 =? 0)%Z eqn:E; cbn [negb]; bool_hyps.
  - exists s1, 0. split_and!; [done|lia|]. split; [done|]. left. auto.
  - destruct (Nat.ltb_spec (length data) 4).
    + exists s1, 0. split_and!; [done|lia|]. split; [done|]. right. split_and!; [done|tauto|].
      left. intros _. by left.
    + exists s1, 4. split_and!; [done|lia|]. split; [done|]. left. auto.
Qed.

End header_cases.

Lemma header_spec data fmt s :
  (0 <= fmt < 4)%Z -> in_range s ->
  (state_ok s \/ fmt = kChunkHeaderType0 \/ fmt = kChunkHeaderType1) ->
  (exists s' used, parseMessageHeader data fmt s = (Done, s', used) /\
     used <= length data /\ header_post fmt s' used) \/
  (exists m, parseMessageHeader data fmt s = (Failed m, s, 0)).
Proof.
  intros Hf Hs Hok.
  destruct (Z.eq_dec fmt 0) as [->|N0]; [left; by apply header_fmt0|].
  destruct (cs_headerInitialized s) eqn:Hi.
  - destruct (Z.eq_dec fmt 1) as [->|N1]; [left; by apply header_fmt1|].
    assert (state_ok s) as Hok' by (destruct Hok as [|[?|?]]; done).
    destruct (Z.eq_dec fmt 2) as [->|N2]; [left; by apply header_fmt2|].
    assert (fmt = 3)%Z as -> by lia. left; by apply header_fmt3.
  - right. eexists. unfold parseMessageHeader.
    rewrite (proj2 (Z.eqb_neq fmt kChunkHeaderType0)), Hi by done. done.
Qed.

(** ** One chunk *)

Definition others_ok (csid : Z) (p : t) : Prop :=
  forall c s, c <> csid -> chunkStreams_ p !! c = Some s -> in_range s /\ state_ok s.

Lemma inv_store csid s p data :
  (0 <= inChunkSize_ p)%Z -> others_ok csid p -> in_range s ->
  (state_ok s \/ replacing_head csid data) -> parser_inv (store_state csid s p) data.
Proof.
  intros Hn Ho Hs Hd. split; [done|]. intros c s'. cbn. rewrite lookup_insert_Some.
  intros [[<- <-]|[Hne Hc]]; [done|]. destruct (Ho c s') as [? ?]; auto.
Qed.

(** Where the buffer starts with a complete basic header for [csid], the other
    streams are consistent, and [csid] itself is unless its header replaces it. *)
Lemma inv_head p data fmt csid n :
  parser_inv p data -> parseBasicHeader data = Some (fmt, csid, n) -> n <> 0 ->
  others_ok csid p /\ in_range (stream_state csid p) /\
  (state_ok (stream_state csid p) \/ fmt = kChunkHeaderType0 \/ fmt = kChunkHeaderType1).
Proof.
  intros [_ Hinv] Hb Hn. split.
  - intros c s Hne Hc. destruct (Hinv _ _ Hc) as [Hr [Hok|(f & m & Hh & _)]]; [done|].
    rewrite Hb in Hh. by simplify_eq.
  - unfold stream_state. destruct (chunkStreams_ p !! csid) as [s|] eqn:E; cbn.
    + destruct (Hinv _ _ E) as [Hr [Hok|(f & m & Hh & _ & Hf)]]; [by auto|].
      rewrite Hb in Hh. simplify_eq. auto.
    + destruct initial_ok. auto.
Qed.

Section with_buffer.
Context {B : Type} `{ByteBufferLaws B}.

(** The relation between the arguments and the results of a parsing step. *)
Definition step_post (buf : B) (ms : list RtmpMessage)
    (r : status * t * B * list RtmpMessage) : Prop :=
  let '(st, p', buf', ms') := r in
  st <> OutOfBounds /\ buf_wf buf' /\ parser_inv p' (peek buf') /\ Forall msg_wf ms' /\
  (exists new, ms' = ms ++ new) /\
  (buf' = buf \/ exists n, 0 < n <= readableBytes buf /\ buf' = retrieve n buf).

Lemma readable_retrieve n (buf : B) :
  buf_wf buf -> readableBytes (retrieve n buf) = readableBytes buf - n.
Proof.
  intros Hw. rewrite !readable_peek, peek_retrieve by auto. apply length_drop.
Qed.

Lemma take_payload_spec csid offset s p (buf : B) ms :
  buf_wf buf -> (0 <= inChunkSize_ p)%Z -> others_ok csid p -> in_range s -> ready s ->
  (2 <= csid < 65600)%Z -> 0 < offset <= readableBytes buf -> Forall msg_wf ms ->
  step_post buf ms (take_payload csid offset s p buf ms).
Proof.
  intros Hw Hsz Ho Hr Hrd Hcsid Hoff Hms. unfold take_payload.
  pose proof Hrd as (Hi & Hb & Hl). pose proof Hr as (Ht & Hty & Hsid & Hml).
  rewrite u32_small by lia.
  set (c := Z.min (cs_messageLength s - cs_bytesRead s) (inChunkSize_ p)).
  assert (0 <= c <= cs_messageLength s - cs_bytesRead s)%Z as Hc by lia.
  destruct (Nat.ltb_spec (readableBytes buf) (offset + Z.to_nat c)) as [Hlt|Hge].
  { unfold step_post. split_and!; [done|done| |done|exists []; by rewrite app_nil_r|by left].
    apply inv_store; auto. left. intros _. by left. }
  rewrite readable_peek in Hge by done. rewrite reads_ok by done.
  assert (length (take (Z.to_nat c) (drop offset (peek buf))) = Z.to_nat c) as Htl by len_lia.
  rewrite copy_into_Some by lia. rewrite u32_small by lia.
  set (pl := take _ (cs_payload s) ++ _).
  assert (length pl = Z.to_nat (cs_messageLength s)) as Hpl by (subst pl; len_lia).
  cbn [cs_bytesRead cs_messageLength set_bytesRead set_payload].
  destruct (Z.eqb_spec (cs_bytesRead s + c) (cs_messageLength s)) as [Hfin|Hmore].
  - unfold step_post. split_and!; [done|auto| | | |].
    + apply inv_store; auto. left. intros _. right. done.
    + apply Forall_app. split; [done|]. constructor; [|done].
      unfold msg_wf; cbn. split_and!; lia.
    + by eexists.
    + right. exists (offset + Z.to_nat c). split; [|done]. rewrite readable_peek by done. lia.
  - unfold step_post. split_and!; [done|auto| |done|exists []; by rewrite app_nil_r|].
    + apply inv_store; auto. left. intros _. left.
      unfold ready; cbn. split_and!; [done|lia|lia|done].
    + right. exists (offset + Z.to_nat c). split; [|done]. rewrite readable_peek by done. lia.
Qed.

Lemma parseOneChunk_spec p (buf : B) ms :
  buf_wf buf -> parser_inv p (peek buf) -> Forall msg_wf ms ->
  step_post buf ms (parseOneChunk p buf ms).
Proof.
  intros Hw Hinv Hms. unfold parseOneChunk.
  destruct (basic_header_total (peek buf)) as [[[fmt csid] hs] Hb]. rewrite Hb.
  assert (forall p', parser_inv p' (peek buf) -> forall st, st <> OutOfBounds ->
            step_post buf ms (st, p', buf, ms)) as Hstay.
  { intros p' Hp' st Hst. unfold step_post. split_and!; auto. exists []. by rewrite app_nil_r. }
  destruct (Nat.eqb_spec hs 0) as [|Hhs]; [by apply Hstay|].
  destruct (basic_header_csid _ _ _ _ Hb Hhs) as [Hfmt Hcsid].
  destruct (inv_head _ _ _ _ _ Hinv Hb Hhs) as (Ho & Hr & Hok).
  pose proof (basic_header_size _ _ _ _ Hb) as Hsz.
  destruct (header_spec (drop hs (peek buf)) fmt (stream_state csid p) Hfmt Hr Hok)
    as [(s' & used & -> & Hu & Hr' & Hcase)|[m ->]].
  - destruct Hcase as [[Hrd Hgo]|(-> & Hno & Hd)].
    + pose proof Hrd as (Hi & _ & _). rewrite Hi. cbn [negb].
      assert ((used =? 0) && negb ((fmt =? kChunkHeaderType3)%Z && true &&
                (cs_extendedTimestamp s' =? 0)%Z) = false) as ->.
      { destruct Hgo as [Hgo|[-> ->]]; [by rewrite (proj2 (Nat.eqb_neq used 0))|].
        by rewrite andb_false_r. }
      apply take_payload_spec; try done; [by destruct Hinv|].
      rewrite readable_peek by done. lens. lia.
    + assert ((fmt =? kChunkHeaderType3)%Z && cs_headerInitialized s' &&
                (cs_extendedTimestamp s' =? 0)%Z = false) as ->.
      { destruct (_ && _) eqn:E; [|done]. bool_hyps. by destruct Hno. }
      cbn [Nat.eqb negb andb]. apply Hstay; [|done].
      apply inv_store; [by destruct Hinv|done|done|].
      destruct Hd as [Hd|Hd]; [by left|right]. by exists fmt, hs.
  - apply Hstay; [|done]. apply inv_store; [by destruct Hinv|done|done|].
    destruct Hok as [Hok|Hf]; [by left|right]. by exists fmt, hs.
Qed.

(** ** The loop and the deliveries *)

Lemma parse_fuel_spec fuel p (buf : B) ms :
  buf_wf buf -> parser_inv p (peek buf) -> Forall msg_wf ms -> readableBytes buf < fuel ->
  exists st p' buf' ms', parse_fuel fuel p buf ms = Some (st, p', buf', ms') /\
    st <> OutOfBounds /\ buf_wf buf' /\ parser_inv p' (peek buf') /\ Forall msg_wf ms' /\
    (exists new, ms' = ms ++ new) /\ (exists n, peek buf' = drop n (peek buf)).
Proof.
  revert p buf ms. induction fuel as [|fuel IH]; intros p buf ms Hw Hinv Hms Hf; [lia|].
  cbn [parse_fuel]. destruct (Nat.ltb_spec 0 (readableBytes buf)) as [Hpos|Hz].
  - pose proof (parseOneChunk_spec p buf ms Hw Hinv Hms) as Hs.
    destruct (parseOneChunk p buf ms) as [[[st p1] buf1] ms1].
    destruct Hs as (Hst & Hw1 & Hinv1 & Hms1 & [new ->] & Hbuf).
    assert (exists n, peek buf1 = drop n (peek buf)) as Hdrop.
    { destruct Hbuf as [->|(n & _ & ->)]; [by exists 0|]. exists n. by apply peek_retrieve. }
    destruct st as [|m|]; [|by eexists _, _, _, _; eauto 10|done].
    destruct (Nat.eqb_spec (readableBytes buf1) (readableBytes buf)) as [|Hne].
    { by eexists _, _, _, _; eauto 10. }
    destruct (IH p1 buf1 (ms ++ new)) as (st & p' & buf' & ms' & -> & ? & ? & ? & ? & [new' ->] & [n' Hn']).
    1-3: done.
    { destruct Hbuf as [->|(n & Hn & ->)]; [done|]. rewrite readable_retrieve in * by done. lia. }
    eexists _, _, _, _. split_and!; eauto.
    { exists (new ++ new'). by rewrite app_assoc. }
    destruct Hdrop as [n Hn]. exists (n + n'). by rewrite Hn', Hn, drop_drop.
  - eexists _, _, _, _. split_and!; eauto; [exists []; by rewrite app_nil_r|by exists 0].
Qed.

Lemma parse_spec p (buf : B) ms :
  buf_wf buf -> parser_inv p (peek buf) -> Forall msg_wf ms ->
  exists st p' buf' ms', parse p buf ms = Some (st, p', buf', ms') /\
    st <> OutOfBounds /\ buf_wf buf' /\ parser_inv p' (peek buf') /\ Forall msg_wf ms' /\
    (exists new, ms' = ms ++ new) /\ (exists n, peek buf' = drop n (peek buf)).
Proof. intros. apply parse_fuel_spec; auto. Qed.

Lemma parser_inv_append p data rest :
  parser_inv p data -> parser_inv p (data ++ rest).
Proof.
  intros [Hn Hs]. split; [done|]. intros c s Hc. destruct (Hs c s Hc) as [Hr [?|?]]; [by auto|].
  auto using replacing_head_app.
Qed.

(** The bytes the events deliver. *)
Definition delivered (evs : list event) : bytes :=
  evs ≫= (fun e => match e with Deliver data => data | ChunkSize _ => [] end).

(** What is [left] in the buffer is what [arrived] less the bytes consumed; a failed parse leaves the later deliveries unread. *)
Definition consumes (st : status) (arrived left : bytes) : Prop :=
  exists n seen, n <= length seen /\ left = drop n seen /\ seen `prefix_of` arrived /\
                 (st = Done -> seen = arrived).

Lemma consumes_drop n (all : bytes) : exists m, m <= length all /\ drop n all = drop m all.
Proof.
  exists (n `min` length all). split; [lia|].
  destruct (Nat.min_spec n (length all)) as [[? ->]|[? ->]]; [done|].
  by rewrite !drop_ge by lia.
Qed.

Lemma consumes_step st n data rest left :
  n <= length data -> consumes st (drop n data ++ rest) left -> consumes st (data ++ rest) left.
Proof.
  intros Hn (k & seen & Hk & -> & [later Hs] & Hd). exists (n + k), (take n data ++ seen).
  assert (length (take n data) = n) as Ht by len_lia.
  split_and!.
  - len_lia.
  - by rewrite drop_app_add'.
  - exists later. by rewrite <- (take_drop n data) at 1; rewrite <- !app_assoc, Hs.
  - intros E. by rewrite (Hd E), app_assoc, take_drop.
Qed.

Lemma deliveries_spec evs p (buf : B) ms :
  buf_wf buf -> parser_inv p (peek buf) -> Forall msg_wf ms ->
  Forall (fun e => match e with ChunkSize n => (0 <= n)%Z | Deliver _ => True end) evs ->
  exists st p' buf' ms', deliveries evs p buf ms = Some (st, p', buf', ms') /\
    st <> OutOfBounds /\ parser_inv p' (peek buf') /\ Forall msg_wf ms' /\
    consumes st (peek buf ++ delivered evs) (peek buf').
Proof.
  intros Hw Hinv Hms Hevs. revert p buf ms Hw Hinv Hms.
  induction Hevs as [|[data|n] evs He _ IH]; intros p buf ms Hw Hinv Hms; cbn [deliveries].
  - eexists _, _, _, _. split_and!; [done..|]. exists 0, (peek buf).
    cbn. rewrite app_nil_r. split_and!; [lia|done..].
  - destruct (parse_spec p (append data buf) ms) as (st & p1 & buf1 & ms1 & -> & ? & ? & ? & ? & _ & k0 & Hk0).
    { auto. }
    { rewrite peek_append by done. by apply parser_inv_append. }
    { done. }
    rewrite peek_append in Hk0 by done.
    destruct (consumes_drop k0 (peek buf ++ data)) as (k & Hk & E). rewrite E in Hk0.
    cbn [mbind option_bind delivered list_bind]. rewrite app_assoc. destruct st; [| |done].
    + destruct (IH p1 buf1 ms1) as (st & p' & buf' & ms' & -> & ? & ? & ? & Hc); [done..|].
      eexists _, _, _, _. split_and!; [done..|]. apply consumes_step with k; [done|].
      by rewrite <- Hk0.
    + eexists _, _, _, _. split_and!; [done..|]. exists k, (peek buf ++ data).
      split_and!; [done|done|by eexists|done].
  - apply IH; [done| |done]. destruct Hinv as [_ Hs]. split; [done|]. exact Hs.
Qed.

End with_buffer.

(** ** Independence of the buffer implementation

    On any lawful buffer the parser does what it does on the plain list of the
    readable bytes. *)

Definition abs_result {B} `{ByteBuffer B} (r : status * t * B * list RtmpMessage)
    : status * t * bytes * list RtmpMessage :=
  let '(st, p, buf, ms) := r in (st, p, peek buf, ms).

Definition wf_result {B} `{ByteBuffer B} (r : status * t * B * list RtmpMessage) : Prop :=
  let '(_, _, buf, _) := r in buf_wf buf.

Section simulation.
Context {B : Type} `{ByteBufferLaws B}.

Lemma take_payload_sim csid offset s p (buf : B) ms :
  buf_wf buf ->
  take_payload csid offset s p (peek buf) ms = abs_result (take_payload csid offset s p buf ms) /\
  wf_result (take_payload csid offset s p buf ms).
Proof.
  intros Hw. unfold take_payload. rewrite (readable_peek buf) by done.
  cbn [readableBytes peek retrieve queue_buffer].
  destruct (_ <? _); [done|]. unfold reads. destruct (_ <? _); [done|]. destruct (copy_into _ _ _); [|done].
  destruct (_ =? _)%Z; cbn; rewrite peek_retrieve by done; auto.
Qed.

Lemma parseOneChunk_sim p (buf : B) ms :
  buf_wf buf ->
  parseOneChunk p (peek buf) ms = abs_result (parseOneChunk p buf ms) /\
  wf_result (parseOneChunk p buf ms).
Proof.
  intros Hw. unfold parseOneChunk. cbn [peek queue_buffer].
  destruct (parseBasicHeader (peek buf)) as [[[fmt csid] hs]|]; [|done].
  destruct (hs =? 0); [done|].
  destruct (parseMessageHeader _ _ _) as [[[] s] used]; [|done|done].
  destruct (_ && _); [done|]. destruct (negb _); [done|]. by apply take_payload_sim.
Qed.

Lemma parse_fuel_sim fuel p (buf : B) ms :
  buf_wf buf ->
  parse_fuel fuel p (peek buf) ms = abs_result <$> parse_fuel fuel p buf ms /\
  (forall r, parse_fuel fuel p buf ms = Some r -> wf_result r).
Proof.
  revert p buf ms. induction fuel as [|fuel IH]; intros p buf ms Hw; [done|].
  cbn [parse_fuel]. rewrite (readable_peek buf) by done. cbn [readableBytes queue_buffer].
  destruct (0 <? length (peek buf)); [|split; [done|]; by intros ? [= <-]].
  destruct (parseOneChunk_sim p buf ms Hw) as [-> Hw1].
  destruct (parseOneChunk p buf ms) as [[[st p1] buf1] ms1]. cbn [abs_result].
  destruct st; [|split; [done|]; by intros ? [= <-]..].
  rewrite (readable_peek buf1) by done. cbn [readableBytes queue_buffer].
  destruct (_ =? _); [split; [done|]; by intros ? [= <-]|]. by apply IH.
Qed.

Lemma parse_sim p (buf : B) ms :
  buf_wf buf ->
  parse p (peek buf) ms = abs_result <$> parse p buf ms /\
  (forall r, parse p buf ms = Some r -> wf_result r).
Proof.
  intros Hw. unfold parse. rewrite (readable_peek buf) by done. by apply parse_fuel_sim.
Qed.

Lemma deliveries_sim evs p (buf : B) ms :
  buf_wf buf -> deliveries evs p (peek buf) ms = abs_result <$> deliveries evs p buf ms.
Proof.
  revert p buf ms. induction evs as [|[data|n] evs IH]; intros p buf ms Hw; cbn [deliveries].
  - done.
  - change (append data (peek buf)) with (peek buf ++ data).
    rewrite <- peek_append by done.
    destruct (parse_sim p (append data buf) ms) as [-> Hw']; [auto|].
    destruct (parse p (append data buf) ms) as [[[[st p1] buf1] ms1]|]; cbn; [|done].
    destruct st; [|done..]. apply IH. exact (Hw' _ eq_refl).
  - by apply IH.
Qed.

End simulation.

(** ** Properties *)

(** C35 Memory safety and totality of the chunk parser under every sequence of
    deliveries and chunk-size changes from a new connection: each call returns; no
    read of the headers or of a chunk's payload leaves the readable bytes and the
    copy never leaves the message's payload buffer ([OutOfBounds] is not reached);
    the parser's invariant holds of what is left; every message handed on has a
    payload of the announced length and fields within their widths; and what is
    left in the buffer is exactly what arrived less the bytes consumed, unless a
    failed parse ended the run before the later deliveries. *)
Theorem parser_memory_safe {B : Type} `{ByteBufferLaws B} (events : list event) (buf : B) :
  buf_wf buf ->
  Forall (fun e => match e with ChunkSize n => (0 <= n)%Z | Deliver _ => True end) events ->
  exists st p' buf' ms', deliveries events initial buf [] = Some (st, p', buf', ms') /\
    st <> OutOfBounds /\ parser_inv p' (peek buf') /\ Forall msg_wf ms' /\
    consumes st (peek buf ++ delivered events) (peek buf').
Proof. intros Hw He. apply deliveries_spec; auto. apply parser_inv_initial. Qed.

Lemma parser_memory_safe_witness :
  exists st p' buf' ms',
    deliveries [ChunkSize 0; Deliver (str "garbage"); Deliver [chr 3; chr 0]; ChunkSize 5]
      initial ([] : bytes) [] = Some (st, p', buf', ms') /\
    st <> OutOfBounds /\ parser_inv p' (peek buf') /\ Forall msg_wf ms' /\
    consumes st (peek [] ++ delivered [ChunkSize 0; Deliver (str "garbage");
                                       Deliver [chr 3; chr 0]; ChunkSize 5]) (peek buf').
Proof.
  apply (parser_memory_safe (B := bytes)
           [ChunkSize 0; Deliver (str "garbage"); Deliver [chr 3; chr 0]; ChunkSize 5] []).
  - exact I.
  - repeat constructor; lia.
Defined.
