(* ===== verification/ChunkRoundtrip.v ===== *)
(** * The chunk parser inverts the chunk writer, however the stream is cut

    A stream written by RtmpChunkWriter::EncodeMessage for a sequence of
    messages, delivered to RtmpChunkParser::parse in arbitrary segments, yields
    exactly those messages.  The proof follows the stream chunk by chunk. *)

From S2P Require Import Prelude Bytes ByteBuffer RtmpTypes ChunkWriter ChunkParser.
From S2P Require Import ChunkParserFacts.
Import RtmpChunkParser RtmpChunkWriter.

(** ** The basic header *)

Definition basic_header (fmt csid : Z) : bytes := appendBasicHeader [] fmt csid.

Lemma basic_header_app_out out fmt csid :
  appendBasicHeader out fmt csid = out ++ basic_header fmt csid.
Proof.
  unfold basic_header, appendBasicHeader, push_back.
  destruct (csid <? 64)%Z; [done|]. destruct (csid <? 320)%Z; by rewrite <- !app_assoc.
Qed.

Lemma lor_shift6 fmt c : (0 <= fmt)%Z -> (0 <= c < 64)%Z -> Z.lor (Z.shiftl fmt 6) c = (fmt * 64 + c)%Z.
Proof.
  intros Hf Hc. rewrite Z.shiftl_mul_pow2 by lia. change (2 ^ 6)%Z with 64%Z.
  rewrite <- Z.add_lor_land. rewrite (Z.bits_inj' (Z.land (fmt * 64) c) 0); [lia|].
  intros i Hi. rewrite Z.land_spec, Z.bits_0. change 64%Z with (2 ^ 6)%Z.
  destruct (Z.ltb_spec i 6).
  - by rewrite Z.mul_pow2_bits_low.
  - rewrite andb_false_iff; right. destruct (Z.eq_dec c 0) as [->|]; [apply Z.bits_0|].
    apply Z.bits_above_log2; [lia|]. apply Z.log2_lt_pow2; [lia|].
    apply Z.lt_le_trans with (2 ^ 6)%Z; [lia|]. apply Z.pow_le_mono_r; lia.
Qed.

Lemma first_byte fmt c rest :
  (0 <= fmt < 4)%Z -> (0 <= c < 64)%Z ->
  Z.shiftr (at8 (chr (fmt * 64 + c) :: rest) 0) 6 = fmt /\
  Z.land (at8 (chr (fmt * 64 + c) :: rest) 0) 0x3F = c.
Proof.
  intros Hf Hc. unfold at8. cbn [lookup_total list_lookup_total].
  rewrite unsigned_chr_small by lia.
  rewrite Z.shiftr_div_pow2 by lia. change 0x3F%Z with (Z.ones 6). rewrite Z.land_ones by lia.
  change (2 ^ 6)%Z with 64%Z. split.
  - symmetry. apply Z.div_unique with c; lia.
  - symmetry. apply Z.mod_unique with fmt; lia.
Qed.

(** The three forms of a written basic header. *)
Lemma basic_header_forms fmt csid :
  (0 <= fmt < 4)%Z -> (2 <= csid < 65600)%Z ->
  ((csid < 64)%Z /\ basic_header fmt csid = [chr (fmt * 64 + csid)]) \/
  ((64 <= csid < 320)%Z /\ basic_header fmt csid = [chr (fmt * 64 + 0); chr (csid - 64)]) \/
  ((320 <= csid)%Z /\ basic_header fmt csid =
     [chr (fmt * 64 + 1); chr ((csid - 64) mod 256); chr ((csid - 64) / 256)]).
Proof.
  intros Hf Hc. unfold basic_header, appendBasicHeader, push_back. cbn [app].
  destruct (Z.ltb_spec csid 64); [left; split; [done|]; by rewrite lor_shift6 by lia|right].
  destruct (Z.ltb_spec csid 320); [left; split; [lia|]|right; split; [lia|]].
  - rewrite Z.shiftl_mul_pow2 by lia. change (2 ^ 6)%Z with 64%Z. by rewrite Z.add_0_r.
  - rewrite lor_shift6 by lia. change 0xFF%Z with (Z.ones 8).
    rewrite !Z.land_ones, Z.shiftr_div_pow2 by lia. change (2 ^ 8)%Z with 256%Z.
    rewrite (Z.mod_small ((csid - 64) / 256)); [done|].
    split; [apply Z.div_pos; lia|apply Z.div_lt_upper_bound; lia].
Qed.

Lemma basic_header_length fmt csid :
  (0 <= fmt < 4)%Z -> (2 <= csid < 65600)%Z -> 1 <= length (basic_header fmt csid) <= 3.
Proof.
  intros Hf Hc. by destruct (basic_header_forms fmt csid Hf Hc) as [[_ ->]|[[_ ->]|[_ ->]]]; cbn; lia.
Qed.

Lemma parse_basic_header fmt csid rest :
  (0 <= fmt < 4)%Z -> (2 <= csid < 65600)%Z ->
  parseBasicHeader (basic_header fmt csid ++ rest) = Some (fmt, csid, length (basic_header fmt csid)).
Proof.
  intros Hf Hc. unfold parseBasicHeader, reads.
  destruct (basic_header_forms fmt csid Hf Hc) as [[Hr ->]|[[Hr ->]|[Hr ->]]]; cbn [app length].
  - destruct (first_byte fmt csid rest Hf) as [-> ->]; [lia|]. cbn [Nat.ltb Nat.leb].
    by rewrite (proj2 (Z.leb_le 2 csid)) by lia.
  - destruct (first_byte fmt 0 (chr (csid - 64) :: rest) Hf) as [-> ->]; [lia|].
    cbn [Nat.ltb Nat.leb Z.leb Z.eqb Z.compare].
    unfold at8. cbn [lookup_total list_lookup_total]. rewrite unsigned_chr_small by lia.
    do 3 f_equal. lia.
  - match goal with |- context [chr (fmt * 64 + 1) :: ?r] =>
      destruct (first_byte fmt 1 r Hf) as [-> ->]; [lia|] end.
    cbn [Nat.ltb Nat.leb Z.leb Z.eqb Z.compare].
    unfold at8. cbn [lookup_total list_lookup_total].
    pose proof (Z.mod_pos_bound (csid - 64) 256 ltac:(lia)).
    assert (0 <= (csid - 64) / 256 < 256)%Z
      by (split; [apply Z.div_pos; lia|apply Z.div_lt_upper_bound; lia]).
    rewrite !unsigned_chr_small by lia. rewrite Z.shiftl_mul_pow2 by lia.
    pose proof (Z.div_mod (csid - 64) 256 ltac:(lia)). do 3 f_equal. lia.
Qed.

(** An incomplete basic header is left alone. *)
Lemma parse_basic_header_short fmt csid data tail :
  (0 <= fmt < 4)%Z -> (2 <= csid < 65600)%Z ->
  basic_header fmt csid = data ++ tail -> tail <> [] ->
  exists f c, parseBasicHeader data = Some (f, c, 0).
Proof.
  intros Hf Hc Hd Ht. destruct data as [|b0 data]; [by exists 0%Z, 0%Z|].
  unfold parseBasicHeader, reads.
  destruct (basic_header_forms fmt csid Hf Hc) as [[Hr Hb]|[[Hr Hb]|[Hr Hb]]];
    rewrite Hb in Hd; destruct data as [|b1 [|b2 data]]; simplify_eq/=.
  - destruct (first_byte fmt 0 [] Hf) as [-> ->]; [lia|]. cbn. eauto.
  - destruct (first_byte fmt 1 [] Hf) as [-> ->]; [lia|]. cbn. eauto.
  - match goal with |- context [at8 (chr (fmt * 64 + 1) :: ?r)] =>
      destruct (first_byte fmt 1 r Hf) as [-> ->]; [lia|] end. cbn. eauto.
  - by destruct data, tail.
Qed.

(** ** The message header *)

Definition message_header (m : RtmpMessage) : bytes := appendMessageHeader [] m.

Lemma message_header_app_out out m :
  appendMessageHeader out m = out ++ message_header m.
Proof.
  unfold message_header, appendMessageHeader, push_back, appendUint24BE, appendUint32LE,
    appendUint32BE.
  destruct (0x00FFFFFF <=? timestamp m)%Z; by rewrite <- !app_assoc.
Qed.

Definition extended (m : RtmpMessage) : bool := (0x00FFFFFF <=? timestamp m)%Z.

Lemma message_header_eq m :
  message_header m =
  appendUint24BE (Z.min (timestamp m) 0x00FFFFFF) [] ++ appendUint24BE (messageLength m) [] ++
  [chr (typeId m)] ++ appendUint32LE (messageStreamId m) [] ++
  (if extended m then appendUint32BE (timestamp m) [] else []).
Proof.
  unfold message_header, appendMessageHeader, push_back, extended.
  destruct (0x00FFFFFF <=? timestamp m)%Z; done.
Qed.

Lemma message_header_length m :
  length (message_header m) = if extended m then 15 else 11.
Proof. rewrite message_header_eq. by destruct (extended m). Qed.

(** The state of the chunk stream right after the fmt-0 header of [m], and after
    [off] bytes of its payload. *)
Definition mid_state (m : RtmpMessage) (off : nat) : ChunkStreamState :=
  mkState (timestamp m) 0 (if extended m then timestamp m else 0) (messageLength m) (typeId m)
    (messageStreamId m) (Z.of_nat off)
    (take off (payload m) ++ replicate (length (payload m) - off) Byte.x00) true.

Definition end_state (m : RtmpMessage) : ChunkStreamState :=
  set_payload (set_bytesRead (mid_state m 0) 0) [].

(** Reading back the fields of a written header. *)
Lemma header_fields m rest :
  msg_wf m ->
  let d := message_header m ++ rest in
  ReadUint24BE d = Z.min (timestamp m) 0x00FFFFFF /\
  ReadUint24BE (drop 3 d) = messageLength m /\ at8 d 6 = typeId m /\
  ReadUint32LE (drop 7 d) = messageStreamId m /\
  (extended m = true -> ReadUint32BE (drop 11 d) = timestamp m).
Proof.
  intros (Ht & Hty & Hs & Hc & Hl & Hl2) d. subst d. rewrite message_header_eq, <- !app_assoc.
  rewrite read_write_24BE, Z.mod_small by lia.
  split; [done|]. rewrite drop_app_exact by done.
  rewrite read_write_24BE, Z.mod_small by lia. split; [done|].
  change 6%nat with (length (appendUint24BE (Z.min (timestamp m) 0x00FFFFFF) [] ++
                             appendUint24BE (messageLength m) [])).
  split.
  { rewrite (app_assoc (appendUint24BE _ [])), at8_app_r0. unfold at8.
    cbn [app lookup_total list_lookup_total]. by apply unsigned_chr_small. }
  split.
  { rewrite !(app_assoc (appendUint24BE _ [])), (app_assoc _ [_]), drop_app_exact by done.
    by rewrite read_write_32LE, Z.mod_small by lia. }
  intros ->. rewrite !(app_assoc (appendUint24BE _ [])), (app_assoc _ [_]), (app_assoc _ (appendUint32LE _ [])).
  rewrite drop_app_exact by done. by rewrite read_write_32BE, Z.mod_small by lia.
Qed.

Lemma parse_message_header m s rest :
  msg_wf m ->
  parseMessageHeader (message_header m ++ rest) kChunkHeaderType0 s =
  (Done, mid_state m 0, length (message_header m)).
Proof.
  intros Hm. destruct (header_fields m rest Hm) as (H1 & H2 & H3 & H4 & H5).
  destruct Hm as (Ht & Hty & Hs & Hc & Hl & Hl2).
  pose proof (message_header_length m) as Hlen.
  unfold parseMessageHeader. cbn [Z.eqb kChunkHeaderType0].
  rewrite H1, H2, H3, H4. unfold read_extended, reads.
  rewrite length_app, Hlen. unfold mid_state, extended in *.
  destruct (Z.leb_spec 0x00FFFFFF (timestamp m)) as [He|He].
  - rewrite Z.min_r by lia. rewrite H5 by done.
    rewrite !(proj2 (Nat.ltb_ge _ _)) by lia. cbn [Z.eqb Pos.eqb].
    unfold restart_message, assign_payload. cbn. by rewrite Hl, Nat2Z.id, Nat.sub_0_r.
  - rewrite Z.min_l by lia. rewrite (proj2 (Z.eqb_neq (timestamp m) 0x00FFFFFF)) by lia.
    rewrite !(proj2 (Nat.ltb_ge _ _)) by lia.
    unfold restart_message, assign_payload. cbn. by rewrite Hl, Nat2Z.id, Nat.sub_0_r.
Qed.

(** An incomplete fmt-0 header takes nothing and does not fail. *)
Lemma parse_message_header_short m s data tail :
  msg_wf m -> message_header m = data ++ tail -> tail <> [] ->
  exists s', parseMessageHeader data kChunkHeaderType0 s = (Done, s', 0).
Proof.
  intros Hm Hd Ht. pose proof (message_header_length m) as Hlen.
  destruct (header_fields m [] Hm) as (H1 & _). rewrite app_nil_r in H1.
  apply not_nil_length in Ht. rewrite Hd in Hlen, H1. rewrite length_app in Hlen.
  unfold parseMessageHeader. cbn [Z.eqb kChunkHeaderType0].
  destruct (Nat.ltb_spec (length data) 11) as [|H11]; [by eexists|].
  unfold extended in Hlen. destruct (Z.leb_spec 0x00FFFFFF (timestamp m)); [|lia].
  rewrite ReadUint24BE_app in H1 by lia. rewrite Z.min_r in H1 by lia.
  rewrite reads_ok by lia. unfold read_extended. rewrite H1, (proj2 (Nat.ltb_lt (length data) (11 + 4))) by lia. by eexists.
Qed.

(** ** The chunks of a message *)

(** The piece of payload carried by the chunk that starts at offset [off]. *)
Definition piece_len (m : RtmpMessage) (size : Z) (off : nat) : nat :=
  Nat.min (length (payload m) - off) (Z.to_nat size).

Definition piece (m : RtmpMessage) (size : Z) (off : nat) : bytes :=
  take (piece_len m size off) (drop off (payload m)).

(** The bytes of the continuation chunks from offset [off] on. *)
Fixpoint rest_fuel (fuel : nat) (m : RtmpMessage) (size : Z) (off : nat) : bytes :=
  match fuel with
  | O => []
  | S fuel =>
      if off <? length (payload m)
      then basic_header 3 (chunkStreamId m) ++ piece m size off ++
           rest_fuel fuel m size (off + piece_len m size off)
      else []
  end.

Definition rest (m : RtmpMessage) (size : Z) (off : nat) : bytes :=
  rest_fuel (S (length (payload m) - off)) m size off.

Lemma piece_length m size off : length (piece m size off) = piece_len m size off.
Proof. unfold piece, piece_len. len_lia. Qed.

Lemma piece_progress m size off :
  (0 < size)%Z -> off < length (payload m) ->
  0 < piece_len m size off /\ off + piece_len m size off <= length (payload m).
Proof. unfold piece_len. lia. Qed.

Lemma rest_fuel_enough f1 f2 m size off :
  (0 < size)%Z -> length (payload m) - off < f1 -> length (payload m) - off < f2 ->
  rest_fuel f1 m size off = rest_fuel f2 m size off.
Proof.
  intros Hs. revert f2 off. induction f1 as [|f1 IH]; intros [|f2] off H1 H2; [lia..|].
  cbn [rest_fuel]. destruct (Nat.ltb_spec off (length (payload m))) as [Hlt|]; [|done].
  destruct (piece_progress m size off Hs Hlt). do 2 f_equal. apply IH; lia.
Qed.

Lemma rest_step m size off :
  (0 < size)%Z -> off < length (payload m) ->
  rest m size off = basic_header 3 (chunkStreamId m) ++ piece m size off ++
                    rest m size (off + piece_len m size off).
Proof.
  intros Hs Hlt. unfold rest at 1. cbn [rest_fuel].
  rewrite (proj2 (Nat.ltb_lt _ _)) by done. do 2 f_equal.
  destruct (piece_progress m size off Hs Hlt). apply rest_fuel_enough; [done|lia|lia].
Qed.

Lemma rest_end m size : rest m size (length (payload m)) = [].
Proof. unfold rest. cbn [rest_fuel]. by rewrite Nat.ltb_irrefl. Qed.

Lemma piece_len_end m size : piece_len m size (length (payload m)) = 0.
Proof. unfold piece_len. lia. Qed.

Lemma piece_end m size : piece m size (length (payload m)) = [].
Proof. unfold piece. by rewrite piece_len_end. Qed.

(** The loop of the writer produces these chunks. *)
Lemma chunk_loop_spec fuel m size off out :
  (0 < size)%Z -> off <= length (payload m) -> length (payload m) - off < fuel ->
  chunk_loop fuel m size off out =
  Some (out ++ piece m size off ++ rest m size (off + piece_len m size off)).
Proof.
  intros Hs. revert off out. induction fuel as [|fuel IH]; intros off out Hoff Hf; [lia|].
  cbn [chunk_loop]. fold (piece_len m size off). fold (piece m size off).
  destruct (Nat.ltb_spec off (length (payload m))) as [Hlt|Hge].
  - destruct (piece_progress m size off Hs Hlt) as [Hp1 Hp2].
    rewrite IH by lia. f_equal.
    destruct (Nat.ltb_spec (off + piece_len m size off) (length (payload m))) as [Hmore|Hend].
    + rewrite basic_header_app_out, (rest_step m size (off + _)), <- !app_assoc by done. done.
    + replace (off + piece_len m size off) with (length (payload m)) by lia.
      by rewrite piece_end, piece_len_end, Nat.add_0_r, rest_end, !app_nil_r.
  - assert (off = length (payload m)) as -> by lia.
    by rewrite piece_end, piece_len_end, Nat.add_0_r, rest_end, !app_nil_r.
Qed.

Definition first_chunk (m : RtmpMessage) (size : Z) : bytes :=
  basic_header 0 (chunkStreamId m) ++ message_header m ++ piece m size 0.

Lemma encode_fuel_eq fuel m size :
  (0 < size)%Z -> length (payload m) < fuel ->
  EncodeMessage_fuel fuel m size = Some (first_chunk m size ++ rest m size (piece_len m size 0)).
Proof.
  intros Hs Hf. unfold EncodeMessage_fuel. rewrite chunk_loop_spec by lia.
  unfold first_chunk. rewrite message_header_app_out.
  fold (basic_header 0 (chunkStreamId m)). by rewrite <- !app_assoc.
Qed.

Lemma encode_eq m size :
  (0 < size)%Z -> EncodeMessage m size = first_chunk m size ++ rest m size (piece_len m size 0).
Proof. intros Hs. unfold EncodeMessage. by rewrite encode_fuel_eq by lia. Qed.

(** A prefix of [a ++ b] ends inside [a] or goes beyond it. *)
Lemma prefix_cases (a b data tail : bytes) :
  a ++ b = data ++ tail ->
  (exists t', a = data ++ t' /\ t' <> []) \/
  (exists d', data = a ++ d' /\ b = d' ++ tail).
Proof.
  intros H. destruct (decide (length data < length a)) as [Hlt|Hge].
  - left. exists (drop (length data) a). split.
    + rewrite <- (take_drop (length data) a) at 1. f_equal.
      apply (f_equal (take (length data))) in H.
      rewrite take_app_le in H by lia. by rewrite take_app_length in H.
    + apply drop_nonempty_length. lia.
  - right. exists (drop (length a) data). split.
    + rewrite <- (take_drop (length a) data) at 1. f_equal.
      apply (f_equal (take (length a))) in H.
      rewrite take_app_length, take_app_le in H by lia. done.
    + apply (f_equal (drop (length a))) in H.
      rewrite drop_app_length, drop_app_le in H by lia. done.
Qed.

(** ** Parsing one chunk of a written message *)

Section parse_chunk.
Context (size : Z) (Hsize : (0 < size)%Z).
Context (m : RtmpMessage) (Hm : msg_wf m).
Implicit Types (p : t) (r data tail : bytes) (acc : list RtmpMessage).

Local Abbreviation csid := (chunkStreamId m).
Local Abbreviation len := (length (payload m)).

(** The state after the chunk that ends at offset [off], and what it emits. *)
Definition state_at (off : nat) : ChunkStreamState :=
  if off =? len then end_state m else mid_state m off.
Definition emitted (off : nat) : list RtmpMessage := if off =? len then [m] else [].

Lemma chunk_amount off p :
  inChunkSize_ p = size -> off <= len ->
  Z.min (u32 (cs_messageLength (mid_state m off) - cs_bytesRead (mid_state m off)))
        (inChunkSize_ p) = Z.of_nat (piece_len m size off).
Proof using Hsize Hm.
  intros -> Hoff. destruct Hm as (_ & _ & _ & _ & Hl & Hl2). cbn.
  rewrite u32_small by lia. unfold piece_len. lia.
Qed.

Lemma take_payload_full p off hdr r acc :
  inChunkSize_ p = size -> off <= len ->
  take_payload csid (length hdr) (mid_state m off) p (hdr ++ piece m size off ++ r) acc =
  (Done, store_state csid (state_at (off + piece_len m size off)) p, r,
   acc ++ emitted (off + piece_len m size off)).
Proof using Hsize Hm.
  intros Hp Hoff. unfold take_payload. cbn [peek readableBytes retrieve queue_buffer].
  rewrite (chunk_amount off p Hp Hoff), Nat2Z.id.
  pose proof (piece_length m size off) as Hpl.
  destruct Hm as (_ & _ & _ & _ & Hl & Hl2).
  assert (off + piece_len m size off <= len) as Hle by (unfold piece_len; lia).
  destruct (Nat.ltb_spec (length (hdr ++ piece m size off ++ r))
              (length hdr + piece_len m size off)) as [Hlt|Hge]; [lens; lia|]. rewrite reads_ok by done.
  rewrite (drop_app_exact hdr), (take_app_exact (piece m size off)) by done.
  cbn [cs_payload cs_bytesRead mid_state]. rewrite Nat2Z.id.
  rewrite copy_into_Some by (lens; lia).
  assert (take off (take off (payload m) ++ replicate (len - off) Byte.x00) ++
          piece m size off ++
          drop (off + length (piece m size off))
            (take off (payload m) ++ replicate (len - off) Byte.x00) =
          take (off + piece_len m size off) (payload m) ++
          replicate (len - (off + piece_len m size off)) Byte.x00) as ->.
  { rewrite take_app_exact by len_lia. rewrite Hpl.
    rewrite <- (take_drop_add (payload m) off). unfold piece. rewrite <- app_assoc.
    do 2 f_equal. rewrite drop_app_ge by len_lia. rewrite drop_replicate. f_equal. len_lia. }
  rewrite u32_small by lia. rewrite app_assoc, drop_app_exact by len_lia.
  cbn [cs_bytesRead cs_messageLength set_bytesRead set_payload mid_state].
  unfold state_at, emitted.
  destruct (Nat.eqb_spec (off + piece_len m size off) len) as [Hfin|Hmore].
  - rewrite Hfin, (proj2 (Z.eqb_eq _ _)) by lia. cbn.
    rewrite take_ge, Nat.sub_diag, app_nil_r by lia. by destruct m.
  - rewrite (proj2 (Z.eqb_neq _ _)) by lia. rewrite app_nil_r, <- Nat2Z.inj_add. done.
Qed.

Lemma take_payload_short p off n data acc :
  inChunkSize_ p = size -> off <= len -> length data < n + piece_len m size off ->
  take_payload csid n (mid_state m off) p data acc =
  (Done, store_state csid (mid_state m off) p, data, acc).
Proof using Hsize Hm.
  intros Hp Hoff Hlt. unfold take_payload. cbn [peek readableBytes queue_buffer].
  rewrite (chunk_amount off p Hp Hoff), Nat2Z.id.
  by rewrite (proj2 (Nat.ltb_lt _ _)).
Qed.

Lemma csid_range : (2 <= csid < 65600)%Z.
Proof using Hm. destruct Hm as (_ & _ & _ & ? & _). done. Qed.

Lemma first_full p r acc :
  inChunkSize_ p = size ->
  parseOneChunk p (first_chunk m size ++ r) acc =
  (Done, store_state csid (state_at (piece_len m size 0)) p, r, acc ++ emitted (piece_len m size 0)).
Proof using Hsize Hm.
  intros Hp. unfold parseOneChunk, first_chunk. cbn [peek queue_buffer].
  rewrite <- !app_assoc, parse_basic_header by (lia || apply csid_range).
  destruct (basic_header_length 0 csid ltac:(lia) csid_range) as [Hb _].
  rewrite (proj2 (Nat.eqb_neq _ 0)) by lia. rewrite drop_app_exact by done.
  rewrite parse_message_header by done.
  rewrite (proj2 (Nat.eqb_neq (length (message_header m)) 0))
    by (rewrite message_header_length; destruct (extended m); lia).
  cbn [andb negb cs_headerInitialized mid_state].
  rewrite <- length_app, (app_assoc (basic_header _ _)).
  rewrite take_payload_full by (done || lia). done.
Qed.

Lemma first_short p data tail acc :
  inChunkSize_ p = size -> first_chunk m size = data ++ tail -> tail <> [] ->
  exists p', parseOneChunk p data acc = (Done, p', data, acc) /\ inChunkSize_ p' = size.
Proof using Hsize Hm.
  intros Hp Hd Ht. unfold parseOneChunk. cbn [peek queue_buffer].
  pose proof csid_range as Hc.
  destruct (prefix_cases _ _ _ _ Hd) as [(t' & Hb & Ht')|(d' & -> & Hr)].
  { destruct (parse_basic_header_short 0 csid data t') as (f & c & ->); [lia|done..|].
    exists p. done. }
  rewrite parse_basic_header by (lia || done).
  destruct (basic_header_length 0 csid ltac:(lia) Hc) as [Hbl _].
  rewrite (proj2 (Nat.eqb_neq _ 0)) by lia. rewrite drop_app_exact by done.
  destruct (prefix_cases _ _ _ _ Hr) as [(t' & Hb & Ht')|(d'' & -> & Hr')].
  { destruct (parse_message_header_short m (stream_state csid p) d' t' Hm Hb Ht') as [s' Hs'].
    change kChunkHeaderType0 with 0%Z in Hs'. rewrite Hs'.
    cbn [Nat.eqb andb negb Z.eqb kChunkHeaderType3]. by eexists. }
  rewrite parse_message_header by done.
  rewrite (proj2 (Nat.eqb_neq (length (message_header m)) 0))
    by (rewrite message_header_length; destruct (extended m); lia).
  cbn [andb negb cs_headerInitialized mid_state].
  rewrite take_payload_short; [by eexists|done|lia|].
  pose proof (piece_length m size 0) as Hpl. apply not_nil_length in Ht.
  rewrite Hr' in Hpl. lens. lia.
Qed.

Lemma fmt3_header off data :
  0 < off -> extended m = false ->
  parseMessageHeader data kChunkHeaderType3 (mid_state m off) = (Done, mid_state m off, 0).
Proof using.
  intros Hoff He. unfold parseMessageHeader, mid_state. rewrite He.
  cbn [Z.eqb kChunkHeaderType0 kChunkHeaderType1 kChunkHeaderType2 kChunkHeaderType3
       cs_headerInitialized negb cs_bytesRead cs_messageLength].
  rewrite (proj2 (Z.eqb_neq (Z.of_nat off) 0)) by lia. done.
Qed.

Definition next_chunk (off : nat) : bytes := basic_header 3 csid ++ piece m size off.

Lemma next_full p off r acc :
  inChunkSize_ p = size -> stream_state csid p = mid_state m off -> 0 < off < len ->
  extended m = false ->
  parseOneChunk p (next_chunk off ++ r) acc =
  (Done, store_state csid (state_at (off + piece_len m size off)) p, r,
   acc ++ emitted (off + piece_len m size off)).
Proof using Hsize Hm.
  intros Hp Hst Hoff He. unfold parseOneChunk, next_chunk. cbn [peek queue_buffer].
  rewrite <- !app_assoc, parse_basic_header by (lia || apply csid_range).
  destruct (basic_header_length 3 csid ltac:(lia) csid_range) as [Hb _].
  rewrite (proj2 (Nat.eqb_neq _ 0)) by lia. rewrite drop_app_exact by done.
  rewrite Hst. change 3%Z with kChunkHeaderType3. rewrite fmt3_header by (done || lia).
  unfold mid_state at 1 2 3. rewrite He.
  cbn [Nat.eqb andb negb Z.eqb kChunkHeaderType3 cs_headerInitialized cs_extendedTimestamp Pos.eqb].
  rewrite Nat.add_0_r. apply take_payload_full; [done|lia].
Qed.

Lemma next_short p off data tail acc :
  inChunkSize_ p = size -> stream_state csid p = mid_state m off -> 0 < off < len ->
  extended m = false -> next_chunk off = data ++ tail -> tail <> [] ->
  exists p', parseOneChunk p data acc = (Done, p', data, acc) /\
             inChunkSize_ p' = size /\ stream_state csid p' = mid_state m off.
Proof using Hsize Hm.
  intros Hp Hst Hoff He Hd Ht. unfold parseOneChunk. cbn [peek queue_buffer].
  pose proof csid_range as Hc.
  destruct (prefix_cases _ _ _ _ Hd) as [(t' & Hb & Ht')|(d' & -> & Hr)].
  { destruct (parse_basic_header_short 3 csid data t') as (f & c & ->); [lia|done..|].
    exists p. done. }
  rewrite parse_basic_header by (lia || done).
  destruct (basic_header_length 3 csid ltac:(lia) Hc) as [Hbl _].
  rewrite (proj2 (Nat.eqb_neq _ 0)) by lia. rewrite drop_app_exact by done.
  rewrite Hst. change 3%Z with kChunkHeaderType3. rewrite fmt3_header by (done || lia).
  unfold mid_state at 1 2 3. rewrite He.
  cbn [Nat.eqb andb negb Z.eqb kChunkHeaderType3 cs_headerInitialized cs_extendedTimestamp Pos.eqb].
  rewrite take_payload_short; [|done|lia|].
  - eexists; split_and!; [done|done|]. unfold stream_state, store_state; cbn.
    by rewrite lookup_insert_eq.
  - pose proof (piece_length m size off) as Hpl. apply not_nil_length in Ht.
    rewrite Hr in Hpl. lens. lia.
Qed.

End parse_chunk.

(** ** Parsing a whole stream, segment by segment *)

Section stream.
Context (size : Z) (Hsize : (0 < size)%Z).

(** What the writer's format can carry back: an extended timestamp only in a
    message of one chunk (see [extended_multichunk_lost] for the others). *)
Definition writer_ok (m : RtmpMessage) : Prop :=
  msg_wf m /\ (extended m = false \/ (Z.of_nat (length (payload m)) <= size)%Z).

(** Where the parser stands in the stream: between two messages, or in message
    [m] with [off] payload bytes read, at a chunk boundary. *)
Inductive cursor := AtMessage | InMessage (m : RtmpMessage) (off : nat).

Definition stream (ms : list RtmpMessage) : bytes :=
  concat (map (fun m => EncodeMessage m size) ms).

Definition wire (c : cursor) (ms : list RtmpMessage) : bytes :=
  match c with AtMessage => [] | InMessage m off => rest m size off end ++ stream ms.

Definition pending (c : cursor) (ms : list RtmpMessage) : list RtmpMessage :=
  match c with AtMessage => ms | InMessage m _ => m :: ms end.

Definition matches (c : cursor) (p : t) : Prop :=
  inChunkSize_ p = size /\
  match c with
  | AtMessage => True
  | InMessage m off =>
      stream_state (chunkStreamId m) p = mid_state m off /\ 0 < off < length (payload m) /\
      extended m = false /\ msg_wf m
  end.

Definition cursor_at (m : RtmpMessage) (off : nat) : cursor :=
  if off =? length (payload m) then AtMessage else InMessage m off.

(** The next chunk of the stream, what it emits and where it leads; the parser
    consumes it when it is complete and otherwise waits. *)
Definition next_is (c : cursor) (ms : list RtmpMessage) (ck : bytes) (c' : cursor)
    (ms' out : list RtmpMessage) : Prop :=
  ck <> [] /\ wire c ms = ck ++ wire c' ms' /\ pending c ms = out ++ pending c' ms' /\
  Forall writer_ok ms' /\
  (forall p r acc, matches c p ->
     exists p', parseOneChunk p (ck ++ r) acc = (Done, p', r, acc ++ out) /\ matches c' p') /\
  (forall p data tail acc, matches c p -> ck = data ++ tail -> tail <> [] ->
     exists p', parseOneChunk p data acc = (Done, p', data, acc) /\ matches c p').

Lemma chunk_nonempty fmt m l :
  (0 <= fmt < 4)%Z -> msg_wf m -> basic_header fmt (chunkStreamId m) ++ l <> [].
Proof.
  intros Hf (_ & _ & _ & Hc & _). pose proof (basic_header_length fmt _ Hf Hc).
  destruct (basic_header fmt (chunkStreamId m)); [cbn in *; lia|done].
Qed.

Lemma matches_store p m off :
  inChunkSize_ p = size -> msg_wf m -> 0 < off <= length (payload m) ->
  (off < length (payload m) -> extended m = false) ->
  matches (cursor_at m off) (store_state (chunkStreamId m) (state_at m off) p).
Proof using.
  intros Hp Hm Hoff He. unfold cursor_at, state_at, matches. split; [done|].
  destruct (Nat.eqb_spec off (length (payload m))); [done|]. split_and!; [|lia|lia|auto with lia|done].
  unfold stream_state, store_state; cbn. by rewrite lookup_insert_eq.
Qed.

Lemma wire_cursor_at m off ms :
  wire (cursor_at m off) ms = rest m size off ++ stream ms.
Proof using.
  unfold cursor_at. destruct (Nat.eqb_spec off (length (payload m))) as [->|]; [|done].
  by rewrite rest_end.
Qed.

Lemma pending_cursor_at m off ms :
  m :: ms = emitted m off ++ pending (cursor_at m off) ms.
Proof using. unfold cursor_at, emitted. by destruct (off =? length (payload m)). Qed.

Lemma next_at_message m ms :
  writer_ok m -> Forall writer_ok ms ->
  next_is AtMessage (m :: ms) (first_chunk m size) (cursor_at m (piece_len m size 0)) ms
    (emitted m (piece_len m size 0)).
Proof using Hsize.
  intros [Hm He] Hms. unfold next_is. split_and!.
  - apply chunk_nonempty; [lia|done].
  - rewrite wire_cursor_at. unfold wire, stream; cbn [map concat app]. rewrite encode_eq by done.
    by rewrite <- app_assoc.
  - apply pending_cursor_at.
  - done.
  - intros p r acc [Hp _]. eexists. split; [by apply first_full|].
    destruct (decide (length (payload m) = 0)) as [E|Hne].
    + unfold cursor_at, state_at, piece_len. rewrite E. cbn. done.
    + apply matches_store; [done|done|unfold piece_len; lia|].
      unfold piece_len. intros Hlt. destruct He as [|Hle]; [done|lia].
  - intros p data tail acc [Hp _] Hd Ht.
    destruct (first_short size Hsize m Hm p data tail acc Hp Hd Ht) as (p' & ? & ?). by exists p'.
Qed.

Lemma next_in_message m off ms p0 :
  matches (InMessage m off) p0 -> Forall writer_ok ms ->
  next_is (InMessage m off) ms (next_chunk size m off) (cursor_at m (off + piece_len m size off))
    ms (emitted m (off + piece_len m size off)).
Proof using Hsize.
  intros (_ & _ & Hoff & He & Hm) Hms.
  destruct (piece_progress m size off Hsize) as [Hp1 Hp2]; [lia|]. unfold next_is. split_and!.
  - apply chunk_nonempty; [lia|done].
  - rewrite wire_cursor_at. unfold wire, next_chunk. rewrite (rest_step m size off) by (done || lia).
    by rewrite <- !app_assoc.
  - apply pending_cursor_at.
  - done.
  - intros p r acc (Hp & Hst & _). eexists. split; [by apply next_full|].
    apply matches_store; [done|done|lia|done].
  - intros p data tail acc (Hp & Hst & _) Hd Ht.
    destruct (next_short size Hsize m Hm p off data tail acc Hp Hst Hoff He Hd Ht)
      as (p' & ? & ? & ?). by exists p'.
Qed.

Lemma next_exists c ms p :
  matches c p -> Forall writer_ok ms ->
  (c = AtMessage /\ ms = []) \/ exists ck c' ms' out, next_is c ms ck c' ms' out.
Proof using Hsize.
  intros Hc Hms. destruct c as [|m off].
  - destruct ms as [|m ms]; [by left|right]. inversion Hms; subst.
    eexists _, _, _, _. by apply next_at_message.
  - right. eexists _, _, _, _. by eapply next_in_message.
Qed.

Lemma parse_stream fuel c ms p data tail acc :
  data ++ tail = wire c ms -> matches c p -> Forall writer_ok ms -> length data < fuel ->
  exists c' ms' p' data' out,
    parse_fuel fuel p data acc = Some (Done, p', data', acc ++ out) /\ matches c' p' /\
    data' ++ tail = wire c' ms' /\ pending c ms = out ++ pending c' ms' /\
    Forall writer_ok ms' /\ (tail = [] -> data' = [] /\ pending c' ms' = []).
Proof using Hsize.
  revert c ms p data acc. induction fuel as [|fuel IH]; intros c ms p data acc Hd Hc Hms Hf; [lia|].
  cbn [parse_fuel readableBytes queue_buffer].
  destruct (next_exists c ms p Hc Hms) as [[-> ->]|(ck & c1 & ms1 & out1 & Hnext)].
  { apply app_eq_nil in Hd as [-> ->]. exists AtMessage, [], p, [], []. by rewrite app_nil_r. }
  destruct Hnext as (Hck & Hw & Hpend & Hms1 & Hfull & Hshort).
  rewrite Hw in Hd. symmetry in Hd.
  destruct (prefix_cases _ _ _ _ Hd) as [(t' & Hpre & Ht')|(d' & -> & Hr)].
  - assert (tail <> []) as Htl.
    { intros ->. apply (f_equal length) in Hd. apply not_nil_length in Ht'.
      rewrite Hpre in Hd. lens. lia. }
    destruct (Nat.ltb_spec 0 (length data)) as [Hpos|Hz].
    + destruct (Hshort p data t' acc Hc Hpre Ht') as (p' & -> & Hc'). rewrite Nat.eqb_refl.
      exists c, ms, p', data, []. rewrite app_nil_r, Hw. split_and!; done.
    + exists c, ms, p, data, []. rewrite app_nil_r, Hw. split_and!; done.
  - apply not_nil_length in Hck.
    destruct (Nat.ltb_spec 0 (length (ck ++ d'))) as [_|Hz]; [|lens; lia].
    destruct (Hfull p d' acc Hc) as (p1 & -> & Hc1).
    rewrite (proj2 (Nat.eqb_neq _ _)) by (lens; lia).
    destruct (IH c1 ms1 p1 d' (acc ++ out1)) as (c' & ms' & p' & data' & out & -> & ? & ? & Hp' & ? & ?);
      [done|done|done|lens; lia|].
    exists c', ms', p', data', (out1 ++ out). rewrite <- app_assoc. split_and!; try done.
    rewrite Hpend, Hp'. by rewrite app_assoc.
Qed.

Lemma deliveries_stream segs c ms p data acc :
  data ++ concat segs = wire c ms -> matches c p -> Forall writer_ok ms ->
  (segs = [] -> data = [] /\ pending c ms = []) ->
  exists p', deliveries (map Deliver segs) p data acc = Some (Done, p', [], acc ++ pending c ms).
Proof using Hsize.
  revert c ms p data acc. induction segs as [|seg segs IH]; intros c ms p data acc Hd Hc Hms Hnil.
  - destruct Hnil as [-> ->]; [done|]. exists p. by rewrite app_nil_r.
  - cbn [map deliveries concat] in *. unfold parse. rewrite app_assoc in Hd.
    destruct (parse_stream (S (readableBytes (append seg data))) c ms p (append seg data)
                (concat segs) acc) as (c' & ms' & p' & data' & out & -> & Hc' & Hd' & Hp & Hms' & Hend);
      [done|done|done|cbn; lia|].
    cbn. destruct (IH c' ms' p' data' (acc ++ out) Hd' Hc' Hms') as [p'' ->].
    + intros ->. by apply Hend.
    + exists p''. by rewrite Hp, app_assoc.
Qed.

End stream.

(** ** Messages the format loses *)

Lemma fmt3_header_extended m off data :
  0 < off -> extended m = true ->
  parseMessageHeader data kChunkHeaderType3 (mid_state m off) =
  (Done, mid_state m off, if length data <? 4 then 0 else 4).
Proof.
  intros Hoff He. unfold parseMessageHeader, mid_state. rewrite He.
  cbn [Z.eqb kChunkHeaderType0 kChunkHeaderType1 kChunkHeaderType2 kChunkHeaderType3
       cs_headerInitialized negb cs_bytesRead cs_messageLength].
  rewrite (proj2 (Z.eqb_neq (Z.of_nat off) 0)) by lia. cbn [andb cs_extendedTimestamp].
  unfold extended in He. apply Z.leb_le in He.
  rewrite (proj2 (Z.eqb_neq (timestamp m) 0)) by lia. cbn [negb].
  by destruct (length data <? 4).
Qed.

(** The parser waits for an extended timestamp that the writer did not write. *)
Lemma next_stalls size m p off acc :
  (0 < size)%Z -> msg_wf m -> inChunkSize_ p = size ->
  stream_state (chunkStreamId m) p = mid_state m off -> 0 < off < length (payload m) ->
  extended m = true -> off + piece_len m size off = length (payload m) ->
  exists p', parseOneChunk p (next_chunk size m off) acc = (Done, p', next_chunk size m off, acc).
Proof.
  intros Hs Hm Hp Hst Hoff He Hlast. unfold parseOneChunk, next_chunk. cbn [peek queue_buffer].
  pose proof (csid_range m Hm) as Hc.
  rewrite parse_basic_header by (lia || done).
  destruct (basic_header_length 3 (chunkStreamId m) ltac:(lia) Hc) as [Hbl _].
  rewrite (proj2 (Nat.eqb_neq _ 0)) by lia. rewrite drop_app_exact by done.
  rewrite Hst. change 3%Z with kChunkHeaderType3. rewrite fmt3_header_extended by (done || lia).
  assert ((cs_extendedTimestamp (mid_state m off) =? 0)%Z = false) as Hext.
  { unfold mid_state; cbn. rewrite He. unfold extended in He. apply Z.leb_le in He.
    apply Z.eqb_neq. lia. }
  rewrite Hext, andb_false_r. cbn [negb]. rewrite andb_true_r.
  destruct (length (piece m size off) <? 4); cbn [Nat.eqb]; [by eexists|].
  cbn [negb cs_headerInitialized mid_state].
  change (mkState _ _ _ _ _ _ _ _ _) with (mid_state m off).
  rewrite (take_payload_short size Hs m Hm); [by eexists|done|lia|].
  rewrite length_app, piece_length. lia.
Qed.

(** The run over any buffer, through the simulation by the queue. *)
Lemma deliver_stream {B : Type} `{ByteBufferLaws B}
    (size : Z) (ms : list RtmpMessage) (segments : list bytes) (p : t) (buf : B) :
  (0 < size)%Z -> Forall (writer_ok size) ms -> inChunkSize_ p = size ->
  buf_wf buf -> peek buf = [] -> concat segments = stream size ms ->
  exists p' buf', deliveries (map Deliver segments) p buf [] = Some (Done, p', buf', ms) /\
                  peek buf' = [].
Proof.
  intros Hs Hms Hp Hw Hnil Hseg.
  destruct (deliveries_stream size Hs segments AtMessage ms p [] []) as [p' Hd].
  - done.
  - done.
  - done.
  - intros ->. split; [done|]. cbn in Hseg |- *. destruct ms as [|m ms]; [done|exfalso].
    inversion Hms as [|? ? [Hm _] _]; subst. unfold stream in Hseg; cbn [map concat] in Hseg.
    rewrite encode_eq in Hseg by done. unfold first_chunk in Hseg. rewrite <- !app_assoc in Hseg.
    destruct (chunk_nonempty 0 m (message_header m ++ piece m (inChunkSize_ p) 0 ++
      rest m (inChunkSize_ p) (piece_len m (inChunkSize_ p) 0) ++
      concat (map (fun m => EncodeMessage m (inChunkSize_ p)) ms))); [lia|done|done].
  - pose proof (deliveries_sim (map Deliver segments) p buf [] Hw) as Hsim.
    rewrite Hnil, Hd in Hsim.
    destruct (deliveries (map Deliver segments) p buf []) as [[[[st p1] buf1] ms1]|]; [|done].
    cbn in Hsim. injection Hsim as <- <- Hb <-. by exists p', buf1.
Qed.

(** ** Properties *)

(** C4 Round trip under any segmentation: a stream that RtmpChunkWriter writes
    for a sequence of messages (any chunk ids, any lengths, chunk size [size] on
    both sides), each with fields in the range of the format and in one chunk if
    its timestamp needs the extended field ([writer_ok]; the others are lost, see
    [extended_multichunk_lost]), cut into segments in any way and delivered to the
    connection one segment at a time, yields exactly these messages in order and
    leaves the buffer empty, whatever the parser's other chunk streams hold and
    whichever lawful buffer is used. *)
Theorem chunk_stream_roundtrip {B : Type} `{ByteBufferLaws B}
    (size : Z) (ms : list RtmpMessage) (segments : list bytes) (p : t) (buf : B) :
  (0 < size)%Z -> Forall (writer_ok size) ms -> inChunkSize_ p = size ->
  buf_wf buf -> peek buf = [] -> concat segments = stream size ms ->
  exists p' buf', deliveries (map Deliver segments) p buf [] = Some (Done, p', buf', ms) /\
                  peek buf' = [].
Proof. intros Hs Hms Hp Hw Hnil Hseg. by apply deliver_stream with size. Qed.

Definition sample_message : RtmpMessage :=
  mkMessage 40 10 kMessageTypeVideo 1 70 (str "0123456789").

Lemma chunk_stream_roundtrip_witness :
  let ms := [sample_message; sample_message] in
  let s := stream 4 ms in
  exists p' buf', deliveries (map Deliver [take 7 s; take 20 (drop 7 s); drop 27 s])
                    (setInChunkSize 4 initial) ([] : bytes) [] = Some (Done, p', buf', ms) /\
                  peek buf' = [].
Proof.
  intros ms s. apply (chunk_stream_roundtrip 4 ms); [lia| |done|done|done|].
  - assert (writer_ok 4 sample_message) as Hm by (split; [unfold msg_wf; cbn; unfold kMessageTypeVideo; lia|by left]).
    repeat (apply Forall_cons; split); done.
  - vm_compute. reflexivity.
Defined.

(** Termination of the writer: [EncodeMessage] returns exactly when the chunk
    size is positive or there is no payload; with chunk size 0 and a payload its
    loop never ends. *)
Theorem encode_terminates_iff (m : RtmpMessage) (size : Z) :
  (exists fuel out, EncodeMessage_fuel fuel m size = Some out) <->
  (0 < size)%Z \/ payload m = [].
Proof.
  split.
  - intros (fuel & out & Hf). destruct (Z.ltb_spec 0 size); [by left|right].
    unfold EncodeMessage_fuel in Hf. revert Hf. generalize (appendMessageHeader
      (appendBasicHeader [] 0 (chunkStreamId m)) m).
    induction fuel as [|fuel IH]; intros o Hf; [done|]. cbn [chunk_loop] in Hf.
    destruct (Nat.ltb_spec 0 (length (payload m))) as [Hpos|Hz]; [|by apply nil_length_inv; lia].
    replace (Z.to_nat size) with 0 in Hf by lia. rewrite Nat.min_0_r in Hf. by eapply IH.
  - intros [Hs|Hp].
    + eexists _, _. apply (encode_fuel_eq (S (length (payload m)))); [done|lia].
    + exists 1. unfold EncodeMessage_fuel. cbn. rewrite Hp. by eexists.
Qed.

(** A message of two chunks with a timestamp of 0xFFFFFF or more does not
    survive: the writer puts the extended timestamp into the first chunk only,
    the parser expects it in the continuation chunk too and waits for four bytes
    that never come, so the message is not delivered and the last chunk stays in
    the buffer. *)
Theorem extended_multichunk_lost (size : Z) (m : RtmpMessage) (p : t) :
  (0 < size)%Z -> msg_wf m -> inChunkSize_ p = size -> (0x00FFFFFF <= timestamp m)%Z ->
  (size < Z.of_nat (length (payload m)) <= 2 * size)%Z ->
  exists p' last, parse p (EncodeMessage m size) [] = Some (Done, p', last, []) /\ last <> [].
Proof.
  intros Hs Hm Hp Ht Hlen.
  assert (extended m = true) as He by (apply Z.leb_le; lia).
  assert (piece_len m size 0 = Z.to_nat size) as Hpl by (unfold piece_len; lia).
  pose proof (chunk_nonempty 3 m (piece m size (piece_len m size 0)) ltac:(lia) Hm) as Hne.
  rewrite encode_eq, rest_step by lia.
  replace (piece_len m size 0 + piece_len m size (piece_len m size 0))
    with (length (payload m)) by (unfold piece_len; lia).
  rewrite rest_end, app_nil_r. fold (next_chunk size m (piece_len m size 0)) in Hne |- *.
  unfold parse. cbn [readableBytes queue_buffer parse_fuel].
  pose proof (chunk_nonempty 0 m (message_header m ++ piece m size 0) ltac:(lia) Hm) as Hne0.
  change (first_chunk m size <> []) in Hne0. apply not_nil_length in Hne, Hne0.
  rewrite (proj2 (Nat.ltb_lt 0 _)) by (lens; lia). rewrite first_full by done.
  rewrite (proj2 (Nat.eqb_neq _ _)) by (lens; lia).
  replace (length (first_chunk m size ++ next_chunk size m (piece_len m size 0)))
    with (S (pred (length (first_chunk m size ++ next_chunk size m (piece_len m size 0)))))
    by (lens; lia).
  cbn [parse_fuel readableBytes queue_buffer]. rewrite (proj2 (Nat.ltb_lt 0 _)) by lia.
  unfold emitted, state_at. rewrite (proj2 (Nat.eqb_neq (piece_len m size 0) _)) by lia.
  destruct (next_stalls size m (store_state (chunkStreamId m) (mid_state m (piece_len m size 0)) p)
              (piece_len m size 0) ([] ++ [])) as [p' ->]; try done; try lia.
  - unfold stream_state, store_state; cbn. by rewrite lookup_insert_eq.
  - unfold piece_len. lia.
  - rewrite Nat.eqb_refl. eexists _, _. split; [done|]. by apply not_nil_length.
Qed.

Lemma extended_multichunk_lost_witness :
  let m := mkMessage 0x01000000 10 kMessageTypeVideo 1 6 (str "0123456789") in
  exists p' last, parse (setInChunkSize 8 initial) (EncodeMessage m 8) [] =
                  Some (Done, p', last, []) /\ last <> [].
Proof.
  intros m. apply (extended_multichunk_lost 8 m); [lia| |done|done|cbn; lia].
  unfold msg_wf; cbn; unfold kMessageTypeVideo; lia.
Defined.

(** The parser is not incremental for chunks that carry a timestamp delta:
    the same bytes give another timestamp when they arrive in two segments,
    because the delta is added again each time the chunk is found incomplete. *)
Theorem timestamp_depends_on_segmentation :
  exists s1 s2 : list bytes, concat s1 = concat s2 /\
    (forall p b ms, deliveries (map Deliver s1) initial ([] : bytes) [] = Some (Done, p, b, ms) ->
       map timestamp ms = [100; 140]%Z) /\
    (forall p b ms, deliveries (map Deliver s2) initial ([] : bytes) [] = Some (Done, p, b, ms) ->
       map timestamp ms = [100; 180]%Z) /\
    is_Some (deliveries (map Deliver s1) initial ([] : bytes) []) /\
    is_Some (deliveries (map Deliver s2) initial ([] : bytes) []).
Proof.
  set (first := EncodeMessage (mkMessage 100 2 kMessageTypeVideo 1 6 (str "ab")) 128).
  set (second := [chr 0x46] ++ appendUint24BE 40 [] ++ appendUint24BE 2 [] ++ [chr 9] ++ str "cd").
  exists [first ++ second], [first ++ take 9 second; drop 9 second].
  split; [reflexivity|]. split; [|split; [|split]].
  - intros p b ms H. vm_compute in H. injection H as <- <- <-. reflexivity.
  - intros p b ms H. vm_compute in H. injection H as <- <- <-. reflexivity.
  - vm_compute. by eexists.
  - vm_compute. by eexists.
Qed.
