(* ===== verification/RtmpHandshake.v ===== *)
(** * src/rtmp/RtmpHandshake.h, src/rtmp/RtmpHandshake.cc

    The server side of the RTMP handshake, which consumes the connection's
    buffer incrementally, and what it promises: its state and its answer depend
    on the bytes received so far and not on how they were cut into segments. *)

From S2P Require Import Prelude Bytes ByteBuffer RtmpTypes.

Module RtmpHandshake.

Definition kHandshakePacketSize : nat := Z.to_nat 1536.
Definition kC0C1Size : nat := 1 + kHandshakePacketSize.

(** [state_ = HandshakeState::kWaitC0C1] *)
Definition initial : HandshakeState := kWaitC0C1.

Definition isDone (state_ : HandshakeState) : bool := bool_decide (state_ = kHandshakeDone).

(** [rd i] is what the [i]-th call of [std::random_device] returns; the loop
    stores one byte of each. *)
Definition fill_random (rd : nat -> Z) (response : bytes) : bytes :=
  foldl (fun r i => <[9 + i := chr (rd i)]> r) response (seq 0 (kHandshakePacketSize - 8)).

(** [std::fill(response.begin() + first, response.begin() + last, '\0')] and
    [std::copy] write inside the resized string; [copy_into] checks it. *)
Definition buildS0S1S2 (rd : nat -> Z) (c1 : bytes) : option bytes :=
  let response := replicate (1 + kHandshakePacketSize + kHandshakePacketSize) Byte.x00 in
  let response := <[0 := chr kVersion]> response in
  response ← copy_into response 1 (replicate 8 Byte.x00);
  let response := fill_random rd response in
  copy_into response (1 + kHandshakePacketSize) (take kHandshakePacketSize c1).

(** [Done] is [return true], [Failed] is [return false] with the message. *)
Inductive status := Done | Failed (error_message : String.string) | OutOfBounds.

#[export] Instance status_eq_dec : EqDecision status.
Proof. solve_decision. Defined.

Section process.
Context {B : Type} `{ByteBuffer B} (rd : nat -> Z).

(** The [while (true)] loop of [process]. *)
Fixpoint process_fuel (fuel : nat) (state_ : HandshakeState) (buf : B) (response : bytes)
    : option (status * HandshakeState * B * bytes) :=
  match fuel with
  | O => None
  | S fuel =>
    if decide (state_ = kWaitC0C1) then
      if readableBytes buf <? kC0C1Size then Some (Done, state_, buf, response)
      else
        let data := peek buf in
        if negb (at8 data 0 =? kVersion)%Z
        then Some (Failed "unsupported rtmp version", state_, buf, response)
        else
          match buildS0S1S2 rd (drop 1 data) with
          | None => Some (OutOfBounds, state_, buf, response)
          | Some packet =>
              process_fuel fuel kWaitC2 (retrieve kC0C1Size buf) (response ++ packet)
          end
    else if decide (state_ = kWaitC2) then
      if readableBytes buf <? kHandshakePacketSize then Some (Done, state_, buf, response)
      else Some (Done, kHandshakeDone, retrieve kHandshakePacketSize buf, response)
    else Some (Done, state_, buf, response)
  end.

(** At most one [continue]: two iterations are enough ([process_spec]). *)
Definition process (state_ : HandshakeState) (buf : B) (response : bytes)
    : option (status * HandshakeState * B * bytes) :=
  process_fuel 2 state_ buf response.

(** Segments arrive one by one and [process] runs after each
    (RtmpConnection::onMessage); a failure ends the connection.  [sent] is all
    that was answered. *)
Fixpoint feed (segments : list bytes) (state_ : HandshakeState) (buf : B) (sent : bytes)
    : option (status * HandshakeState * B * bytes) :=
  match segments with
  | [] => Some (Done, state_, buf, sent)
  | seg :: segments' =>
      '(st, state1, buf1, response) ← process state_ (append seg buf) [];
      match st with
      | Done => feed segments' state1 buf1 (sent ++ response)
      | _ => Some (st, state1, buf1, sent ++ response)
      end
  end.

End process.

(** ** Specification *)

(** The answer: S0, S1 (time 0, zeros, random bytes) and S2, the echo of C1. *)
Definition packet (rd : nat -> Z) (c1 : bytes) : bytes :=
  [chr kVersion] ++ replicate 8 Byte.x00 ++
  ((fun i => chr (rd i)) <$> seq 0 (kHandshakePacketSize - 8)) ++ take kHandshakePacketSize c1.

(** What the server has to have answered, its state and the bytes left, after
    the bytes [total] came in. *)
Definition handshake_spec (rd : nat -> Z) (total : bytes)
    : status * HandshakeState * bytes * bytes :=
  if length total <? kC0C1Size then (Done, kWaitC0C1, total, [])
  else if negb (at8 total 0 =? kVersion)%Z
  then (Failed "unsupported rtmp version", kWaitC0C1, total, [])
  else if length total <? kC0C1Size + kHandshakePacketSize
  then (Done, kWaitC2, drop kC0C1Size total, packet rd (drop 1 total))
  else (Done, kHandshakeDone, drop (kC0C1Size + kHandshakePacketSize) total,
        packet rd (drop 1 total)).

(** ** Lemmas *)

Section lemmas.
Context (rd : nat -> Z).

Lemma foldl_store (f : nat -> byte) k n (r : bytes) :
  9 + k + n <= length r ->
  foldl (fun r i => <[9 + i := f i]> r) r (seq k n) =
  take (9 + k) r ++ (f <$> seq k n) ++ drop (9 + k + n) r.
Proof.
  revert k r. induction n as [|n IH]; intros k r Hr.
  - cbn [seq foldl fmap list_fmap app]. by rewrite Nat.add_0_r, take_drop.
  - cbn [seq foldl]. rewrite IH by (lens; lia). rewrite fmap_cons.
    rewrite drop_insert_lt by lia.
    replace (9 + S k) with (S (9 + k)) by lia. erewrite take_S_r.
    2: { apply list_lookup_insert_eq. lia. }
    rewrite take_insert_ge by lia. rewrite <- app_assoc. cbn [app].
    do 4 f_equal. lia.
Qed.

Lemma buildS0S1S2_packet c1 :
  kHandshakePacketSize <= length c1 -> buildS0S1S2 rd c1 = Some (packet rd c1).
Proof.
  unfold buildS0S1S2, packet, fill_random.
  assert (8 < kHandshakePacketSize) as Hk by (unfold kHandshakePacketSize; lia).
  generalize dependent kHandshakePacketSize. intros k Hk Hc.
  set (head := chr kVersion :: replicate 8 Byte.x00).
  set (random := (fun i => chr (rd i)) <$> seq 0 (k - 8)).
  assert (length random = k - 8) as Hrandom by (unfold random; lens; by rewrite length_seq).
  rewrite copy_into_Some by len_lia. cbn [mbind option_bind].
  replace (_ ++ _ ++ _) with (head ++ replicate (k + k - 8) Byte.x00).
  2: { cbn [Nat.add replicate insert list_insert take]. rewrite take_0. cbn [app drop].
       cbn [length]. by rewrite drop_replicate. }
  transitivity (Some (head ++ random ++ take k c1)); [|done].
  assert (length head = 9) as Hhead by done. clearbody head.
  rewrite foldl_store by len_lia. fold random. clearbody random.
  rewrite take_app_exact by lia. rewrite drop_app_ge by lia. rewrite drop_replicate.
  rewrite copy_into_Some by len_lia.
  rewrite !(app_assoc head random). rewrite take_app_exact by len_lia.
  rewrite drop_empty by len_lia. by rewrite app_nil_r.
Qed.

Lemma packet_app c1 more :
  kHandshakePacketSize <= length c1 -> packet rd (c1 ++ more) = packet rd c1.
Proof. intros Hc. unfold packet. by rewrite take_app_le. Qed.

Context {B : Type} `{ByteBufferLaws B}.

(** The state, the buffer and the answer so far are those of [total]. *)
Definition agrees (total : bytes) (r : status * HandshakeState * B * bytes) : Prop :=
  let '(st, state_, buf, sent) := r in
  buf_wf buf /\ handshake_spec rd total = (st, state_, peek buf, sent).

(** One call of [process] takes a state that agrees with the bytes received to
    one that agrees with these and the new segment. *)
Lemma process_spec total state_ buf sent seg :
  agrees total (Done, state_, buf, sent) ->
  exists st state1 buf1 response,
    process rd state_ (append seg buf) [] = Some (st, state1, buf1, response) /\
    agrees (total ++ seg) (st, state1, buf1, sent ++ response).
Proof.
  intros [Hw Hs]. unfold process, agrees, handshake_spec in *. lens.
  assert (peek (append seg buf) = peek buf ++ seg) as Hp by by apply peek_append.
  assert (buf_wf (append seg buf)) as Hw' by auto.
  pose proof (readable_peek _ Hw') as Hr. rewrite Hp in Hr. lens.
  assert (0 < kC0C1Size /\ kHandshakePacketSize < kC0C1Size) as [Hz Hk] by (unfold kC0C1Size; lia).
  destruct (Nat.ltb_spec (length total) kC0C1Size) as [Hshort|Hlong].
  - injection Hs as <- Hbuf <-. rewrite <- Hbuf in *. cbn [process_fuel]. rewrite decide_True by done. rewrite Hr, Hp.
    destruct (Nat.ltb_spec (length total + length seg) kC0C1Size).
    { eexists _, _, _, _. split; [done|]. by rewrite Hp. }
    destruct (at8 (total ++ seg) 0 =? kVersion)%Z; cbn [negb].
    2: { eexists _, _, _, _. split; [done|]. by rewrite Hp. }
    rewrite buildS0S1S2_packet by (unfold kC0C1Size in *; len_lia).
    rewrite decide_False, decide_True by done.
    rewrite readable_peek, peek_retrieve, Hp by auto. lens.
    destruct (Nat.ltb_spec (length total + length seg) (kC0C1Size + kHandshakePacketSize));
      [rewrite (proj2 (Nat.ltb_lt _ _)) by lia | rewrite (proj2 (Nat.ltb_ge _ _)) by lia];
      eexists _, _, _, _; (split; [done|]); (split; [by auto|]);
      rewrite ?peek_retrieve, Hp, ?drop_drop by auto; done.
  - destruct (at8 total 0 =? kVersion)%Z eqn:Hv; cbn [negb] in Hs; [|done].
    rewrite (proj2 (Nat.ltb_ge (length total + length seg) kC0C1Size)) by lia.
    rewrite at8_app by lia. rewrite Hv. cbn [negb].
    replace (packet rd (drop 1 (total ++ seg))) with (packet rd (drop 1 total)).
    2: { rewrite drop_app_le by lia. symmetry. apply packet_app. unfold kC0C1Size in *. len_lia. }
    destruct (Nat.ltb_spec (length total) (kC0C1Size + kHandshakePacketSize)).
    + injection Hs as <- Hbuf <-. cbn [process_fuel]. rewrite decide_False, decide_True by done.
      rewrite Hr, <- Hbuf. lens.
      destruct (Nat.ltb_spec (length total + length seg) (kC0C1Size + kHandshakePacketSize));
        [rewrite (proj2 (Nat.ltb_lt _ _)) by lia | rewrite (proj2 (Nat.ltb_ge _ _)) by lia];
        eexists _, _, _, _; (split; [done|]); (split; [by auto|]);
        rewrite ?peek_retrieve, Hp, <- Hbuf, ?app_nil_r by auto.
      * by rewrite drop_app_le by lia.
      * rewrite <- (drop_app_le _ seg) by lia. by rewrite drop_drop.
    + injection Hs as <- Hbuf <-. cbn [process_fuel]. rewrite !decide_False by done.
      rewrite (proj2 (Nat.ltb_ge _ _)) by lia.
      eexists _, _, _, _. split; [done|]. split; [by auto|].
      rewrite Hp, <- Hbuf, app_nil_r. by rewrite drop_app_le by lia.
Qed.

(** From any state, [process] returns and does not leave the buffer. *)
Lemma process_safe state_ buf response :
  buf_wf buf ->
  exists st state1 buf1 response1,
    process rd state_ buf response = Some (st, state1, buf1, response1) /\
    st <> OutOfBounds /\ buf_wf buf1.
Proof.
  intros Hw. unfold process. cbn [process_fuel].
  assert (kHandshakePacketSize < kC0C1Size) as Hk by (unfold kC0C1Size; lia).
  destruct (decide (state_ = kWaitC0C1)).
  - destruct (Nat.ltb_spec (readableBytes buf) kC0C1Size); [by eexists _, _, _, _|].
    destruct (negb _); [by eexists _, _, _, _|].
    rewrite readable_peek in * by done.
    rewrite buildS0S1S2_packet by (unfold kC0C1Size in *; len_lia).
    rewrite decide_False, decide_True by done.
    destruct (_ <? _); eexists _, _, _, _; (split; [done|]); auto.
  - destruct (decide (state_ = kWaitC2)); [destruct (_ <? _)|];
      eexists _, _, _, _; (split; [done|]); auto.
Qed.

(** A refused version stays refused. *)
Lemma handshake_spec_failed total more st state_ rest sent :
  handshake_spec rd total = (st, state_, rest, sent) -> st <> Done ->
  handshake_spec rd (total ++ more) = (st, state_, rest ++ more, sent).
Proof.
  unfold handshake_spec. intros Hs Hst. lens.
  destruct (Nat.ltb_spec (length total) kC0C1Size) as [|Hlong]; [by simplify_eq|].
  rewrite (proj2 (Nat.ltb_ge _ _)) by lia.
  assert (0 < kC0C1Size) by (unfold kC0C1Size; lia). rewrite at8_app by lia.
  destruct (negb (at8 total 0 =? kVersion)%Z); [by simplify_eq|].
  destruct (length total <? kC0C1Size + kHandshakePacketSize); by simplify_eq.
Qed.

Lemma feed_spec segs total state_ buf sent :
  agrees total (Done, state_, buf, sent) ->
  exists st state1 buf1 sent1 rest,
    feed rd segs state_ buf sent = Some (st, state1, buf1, sent1) /\
    handshake_spec rd (total ++ concat segs) = (st, state1, rest, sent1) /\
    (st = Done -> peek buf1 = rest).
Proof.
  revert total state_ buf sent. induction segs as [|seg segs IH]; intros total state_ buf sent Ha.
  - cbn [concat feed]. rewrite app_nil_r. destruct Ha as [? ?]. by eexists _, _, _, _, _.
  - cbn [concat feed]. destruct (process_spec _ _ _ _ seg Ha) as (st & s1 & b1 & r & -> & Ha1).
    cbn [mbind option_bind]. rewrite app_assoc.
    destruct (decide (st = Done)) as [->|Hne]; [by apply IH|].
    destruct Ha1 as [_ Hs]. apply (handshake_spec_failed _ (concat segs)) in Hs; [|done].
    destruct st; [done|..]; by eexists _, _, _, _, _.
Qed.

End lemmas.

End RtmpHandshake.

(** ** Properties *)

Import RtmpHandshake.

(** The handshake depends on the bytes, not on the segmentation: after any
    sequence of segments the connection's handshake state and everything it
    answered are what the specification gives for the concatenation; a wrong
    version byte fails with its message and without an answer, as soon as C0 and
    C1 are complete; and what follows C2 is still in the buffer for the chunk
    parser.  It holds over every lawful buffer. *)
Theorem handshake_incremental {B : Type} `{ByteBufferLaws B} (rd : nat -> Z) (segs : list bytes) :
  exists st state_ (buf : B) sent rest,
    feed rd segs initial buf_new [] = Some (st, state_, buf, sent) /\
    handshake_spec rd (concat segs) = (st, state_, rest, sent) /\
    (st = Done -> peek buf = rest).
Proof.
  apply (feed_spec rd segs []). split; [by auto|]. by rewrite peek_new.
Qed.

Lemma handshake_incremental_witness :
  exists st state_ (buf : bytes) sent rest,
    feed (fun i => Z.of_nat i) [[Byte.x03]; replicate 2000 Byte.x07; replicate 1100 Byte.x08]
      initial buf_new [] = Some (st, state_, buf, sent) /\
    handshake_spec (fun i => Z.of_nat i)
      (concat [[Byte.x03]; replicate 2000 Byte.x07; replicate 1100 Byte.x08]) =
      (st, state_, rest, sent) /\
    (st = Done -> peek buf = rest).
Proof. apply (handshake_incremental (B := bytes)). Defined.

(** The answer to a complete C0 and C1 that announces version 3: 3073 bytes,
    S0 is the version, the time and the zero field of S1 are zero, S2 echoes C1
    byte by byte, and no write of the builder leaves the string. *)
Theorem handshake_packet_layout (rd : nat -> Z) (c1 : bytes) :
  kHandshakePacketSize <= length c1 ->
  exists r, buildS0S1S2 rd c1 = Some r /\
    length r = 1 + kHandshakePacketSize + kHandshakePacketSize /\
    at8 r 0 = kVersion /\ (forall i, 1 <= i < 9 -> at8 r i = 0%Z) /\
    (forall i, i < kHandshakePacketSize - 8 -> r !! (9 + i) = Some (chr (rd i))) /\
    drop (1 + kHandshakePacketSize) r = take kHandshakePacketSize c1.
Proof.
  intros Hc. exists (packet rd c1). split; [by apply buildS0S1S2_packet|]. unfold packet.
  assert (8 < kHandshakePacketSize) as Hk by (unfold kHandshakePacketSize; lia).
  generalize dependent kHandshakePacketSize. intros k Hc Hk. split_and!.
  - lens. rewrite length_seq. lia.
  - done.
  - intros i Hi. do 9 (destruct i as [|i]; [done || lia|]). lia.
  - intros i Hi. transitivity ((((fun i => chr (rd i)) <$> seq 0 (k - 8)) ++ take k c1) !! i); [done|].
    rewrite lookup_app_l by (lens; rewrite length_seq; lia).
    rewrite list_lookup_fmap, lookup_seq_lt by lia. done.
  - rewrite !app_assoc. apply drop_app_exact. lens. rewrite length_seq. lia.
Qed.

Lemma handshake_packet_layout_witness :
  exists r, buildS0S1S2 (fun i => Z.of_nat i) (replicate kHandshakePacketSize Byte.x05) = Some r /\
    length r = 1 + kHandshakePacketSize + kHandshakePacketSize /\
    at8 r 0 = kVersion /\ (forall i, 1 <= i < 9 -> at8 r i = 0%Z) /\
    (forall i, i < kHandshakePacketSize - 8 -> r !! (9 + i) = Some (chr (Z.of_nat i))) /\
    drop (1 + kHandshakePacketSize) r =
      take kHandshakePacketSize (replicate kHandshakePacketSize Byte.x05).
Proof. apply (handshake_packet_layout (fun i => Z.of_nat i)). by rewrite length_replicate. Defined.
