(* ===== verification/RtmpCommand.v ===== *)
(** * src/rtmp/RtmpCommandMessage.cc and the encoders and parsers of
    src/rtmp/RtmpConnection.cc

    What RtmpConnection reads from a command message (its AMF0 values, the
    stream target with its ticket) and the messages it answers with.  The
    answers are proved against the server's own chunk parser and AMF0 decoder:
    what they say can be read back. *)

From S2P Require Import Prelude Bytes ByteBuffer StdMap Amf0 RtmpTypes ChunkWriter ChunkParser.
From S2P Require Import ChunkParserFacts ChunkRoundtrip.

Local Open Scope rmuduo_scope.

(** ** Doubles

    A [double] is its 64-bit pattern.  [static_cast<double>] of a [uint32_t] is
    exact: the exponent is the position of the top bit. *)
Definition double_of_uint32 (v : Z) : Z :=
  if (v =? 0)%Z then 0%Z
  else let e := Z.log2 v in
       (Z.shiftl (1023 + e) 52 + Z.shiftl (v - 2 ^ e) (52 - e))%Z.

(** The value of a non-negative normal double, times 2^52: the implicit bit and
    the fraction, scaled by the exponent. *)
Definition double_scaled (bits : Z) : Z :=
  if (bits =? 0)%Z then 0%Z
  else ((2 ^ 52 + bits mod 2 ^ 52) * 2 ^ (Z.shiftr bits 52 - 1023))%Z.

(** ** DecodeCommandMessageAmf0 *)

Record RtmpCommandMessage := mkCommand {
  name : bytes;
  transactionId : Z;
  command_messageStreamId : Z;
  commandObject : Amf0Value;
  arguments : list Amf0Value;
}.

Definition DecodeCommandMessageAmf0 (message : RtmpMessage) : result RtmpCommandMessage :=
  if negb (typeId message =? kMessageTypeCommandAmf0)%Z
  then Err "message is not command message amf0"
  else
    let* values := decodeAll (payload message) in
    match values with
    | v0 :: v1 :: rest =>
        if negb (isString v0) || negb (isNumber v1)
        then Err "command message prefix types are invalid"
        else Ok (mkCommand (stringValue v0) (numberValue v1) (messageStreamId message)
                   (match rest with v2 :: _ => v2 | [] => Null end) (drop 1 rest))
    | _ => Err "command message must contain at least name and transaction id"
    end.

(** ** ParseStreamTarget: "name?key=value&ticket=...", the last ticket wins *)

Record StreamTarget := mkTarget { target_streamName : bytes; ticket : bytes }.

Definition kTicketPrefix : bytes := str "ticket=".

(** The [while (!query.empty())] loop; every turn drops at least one byte. *)
Fixpoint query_loop (fuel : nat) (query ticket : bytes) : bytes :=
  match fuel with
  | O => ticket
  | S fuel =>
    if length query =? 0 then ticket
    else
      let ampersand := find_byte (chr 38) query in
      let part := match ampersand with None => query | Some i => take i query end in
      let ticket := if bool_decide (take (length kTicketPrefix) part = kTicketPrefix)
                    then drop (length kTicketPrefix) part else ticket in
      match ampersand with
      | None => ticket
      | Some i => query_loop fuel (drop (i + 1) query) ticket
      end
  end.

Definition ParseStreamTarget (raw_name : bytes) : option StreamTarget :=
  if length raw_name =? 0 then None
  else
    match find_byte (chr 63) raw_name with
    | None => Some (mkTarget raw_name [])
    | Some question =>
        let streamName := take question raw_name in
        let query := drop (question + 1) raw_name in
        let ticket := query_loop (length query) query [] in
        if length streamName =? 0 then None else Some (mkTarget streamName ticket)
    end.

(** ** The answers of RtmpConnection *)

(** A designated initialiser with [messageLength = payload.size()] and timestamp 0. *)
Definition control_message (typeId_ messageStreamId_ chunkStreamId_ : Z) (payload_ : bytes)
    : RtmpMessage :=
  mkMessage 0 (u32 (Z.of_nat (length payload_))) typeId_ messageStreamId_ chunkStreamId_ payload_.

Definition windowAcknowledgementSize_message (window_size : Z) : RtmpMessage :=
  control_message kMessageTypeWindowAcknowledgementSize 0 kChunkStreamIdControl
    (appendUint32BE window_size []).

Definition setPeerBandwidth_message (peer_bandwidth : Z) : RtmpMessage :=
  control_message kMessageTypeSetPeerBandwidth 0 kChunkStreamIdControl
    (appendUint32BE peer_bandwidth [] ++ [chr 2]).

Definition setChunkSize_message (chunk_size : Z) : RtmpMessage :=
  control_message kMessageTypeSetChunkSize 0 kChunkStreamIdControl (appendUint32BE chunk_size []).

Definition fms_properties : Object :=
  StdMap.emplace (str "mode") (Number (double_of_uint32 1))
    (StdMap.emplace (str "capabilities") (Number (double_of_uint32 255))
      (StdMap.emplace (str "fmsVer") (String (str "FMS/4,5,0,297")) [])).

Definition connect_information : Object :=
  StdMap.emplace (str "objectEncoding") (Number (double_of_uint32 0))
    (StdMap.emplace (str "description") (String (str "Connection succeeded."))
      (StdMap.emplace (str "code") (String (str "NetConnection.Connect.Success"))
        (StdMap.emplace (str "level") (String (str "status")) []))).

Definition connectSuccess_message (command : RtmpCommandMessage) : RtmpMessage :=
  let encoder := appendString (str "_result") [] in
  let encoder := appendNumber (transactionId command) encoder in
  let encoder := appendObject fms_properties false encoder in
  let encoder := appendObject connect_information false encoder in
  control_message kMessageTypeCommandAmf0 0 kChunkStreamIdCommand encoder.

Definition createStreamResult_message (command : RtmpCommandMessage) (stream_id : Z)
    : RtmpMessage :=
  let encoder := appendString (str "_result") [] in
  let encoder := appendNumber (transactionId command) encoder in
  let encoder := appendNull encoder in
  let encoder := appendNumber (double_of_uint32 stream_id) encoder in
  control_message kMessageTypeCommandAmf0 0 kChunkStreamIdCommand encoder.

Definition status_information (code description : bytes) (error : bool) : Object :=
  StdMap.emplace (str "description") (String description)
    (StdMap.emplace (str "code") (String code)
      (StdMap.emplace (str "level") (String (if error then str "error" else str "status")) [])).

Definition onStatus_message (message_stream_id : Z) (code description : bytes) (error : bool)
    : RtmpMessage :=
  let encoder := appendString (str "onStatus") [] in
  let encoder := appendNumber (double_of_uint32 0) encoder in
  let encoder := appendNull encoder in
  let encoder := appendObject (status_information code description error) false encoder in
  control_message kMessageTypeCommandAmf0 message_stream_id kChunkStreamIdCommand encoder.

(** ** Specification of the stream target *)

(** The parts of a query string between the ampersands. *)
Fixpoint split_on (c : byte) (l : bytes) : list bytes :=
  match l with
  | [] => [[]]
  | x :: l' =>
      if decide (x = c) then [] :: split_on c l'
      else match split_on c l' with
           | [] => [[x]]
           | part :: parts => (x :: part) :: parts
           end
  end.

Definition has_ticket (part : bytes) : Prop :=
  take (length kTicketPrefix) part = kTicketPrefix.

(** The value of the last part that starts with "ticket=". *)
Definition last_ticket (parts : list bytes) : bytes :=
  default [] (drop (length kTicketPrefix) <$> last (filter has_ticket parts)).

Definition stream_target_spec (raw_name : bytes) : option StreamTarget :=
  match split_on (chr 63) raw_name with
  | streamName :: _ =>
      if decide (streamName = []) then None
      else Some (mkTarget streamName
                   (last_ticket (split_on (chr 38) (drop (length streamName + 1) raw_name))))
  | [] => None
  end.

(** ** Lemmas *)

Lemma split_on_find c l :
  split_on c l = match find_byte c l with
                 | None => [l]
                 | Some i => take i l :: split_on c (drop (i + 1) l)
                 end.
Proof.
  induction l as [|x l IH]; cbn [split_on find_byte]; [done|].
  destruct (decide (x = c)) as [->|Hne]; [done|]. rewrite IH.
  by destruct (find_byte c l) as [i|].
Qed.

Lemma last_ticket_cons part parts t :
  default t (drop (length kTicketPrefix) <$> last (filter has_ticket (part :: parts))) =
  default (if decide (has_ticket part) then drop (length kTicketPrefix) part else t)
    (drop (length kTicketPrefix) <$> last (filter has_ticket parts)).
Proof.
  rewrite filter_cons. destruct (decide (has_ticket part)); [|done].
  rewrite last_cons. by destruct (last (filter has_ticket parts)).
Qed.

Lemma query_loop_spec fuel query t :
  length query <= fuel ->
  query_loop fuel query t =
  default t (drop (length kTicketPrefix) <$> last (filter has_ticket (split_on (chr 38) query))).
Proof.
  revert query t. induction fuel as [|fuel IH]; intros query t Hf.
  { by destruct query; [|cbn in Hf; lia]. }
  cbn [query_loop]. destruct (Nat.eqb_spec (length query) 0) as [Hz|Hpos].
  { by apply nil_length_inv in Hz as ->. }
  rewrite split_on_find. destruct (find_byte (chr 38) query) as [i|] eqn:E; cbv zeta.
  - rewrite IH by (lens; lia). rewrite last_ticket_cons. unfold has_ticket.
    by rewrite bool_decide_decide; destruct (decide _).
  - rewrite last_ticket_cons. cbn. unfold has_ticket.
    by rewrite bool_decide_decide; destruct (decide _).
Qed.

Lemma double_of_uint32_parts v :
  (0 < v < 2 ^ 32)%Z ->
  let e := Z.log2 v in
  let frac := ((v - 2 ^ e) * 2 ^ (52 - e))%Z in
  (0 <= e < 32)%Z /\ (0 <= frac < 2 ^ 52)%Z /\ (frac * 2 ^ e = (v - 2 ^ e) * 2 ^ 52)%Z /\
  double_of_uint32 v = ((1023 + e) * 2 ^ 52 + frac)%Z.
Proof.
  intros Hv e frac.
  assert (0 <= e < 32)%Z as He.
  { split; [apply Z.log2_nonneg|]. apply Z.log2_lt_pow2; lia. }
  pose proof (Z.log2_spec v ltac:(lia)) as [Hlo Hhi]. fold e in Hlo, Hhi.
  rewrite Z.pow_succ_r in Hhi by lia.
  assert (2 ^ (52 - e) * 2 ^ e = 2 ^ 52)%Z as Hpow
    by (rewrite <- Z.pow_add_r by lia; f_equal; lia).
  split_and!; try lia.
  - unfold frac. nia.
  - unfold frac. apply Z.lt_le_trans with (2 ^ e * 2 ^ (52 - e))%Z; [|lia].
    apply Z.mul_lt_mono_pos_r; [apply Z.pow_pos_nonneg|]; lia.
  - unfold frac. rewrite <- Z.mul_assoc, Hpow. done.
  - unfold double_of_uint32. rewrite (proj2 (Z.eqb_neq v 0)) by lia. fold e.
    by rewrite !Z.shiftl_mul_pow2 by lia.
Qed.

Lemma double_of_uint32_range v : (0 <= v < 2 ^ 32)%Z -> (0 <= double_of_uint32 v < 2 ^ 64)%Z.
Proof.
  intros Hv. destruct (decide (v = 0)%Z) as [->|]; [done|].
  destruct (double_of_uint32_parts v) as (He & Hf & _ & ->); lia.
Qed.

Lemma double_of_uint32_exact v :
  (0 <= v < 2 ^ 32)%Z -> double_scaled (double_of_uint32 v) = (v * 2 ^ 52)%Z.
Proof.
  intros Hv. destruct (decide (v = 0)%Z) as [->|]; [done|].
  destruct (double_of_uint32_parts v) as (He & Hf & Hfe & Hd); [lia|]. cbv zeta in *.
  revert He Hf Hfe Hd. generalize (Z.log2 v) as e. intros e.
  generalize ((v - 2 ^ e) * 2 ^ (52 - e))%Z as f. intros f He Hf Hfe Hd.
  unfold double_scaled. rewrite (proj2 (Z.eqb_neq _ 0)) by lia.
  rewrite Hd, Z.shiftr_div_pow2 by lia.
  replace ((1023 + e) * 2 ^ 52 + f)%Z with (f + (1023 + e) * 2 ^ 52)%Z by lia.
  rewrite Z.mod_add, Z.div_add by lia. rewrite Z.mod_small, Z.div_small by lia.
  replace (0 + (1023 + e) - 1023)%Z with e by lia. lia.
Qed.

Lemma decodeAll_encodeAll (vs : list Amf0Value) :
  Forall amf_wf vs -> decodeAll (encodeAll vs []) = Ok vs.
Proof. intros H. by apply (decodeAll_encode _ [] []); [cbn [length app]; lia|]. Qed.

Lemma decode_command_encode (m : RtmpMessage) (n : bytes) (t : Z) (obj : Amf0Value)
    (args : list Amf0Value) :
  typeId m = kMessageTypeCommandAmf0 ->
  payload m = encodeAll (String n :: Number t :: obj :: args) [] ->
  length n < max_string -> (0 <= t < 2 ^ 64)%Z -> amf_wf obj -> Forall amf_wf args ->
  DecodeCommandMessageAmf0 m = Ok (mkCommand n t (messageStreamId m) obj args).
Proof.
  intros Ht Hp Hn Hnum Hobj Hargs. unfold DecodeCommandMessageAmf0. rewrite Ht, Hp. cbn [negb Z.eqb].
  rewrite decodeAll_encodeAll; [done|]. by do 3 (apply Forall_cons; split; [done|]).
Qed.

Lemma control_message_wf ty sid csid data :
  (0 <= ty < 2 ^ 8)%Z -> (0 <= sid < 2 ^ 32)%Z -> (2 <= csid < 65600)%Z ->
  (Z.of_nat (length data) < 2 ^ 24)%Z -> writer_ok kDefaultChunkSize (control_message ty sid csid data).
Proof.
  intros. split; [|by left]. unfold msg_wf. cbn. unfold u32. rewrite Z.mod_small by lia. lia.
Qed.

Lemma u32_message_payload v : (0 <= v < 2 ^ 32)%Z -> ReadUint32BE (appendUint32BE v []) = v.
Proof.
  intros. rewrite <- (app_nil_r (appendUint32BE v [])), read_write_32BE. by apply Z.mod_small.
Qed.

(** Objects built by [emplace] from constants and short strings. *)
Ltac short_string := apply Nat.ltb_lt; vm_compute; reflexivity.
Ltac object_wf :=
  repeat match goal with
  | |- object_wf [] => apply object_wf_nil
  | |- object_wf (StdMap.emplace _ _ _) => apply object_wf_emplace
  | |- amf_wf (Number _) => apply double_of_uint32_range; lia
  | |- amf_wf (String _) => cbn [amf_wf]
  | H : ?P |- ?P => exact H
  | |- length (str _) < max_string => short_string
  | |- length (if ?b then _ else _) < max_string => destruct b
  end.

Lemma fms_properties_wf : object_wf fms_properties.
Proof. unfold fms_properties. object_wf. Qed.

Lemma connect_information_wf : object_wf connect_information.
Proof. unfold connect_information. object_wf. Qed.

Lemma status_information_wf code description error :
  length code < max_string -> length description < max_string ->
  object_wf (status_information code description error).
Proof. intros Hc Hd. unfold status_information. object_wf. Qed.

Lemma max_string_pos : 20 < max_string.
Proof. unfold max_string. lia. Qed.

(** ** Lengths of the encoded answers *)

Lemma length_encode_number t : length (encode (Number t)) = 9.
Proof. unfold encode; cbn [appendValue]. unfold appendNumber, push_back. by lens. Qed.

Lemma length_encodeAll vs : length (encodeAll vs []) = sum_list (length ∘ encode <$> vs).
Proof.
  induction vs as [|v vs IH]; [done|]. rewrite encodeAll_cons. cbn. lens. by rewrite IH.
Qed.

Lemma length_encode_string s : length (encode (String s)) = 3 + length s.
Proof. rewrite encode_string. lens. rewrite length_encode_key. lia. Qed.

Lemma connectSuccess_length command : length (payload (connectSuccess_message command)) < 1000.
Proof.
  change (payload _) with (encodeAll [String (str "_result"); Number (transactionId command);
    ObjectValue fms_properties; ObjectValue connect_information] []).
  rewrite length_encodeAll. cbn [fmap list_fmap sum_list compose sum_list_with].
  rewrite length_encode_number. apply Nat.ltb_lt. vm_compute. reflexivity.
Qed.

Lemma createStreamResult_length command id :
  length (payload (createStreamResult_message command id)) < 1000.
Proof.
  change (payload _) with (encodeAll [String (str "_result"); Number (transactionId command);
    Null; Number (double_of_uint32 id)] []).
  rewrite length_encodeAll. cbn [fmap list_fmap sum_list compose sum_list_with].
  rewrite !length_encode_number. apply Nat.ltb_lt. vm_compute. reflexivity.
Qed.

(** In key order, as [std::map] iterates. *)
Lemma status_information_entries code description error :
  status_information code description error =
  [(str "code", String code); (str "description", String description);
   (str "level", String (if error then str "error" else str "status"))].
Proof. reflexivity. Qed.

Lemma onStatus_length sid code description error :
  length (payload (onStatus_message sid code description error)) <
  1000 + length code + length description.
Proof.
  change (payload _) with (encodeAll [String (str "onStatus"); Number (double_of_uint32 0);
    Null; ObjectValue (status_information code description error)] []).
  rewrite length_encodeAll. cbn [fmap list_fmap sum_list compose sum_list_with].
  rewrite !length_encode_number. rewrite length_encode_string.
  rewrite encode_object, status_information_entries. cbn [encode_entries]. unfold id. lens.
  rewrite !length_encode_string, !length_encode_key.
  change (length (str "code")) with 4. change (length (str "description")) with 11.
  change (length (str "level")) with 5. change (length (str "onStatus")) with 8.
  change (length (encode Null)) with 1. rewrite length_object_end.
  assert (length (if error then str "error" else str "status") <= 6) by (destruct error; cbn; lia).
  lia.
Qed.

(** ** The replies are well-formed messages *)

Lemma type_constants :
  kMessageTypeSetChunkSize = 1%Z /\ kMessageTypeWindowAcknowledgementSize = 5%Z /\
  kMessageTypeSetPeerBandwidth = 6%Z /\ kMessageTypeCommandAmf0 = 20%Z /\
  kChunkStreamIdControl = 2%Z /\ kChunkStreamIdCommand = 3%Z.
Proof. done. Qed.

Ltac reply_wf :=
  apply control_message_wf; pose proof type_constants; [lia|lia|lia|];
  rewrite ?length_app; rewrite ?length_append32; cbn [length]; try lia.

Lemma control_replies_wf v :
  writer_ok kDefaultChunkSize (windowAcknowledgementSize_message v) /\
  writer_ok kDefaultChunkSize (setPeerBandwidth_message v) /\
  writer_ok kDefaultChunkSize (setChunkSize_message v).
Proof. split_and!; reply_wf. Qed.

Lemma connectSuccess_wf command : writer_ok kDefaultChunkSize (connectSuccess_message command).
Proof.
  pose proof (connectSuccess_length command) as Hl. cbn [connectSuccess_message payload control_message] in Hl.
  reply_wf.
Qed.

Lemma createStreamResult_wf command id :
  writer_ok kDefaultChunkSize (createStreamResult_message command id).
Proof.
  pose proof (createStreamResult_length command id) as Hl.
  cbn [createStreamResult_message payload control_message] in Hl. reply_wf.
Qed.

Lemma onStatus_wf sid code description error :
  (0 <= sid < 2 ^ 32)%Z -> length code < max_string -> length description < max_string ->
  writer_ok kDefaultChunkSize (onStatus_message sid code description error).
Proof.
  intros Hsid Hc Hd. pose proof (onStatus_length sid code description error) as Hl.
  unfold max_string in *. cbn [onStatus_message payload control_message] in Hl. reply_wf.
Qed.

(** The four messages that handleConnect sends. *)
Definition connect_replies (window bandwidth chunk_size : Z) (command : RtmpCommandMessage)
    : list RtmpMessage :=
  [windowAcknowledgementSize_message window; setPeerBandwidth_message bandwidth;
   setChunkSize_message chunk_size; connectSuccess_message command].

Lemma connect_replies_wf window bandwidth chunk_size command :
  Forall (writer_ok kDefaultChunkSize) (connect_replies window bandwidth chunk_size command).
Proof.
  apply Forall_cons. split; [exact (proj1 (control_replies_wf window))|].
  apply Forall_cons. split; [exact (proj1 (proj2 (control_replies_wf bandwidth)))|].
  apply Forall_cons. split; [exact (proj2 (proj2 (control_replies_wf chunk_size)))|].
  apply Forall_cons. split; [apply connectSuccess_wf|]. apply Forall_nil_2.
Qed.

Lemma decode_connectSuccess command :
  (0 <= transactionId command < 2 ^ 64)%Z ->
  DecodeCommandMessageAmf0 (connectSuccess_message command) =
  Ok (mkCommand (str "_result") (transactionId command) 0 (ObjectValue fms_properties)
        [ObjectValue connect_information]).
Proof.
  intros Ht. apply decode_command_encode; [done|done|short_string|done| |].
  - apply fms_properties_wf.
  - apply Forall_cons. split; [apply connect_information_wf|done].
Qed.

(** ** Properties *)

(** What a client can read from the answer to "connect": a peer whose parser
    has chunk size 128, receiving the bytes in any segmentation and through any
    lawful buffer, gets exactly four messages, which carry the window, the
    bandwidth, the chunk size, and a command "_result" with the client's own
    transaction id, the server properties and the success information. *)
Theorem connect_replies_readable {B : Type} `{ByteBufferLaws B}
    (command : RtmpCommandMessage) (window bandwidth chunk_size : Z)
    (segments : list bytes) (p : RtmpChunkParser.t) (buf : B) :
  (0 <= transactionId command < 2 ^ 64)%Z -> (0 <= window < 2 ^ 32)%Z ->
  (0 <= bandwidth < 2 ^ 32)%Z -> (0 <= chunk_size < 2 ^ 32)%Z ->
  RtmpChunkParser.inChunkSize_ p = kDefaultChunkSize -> buf_wf buf -> peek buf = [] ->
  concat segments = stream kDefaultChunkSize (connect_replies window bandwidth chunk_size command) ->
  exists p' buf' m1 m2 m3 m4,
    RtmpChunkParser.deliveries (map RtmpChunkParser.Deliver segments) p buf [] =
      Some (RtmpChunkParser.Done, p', buf', [m1; m2; m3; m4]) /\
    (typeId m1, ReadUint32BE (payload m1)) = (kMessageTypeWindowAcknowledgementSize, window) /\
    (typeId m2, ReadUint32BE (payload m2)) = (kMessageTypeSetPeerBandwidth, bandwidth) /\
    (typeId m3, ReadUint32BE (payload m3)) = (kMessageTypeSetChunkSize, chunk_size) /\
    DecodeCommandMessageAmf0 m4 =
      Ok (mkCommand (str "_result") (transactionId command) 0 (ObjectValue fms_properties)
            [ObjectValue connect_information]).
Proof.
  intros Ht Hwin Hband Hchunk Hp Hw Hnil Hseg.
  destruct (deliver_stream kDefaultChunkSize _ segments p buf eq_refl
              (connect_replies_wf window bandwidth chunk_size command) Hp Hw Hnil Hseg)
    as (p' & buf' & -> & _).
  eexists p', buf', _, _, _, _. split; [done|]. split_and!.
  - change (payload _) with (appendUint32BE window []). by rewrite u32_message_payload.
  - change (payload _) with (appendUint32BE bandwidth [] ++ [chr 2]).
    by rewrite read_write_32BE, Z.mod_small.
  - change (payload _) with (appendUint32BE chunk_size []). by rewrite u32_message_payload.
  - by apply decode_connectSuccess.
Qed.

Definition sample_command : RtmpCommandMessage :=
  mkCommand (str "connect") (double_of_uint32 1) 0 (ObjectValue []) [].

Lemma connect_replies_readable_witness :
  let wire := stream kDefaultChunkSize (connect_replies 5000000 5000000 128 sample_command) in
  exists p' buf' m1 m2 m3 m4,
    RtmpChunkParser.deliveries (map RtmpChunkParser.Deliver [take 10 wire; drop 10 wire])
      RtmpChunkParser.initial ([] : bytes) [] =
      Some (RtmpChunkParser.Done, p', buf', [m1; m2; m3; m4]) /\
    (typeId m1, ReadUint32BE (payload m1)) = (kMessageTypeWindowAcknowledgementSize, 5000000%Z) /\
    (typeId m2, ReadUint32BE (payload m2)) = (kMessageTypeSetPeerBandwidth, 5000000%Z) /\
    (typeId m3, ReadUint32BE (payload m3)) = (kMessageTypeSetChunkSize, 128%Z) /\
    DecodeCommandMessageAmf0 m4 =
      Ok (mkCommand (str "_result") (transactionId sample_command) 0 (ObjectValue fms_properties)
            [ObjectValue connect_information]).
Proof.
  intros wire.
  apply (connect_replies_readable sample_command 5000000 5000000 128);
    solve [done | lia | apply double_of_uint32_range; lia].
Defined.

(** The answer to "createStream" carries the allocated id: the decoded
    "_result" has the client's transaction id and, as its only argument, a
    double whose value is exactly the stream id, for every 32-bit id; and the
    id of a later "onStatus" and its three texts come back as sent. *)
Theorem stream_replies_readable (command : RtmpCommandMessage) (id : Z)
    (code description : bytes) (error : bool) :
  (0 <= transactionId command < 2 ^ 64)%Z -> (0 <= id < 2 ^ 32)%Z ->
  length code < max_string -> length description < max_string ->
  (exists d, DecodeCommandMessageAmf0 (createStreamResult_message command id) =
             Ok (mkCommand (str "_result") (transactionId command) 0 Null [Number d]) /\
             double_scaled d = (id * 2 ^ 52)%Z) /\
  (exists o, DecodeCommandMessageAmf0 (onStatus_message id code description error) =
             Ok (mkCommand (str "onStatus") 0 id Null [ObjectValue o]) /\
             StdMap.find (str "code") o = Some (String code) /\
             StdMap.find (str "description") o = Some (String description) /\
             StdMap.find (str "level") o =
               Some (String (if error then str "error" else str "status"))).
Proof.
  intros Ht Hid Hc Hd. split.
  - eexists. split; [|by apply double_of_uint32_exact].
    apply decode_command_encode; [done|done|short_string|done|done|].
    apply Forall_cons. split; [by apply double_of_uint32_range|done].
  - exists (status_information code description error). split; [|split_and!; reflexivity].
    apply decode_command_encode; [done|done|short_string|done|done|].
    apply Forall_cons. split; [by apply status_information_wf|done].
Qed.

Lemma stream_replies_readable_witness :
  (exists d, DecodeCommandMessageAmf0 (createStreamResult_message sample_command 7) =
             Ok (mkCommand (str "_result") (transactionId sample_command) 0 Null [Number d]) /\
             double_scaled d = (7 * 2 ^ 52)%Z) /\
  (exists o, DecodeCommandMessageAmf0 (onStatus_message 7 (str "ok") (str "fine") true) =
             Ok (mkCommand (str "onStatus") 0 7 Null [ObjectValue o]) /\
             StdMap.find (str "code") o = Some (String (str "ok")) /\
             StdMap.find (str "description") o = Some (String (str "fine")) /\
             StdMap.find (str "level") o = Some (String (str "error"))).
Proof.
  apply (stream_replies_readable sample_command 7 (str "ok") (str "fine") true);
    [apply double_of_uint32_range; lia|lia|short_string|short_string].
Defined.

(** Decoding a command: every command whose payload an encoder produced from
    its name, transaction id, command object and arguments is decoded to exactly
    these, with the message's stream id. *)
Theorem command_roundtrip (m : RtmpMessage) (n : bytes) (t : Z) (obj : Amf0Value)
    (args : list Amf0Value) :
  typeId m = kMessageTypeCommandAmf0 ->
  payload m = encodeAll (String n :: Number t :: obj :: args) [] ->
  length n < max_string -> (0 <= t < 2 ^ 64)%Z -> amf_wf obj -> Forall amf_wf args ->
  DecodeCommandMessageAmf0 m = Ok (mkCommand n t (messageStreamId m) obj args).
Proof. apply decode_command_encode. Qed.

Lemma command_roundtrip_witness :
  let m := mkMessage 0 0 kMessageTypeCommandAmf0 1 3
             (encodeAll [String (str "publish"); Number 0; Null; String (str "cam")] []) in
  DecodeCommandMessageAmf0 m = Ok (mkCommand (str "publish") 0 1 Null [String (str "cam")]).
Proof.
  intros m. apply (command_roundtrip m (str "publish") 0 Null [String (str "cam")]);
    [done|done|short_string|lia|done|]. apply Forall_cons. split; [cbn [amf_wf]; short_string|done].
Defined.

(** The stream target: for every name the loop over the query finds the
    stream name before the first question mark and the value of the last
    "ticket=" part between ampersands; an empty name is refused. *)
Theorem stream_target_correct (raw_name : bytes) :
  ParseStreamTarget raw_name = stream_target_spec raw_name.
Proof.
  unfold ParseStreamTarget, stream_target_spec.
  destruct (Nat.eqb_spec (length raw_name) 0) as [Hz|Hpos]; [by apply nil_length_inv in Hz as ->|].
  rewrite split_on_find. destruct (find_byte (chr 63) raw_name) as [i|] eqn:E.
  - apply find_byte_lt in E as Hi. rewrite query_loop_spec by done.
    rewrite length_take, Nat.min_l by lia.
    destruct (decide (take i raw_name = [])) as [Hnil|Hne].
    + apply (f_equal length) in Hnil. rewrite length_take, Nat.min_l in Hnil by lia.
      cbn in Hnil. by subst i.
    + rewrite (proj2 (Nat.eqb_neq i 0)); [done|]. intros ->. by rewrite take_0 in Hne.
  - rewrite decide_False by (by intros ->). by rewrite drop_ge by lia.
Qed.
