(* ===== verification/RtmpSession.v ===== *)
(** * src/rtmp/RtmpSession.h, src/rtmp/RtmpSession.cc

    A live stream: its publisher, its players, the cache for players that join
    later (metadata, the sequence headers, the current group of pictures), and
    what is sent to whom.  Sending is an output: the list of calls
    [player->send(data)] in order. *)

From S2P Require Import Prelude Bytes ByteBuffer RtmpTypes ChunkWriter ChunkParser.
From S2P Require Import ChunkRoundtrip.

(** A [TcpConnectionPtr]: the object's identity and its constant name. *)
Record conn_ptr := mkConn { conn_id : nat; conn_name : bytes }.

#[export] Instance conn_ptr_eq_dec : EqDecision conn_ptr.
Proof. solve_decision. Defined.
#[export] Instance conn_ptr_countable : Countable conn_ptr.
Proof.
  refine (inj_countable' (fun c => (conn_id c, conn_name c)) (fun p => mkConn p.1 p.2) _).
  by intros [].
Defined.

Module RtmpSession.

Record t := mk {
  streamKey_ : bytes;
  publisher_ : option conn_ptr;
  players_ : gmap bytes conn_ptr;
  metadata_ : option RtmpMessage;
  audioSequenceHeader_ : option RtmpMessage;
  videoSequenceHeader_ : option RtmpMessage;
  gopCache_ : list RtmpMessage;
  gopStarted_ : bool;
}.

Definition make (stream_key : bytes) : t := mk stream_key None ∅ None None None [] false.

Definition IsAacSequenceHeader (message : RtmpMessage) : bool :=
  if negb (typeId message =? kMessageTypeAudio)%Z || (length (payload message) <? 2) then false
  else
    let sound_format := Z.land (Z.shiftr (at8 (payload message) 0) 4) 0x0F in
    let aac_packet_type := at8 (payload message) 1 in
    (sound_format =? 10)%Z && (aac_packet_type =? 0)%Z.

Definition IsAvcSequenceHeader (message : RtmpMessage) : bool :=
  if negb (typeId message =? kMessageTypeVideo)%Z || (length (payload message) <? 2) then false
  else
    let codec_id := Z.land (at8 (payload message) 0) 0x0F in
    let avc_packet_type := at8 (payload message) 1 in
    (codec_id =? 7)%Z && (avc_packet_type =? 0)%Z.

Definition IsVideoKeyFrame (message : RtmpMessage) : bool :=
  if negb (typeId message =? kMessageTypeVideo)%Z || (length (payload message) =? 0) then false
  else
    let frame_type := Z.land (Z.shiftr (at8 (payload message) 0) 4) 0x0F in
    (frame_type =? 1)%Z.

Definition setPublisher (connection : conn_ptr) (s : t) : bool * t :=
  if bool_decide (publisher_ s <> None) && bool_decide (publisher_ s <> Some connection)
  then (false, s)
  else
    let s := if bool_decide (publisher_ s <> Some connection)
             then mk (streamKey_ s) (publisher_ s) (players_ s) None None None [] false
             else s in
    (true, mk (streamKey_ s) (Some connection) (players_ s) (metadata_ s)
             (audioSequenceHeader_ s) (videoSequenceHeader_ s) (gopCache_ s) (gopStarted_ s)).

Definition set_publisher_ (v : option conn_ptr) (s : t) : t :=
  mk (streamKey_ s) v (players_ s) (metadata_ s) (audioSequenceHeader_ s)
     (videoSequenceHeader_ s) (gopCache_ s) (gopStarted_ s).

Definition set_players_ (v : gmap bytes conn_ptr) (s : t) : t :=
  mk (streamKey_ s) (publisher_ s) v (metadata_ s) (audioSequenceHeader_ s)
     (videoSequenceHeader_ s) (gopCache_ s) (gopStarted_ s).

Definition clearPublisher (connection : conn_ptr) (s : t) : t :=
  if bool_decide (publisher_ s = Some connection) then set_publisher_ None s else s.

(** [emplace]: a player already in the map stays. *)
Definition addPlayer (connection : conn_ptr) (s : t) : bool * t :=
  match players_ s !! conn_name connection with
  | Some _ => (false, s)
  | None => (true, set_players_ (<[conn_name connection := connection]> (players_ s)) s)
  end.

Definition removePlayer (connection : conn_ptr) (s : t) : t :=
  set_players_ (delete (conn_name connection) (players_ s)) s.

Definition hasPublisher (s : t) : bool := bool_decide (publisher_ s <> None).
Definition playerCount (s : t) : nat := size (players_ s).
Definition empty (s : t) : bool :=
  negb (hasPublisher s) && bool_decide (players_ s = ∅).

Definition cacheMediaMessage (message : RtmpMessage) (s : t) : t :=
  if (typeId message =? kMessageTypeDataAmf0)%Z then
    mk (streamKey_ s) (publisher_ s) (players_ s) (Some message) (audioSequenceHeader_ s)
       (videoSequenceHeader_ s) (gopCache_ s) (gopStarted_ s)
  else if IsAacSequenceHeader message then
    mk (streamKey_ s) (publisher_ s) (players_ s) (metadata_ s) (Some message)
       (videoSequenceHeader_ s) (gopCache_ s) (gopStarted_ s)
  else if IsAvcSequenceHeader message then
    mk (streamKey_ s) (publisher_ s) (players_ s) (metadata_ s) (audioSequenceHeader_ s)
       (Some message) (gopCache_ s) (gopStarted_ s)
  else
    let s := if (typeId message =? kMessageTypeVideo)%Z && IsVideoKeyFrame message
             then mk (streamKey_ s) (publisher_ s) (players_ s) (metadata_ s)
                     (audioSequenceHeader_ s) (videoSequenceHeader_ s) [] true
             else s in
    if negb (gopStarted_ s) then s
    else if (typeId message =? kMessageTypeAudio)%Z || (typeId message =? kMessageTypeVideo)%Z
    then mk (streamKey_ s) (publisher_ s) (players_ s) (metadata_ s) (audioSequenceHeader_ s)
            (videoSequenceHeader_ s) (gopCache_ s ++ [message]) (gopStarted_ s)
    else s.

Section sending.
(** [connected()] of the connections at the time of the call. *)
Context (connected : gset conn_ptr).

(** The loop over the unordered map: players that are gone are erased, the
    others are sent the same bytes.  The order is that of the map; it is not
    visible to any single player. *)
Definition broadcastMessage (message : RtmpMessage) (out_chunk_size : Z) (s : t)
    : t * list (conn_ptr * bytes) :=
  if bool_decide (players_ s = ∅) then (s, [])
  else
    let encoded := RtmpChunkWriter.EncodeMessage message out_chunk_size in
    let players := filter (fun '(_, player) => player ∈ connected) (players_ s) in
    (set_players_ players s, (fun '(_, player) => (player, encoded)) <$> map_to_list players).

Definition onMediaMessage (message : RtmpMessage) (out_chunk_size : Z) (s : t)
    : t * list (conn_ptr * bytes) :=
  broadcastMessage message out_chunk_size (cacheMediaMessage message s).

(** The cache in the order in which it is replayed. *)
Definition cachedMessages (s : t) : list RtmpMessage :=
  option_list (metadata_ s) ++ option_list (audioSequenceHeader_ s) ++
  option_list (videoSequenceHeader_ s) ++ gopCache_ s.

Definition replayCachedMessagesToPlayer (connection : conn_ptr) (out_chunk_size : Z) (s : t)
    : list (conn_ptr * bytes) :=
  if bool_decide (connection ∉ connected) then []
  else (fun m => (connection, RtmpChunkWriter.EncodeMessage m out_chunk_size)) <$> cachedMessages s.

End sending.

(** ** Specification of the cache: a function of what was published *)

Definition is_frame (m : RtmpMessage) : bool :=
  ((typeId m =? kMessageTypeAudio)%Z || (typeId m =? kMessageTypeVideo)%Z) &&
  negb (IsAacSequenceHeader m) && negb (IsAvcSequenceHeader m).

(** The frames from the last key frame on. *)
Fixpoint from_last_key (frames : list RtmpMessage) : list RtmpMessage :=
  match frames with
  | [] => []
  | m :: frames' =>
      if decide (Exists IsVideoKeyFrame frames') then from_last_key frames'
      else if IsVideoKeyFrame m then m :: frames' else []
  end.

Definition is_metadata (m : RtmpMessage) : bool := (typeId m =? kMessageTypeDataAmf0)%Z.

Record cache := mkCache {
  c_metadata : option RtmpMessage;
  c_audio : option RtmpMessage;
  c_video : option RtmpMessage;
  c_gop : list RtmpMessage;
}.

Definition cache_spec (published : list RtmpMessage) : cache :=
  mkCache (last (filter is_metadata published)) (last (filter IsAacSequenceHeader published))
    (last (filter IsAvcSequenceHeader published)) (from_last_key (filter is_frame published)).

Definition cache_of (s : t) : cache :=
  mkCache (metadata_ s) (audioSequenceHeader_ s) (videoSequenceHeader_ s) (gopCache_ s).

(** ** Lemmas *)

Lemma IsAacSequenceHeader_type m : IsAacSequenceHeader m = true -> typeId m = kMessageTypeAudio.
Proof.
  unfold IsAacSequenceHeader. destruct (negb _ || _) eqn:E; [done|]. intros _.
  apply orb_false_iff in E as [E _]. by apply negb_false_iff, Z.eqb_eq in E.
Qed.

Lemma IsAvcSequenceHeader_type m : IsAvcSequenceHeader m = true -> typeId m = kMessageTypeVideo.
Proof.
  unfold IsAvcSequenceHeader. destruct (negb _ || _) eqn:E; [done|]. intros _.
  apply orb_false_iff in E as [E _]. by apply negb_false_iff, Z.eqb_eq in E.
Qed.

Lemma IsVideoKeyFrame_type m : IsVideoKeyFrame m = true -> typeId m = kMessageTypeVideo.
Proof.
  unfold IsVideoKeyFrame. destruct (negb _ || _) eqn:E; [done|]. intros _.
  apply orb_false_iff in E as [E _]. by apply negb_false_iff, Z.eqb_eq in E.
Qed.

Lemma exists_key_snoc l m :
  IsVideoKeyFrame m = false -> Exists IsVideoKeyFrame (l ++ [m]) <-> Exists IsVideoKeyFrame l.
Proof. intros E. rewrite Exists_app, Exists_cons, Exists_nil, E. naive_solver. Qed.

Lemma from_last_key_none l : ~ Exists IsVideoKeyFrame l -> from_last_key l = [].
Proof.
  induction l as [|m l IH]; cbn [from_last_key]; [done|]. rewrite Exists_cons. intros H.
  rewrite decide_False by tauto. destruct (IsVideoKeyFrame m); [exfalso; apply H; by left|done].
Qed.

Lemma from_last_key_snoc l m :
  from_last_key (l ++ [m]) =
  if IsVideoKeyFrame m then [m]
  else if decide (Exists IsVideoKeyFrame l) then from_last_key l ++ [m] else [].
Proof.
  induction l as [|x l IH]; cbn [app from_last_key].
  - rewrite decide_False by (by intros ?%Exists_nil). destruct (IsVideoKeyFrame m); [done|].
    by rewrite decide_False by (by intros ?%Exists_nil).
  - rewrite IH. destruct (IsVideoKeyFrame m) eqn:Em.
    + rewrite decide_True; [done|]. apply Exists_app. right. apply Exists_cons. left. by rewrite Em.
    + destruct (decide (Exists IsVideoKeyFrame l)) as [Hl|Hl].
      * rewrite decide_True by (apply Exists_app; by left).
        by rewrite decide_True by (by apply Exists_cons; right).
      * rewrite decide_False.
        2: { rewrite Exists_app, Exists_cons, Exists_nil, Em. by intros [?|[?|?]]. }
        destruct (IsVideoKeyFrame x) eqn:Ex.
        -- rewrite decide_True; [done|]. apply Exists_cons. left. by rewrite Ex.
        -- rewrite decide_False; [done|]. rewrite Exists_cons, Ex. by intros [?|?].
Qed.

Lemma from_last_key_head l : match from_last_key l with
                             | [] => True
                             | m :: _ => IsVideoKeyFrame m = true
                             end.
Proof.
  induction l as [|m l IH]; cbn [from_last_key]; [done|].
  destruct (decide _); [done|]. by destruct (IsVideoKeyFrame m) eqn:E.
Qed.

Lemma from_last_key_suffix l : from_last_key l `suffix_of` l.
Proof.
  induction l as [|m l IH]; cbn [from_last_key]; [done|].
  destruct (decide _); [by apply suffix_cons_r|].
  destruct (IsVideoKeyFrame m); [done|apply suffix_nil].
Qed.

(** A session that cached the publication [ms] of its current publisher. *)
Definition cached (ms : list RtmpMessage) (s : t) : Prop :=
  cache_of s = cache_spec ms /\
  gopStarted_ s = bool_decide (Exists IsVideoKeyFrame (filter is_frame ms)).

Lemma cached_nil key : cached [] (make key).
Proof.
  split; [done|]. symmetry. apply bool_decide_eq_false_2. by intros ?%Exists_nil.
Qed.

Lemma filter_snoc (P : RtmpMessage -> bool) ms m :
  filter P (ms ++ [m]) = filter P ms ++ (if P m then [m] else []).
Proof. rewrite filter_app, filter_cons, filter_nil. by destruct (P m). Qed.

Lemma last_filter_snoc (P : RtmpMessage -> bool) ms m :
  last (filter P (ms ++ [m])) = if P m then Some m else last (filter P ms).
Proof. rewrite filter_snoc. destruct (P m); [apply last_snoc|by rewrite app_nil_r]. Qed.

Lemma cached_step ms s m : cached ms s -> cached (ms ++ [m]) (cacheMediaMessage m s).
Proof.
  intros [Hc Hg]. unfold cached, cache_spec, cache_of in *.
  injection Hc as Hmd Ha Hv Hgop.
  rewrite !last_filter_snoc, filter_snoc. unfold cacheMediaMessage.
  assert (Hdata : is_metadata m = (typeId m =? kMessageTypeDataAmf0)%Z) by done.
  destruct (typeId m =? kMessageTypeDataAmf0)%Z eqn:Ed.
  { apply Z.eqb_eq in Ed. rewrite Hdata.
    assert (IsAacSequenceHeader m = false) as -> by
      (apply not_true_is_false; intros H%IsAacSequenceHeader_type; rewrite Ed in H; done).
    assert (IsAvcSequenceHeader m = false) as -> by
      (apply not_true_is_false; intros H%IsAvcSequenceHeader_type; rewrite Ed in H; done).
    assert (is_frame m = false) as -> by (unfold is_frame; by rewrite Ed).
    rewrite app_nil_r. cbn. by rewrite Ha, Hv, Hgop. }
  rewrite Hdata. clear Hdata. destruct (IsAacSequenceHeader m) eqn:Eaac.
  { apply IsAacSequenceHeader_type in Eaac as Et.
    assert (IsAvcSequenceHeader m = false) as -> by
      (apply not_true_is_false; intros H%IsAvcSequenceHeader_type; rewrite Et in H; done).
    assert (is_frame m = false) as -> by (unfold is_frame; rewrite Eaac; by rewrite andb_false_r).
    rewrite app_nil_r. cbn. by rewrite Hmd, Hv, Hgop. }
  destruct (IsAvcSequenceHeader m) eqn:Eavc.
  { assert (is_frame m = false) as -> by (unfold is_frame; rewrite Eavc; by rewrite andb_false_r).
    rewrite app_nil_r. cbn. by rewrite Hmd, Ha, Hgop. }
  assert (is_frame m = (typeId m =? kMessageTypeAudio)%Z || (typeId m =? kMessageTypeVideo)%Z)
    as Hframe by (unfold is_frame; rewrite Eaac, Eavc; by rewrite !andb_true_r).
  destruct (IsVideoKeyFrame m) eqn:Ek.
  - apply IsVideoKeyFrame_type in Ek as Et. rewrite Hframe, Et.
    cbn [Z.eqb kMessageTypeVideo kMessageTypeAudio Pos.eqb andb orb negb gopStarted_ gopCache_ metadata_
         audioSequenceHeader_ videoSequenceHeader_ app].
    rewrite from_last_key_snoc, Ek, Hmd, Ha, Hv. split; [done|].
    symmetry. apply bool_decide_eq_true_2, Exists_app. right. apply Exists_cons. left. by rewrite Ek.
  - rewrite andb_false_r. destruct (is_frame m) eqn:Ef; rewrite <- Hframe.
    + rewrite from_last_key_snoc, Ek.
      rewrite (bool_decide_ext _ _ (exists_key_snoc (filter is_frame ms) m Ek)).
      destruct (decide (Exists IsVideoKeyFrame (filter is_frame ms))) as [Hex|Hex].
      * rewrite bool_decide_eq_true_2 in * by done. rewrite Hg. cbn. by rewrite Hmd, Ha, Hv, Hgop.
      * rewrite bool_decide_eq_false_2 in * by done. rewrite Hg. cbn.
        by rewrite Hmd, Ha, Hv, Hgop, from_last_key_none.
    + rewrite app_nil_r. destruct (negb (gopStarted_ s)); by rewrite Hmd, Ha, Hv, Hgop.
Qed.

Lemma cached_fold ms s h :
  cached h s -> cached (h ++ ms) (foldl (fun s m => cacheMediaMessage m s) s ms).
Proof.
  revert s h. induction ms as [|m ms IH]; intros s h H; cbn; [by rewrite app_nil_r|].
  replace (h ++ m :: ms) with ((h ++ [m]) ++ ms) by (by rewrite <- app_assoc).
  by apply IH, cached_step.
Qed.

Lemma cached_ext ms s s' :
  cache_of s' = cache_of s -> gopStarted_ s' = gopStarted_ s -> cached ms s -> cached ms s'.
Proof. unfold cached. by intros -> ->. Qed.

(** ** A session's life under one publisher *)

(** What reaches the session: a media message of the publisher, with the
    connections alive at that time and the chunk size of the publisher's
    connection; players that come and go; attempts to publish. *)
Inductive event :=
  | Media (connected : gset conn_ptr) (message : RtmpMessage) (out_chunk_size : Z)
  | Join (player : conn_ptr)
  | Leave (player : conn_ptr)
  | Publish (other : conn_ptr).

Definition step (ev : event) (s : t) : t * list (conn_ptr * bytes) :=
  match ev with
  | Media connected m size => onMediaMessage connected m size s
  | Join c => ((addPlayer c s).2, [])
  | Leave c => (removePlayer c s, [])
  | Publish c => ((setPublisher c s).2, [])
  end.

Definition run (evs : list event) (s : t) : t := foldl (fun s ev => (step ev s).1) s evs.

Fixpoint published (evs : list event) : list RtmpMessage :=
  match evs with
  | [] => []
  | Media _ m _ :: evs' => m :: published evs'
  | _ :: evs' => published evs'
  end.

Lemma setPublisher_new p s :
  publisher_ s = None -> cached [] (setPublisher p s).2 /\
  (setPublisher p s).1 = true /\ publisher_ (setPublisher p s).2 = Some p.
Proof.
  intros Hp. unfold setPublisher. rewrite Hp. cbn.
  split_and!; [|done..]. split; [done|].
  symmetry. apply bool_decide_eq_false_2. by intros ?%Exists_nil.
Qed.

Lemma setPublisher_taken p c s :
  publisher_ s = Some p -> setPublisher c s = (bool_decide (c = p), s).
Proof.
  intros Hp. unfold setPublisher. rewrite Hp.
  rewrite (bool_decide_eq_true_2 (Some p <> None)) by done. cbn [andb].
  destruct (decide (c = p)) as [->|Hne].
  - rewrite (bool_decide_eq_false_2 (Some p <> Some p)) by (by intros []).
    rewrite bool_decide_eq_true_2 by done. f_equal. destruct s; cbn in *. by subst.
  - rewrite (bool_decide_eq_true_2 (Some p <> Some c)) by (by intros [= ->]).
    by rewrite bool_decide_eq_false_2.
Qed.

Lemma cacheMediaMessage_publisher m s : publisher_ (cacheMediaMessage m s) = publisher_ s.
Proof. unfold cacheMediaMessage. by repeat step_case. Qed.

Lemma cacheMediaMessage_players m s : players_ (cacheMediaMessage m s) = players_ s.
Proof. unfold cacheMediaMessage. by repeat step_case. Qed.

Lemma cacheMediaMessage_streamKey m s : streamKey_ (cacheMediaMessage m s) = streamKey_ s.
Proof. unfold cacheMediaMessage. by repeat step_case. Qed.

Lemma broadcast_cache conns m size s :
  let s' := (broadcastMessage conns m size s).1 in
  cache_of s' = cache_of s /\ gopStarted_ s' = gopStarted_ s /\ publisher_ s' = publisher_ s.
Proof. unfold broadcastMessage. by destruct (bool_decide _). Qed.

Lemma run_cached evs s p h :
  publisher_ s = Some p -> cached h s ->
  publisher_ (run evs s) = Some p /\ cached (h ++ published evs) (run evs s).
Proof.
  revert s h. induction evs as [|ev evs IH]; intros s h Hp Hc; cbn [run foldl published].
  { by rewrite app_nil_r. }
  fold (run evs (step ev s).1). destruct ev as [conns m size|c|c|c]; cbn [step].
  - replace (h ++ m :: published evs) with ((h ++ [m]) ++ published evs) by (by rewrite <- app_assoc).
    unfold onMediaMessage. destruct (broadcast_cache conns m size (cacheMediaMessage m s)) as (E1 & E2 & E3).
    apply IH; [by rewrite E3, cacheMediaMessage_publisher|].
    eapply cached_ext; [exact E1|exact E2|]. by apply cached_step.
  - apply IH; unfold addPlayer; by destruct (players_ s !! conn_name c).
  - by apply IH.
  - rewrite (setPublisher_taken p) by done. by apply IH.
Qed.

End RtmpSession.

(** ** Properties *)

Import RtmpSession.

(** C14 What a session keeps for players that join later is a function of what
    its publisher sent since it took the session over, whatever players did
    meanwhile and whoever else tried to publish: the last metadata, the last AAC
    and AVC sequence headers, and exactly the frames from the last key frame on
    (none before the first).  So the group of pictures always starts with a key
    frame, and the publisher is still the same. *)
Theorem session_cache_correct (s : t) (p : conn_ptr) (evs : list event) :
  publisher_ s = None ->
  let s' := run evs (setPublisher p s).2 in
  publisher_ s' = Some p /\ cache_of s' = cache_spec (published evs) /\
  gopCache_ s' `suffix_of` filter is_frame (published evs) /\
  match gopCache_ s' with [] => True | m :: _ => IsVideoKeyFrame m = true end.
Proof.
  intros Hs s'. destruct (setPublisher_new p s Hs) as (Hc & _ & Hp).
  destruct (run_cached evs _ p [] Hp Hc) as [Hp' [Hc' _]]. fold s' in Hp', Hc'.
  split; [done|]. split; [done|]. injection Hc' as _ _ _ ->.
  split; [apply from_last_key_suffix|apply from_last_key_head].
Qed.

Definition sample_frame (data : list byte) : RtmpMessage :=
  mkMessage 0 (Z.of_nat (length data)) kMessageTypeVideo 1 6 data.

Lemma session_cache_correct_witness :
  let p := mkConn 1 (str "p") in
  let evs := [Media ∅ (sample_frame [Byte.x17; Byte.x01]) 128; Publish (mkConn 2 (str "q"));
              Media ∅ (sample_frame [Byte.x27; Byte.x01]) 128] in
  let s' := run evs (setPublisher p (make (str "/live/cam"))).2 in
  publisher_ s' = Some p /\ cache_of s' = cache_spec (published evs) /\
  gopCache_ s' `suffix_of` filter is_frame (published evs) /\
  match gopCache_ s' with [] => True | m :: _ => IsVideoKeyFrame m = true end.
Proof. intros p evs. apply (session_cache_correct (make (str "/live/cam")) p evs). reflexivity. Defined.

(** What one connection receives of a list of sends. *)
Definition received (c : conn_ptr) (sends : list (conn_ptr * bytes)) : bytes :=
  concat (snd <$> filter (fun s => s.1 = c) sends).

Lemma received_all c l : received c ((fun d => (c, d)) <$> l) = concat l.
Proof.
  unfold received. induction l as [|d l IH]; [done|]. cbn [fmap list_fmap].
  rewrite filter_cons_True by done. cbn. by f_equal.
Qed.

Lemma last_filter_in (P : RtmpMessage -> bool) ms : Forall (fun m => m ∈ ms) (option_list (last (filter P ms))).
Proof.
  destruct (last (filter P ms)) as [m|] eqn:E; [|apply Forall_nil_2].
  apply last_Some_elem_of in E. apply list_elem_of_filter in E as [_ E]. by apply Forall_singleton.
Qed.

(** Everything in the cache was published. *)
Lemma cached_published ms s : cached ms s -> Forall (fun m => m ∈ ms) (cachedMessages s).
Proof.
  intros [Hc _]. injection Hc as Hmd Ha Hv Hg. unfold cachedMessages. rewrite Hmd, Ha, Hv, Hg.
  repeat (apply Forall_app; split; [apply last_filter_in|]).
  apply Forall_forall. intros m Hm. destruct (from_last_key_suffix (filter is_frame ms)) as [k Hk].
  assert (m ∈ filter is_frame ms) as H by (rewrite Hk; apply elem_of_app; by right).
  by apply list_elem_of_filter in H as [_ ?].
Qed.

(** A player that joins late can decode the stream from the start of the
    current group of pictures: the bytes that the replay sends, received in any
    segmentation by a parser with the same chunk size, are exactly the cached
    metadata, sequence headers and frames, in this order, and go to this player
    only.  A connection that is already down is sent nothing. *)
Theorem late_joiner_decodes (s : t) (p player : conn_ptr) (evs : list event)
    (connected : gset conn_ptr) (size : Z) (segments : list bytes) (parser : RtmpChunkParser.t) :
  publisher_ s = None -> (0 < size)%Z -> Forall (writer_ok size) (published evs) ->
  RtmpChunkParser.inChunkSize_ parser = size ->
  let s' := run evs (setPublisher p s).2 in
  let sends := replayCachedMessagesToPlayer connected player size s' in
  concat segments = received player sends ->
  Forall (fun send => send.1 = player) sends /\
  (player ∉ connected -> sends = []) /\
  (player ∈ connected ->
   let c := cache_spec (published evs) in
   exists parser' buf',
     RtmpChunkParser.deliveries (map RtmpChunkParser.Deliver segments) parser ([] : bytes) [] =
     Some (RtmpChunkParser.Done, parser', buf',
           option_list (c_metadata c) ++ option_list (c_audio c) ++ option_list (c_video c) ++ c_gop c)).
Proof.
  intros Hs Hsize Hok Hparser s' sends Hseg.
  destruct (setPublisher_new p s Hs) as (Hc & _ & Hp).
  destruct (run_cached evs _ p [] Hp Hc) as [_ Hc']. fold s' in Hc'. cbn [app] in Hc'.
  subst sends. unfold replayCachedMessagesToPlayer in *.
  destruct (decide (player ∈ connected)) as [Hin|Hout].
  - rewrite bool_decide_eq_false_2 in * by tauto. split_and!; [|done|].
    + apply Forall_fmap, Forall_true. done.
    + replace (_ ++ _) with (cachedMessages s').
      2: { destruct Hc' as [Hc' _]. injection Hc' as Hmd Ha Hv Hg. unfold cachedMessages.
           by rewrite Hmd, Ha, Hv, Hg. }
      destruct (deliver_stream (B := bytes) size (cachedMessages s') segments parser [])
        as (p' & b' & H & _); try done.
      * eapply Forall_impl; [by apply cached_published|]. intros m Hm.
        by eapply Forall_forall in Hok.
      * rewrite Hseg. unfold stream. rewrite <- received_all with (c := player).
        f_equal. by rewrite <- list_fmap_compose.
      * by exists p', b'.
  - rewrite bool_decide_eq_true_2 in * by done. split_and!; done.
Qed.

Lemma late_joiner_decodes_witness :
  let p := mkConn 1 (str "p") in
  let q := mkConn 2 (str "q") in
  let evs := [Media ∅ (sample_frame [Byte.x17; Byte.x00; Byte.x01]) 128;
              Media ∅ (sample_frame [Byte.x17; Byte.x01]) 128] in
  let s' := run evs (setPublisher p (make (str "/live/cam"))).2 in
  let sends := replayCachedMessagesToPlayer {[q]} q 128 s' in
  Forall (fun send => send.1 = q) sends /\
  (q ∉ ({[q]} : gset conn_ptr) -> sends = []) /\
  (q ∈ ({[q]} : gset conn_ptr) ->
   let c := cache_spec (published evs) in
   exists parser' buf',
     RtmpChunkParser.deliveries (map RtmpChunkParser.Deliver [received q sends])
       RtmpChunkParser.initial ([] : bytes) [] =
     Some (RtmpChunkParser.Done, parser', buf',
           option_list (c_metadata c) ++ option_list (c_audio c) ++ option_list (c_video c) ++ c_gop c)).
Proof.
  intros p q evs s' sends.
  apply (late_joiner_decodes (make (str "/live/cam")) p q evs {[q]} 128); [done|lia| |done|].
  - assert (forall data, length data < 100 -> writer_ok 128 (sample_frame data)) as Hok.
    { intros data Hd. split; [|by left]. unfold msg_wf; cbn. unfold kMessageTypeVideo. lia. }
    repeat (apply Forall_cons; split; [apply Hok; cbn; lia|]). apply Forall_nil_2.
  - cbn [concat]. by rewrite app_nil_r.
Defined.

(** The players of a session are filed under their names. *)
Definition players_wf (s : t) : Prop :=
  forall n c, players_ s !! n = Some c -> conn_name c = n.

Definition sends_of (e : bytes) (players : gmap bytes conn_ptr) : list (conn_ptr * bytes) :=
  (fun '(_, player) => (player, e)) <$> map_to_list players.

Lemma received_absent (c : conn_ptr) (e : bytes) (players : gmap bytes conn_ptr) :
  (forall n, players !! n <> Some c) ->
  filter (fun s => s.1 = c) (sends_of e players)
  = [].
Proof.
  unfold sends_of. intros Hc. apply elem_of_nil_inv. intros send Hsend.
  apply list_elem_of_filter in Hsend as [E Hsend].
  apply list_elem_of_fmap in Hsend as ([n player] & -> & Hin). cbn in E. subst. apply elem_of_map_to_list in Hin. by eapply Hc.
Qed.

Lemma received_present (c : conn_ptr) (n : bytes) (e : bytes) (players : gmap bytes conn_ptr) :
  players !! n = Some c -> (forall n', players !! n' = Some c -> n' = n) ->
  filter (fun s => s.1 = c) (sends_of e players)
  = [(c, e)].
Proof.
  unfold sends_of. intros Hn Huniq. apply Permutation_singleton_r. rewrite <- (map_to_list_delete players n c) by done.
  rewrite fmap_cons, filter_cons_True by done.
  fold (sends_of e (delete n players)). rewrite received_absent; [done|].
  intros n' [Hne H]%lookup_delete_Some. by apply Huniq in H.
Qed.

Lemma broadcast_spec (connected : gset conn_ptr) (m : RtmpMessage) (size : Z) (s : t) :
  players_wf s ->
  let '(s', sends) := broadcastMessage connected m size s in
  (forall c, received c sends =
     if decide (c ∈ connected /\ players_ s !! conn_name c = Some c)
     then RtmpChunkWriter.EncodeMessage m size else []) /\
  (forall n c, players_ s' !! n = Some c <-> players_ s !! n = Some c /\ c ∈ connected) /\
  players_wf s' /\ publisher_ s' = publisher_ s /\ cache_of s' = cache_of s.
Proof.
  intros Hwf. unfold broadcastMessage.
  destruct (bool_decide (players_ s = ∅)) eqn:E; bool_hyps.
  - split_and!; try done.
    + intros c. rewrite E. by rewrite decide_False by (rewrite lookup_empty; naive_solver).
    + intros n c. rewrite E, lookup_empty. naive_solver.
  - set (players := filter _ _).
    assert (forall n c, players !! n = Some c <-> players_ s !! n = Some c /\ c ∈ connected) as Hpl.
    { intros n c. unfold players. by rewrite map_lookup_filter_Some. }
    fold (sends_of (RtmpChunkWriter.EncodeMessage m size) players).
    split_and!; try done.
    + intros c. unfold received. destruct (decide _) as [[Hc Hp]|Hno].
      * rewrite (received_present c (conn_name c)); [|by apply Hpl|].
        -- cbn. by rewrite app_nil_r.
        -- intros n' [H _]%Hpl. by apply Hwf in H.
      * rewrite received_absent; [done|]. intros n [H ?]%Hpl. apply Hno.
        apply Hwf in H as Hn. by subst n.
    + intros n c [H _]%Hpl. by apply Hwf.
Qed.

(** A media message reaches every player that is still connected exactly once,
    encoded with the publisher's chunk size, and nobody else; players whose
    connection is gone are dropped from the session, the others stay; publisher
    and cache are left alone by the broadcast. *)
Theorem broadcast_once (connected : gset conn_ptr) (m : RtmpMessage) (size : Z) (s : t) :
  players_wf s ->
  let '(s', sends) := broadcastMessage connected m size s in
  (forall c, received c sends =
     if decide (c ∈ connected /\ players_ s !! conn_name c = Some c)
     then RtmpChunkWriter.EncodeMessage m size else []) /\
  (forall n c, players_ s' !! n = Some c <-> players_ s !! n = Some c /\ c ∈ connected) /\
  players_wf s' /\ publisher_ s' = publisher_ s /\ cache_of s' = cache_of s.
Proof. apply broadcast_spec. Qed.

Lemma broadcast_once_witness :
  let q := mkConn 2 (str "q") in
  let s := (addPlayer q (make (str "/live/cam"))).2 in
  let m := sample_frame [Byte.x17; Byte.x01] in
  let '(s', sends) := broadcastMessage {[q]} m 128 s in
  (forall c, received c sends =
     if decide (c ∈ ({[q]} : gset conn_ptr) /\ players_ s !! conn_name c = Some c)
     then RtmpChunkWriter.EncodeMessage m 128 else []) /\
  (forall n c, players_ s' !! n = Some c <->
     players_ s !! n = Some c /\ c ∈ ({[q]} : gset conn_ptr)) /\
  players_wf s' /\ publisher_ s' = publisher_ s /\ cache_of s' = cache_of s.
Proof.
  intros q s m. apply (broadcast_once {[q]} m 128 s).
  intros n c H. change (players_ s) with (<[conn_name q := q]> (∅ : gmap bytes conn_ptr)) in H.
  apply lookup_insert_Some in H as [[<- <-]|[_ H]]; [done|]. by rewrite lookup_empty in H.
Defined.
