(* ===== verification/RtmpConnectionContext.v ===== *)
(** * src/rtmp/RtmpConnectionContext.h, src/rtmp/RtmpConnectionContext.cc

    The state of one RTMP connection, which lives in the context slot of its
    TcpConnection. *)

From S2P Require Import Prelude Bytes Amf0 RtmpTypes ChunkParser RtmpHandshake.

Module RtmpConnectionContext.

Local Open Scope Z_scope.

Record t := mk {
  role_ : ConnectionRole;
  inChunkSize_ : Z;
  outChunkSize_ : Z;
  acknowledgementWindow_ : Z;
  peerBandwidth_ : Z;
  receivedBytes_ : Z;
  app_ : bytes;
  tcUrl_ : bytes;
  streamName_ : bytes;
  publishType_ : bytes;
  objectEncoding_ : Z;
  streamId_ : Z;
  nextStreamId_ : Z;
  session_ : option nat;   (** std::weak_ptr: the session object it was bound to, or none *)
  handshake_ : HandshakeState;
  chunkParser_ : RtmpChunkParser.t;
  handler_ : bool;   (** whether bindHandler gave the connection its RtmpConnection *)
}.

(** [RtmpConnectionContext{}] *)
Definition initial : t :=
  mk kUnknown kDefaultChunkSize kDefaultChunkSize kDefaultAcknowledgementWindow
     kDefaultPeerBandwidth 0 [] [] [] [] double_zero 0 1 None RtmpHandshake.initial RtmpChunkParser.initial false.

Definition setRole (v : ConnectionRole) (c : t) : t :=
  mk v (inChunkSize_ c) (outChunkSize_ c) (acknowledgementWindow_ c) (peerBandwidth_ c)
     (receivedBytes_ c) (app_ c) (tcUrl_ c) (streamName_ c) (publishType_ c)
     (objectEncoding_ c) (streamId_ c) (nextStreamId_ c) (session_ c) (handshake_ c)
     (chunkParser_ c) (handler_ c).

Definition setInChunkSize (v : Z) (c : t) : t :=
  mk (role_ c) v (outChunkSize_ c) (acknowledgementWindow_ c) (peerBandwidth_ c)
     (receivedBytes_ c) (app_ c) (tcUrl_ c) (streamName_ c) (publishType_ c)
     (objectEncoding_ c) (streamId_ c) (nextStreamId_ c) (session_ c) (handshake_ c)
     (chunkParser_ c) (handler_ c).

Definition setOutChunkSize (v : Z) (c : t) : t :=
  mk (role_ c) (inChunkSize_ c) v (acknowledgementWindow_ c) (peerBandwidth_ c)
     (receivedBytes_ c) (app_ c) (tcUrl_ c) (streamName_ c) (publishType_ c)
     (objectEncoding_ c) (streamId_ c) (nextStreamId_ c) (session_ c) (handshake_ c)
     (chunkParser_ c) (handler_ c).

Definition setAcknowledgementWindow (v : Z) (c : t) : t :=
  mk (role_ c) (inChunkSize_ c) (outChunkSize_ c) v (peerBandwidth_ c) (receivedBytes_ c)
     (app_ c) (tcUrl_ c) (streamName_ c) (publishType_ c) (objectEncoding_ c) (streamId_ c)
     (nextStreamId_ c) (session_ c) (handshake_ c) (chunkParser_ c) (handler_ c).

Definition setPeerBandwidth (v : Z) (c : t) : t :=
  mk (role_ c) (inChunkSize_ c) (outChunkSize_ c) (acknowledgementWindow_ c) v
     (receivedBytes_ c) (app_ c) (tcUrl_ c) (streamName_ c) (publishType_ c)
     (objectEncoding_ c) (streamId_ c) (nextStreamId_ c) (session_ c) (handshake_ c)
     (chunkParser_ c) (handler_ c).

Definition setReceivedBytes (v : Z) (c : t) : t :=
  mk (role_ c) (inChunkSize_ c) (outChunkSize_ c) (acknowledgementWindow_ c) (peerBandwidth_ c)
      v (app_ c) (tcUrl_ c) (streamName_ c) (publishType_ c) (objectEncoding_ c)
     (streamId_ c) (nextStreamId_ c) (session_ c) (handshake_ c) (chunkParser_ c) (handler_ c)
     .

Definition setApp (v : bytes) (c : t) : t :=
  mk (role_ c) (inChunkSize_ c) (outChunkSize_ c) (acknowledgementWindow_ c) (peerBandwidth_ c)
      (receivedBytes_ c) v (tcUrl_ c) (streamName_ c) (publishType_ c) (objectEncoding_ c)
     (streamId_ c) (nextStreamId_ c) (session_ c) (handshake_ c) (chunkParser_ c) (handler_ c)
     .

Definition setTcUrl (v : bytes) (c : t) : t :=
  mk (role_ c) (inChunkSize_ c) (outChunkSize_ c) (acknowledgementWindow_ c) (peerBandwidth_ c)
      (receivedBytes_ c) (app_ c) v (streamName_ c) (publishType_ c) (objectEncoding_ c)
     (streamId_ c) (nextStreamId_ c) (session_ c) (handshake_ c) (chunkParser_ c) (handler_ c)
     .

Definition setObjectEncoding (v : Z) (c : t) : t :=
  mk (role_ c) (inChunkSize_ c) (outChunkSize_ c) (acknowledgementWindow_ c) (peerBandwidth_ c)
      (receivedBytes_ c) (app_ c) (tcUrl_ c) (streamName_ c) (publishType_ c) v (streamId_ c)
      (nextStreamId_ c) (session_ c) (handshake_ c) (chunkParser_ c) (handler_ c).

Definition setStreamId (v : Z) (c : t) : t :=
  mk (role_ c) (inChunkSize_ c) (outChunkSize_ c) (acknowledgementWindow_ c) (peerBandwidth_ c)
      (receivedBytes_ c) (app_ c) (tcUrl_ c) (streamName_ c) (publishType_ c)
     (objectEncoding_ c) v (nextStreamId_ c) (session_ c) (handshake_ c) (chunkParser_ c)
     (handler_ c).

Definition setNextStreamId (v : Z) (c : t) : t :=
  mk (role_ c) (inChunkSize_ c) (outChunkSize_ c) (acknowledgementWindow_ c) (peerBandwidth_ c)
      (receivedBytes_ c) (app_ c) (tcUrl_ c) (streamName_ c) (publishType_ c)
     (objectEncoding_ c) (streamId_ c) v (session_ c) (handshake_ c) (chunkParser_ c)
     (handler_ c).

Definition setStreamName (v : bytes) (c : t) : t :=
  mk (role_ c) (inChunkSize_ c) (outChunkSize_ c) (acknowledgementWindow_ c) (peerBandwidth_ c)
      (receivedBytes_ c) (app_ c) (tcUrl_ c) v (publishType_ c) (objectEncoding_ c)
     (streamId_ c) (nextStreamId_ c) (session_ c) (handshake_ c) (chunkParser_ c) (handler_ c)
     .

Definition setPublishType (v : bytes) (c : t) : t :=
  mk (role_ c) (inChunkSize_ c) (outChunkSize_ c) (acknowledgementWindow_ c) (peerBandwidth_ c)
      (receivedBytes_ c) (app_ c) (tcUrl_ c) (streamName_ c) v (objectEncoding_ c)
     (streamId_ c) (nextStreamId_ c) (session_ c) (handshake_ c) (chunkParser_ c) (handler_ c)
     .

Definition setSession (v : option nat) (c : t) : t :=
  mk (role_ c) (inChunkSize_ c) (outChunkSize_ c) (acknowledgementWindow_ c) (peerBandwidth_ c)
      (receivedBytes_ c) (app_ c) (tcUrl_ c) (streamName_ c) (publishType_ c)
     (objectEncoding_ c) (streamId_ c) (nextStreamId_ c) v (handshake_ c) (chunkParser_ c)
     (handler_ c).

Definition setHandshake (v : HandshakeState) (c : t) : t :=
  mk (role_ c) (inChunkSize_ c) (outChunkSize_ c) (acknowledgementWindow_ c) (peerBandwidth_ c)
      (receivedBytes_ c) (app_ c) (tcUrl_ c) (streamName_ c) (publishType_ c)
     (objectEncoding_ c) (streamId_ c) (nextStreamId_ c) (session_ c) v (chunkParser_ c)
     (handler_ c).

Definition setChunkParser (v : RtmpChunkParser.t) (c : t) : t :=
  mk (role_ c) (inChunkSize_ c) (outChunkSize_ c) (acknowledgementWindow_ c) (peerBandwidth_ c)
      (receivedBytes_ c) (app_ c) (tcUrl_ c) (streamName_ c) (publishType_ c)
     (objectEncoding_ c) (streamId_ c) (nextStreamId_ c) (session_ c) (handshake_ c) v
     (handler_ c).

Definition setHandler (v : bool) (c : t) : t :=
  mk (role_ c) (inChunkSize_ c) (outChunkSize_ c) (acknowledgementWindow_ c) (peerBandwidth_ c)
      (receivedBytes_ c) (app_ c) (tcUrl_ c) (streamName_ c) (publishType_ c)
     (objectEncoding_ c) (streamId_ c) (nextStreamId_ c) (session_ c) (handshake_ c)
     (chunkParser_ c) v.

Definition addReceivedBytes (n : nat) (c : t) : t :=
  setReceivedBytes (u64 (receivedBytes_ c + Z.of_nat n)) c.

(** [return nextStreamId_++;] *)
Definition allocateNextStreamId (c : t) : Z * t :=
  (nextStreamId_ c, setNextStreamId (u32 (nextStreamId_ c + 1)) c).

Definition streamKey (c : t) : bytes :=
  if (length (app_ c) =? 0)%nat || (length (streamName_ c) =? 0)%nat then []
  else MakeStreamKey (app_ c) (streamName_ c).

Definition bindSession (session : nat) (c : t) : t := setSession (Some session) c.
Definition clearSession (c : t) : t := setSession None c.

(** [bindHandler(std::make_shared<RtmpConnection>(this))] *)
Definition bindHandler (c : t) : t := setHandler true c.

Lemma streamKey_nil c : streamKey c = [] <-> app_ c = [] \/ streamName_ c = [].
Proof.
  unfold streamKey, MakeStreamKey.
  destruct (app_ c), (streamName_ c); cbn; split; intros; naive_solver.
Qed.

End RtmpConnectionContext.
