(* ===== verification/RtmpServer.v ===== *)
(** * src/rtmp/RtmpSessionManager.cc, src/rtmp/RtmpConnection.cc, src/rtmp/RtmpServer.cc

    The session table, the handlers of RTMP messages and commands, and the
    server that dispatches connection events to them.  A handler is a function
    of the connection's context and the server's state; what it sends is
    appended to the server's outputs in order. *)

From S2P Require Import Prelude Bytes ByteBuffer StdMap Amf0 RtmpTypes ChunkWriter ChunkParser.
From S2P Require Import RtmpHandshake RtmpCommand RtmpSession RtmpConnectionContext.
Import RtmpConnectionContext.

(** ** RtmpSessionManager

    A [std::shared_ptr<RtmpSession>] is the address of an object in [heap].  The
    table holds the only strong references that outlive a handler, so an object
    dies when its entry is erased, and a [weak_ptr] locks exactly when its
    object is still in the heap.  Addresses are not reused ([next_ptr]): a
    control block stays while a weak reference exists. *)
Module RtmpSessionManager.

Record t := mk {
  sessions_ : gmap bytes nat;
  heap : gmap nat RtmpSession.t;
  next_ptr : nat;
}.

Definition initial : t := mk ∅ ∅ 0.

Definition getOrCreate (stream_key : bytes) (m : t) : nat * t :=
  match sessions_ m !! stream_key with
  | Some p => (p, m)
  | None =>
      let p := next_ptr m in
      (p, mk (<[stream_key := p]> (sessions_ m))
             (<[p := RtmpSession.make stream_key]> (heap m)) (S p))
  end.

Definition find (stream_key : bytes) (m : t) : option nat := sessions_ m !! stream_key.

Definition removeIfEmpty (stream_key : bytes) (m : t) : t :=
  match sessions_ m !! stream_key with
  | Some p =>
      match heap m !! p with
      | Some s => if RtmpSession.empty s
                  then mk (delete stream_key (sessions_ m)) (delete p (heap m)) (next_ptr m)
                  else m
      | None => m
      end
  | None => m
  end.

(** [session->method(...)] on the object at [p]. *)
Definition update (f : RtmpSession.t -> RtmpSession.t) (p : nat) (m : t) : t :=
  mk (sessions_ m) (alter f p (heap m)) (next_ptr m).

(** [std::weak_ptr::lock] *)
Definition lock (w : option nat) (m : t) : option nat :=
  p ← w; if decide (is_Some (heap m !! p)) then Some p else None.

End RtmpSessionManager.

(** ** The server's state *)

(** What reaches a TcpConnection: [send] and [shutdown]. *)
Inductive output := Send (data : bytes) | Shutdown.

Record server := mkServer {
  sessionManager_ : RtmpSessionManager.t;
  connected : gset conn_ptr;             (** connections in state kConnected *)
  outputs : list (conn_ptr * output);
}.

Definition set_manager (m : RtmpSessionManager.t) (srv : server) : server :=
  mkServer m (connected srv) (outputs srv).

Definition send (conn : conn_ptr) (data : bytes) (srv : server) : server :=
  mkServer (sessionManager_ srv) (connected srv) (outputs srv ++ [(conn, Send data)]).

Definition send_all (sends : list (conn_ptr * bytes)) (srv : server) : server :=
  mkServer (sessionManager_ srv) (connected srv)
    (outputs srv ++ ((fun '(c, d) => (c, Send d)) <$> sends)).

(** [TcpConnection::shutdown]: the state leaves kConnected. *)
Definition shutdown (conn : conn_ptr) (srv : server) : server :=
  mkServer (sessionManager_ srv) (connected srv ∖ {[conn]}) (outputs srv ++ [(conn, Shutdown)]).

Section server.
(** [authCallback_]: the function given to setAuthCallback, if any, with the
    stream key, the ticket and whether it is for publishing. *)
Context (authCallback_ : option (bytes -> bytes -> bool -> bool)).

(** ** RtmpServer, what the handlers call *)

Definition authorizePublish (stream_key ticket : bytes) : bool :=
  match authCallback_ with None => true | Some cb => cb stream_key ticket true end.

Definition authorizePlay (stream_key ticket : bytes) : bool :=
  match authCallback_ with None => true | Some cb => cb stream_key ticket false end.

Definition getOrCreateSession (stream_key : bytes) (srv : server) : nat * server :=
  let '(p, m) := RtmpSessionManager.getOrCreate stream_key (sessionManager_ srv) in
  (p, set_manager m srv).

Definition cleanupConnection (conn : conn_ptr) (context : option t) (srv : server) : server :=
  match context with
  | None => srv
  | Some context =>
      let role := role_ context in
      let stream_key := streamKey context in
      if length stream_key =? 0 then srv
      else
        let m := sessionManager_ srv in
        match RtmpSessionManager.find stream_key m with
        | None => srv
        | Some session =>
            let m :=
              match role with
              | kPublisher => RtmpSessionManager.update (RtmpSession.clearPublisher conn) session m
              | kPlayer => RtmpSessionManager.update (RtmpSession.removePlayer conn) session m
              | kUnknown => m
              end in
            set_manager (RtmpSessionManager.removeIfEmpty stream_key m) srv
        end
  end.

Definition detachConnectionFromSession (conn : conn_ptr) (context : t) (srv : server)
    : t * server :=
  let srv := cleanupConnection conn (Some context) srv in
  (setPublishType [] (setStreamName [] (setStreamId 0 (setRole kUnknown (clearSession context)))),
   srv).

(** ** RtmpConnection: the senders *)

Definition send_message (conn : conn_ptr) (message : RtmpMessage) (srv : server) : server :=
  send conn (RtmpChunkWriter.EncodeMessage message kDefaultChunkSize) srv.

Definition sendWindowAcknowledgementSize (conn : conn_ptr) (window_size : Z) : server -> server :=
  send_message conn (windowAcknowledgementSize_message window_size).
Definition sendSetPeerBandwidth (conn : conn_ptr) (peer_bandwidth : Z) : server -> server :=
  send_message conn (setPeerBandwidth_message peer_bandwidth).
Definition sendSetChunkSize (conn : conn_ptr) (chunk_size : Z) : server -> server :=
  send_message conn (setChunkSize_message chunk_size).
Definition sendConnectSuccess (conn : conn_ptr) (command : RtmpCommandMessage) : server -> server :=
  send_message conn (connectSuccess_message command).
Definition sendCreateStreamResult (conn : conn_ptr) (command : RtmpCommandMessage)
    (stream_id : Z) : server -> server :=
  send_message conn (createStreamResult_message command stream_id).
Definition sendOnStatus (conn : conn_ptr) (message_stream_id : Z)
    (code description : String.string) (error : bool) : server -> server :=
  send_message conn (onStatus_message message_stream_id (str code) (str description) error).

(** ** RtmpConnection: the handlers *)

(** [server_ != nullptr] *)
Context (server_ : bool).

Definition handler := t -> server -> bool * t * server.

Definition handleConnect (conn : conn_ptr) (command : RtmpCommandMessage) : handler :=
  fun context srv =>
  if negb (isObjectLike (commandObject command)) then (false, context, srv)
  else
    let object := objectValue (commandObject command) in
    match StdMap.find (str "app") object with
    | Some (String app) =>
        let context := setApp app context in
        let context := match StdMap.find (str "tcUrl") object with
                       | Some (String tc_url) => setTcUrl tc_url context
                       | _ => context
                       end in
        let context := match StdMap.find (str "objectEncoding") object with
                       | Some (Number object_encoding) => setObjectEncoding object_encoding context
                       | _ => context
                       end in
        let srv := sendWindowAcknowledgementSize conn (acknowledgementWindow_ context) srv in
        let srv := sendSetPeerBandwidth conn (peerBandwidth_ context) srv in
        let srv := sendSetChunkSize conn (outChunkSize_ context) srv in
        let srv := sendConnectSuccess conn command srv in
        (true, context, srv)
    | _ => (false, context, srv)
    end.

Definition handleCreateStream (conn : conn_ptr) (command : RtmpCommandMessage) : handler :=
  fun context srv =>
  let '(stream_id, context) := allocateNextStreamId context in
  let context := setStreamId stream_id context in
  (true, context, sendCreateStreamResult conn command stream_id srv).

Definition handlePublish (conn : conn_ptr) (command : RtmpCommandMessage) : handler :=
  fun context srv =>
  if negb server_ then (false, context, srv)
  else if (streamId_ context =? 0)%Z then (false, context, srv)
  else if negb (command_messageStreamId command =? streamId_ context)%Z
  then (false, context, srv)
  else match arguments command with
  | String raw_name :: more =>
      match ParseStreamTarget raw_name with
      | None => (false, context, srv)
      | Some target =>
          let context := setStreamName (target_streamName target) context in
          let context := match more with
                         | String publish_type :: _ => setPublishType publish_type context
                         | _ => context
                         end in
          let stream_key := streamKey context in
          if length stream_key =? 0 then (false, context, srv)
          else if negb (authorizePublish stream_key (ticket target)) then
            (false, context,
             sendOnStatus conn (streamId_ context) "NetStream.Publish.BadName"
               "Invalid RTMP ticket." true srv)
          else
            let '(session, srv) := getOrCreateSession stream_key srv in
            let m := sessionManager_ srv in
            match RtmpSessionManager.heap m !! session with
            | None => (false, context, srv)
            | Some s =>
                let '(ok, s) := RtmpSession.setPublisher conn s in
                let srv := set_manager (RtmpSessionManager.update (fun _ => s) session m) srv in
                if negb ok then
                  (true, context,
                   sendOnStatus conn (streamId_ context) "NetStream.Publish.BadName"
                     "Stream already publishing." true srv)
                else
                  let context := bindSession session (setRole kPublisher context) in
                  (true, context,
                   sendOnStatus conn (streamId_ context) "NetStream.Publish.Start"
                     "Start publishing." false srv)
            end
      end
  | _ => (false, context, srv)
  end.

Definition handlePlay (conn : conn_ptr) (command : RtmpCommandMessage) : handler :=
  fun context srv =>
  if negb server_ then (false, context, srv)
  else if (streamId_ context =? 0)%Z then (false, context, srv)
  else if negb (command_messageStreamId command =? streamId_ context)%Z
  then (false, context, srv)
  else match arguments command with
  | String raw_name :: _ =>
      match ParseStreamTarget raw_name with
      | None => (false, context, srv)
      | Some target =>
          let context := setStreamName (target_streamName target) context in
          let stream_key := streamKey context in
          if length stream_key =? 0 then (false, context, srv)
          else if negb (authorizePlay stream_key (ticket target)) then
            (false, context,
             sendOnStatus conn (streamId_ context) "NetStream.Play.Failed"
               "Invalid RTMP ticket." true srv)
          else
            let '(session, srv) := getOrCreateSession stream_key srv in
            let m := sessionManager_ srv in
            match RtmpSessionManager.heap m !! session with
            | None => (false, context, srv)
            | Some s =>
                let s := (RtmpSession.addPlayer conn s).2 in
                let srv := set_manager (RtmpSessionManager.update (fun _ => s) session m) srv in
                let context := bindSession session (setRole kPlayer context) in
                let srv := sendOnStatus conn (streamId_ context) "NetStream.Play.Start"
                             "Start playing." false srv in
                (true, context,
                 send_all (RtmpSession.replayCachedMessagesToPlayer (connected srv) conn
                             (outChunkSize_ context) s) srv)
            end
      end
  | _ => (false, context, srv)
  end.

Definition handleMediaMessage (conn : conn_ptr) (message : RtmpMessage) : handler :=
  fun context srv =>
  if negb (bool_decide (role_ context = kPublisher)) then (true, context, srv)
  else
    let m := sessionManager_ srv in
    match RtmpSessionManager.lock (session_ context) m with
    | None => (false, context, srv)
    | Some session =>
        match RtmpSessionManager.heap m !! session with
        | None => (false, context, srv)
        | Some s =>
            let '(s, sends) :=
              RtmpSession.onMediaMessage (connected srv) message (outChunkSize_ context) s in
            let srv := set_manager (RtmpSessionManager.update (fun _ => s) session m) srv in
            (true, context, send_all sends srv)
        end
    end.

Definition handleDeleteStream (conn : conn_ptr) (command : RtmpCommandMessage) : handler :=
  fun context srv =>
  if negb server_ then (false, context, srv)
  else if bool_decide (role_ context = kUnknown) ||
          bool_decide (RtmpSessionManager.lock (session_ context) (sessionManager_ srv) = None)
  then (true, context, srv)
  else if negb (command_messageStreamId command =? 0)%Z && negb (streamId_ context =? 0)%Z &&
          negb (command_messageStreamId command =? streamId_ context)%Z
  then (false, context, srv)
  else
    let '(context, srv) := detachConnectionFromSession conn context srv in
    (true, context, srv).

Definition handleCommandMessage (conn : conn_ptr) (command : RtmpCommandMessage) : handler :=
  fun context srv =>
  if bool_decide (name command = str "connect") then handleConnect conn command context srv
  else if bool_decide (name command = str "createStream")
  then handleCreateStream conn command context srv
  else if bool_decide (name command = str "publish") then handlePublish conn command context srv
  else if bool_decide (name command = str "play") then handlePlay conn command context srv
  else if bool_decide (name command = str "deleteStream") ||
          bool_decide (name command = str "closeStream")
  then handleDeleteStream conn command context srv
  else (true, context, srv).

Definition handleMessage (conn : conn_ptr) (message : RtmpMessage) : handler :=
  fun context srv =>
  if (typeId message =? kMessageTypeSetChunkSize)%Z && (4 <=? length (payload message)) then
    let chunk_size := ReadUint32BE (payload message) in
    let context := setInChunkSize chunk_size context in
    let context := setChunkParser
                     (RtmpChunkParser.setInChunkSize chunk_size (chunkParser_ context)) context in
    (true, context, srv)
  else if (typeId message =? kMessageTypeCommandAmf0)%Z then
    match DecodeCommandMessageAmf0 message with
    | Ok command => handleCommandMessage conn command context srv
    | _ => (false, context, srv)
    end
  else if (typeId message =? kMessageTypeDataAmf0)%Z || (typeId message =? kMessageTypeAudio)%Z ||
          (typeId message =? kMessageTypeVideo)%Z
  then handleMediaMessage conn message context srv
  else (true, context, srv).

(** The loop over the messages of one read; the first failure ends it. *)
Fixpoint handleMessages (conn : conn_ptr) (messages : list RtmpMessage) : handler :=
  fun context srv =>
  match messages with
  | [] => (true, context, srv)
  | message :: messages' =>
      let '(ok, context, srv) := handleMessage conn message context srv in
      if negb ok then (false, context, srv) else handleMessages conn messages' context srv
  end.

(** ** RtmpConnection::onMessage

    [rd] gives the random bytes of S1.  [None] would be a write outside a
    string or payload; [server_invariant] shows that it does not happen. *)
Section on_message.
Context {B : Type} `{ByteBuffer B} (rd : nat -> Z).

Definition onMessage_chunks (conn : conn_ptr) (buf : B) (context : t) (srv : server)
    : option (bool * t * server * B) :=
  if readableBytes buf =? 0 then Some (true, context, srv, buf)
  else
    '(st, parser, buf, messages) ← RtmpChunkParser.parse (chunkParser_ context) buf [];
    let context := setChunkParser parser context in
    match st with
    | RtmpChunkParser.OutOfBounds => None
    | RtmpChunkParser.Failed _ => Some (false, context, srv, buf)
    | RtmpChunkParser.Done =>
        let '(ok, context, srv) := handleMessages conn messages context srv in
        Some (ok, context, srv, buf)
    end.

Definition onMessage (conn : conn_ptr) (buf : B) (context : t) (srv : server)
    : option (bool * t * server * B) :=
  let context := addReceivedBytes (readableBytes buf) context in
  if negb (RtmpHandshake.isDone (handshake_ context)) then
    '(st, state, buf, response) ← RtmpHandshake.process rd (handshake_ context) buf [];
    let context := setHandshake state context in
    match st with
    | RtmpHandshake.OutOfBounds => None
    | RtmpHandshake.Failed _ => Some (false, context, srv, buf)
    | RtmpHandshake.Done =>
        let srv := if length response =? 0 then srv else send conn response srv in
        if negb (RtmpHandshake.isDone (handshake_ context)) then Some (true, context, srv, buf)
        else onMessage_chunks conn buf context srv
    end
  else onMessage_chunks conn buf context srv.

(** ** RtmpServer::onConnection and RtmpServer::onMessage

    [world] is the server, the context slots of the TcpConnections and their
    input buffers. *)
Record world := mkWorld {
  srv : server;
  contexts : gmap conn_ptr t;
  buffers : gmap conn_ptr B;
}.

Definition initial_world : world :=
  mkWorld (mkServer RtmpSessionManager.initial ∅ []) ∅ ∅.

(** TcpConnection::connectEstablished, which calls onConnection. *)
Definition onConnected (conn : conn_ptr) (w : world) : world :=
  mkWorld (mkServer (sessionManager_ (srv w)) ({[conn]} ∪ connected (srv w)) (outputs (srv w)))
    (<[conn := bindHandler initial]> (contexts w)) (<[conn := buf_new]> (buffers w)).

(** TcpConnection::handleClose: the connection leaves kConnected, onConnection
    cleans up, and the connection has no more events. *)
Definition onDisconnected (conn : conn_ptr) (w : world) : world :=
  let s := mkServer (sessionManager_ (srv w)) (connected (srv w) ∖ {[conn]}) (outputs (srv w)) in
  mkWorld (cleanupConnection conn (contexts w !! conn) s) (delete conn (contexts w))
    (delete conn (buffers w)).

(** RtmpServer::onMessage, the message callback, on the input buffer. *)
Definition RtmpServer_onMessage (conn : conn_ptr) (buf : B) (w : world) : option world :=
  match contexts w !! conn with
  | None => Some (mkWorld (shutdown conn (srv w)) (contexts w) (<[conn := buf]> (buffers w)))
  | Some context =>
      if negb (handler_ context)
      then Some (mkWorld (shutdown conn (srv w)) (contexts w) (<[conn := buf]> (buffers w)))
      else
        '(ok, context, s, buf) ← onMessage conn buf context (srv w);
        Some (mkWorld (if negb ok then shutdown conn s else s)
                (<[conn := context]> (contexts w)) (<[conn := buf]> (buffers w)))
  end.

(** Bytes were read into the input buffer and the message callback runs. *)
Definition onBytes (conn : conn_ptr) (data : bytes) (w : world) : option world :=
  RtmpServer_onMessage conn (append data (default buf_new (buffers w !! conn))) w.

End on_message.
End server.

Arguments world B : clear implicits.
