(* ===== verification/RtmpServerFacts.v ===== *)
(** * Invariants of the RTMP server

    What holds in every state the server can reach, whatever bytes its clients
    send and however their connections interleave; and what the handlers do, on
    their successful and their refusing branches. *)

From S2P Require Import Prelude Bytes ByteBuffer StdMap Amf0 RtmpTypes ChunkWriter ChunkParser.
From S2P Require Import ChunkParserFacts RtmpHandshake RtmpCommand RtmpSession.
From S2P Require Import RtmpConnectionContext RtmpServer.
Import RtmpSessionManager. Import RtmpConnectionContext.

(** ** The invariant of the session table *)

(** Names identify the connections the server has ever seen: TcpServer numbers
    them (see TcpServer.v). *)
Definition unique_names (seen : gset conn_ptr) : Prop :=
  forall c c', c ∈ seen -> c' ∈ seen -> conn_name c = conn_name c' -> c = c'.

Definition session_ok (seen : gset conn_ptr) (s : RtmpSession.t) : Prop :=
  (exists ms, RtmpSession.cached ms s) /\ players_wf s /\
  (forall c, RtmpSession.publisher_ s = Some c -> c ∈ seen) /\
  (forall n c, RtmpSession.players_ s !! n = Some c -> c ∈ seen).

Record manager_ok (seen : gset conn_ptr) (m : RtmpSessionManager.t) : Prop := {
  table_heap k p : sessions_ m !! k = Some p ->
    exists s, heap m !! p = Some s /\ RtmpSession.streamKey_ s = k;
  heap_table p s : heap m !! p = Some s -> sessions_ m !! RtmpSession.streamKey_ s = Some p;
  heap_fresh p s : heap m !! p = Some s -> p < next_ptr m;
  heap_sessions p s : heap m !! p = Some s -> session_ok seen s;
}.

(** What the authorisation callback may grant: publishing ([true]) or playing
    ([false]) a stream. *)
Definition sound (auth : option (bytes -> bytes -> bool -> bool)) (granted : bool -> bytes -> Prop) : Prop :=
  (forall key tk, authorizePublish auth key tk = true -> granted true key) /\
  (forall key tk, authorizePlay auth key tk = true -> granted false key).

(** What one callback grants, with some ticket. *)
Definition allowed (auth : option (bytes -> bytes -> bool -> bool)) (publish : bool) (key : bytes) : Prop :=
  exists tk, (if publish then authorizePublish auth key tk else authorizePlay auth key tk) = true.

Lemma sound_allowed auth : sound auth (allowed auth).
Proof. split; intros key tk Htk; by exists tk. Qed.

Section authorisation.
Context (granted : bool -> bytes -> Prop).

(** The stream of the session was granted for the role. *)
Definition authorized (role : ConnectionRole) (s : RtmpSession.t) : Prop :=
  match role with
  | kPublisher => granted true (RtmpSession.streamKey_ s)
  | kPlayer => granted false (RtmpSession.streamKey_ s)
  | kUnknown => True
  end.

(** A publisher is bound to a live session that it publishes; a player whose
    connection is up is bound to a live session that has it; both were
    authorised for the stream. *)
Definition bound_ok (m : RtmpSessionManager.t) (conns : gset conn_ptr) (c : conn_ptr) (x : t)
    : Prop :=
  (role_ x = kPublisher -> exists p s,
     session_ x = Some p /\ heap m !! p = Some s /\ RtmpSession.publisher_ s = Some c) /\
  (role_ x = kPlayer -> c ∈ conns -> exists p s,
     session_ x = Some p /\ heap m !! p = Some s /\
     RtmpSession.players_ s !! conn_name c = Some c) /\
  (forall p, session_ x = Some p -> p < next_ptr m /\
     forall s, heap m !! p = Some s -> authorized (role_ x) s) /\
  outChunkSize_ x = kDefaultChunkSize.

Record server_ok (seen : gset conn_ptr) (ctxs : gmap conn_ptr t) (sv : server) : Prop := {
  sv_names : unique_names seen;
  sv_manager : manager_ok seen (sessionManager_ sv);
  sv_seen c : is_Some (ctxs !! c) -> c ∈ seen;
  sv_bound c x : ctxs !! c = Some x -> bound_ok (sessionManager_ sv) (connected sv) c x;
}.

End authorisation.

(** What an operation of connection [c] may do to a session: it leaves the
    others' places in it alone. *)
Definition keeps (c : conn_ptr) (conns : gset conn_ptr) (s s' : RtmpSession.t) : Prop :=
  RtmpSession.streamKey_ s' = RtmpSession.streamKey_ s /\
  (forall c', c' <> c -> RtmpSession.publisher_ s = Some c' -> RtmpSession.publisher_ s' = Some c') /\
  (forall c', conn_name c' <> conn_name c -> c' ∈ conns ->
     RtmpSession.players_ s !! conn_name c' = Some c' ->
     RtmpSession.players_ s' !! conn_name c' = Some c').

(** The same for the whole table: sessions only disappear when nobody else is in
    them, and addresses are not used again. *)
Definition manager_keeps (c : conn_ptr) (conns : gset conn_ptr) (m m' : RtmpSessionManager.t)
    : Prop :=
  next_ptr m <= next_ptr m' /\
  (forall p, p < next_ptr m -> heap m !! p = None -> heap m' !! p = None) /\
  forall p s, heap m !! p = Some s ->
    (exists s', heap m' !! p = Some s' /\ keeps c conns s s') \/
    (heap m' !! p = None /\
     (forall c', c' <> c -> RtmpSession.publisher_ s <> Some c') /\
     (forall c', conn_name c' <> conn_name c -> c' ∈ conns ->
        RtmpSession.players_ s !! conn_name c' <> Some c')).

Section lemmas.
Context (auth : option (bytes -> bytes -> bool -> bool)) (granted : bool -> bytes -> Prop).
Context (Hsound : sound auth granted).
Context (seen : gset conn_ptr).
Implicit Types (c : conn_ptr) (m : RtmpSessionManager.t) (conns : gset conn_ptr).

Lemma keeps_refl c conns s : keeps c conns s s.
Proof. split_and!; auto. Qed.

Lemma manager_keeps_refl c conns m : manager_keeps c conns m m.
Proof. split_and!; [done|done|]. intros p s H. left. eauto using keeps_refl. Qed.

Lemma manager_keeps_trans c conns m1 m2 m3 :
  manager_ok seen m1 ->
  manager_keeps c conns m1 m2 -> manager_keeps c conns m2 m3 -> manager_keeps c conns m1 m3.
Proof.
  intros Hm (Hn12 & Hd12 & H12) (Hn23 & Hd23 & H23). split_and!; [lia| |].
  - intros p Hlt Hp. apply Hd23; [lia|auto].
  - intros p s Hp. apply (heap_fresh _ _ Hm) in Hp as Hlt.
    destruct (H12 p s Hp) as [(s2 & Hp2 & Hk1 & Hk2 & Hk3)|(Hp2 & Ho)].
    + destruct (H23 p s2 Hp2) as [(s3 & Hp3 & Hk1' & Hk2' & Hk3')|(Hp3 & Ho1 & Ho2)].
      * left. exists s3. split; [done|]. split_and!; [congruence|naive_solver..].
      * right. split_and!; [done|naive_solver..].
    + right. split; [|done]. apply Hd23; [lia|done].
Qed.

Lemma authorized_key role s s' :
  RtmpSession.streamKey_ s' = RtmpSession.streamKey_ s ->
  authorized granted role s -> authorized granted role s'.
Proof. unfold authorized. by intros ->. Qed.

Lemma session_authorized c conns m m' role w :
  manager_keeps c conns m m' ->
  (forall p, w = Some p -> p < next_ptr m /\
     forall s, heap m !! p = Some s -> authorized granted role s) ->
  forall p, w = Some p -> p < next_ptr m' /\
     forall s, heap m' !! p = Some s -> authorized granted role s.
Proof.
  intros (Hn & Hd & Hk) Hw p Hp. destruct (Hw p Hp) as [Hlt Ha]. split; [lia|].
  intros s' Hs'. destruct (heap m !! p) as [s|] eqn:E.
  - destruct (Hk p s E) as [(s0 & Hs0 & Hkey & _)|(Hno & _)]; [|congruence].
    rewrite Hs' in Hs0. injection Hs0 as <-. eapply authorized_key; [exact Hkey|by apply Ha].
  - rewrite (Hd p) in Hs' by done. done.
Qed.

Lemma bound_keeps c conns m m' c' x :
  manager_keeps c conns m m' -> c' <> c -> conn_name c' <> conn_name c ->
  bound_ok granted m conns c' x -> bound_ok granted m' conns c' x.
Proof.
  intros HK Hne Hname (Hpub & Hpl & Hau & Hout). pose proof HK as (_ & _ & Hk).
  split_and!; [| |by eapply session_authorized|done].
  - intros Hr. destruct (Hpub Hr) as (p & s & Hs & Hp & Hc).
    destruct (Hk p s Hp) as [(s' & Hp' & _ & Hk' & _)|(_ & Ho & _)]; [|by destruct (Ho c')].
    exists p, s'. auto.
  - intros Hr Hin. destruct (Hpl Hr Hin) as (p & s & Hs & Hp & Hc).
    destruct (Hk p s Hp) as [(s' & Hp' & _ & _ & Hk')|(_ & _ & Ho)].
    + exists p, s'. auto.
    + by destruct (Ho c').
Qed.

Lemma bound_context m conns c x x' :
  role_ x' = role_ x -> session_ x' = session_ x -> outChunkSize_ x' = outChunkSize_ x ->
  bound_ok granted m conns c x -> bound_ok granted m conns c x'.
Proof. unfold bound_ok. by intros -> -> ->. Qed.

Lemma bound_mono m m' conns c x :
  (forall q s, heap m !! q = Some s -> heap m' !! q = Some s) -> manager_keeps c conns m m' ->
  bound_ok granted m conns c x -> bound_ok granted m' conns c x.
Proof.
  intros Hm Hk (Hpub & Hpl & Hau & Hout).
  split_and!; [naive_solver|naive_solver|by eapply session_authorized|done].
Qed.

(** ** The operations of the table *)

Lemma make_ok key : session_ok seen (RtmpSession.make key).
Proof.
  split_and!.
  - exists []. apply RtmpSession.cached_nil.
  - intros n c H. cbn in H. by rewrite lookup_empty in H.
  - done.
  - intros n c H. cbn in H. by rewrite lookup_empty in H.
Qed.

Lemma getOrCreate_ok c conns key m p m' :
  manager_ok seen m -> getOrCreate key m = (p, m') ->
  manager_ok seen m' /\
  (exists s, heap m' !! p = Some s /\ RtmpSession.streamKey_ s = key /\
     (heap m !! p = Some s \/ (sessions_ m !! key = None /\ s = RtmpSession.make key))) /\
  manager_keeps c conns m m' /\ (forall q s, heap m !! q = Some s -> heap m' !! q = Some s).
Proof.
  intros Hm. unfold getOrCreate. destruct (sessions_ m !! key) as [q|] eqn:E; intros [= <- <-].
  - split; [done|]. split; [|split; [apply manager_keeps_refl|done]].
    destruct (table_heap _ _ Hm _ _ E) as (s & Hs & Hk). eauto 10.
  - assert (heap m !! next_ptr m = None) as Hnew.
    { destruct (heap m !! next_ptr m) eqn:E'; [|done]. apply (heap_fresh _ _ Hm) in E'. lia. }
    assert (forall q s, heap m !! q = Some s ->
            <[next_ptr m := RtmpSession.make key]> (heap m) !! q = Some s) as Hold.
    { intros q s Hq. rewrite lookup_insert_ne; [done|]. by intros <-; rewrite Hnew in Hq. }
    split; [|split; [|split; [|exact Hold]]].
    + split; cbn.
      * intros k p [[<- <-]|[Hne Hk]]%lookup_insert_Some.
        { exists (RtmpSession.make key). by rewrite lookup_insert_eq. }
        destruct (table_heap _ _ Hm _ _ Hk) as (s & Hs & ?). exists s.
        rewrite lookup_insert_ne; [done|]. by intros <-; rewrite Hnew in Hs.
      * intros p s [[<- <-]|[Hne Hs]]%lookup_insert_Some; cbn; [by rewrite lookup_insert_eq|].
        apply (heap_table _ _ Hm) in Hs. rewrite lookup_insert_ne; [done|].
        intros Heq. rewrite <- Heq, E in Hs. done.
      * intros p s [[<- <-]|[Hne Hs]]%lookup_insert_Some; [lia|].
        apply (heap_fresh _ _ Hm) in Hs. lia.
      * intros p s [[<- <-]|[Hne Hs]]%lookup_insert_Some; [apply make_ok|].
        by apply (heap_sessions _ _ Hm) in Hs.
    + exists (RtmpSession.make key). cbn. rewrite lookup_insert_eq. auto.
    + split_and!; cbn; [lia| |].
      * intros q Hlt Hq. by rewrite lookup_insert_ne by lia.
      * intros q s Hq. left. exists s. split; [auto|apply keeps_refl].
Qed.

Lemma update_ok f p m s :
  manager_ok seen m -> heap m !! p = Some s ->
  RtmpSession.streamKey_ (f s) = RtmpSession.streamKey_ s -> session_ok seen (f s) ->
  manager_ok seen (update f p m).
Proof.
  intros Hm Hp Hkey Hok. split; cbn.
  - intros k q Hk. destruct (table_heap _ _ Hm _ _ Hk) as (s' & Hs & ?).
    destruct (decide (q = p)) as [->|Hne].
    + exists (f s'). rewrite lookup_alter_eq, Hs. simplify_eq. by rewrite Hkey.
    + exists s'. by rewrite lookup_alter_ne.
  - intros q s' [[<- (s0 & H0 & ->)]|[Hne Hs]]%lookup_alter_Some.
    + simplify_eq. rewrite Hkey. by apply (heap_table _ _ Hm).
    + by apply (heap_table _ _ Hm).
  - intros q s' [[<- (s0 & H0 & ->)]|[Hne Hs]]%lookup_alter_Some; by eapply (heap_fresh _ _ Hm).
  - intros q s' [[<- (s0 & H0 & ->)]|[Hne Hs]]%lookup_alter_Some.
    + by simplify_eq.
    + by eapply (heap_sessions _ _ Hm).
Qed.

Lemma update_keeps c conns f p m s :
  heap m !! p = Some s -> keeps c conns s (f s) -> manager_keeps c conns m (update f p m).
Proof.
  intros Hp Hk. split_and!; cbn; [done| |].
  { intros q _ Hq. destruct (decide (q = p)) as [->|]; [by simplify_eq|by rewrite lookup_alter_ne]. }
  intros q s' Hq. left. destruct (decide (q = p)) as [->|Hne].
  - simplify_eq. rewrite lookup_alter_eq, Hp. eauto.
  - rewrite lookup_alter_ne by done. eauto using keeps_refl.
Qed.

Lemma removeIfEmpty_ok key m : manager_ok seen m -> manager_ok seen (removeIfEmpty key m).
Proof.
  intros Hm. unfold removeIfEmpty. destruct (sessions_ m !! key) as [p|] eqn:E; [|done].
  destruct (heap m !! p) as [s|] eqn:Es; [|done]. destruct (RtmpSession.empty s); [|done].
  destruct (table_heap _ _ Hm _ _ E) as (s1 & Hs1 & Hkey). simplify_eq.
  split; cbn.
  - intros k q [Hne Hk]%lookup_delete_Some. destruct (table_heap _ _ Hm _ _ Hk) as (s2 & Hs2 & ?).
    exists s2. rewrite lookup_delete_ne; [done|]. intros <-. by simplify_eq.
  - intros q s2 [Hne Hq]%lookup_delete_Some. apply (heap_table _ _ Hm) in Hq as Hk.
    rewrite lookup_delete_ne; [done|]. intros Heq. rewrite <- Heq in Hk. by simplify_eq.
  - intros q s2 [Hne Hq]%lookup_delete_Some. by eapply (heap_fresh _ _ Hm).
  - intros q s2 [Hne Hq]%lookup_delete_Some. by eapply (heap_sessions _ _ Hm).
Qed.

Lemma empty_spec s :
  RtmpSession.empty s = true <-> RtmpSession.publisher_ s = None /\ RtmpSession.players_ s = ∅.
Proof.
  unfold RtmpSession.empty, RtmpSession.hasPublisher.
  rewrite andb_true_iff, negb_true_iff, bool_decide_eq_false, bool_decide_eq_true.
  destruct (RtmpSession.publisher_ s); naive_solver.
Qed.

Lemma removeIfEmpty_keeps c conns key m : manager_keeps c conns m (removeIfEmpty key m).
Proof.
  unfold removeIfEmpty. destruct (sessions_ m !! key) as [p|]; [|apply manager_keeps_refl].
  destruct (heap m !! p) as [s|] eqn:Es; [|apply manager_keeps_refl].
  destruct (RtmpSession.empty s) eqn:E; [|apply manager_keeps_refl].
  apply empty_spec in E as [E1 E2]. split_and!; cbn; [done| |].
  { intros q _ Hq. by apply lookup_delete_None; right. }
  intros q s' Hq. destruct (decide (q = p)) as [->|Hne].
  - right. simplify_eq. rewrite lookup_delete_eq, E1, E2. split_and!; done.
  - left. rewrite lookup_delete_ne by done. eauto using keeps_refl.
Qed.


(** ** The operations on a session *)

Lemma setPublisher_ok c conns s b s' :
  session_ok seen s -> c ∈ seen -> RtmpSession.setPublisher c s = (b, s') ->
  session_ok seen s' /\ keeps c conns s s' /\
  (b = true -> RtmpSession.publisher_ s' = Some c) /\
  (b = false -> s' = s /\ exists c', c' <> c /\ RtmpSession.publisher_ s = Some c').
Proof.
  unfold session_ok, keeps. intros (Hc & Hw & Hp & Hpl) Hin E.
  destruct (RtmpSession.publisher_ s) as [p|] eqn:Hpub.
  - rewrite (RtmpSession.setPublisher_taken p) in E by done. injection E as <- <-.
    rewrite Hpub. split_and!; try done.
    + intros ->%bool_decide_eq_true. done.
    + intros Hne%bool_decide_eq_false. split; [done|]. exists p. split; [congruence|done].
  - destruct (RtmpSession.setPublisher_new c s Hpub) as (Hc' & Hb & Hp').
    rewrite E in Hc', Hb, Hp'. cbn in Hc', Hb, Hp'. subst b.
    assert (RtmpSession.players_ s' = RtmpSession.players_ s /\
            RtmpSession.streamKey_ s' = RtmpSession.streamKey_ s) as [Hpls Hkey].
    { unfold RtmpSession.setPublisher in E. rewrite Hpub in E. cbn in E. by injection E as <-. }
    split_and!; try done.
    + by eexists.
    + intros n c' H. rewrite Hpls in H. by apply Hw.
    + intros c'. rewrite Hp'. by intros [= <-].
    + intros n c'. rewrite Hpls. apply Hpl.
    + by rewrite Hpls.
Qed.

Lemma clearPublisher_ok c conns s :
  session_ok seen s ->
  session_ok seen (RtmpSession.clearPublisher c s) /\ keeps c conns s (RtmpSession.clearPublisher c s).
Proof.
  intros Hs. unfold RtmpSession.clearPublisher.
  destruct (bool_decide _) eqn:E; bool_hyps; [|split; [done|apply keeps_refl]].
  destruct Hs as ([ms Hc] & Hw & Hp & Hpl). split.
  - unfold session_ok. split_and!; [by exists ms|done|done|done].
  - unfold keeps. split_and!; [done| |done]. intros c' Hne H. congruence.
Qed.

Lemma removePlayer_ok c conns s :
  session_ok seen s ->
  session_ok seen (RtmpSession.removePlayer c s) /\ keeps c conns s (RtmpSession.removePlayer c s).
Proof.
  unfold session_ok, keeps. intros ([ms Hc] & Hw & Hp & Hpl). split; split_and!; try done.
  - by exists ms.
  - intros n c' H. cbn in H. apply lookup_delete_Some in H as [_ H]. by apply Hw.
  - intros n c' H. cbn in H. apply lookup_delete_Some in H as [_ H]. by eapply Hpl.
  - intros c' Hne _ H. cbn. by rewrite lookup_delete_ne.
Qed.

Lemma addPlayer_ok c conns s :
  unique_names seen -> session_ok seen s -> c ∈ seen ->
  let s' := (RtmpSession.addPlayer c s).2 in
  session_ok seen s' /\ keeps c conns s s' /\ RtmpSession.players_ s' !! conn_name c = Some c /\
  RtmpSession.cache_of s' = RtmpSession.cache_of s.
Proof.
  unfold session_ok, keeps. intros Hu ([ms Hc] & Hw & Hp & Hpl) Hin. unfold RtmpSession.addPlayer.
  destruct (RtmpSession.players_ s !! conn_name c) as [c0|] eqn:E; cbn.
  - apply Hpl in E as H0. apply Hw in E as Hn. apply Hu in Hn; [|done..]. subst c0.
    split_and!; try done. by exists ms.
  - split_and!; try done.
    + by exists ms.
    + intros n c' H. cbn in H. apply lookup_insert_Some in H as [[<- <-]|[_ H]]; [done|by apply Hw].
    + intros n c' [[<- <-]|[_ H]]%lookup_insert_Some; [done|by eapply Hpl].
    + intros c' Hne _ H. by rewrite lookup_insert_ne.
    + by rewrite lookup_insert_eq.
Qed.

Lemma onMediaMessage_ok c conns s message size s' sends :
  session_ok seen s -> RtmpSession.onMediaMessage conns message size s = (s', sends) ->
  session_ok seen s' /\ keeps c conns s s' /\
  RtmpSession.publisher_ s' = RtmpSession.publisher_ s /\
  (forall c', c' ∈ conns -> RtmpSession.players_ s !! conn_name c' = Some c' ->
     RtmpSession.players_ s' !! conn_name c' = Some c').
Proof.
  intros ([ms Hc] & Hw & Hp & Hpl) E.
  assert (RtmpSession.cached (ms ++ [message]) s' /\
          RtmpSession.publisher_ s' = RtmpSession.publisher_ s /\
          RtmpSession.streamKey_ s' = RtmpSession.streamKey_ s /\
          (RtmpSession.players_ s' = RtmpSession.players_ s \/
           RtmpSession.players_ s' =
             filter (fun '(_, player) => player ∈ conns) (RtmpSession.players_ s)))
    as (Hc' & Hp' & Hkey & Hpl').
  { pose proof (RtmpSession.cached_step _ _ message Hc) as H.
    unfold RtmpSession.onMediaMessage, RtmpSession.broadcastMessage in E.
    pose proof (RtmpSession.cacheMediaMessage_publisher message s) as H1.
    pose proof (RtmpSession.cacheMediaMessage_players message s) as H2.
    pose proof (RtmpSession.cacheMediaMessage_streamKey message s) as H3.
    destruct (bool_decide _); injection E as <- <-; cbn; rewrite ?H1, ?H2, ?H3; auto. }
  assert (forall n c', RtmpSession.players_ s' !! n = Some c' ->
                       RtmpSession.players_ s !! n = Some c') as Hsub.
  { intros n c'. destruct Hpl' as [->| ->]; [done|]. by intros [? _]%map_lookup_filter_Some. }
  assert (forall c', c' ∈ conns -> RtmpSession.players_ s !! conn_name c' = Some c' ->
     RtmpSession.players_ s' !! conn_name c' = Some c') as Hkeep.
  { intros c' Hin H. destruct Hpl' as [->| ->]; [done|]. by apply map_lookup_filter_Some. }
  unfold session_ok, keeps. split_and!; try done.
  - by eexists.
  - intros n c' H%Hsub. by apply Hw.
  - rewrite Hp'. done.
  - intros n c' H%Hsub. by eapply Hpl.
  - by rewrite Hp'.
  - intros c' _. by apply Hkeep.
Qed.

(** ** The handlers *)

(** What a handler of connection [c] guarantees. *)
Record handled (c : conn_ptr) (sv : server) (x' : t) (sv' : server) : Prop := {
  h_manager : manager_ok seen (sessionManager_ sv');
  h_keeps : manager_keeps c (connected sv) (sessionManager_ sv) (sessionManager_ sv');
  h_bound : bound_ok granted (sessionManager_ sv') (connected sv') c x';
  h_connected : connected sv' = connected sv;
}.

Context (Hnames : unique_names seen).

Section one_connection.
Context (c : conn_ptr) (Hc : c ∈ seen).

Lemma handled_refl sv x :
  manager_ok seen (sessionManager_ sv) -> bound_ok granted (sessionManager_ sv) (connected sv) c x ->
  handled c sv x sv.
Proof. intros. split; auto using manager_keeps_refl. Qed.

Lemma handled_context sv x x' sv' :
  role_ x' = role_ x -> session_ x' = session_ x -> outChunkSize_ x' = outChunkSize_ x ->
  handled c sv x sv' -> handled c sv x' sv'.
Proof. intros H1 H2 H3 []. split; try done. by apply bound_context with x. Qed.

Lemma handled_outputs sv x sv' sv'' :
  sessionManager_ sv'' = sessionManager_ sv' -> connected sv'' = connected sv' ->
  handled c sv x sv' -> handled c sv x sv''.
Proof. intros H1 H2 []. split; by rewrite ?H1, ?H2. Qed.

Lemma handled_trans sv1 x2 sv2 x3 sv3 :
  manager_ok seen (sessionManager_ sv1) ->
  handled c sv1 x2 sv2 -> handled c sv2 x3 sv3 -> handled c sv1 x3 sv3.
Proof.
  intros Hm [H1 H2 H3 H4] [H1' H2' H3' H4']. split; [done| |done|congruence].
  rewrite H4 in H2'. by eapply manager_keeps_trans.
Qed.

(** A session obtained for [c] and replaced by [s']. *)
Lemma handled_session sv p m s s' x' :
  manager_ok seen (sessionManager_ sv) ->
  manager_ok seen m -> manager_keeps c (connected sv) (sessionManager_ sv) m ->
  heap m !! p = Some s -> session_ok seen s' -> keeps c (connected sv) s s' ->
  bound_ok granted (update (fun _ => s') p m) (connected sv) c x' ->
  handled c sv x' (set_manager (update (fun _ => s') p m) sv).
Proof.
  intros Hsv Hm Hk Hp Hok Hkeep Hb. split; cbn; [| |done|done].
  - eapply update_ok; [done..| |done]. apply Hkeep.
  - eapply manager_keeps_trans; [done..|]. by eapply update_keeps.
Qed.

Lemma handleMediaMessage_ok message x sv ok x' sv' :
  manager_ok seen (sessionManager_ sv) -> bound_ok granted (sessionManager_ sv) (connected sv) c x ->
  handleMediaMessage c message x sv = (ok, x', sv') ->
  ok = true /\ x' = x /\ handled c sv x' sv' /\
  (role_ x <> kPublisher -> sv' = sv) /\
  (role_ x = kPublisher -> exists p s s' sends,
     session_ x = Some p /\ heap (sessionManager_ sv) !! p = Some s /\
     RtmpSession.publisher_ s = Some c /\
     RtmpSession.onMediaMessage (connected sv) message kDefaultChunkSize s = (s', sends) /\
     sv' = send_all sends (set_manager (update (fun _ => s') p (sessionManager_ sv)) sv)).
Proof.
  intros Hm Hb. unfold handleMediaMessage.
  destruct (decide (role_ x = kPublisher)) as [Hr|Hr].
  - rewrite bool_decide_eq_true_2 by done. cbn [negb].
    destruct Hb as (Hpub & Hpl & Hau & Hout). destruct (Hpub Hr) as (p & s & Hs & Hp & Hsc).
    unfold lock. rewrite Hs. cbn [mbind option_bind]. rewrite decide_True by by rewrite Hp.
    rewrite Hp, Hout. destruct (RtmpSession.onMediaMessage _ _ _ _) as [s' sends] eqn:E.
    intros [= <- <- <-].
    destruct (onMediaMessage_ok c _ _ _ _ _ _ (heap_sessions _ _ Hm _ _ Hp) E) as (Hok & Hk & Hp' & _).
    split_and!; [done|done| |done|].
    + apply handled_outputs with (set_manager (update (fun _ => s') p (sessionManager_ sv)) sv); [done..|].
      eapply handled_session; try done; [apply manager_keeps_refl|].
      split_and!; [|congruence|by eapply session_authorized, Hau; eapply update_keeps|done]. intros _. exists p, s'. cbn. rewrite lookup_alter_eq, Hp.
      by rewrite Hp'.
    + intros _. by exists p, s, s', sends.
  - rewrite bool_decide_eq_false_2 by done. cbn. intros [= <- <- <-].
    split_and!; [done|done| |done|done]. by apply handled_refl.
Qed.

Lemma cleanup_ok x sv :
  manager_ok seen (sessionManager_ sv) ->
  let sv' := cleanupConnection c (Some x) sv in
  manager_ok seen (sessionManager_ sv') /\
  manager_keeps c (connected sv) (sessionManager_ sv) (sessionManager_ sv') /\
  connected sv' = connected sv.
Proof.
  intros Hm sv'. subst sv'. unfold cleanupConnection, find.
  destruct (length (streamKey x) =? 0); [by auto using manager_keeps_refl|].
  destruct (sessions_ (sessionManager_ sv) !! streamKey x) as [p|] eqn:E;
    [|by auto using manager_keeps_refl].
  destruct (table_heap _ _ Hm _ _ E) as (s & Hs & _).
  assert (forall f, session_ok seen (f s) -> keeps c (connected sv) s (f s) ->
    manager_ok seen (removeIfEmpty (streamKey x) (update f p (sessionManager_ sv))) /\
    manager_keeps c (connected sv) (sessionManager_ sv)
      (removeIfEmpty (streamKey x) (update f p (sessionManager_ sv)))) as Hupd.
  { intros f Hok Hk. split.
    - eapply removeIfEmpty_ok, update_ok; [done..| |done]. apply Hk.
    - eapply manager_keeps_trans; [done|by eapply update_keeps|apply removeIfEmpty_keeps]. }
  apply (heap_sessions _ _ Hm) in Hs as Hok. destruct (role_ x); cbn.
  - split_and!; [by apply removeIfEmpty_ok|apply removeIfEmpty_keeps|done].
  - destruct (clearPublisher_ok c (connected sv) s Hok) as [H1 H2]. by destruct (Hupd _ H1 H2).
  - destruct (removePlayer_ok c (connected sv) s Hok) as [H1 H2]. by destruct (Hupd _ H1 H2).
Qed.

Lemma detach_ok x sv x' sv' :
  manager_ok seen (sessionManager_ sv) -> outChunkSize_ x = kDefaultChunkSize ->
  detachConnectionFromSession c x sv = (x', sv') -> handled c sv x' sv'.
Proof.
  intros Hm Hout. unfold detachConnectionFromSession. intros [= <- <-].
  destruct (cleanup_ok x sv Hm) as (H1 & H2 & H3). split; try done.
Qed.

Lemma send_message_handled sv x sv' message :
  handled c sv x sv' -> handled c sv x (send_message c message sv').
Proof. by apply handled_outputs. Qed.

Lemma set_manager_twice m m' sv : set_manager m' (set_manager m sv) = set_manager m' sv.
Proof. done. Qed.

Lemma handleConnect_ok command x sv ok x' sv' :
  manager_ok seen (sessionManager_ sv) -> bound_ok granted (sessionManager_ sv) (connected sv) c x ->
  handleConnect c command x sv = (ok, x', sv') -> handled c sv x' sv'.
Proof.
  intros Hm Hb. unfold handleConnect. pose proof (handled_refl sv x Hm Hb) as Hh.
  destruct (negb _); [by intros [= <- <- <-]|].
  destruct (StdMap.find (str "app") _) as [[]|]; try by intros [= <- <- <-].
  intros [= <- <- <-]. repeat apply send_message_handled.
  destruct (StdMap.find (str "tcUrl") _) as [[]|], (StdMap.find (str "objectEncoding") _) as [[]|];
    by eapply handled_context, Hh.
Qed.

Lemma bind_authorized m p s s' role :
  manager_ok seen m -> heap m !! p = Some s ->
  RtmpSession.streamKey_ s' = RtmpSession.streamKey_ s -> authorized granted role s ->
  forall q, Some p = Some q -> q < next_ptr (update (fun _ => s') p m) /\
    forall s0, heap (update (fun _ => s') p m) !! q = Some s0 -> authorized granted role s0.
Proof.
  intros Hm Hp Hkey Ha q [= <-]. cbn. split; [by eapply (heap_fresh _ _ Hm)|].
  intros s0. rewrite lookup_alter_eq, Hp. intros [= <-]. by eapply authorized_key.
Qed.

Lemma handlePublish_ok command x sv ok x' sv' :
  manager_ok seen (sessionManager_ sv) -> bound_ok granted (sessionManager_ sv) (connected sv) c x ->
  handlePublish auth true c command x sv = (ok, x', sv') -> handled c sv x' sv'.
Proof.
  intros Hm Hb. unfold handlePublish. cbn [negb].
  assert (forall x', role_ x' = role_ x -> session_ x' = session_ x ->
                outChunkSize_ x' = outChunkSize_ x -> handled c sv x' sv) as Hsame.
  { intros. eapply handled_context; [done..|by apply handled_refl]. }
  destruct (_ =? 0)%Z; [intros [= <- <- <-]; by apply Hsame|].
  destruct (negb _); [intros [= <- <- <-]; by apply Hsame|].
  destruct (arguments command) as [|[] more]; try (intros [= <- <- <-]; by apply Hsame).
  destruct (ParseStreamTarget _) as [target|]; [|intros [= <- <- <-]; by apply Hsame].
  set (x1 := match more with String publish_type :: _ => _ | _ => _ end).
  assert (role_ x1 = role_ x /\ session_ x1 = session_ x /\ outChunkSize_ x1 = outChunkSize_ x)
    as (Hr & Hs & Ho) by by destruct more as [|[] ?].
  clearbody x1. cbv zeta. destruct (length (streamKey x1) =? 0); [intros [= <- <- <-]; by apply Hsame|].
  destruct (authorizePublish _ _ _) eqn:Hauth; cbn [negb];
    [|intros [= <- <- <-]; by apply send_message_handled, Hsame].
  unfold getOrCreateSession.
  destruct (getOrCreate (streamKey x1) (sessionManager_ sv)) as [p m] eqn:Eg.
  destruct (getOrCreate_ok c (connected sv) _ _ _ _ Hm Eg) as (Hm1 & (s & Hp & Hkey & _) & Hk1 & Hmono).
  cbn [sessionManager_ set_manager]. rewrite Hp.
  destruct (RtmpSession.setPublisher c s) as [b s'] eqn:Es.
  destruct (setPublisher_ok c (connected sv) s b s') as (Hok & Hk & Htrue & Hfalse);
    [by apply (heap_sessions _ _ Hm1) in Hp|done|done|].
  rewrite set_manager_twice. destruct b; cbn [negb]; intros [= <- <- <-]; apply send_message_handled.
  - eapply handled_session; try done. split_and!; [|done| |by cbn; rewrite Ho; apply Hb].
    + intros _. exists p, s'. cbn. rewrite lookup_alter_eq, Hp. auto.
    + eapply bind_authorized; [done|done|apply Hk|]. cbn. rewrite Hkey. by eapply Hsound.
  - eapply handled_session; try done. destruct Hfalse as [-> _]; [done|].
    apply bound_context with x; [done..|].
    eapply bound_mono;
      [|eapply manager_keeps_trans; [exact Hm|exact Hk1|by eapply update_keeps; [exact Hp|]]|done].
    intros q s0 Hq. cbn.
    apply Hmono in Hq. destruct (decide (q = p)) as [->|]; [|by rewrite lookup_alter_ne].
    rewrite lookup_alter_eq, Hp. cbn. congruence.
Qed.

Lemma handlePlay_ok command x sv ok x' sv' :
  manager_ok seen (sessionManager_ sv) -> bound_ok granted (sessionManager_ sv) (connected sv) c x ->
  handlePlay auth true c command x sv = (ok, x', sv') -> handled c sv x' sv'.
Proof.
  intros Hm Hb. unfold handlePlay. cbn [negb].
  assert (forall x', role_ x' = role_ x -> session_ x' = session_ x ->
                outChunkSize_ x' = outChunkSize_ x -> handled c sv x' sv) as Hsame.
  { intros. eapply handled_context; [done..|by apply handled_refl]. }
  destruct (_ =? 0)%Z; [intros [= <- <- <-]; by apply Hsame|].
  destruct (negb _); [intros [= <- <- <-]; by apply Hsame|].
  destruct (arguments command) as [|[] more]; try (intros [= <- <- <-]; by apply Hsame).
  destruct (ParseStreamTarget _) as [target|]; [|intros [= <- <- <-]; by apply Hsame].
  set (x1 := setStreamName _ x). assert (outChunkSize_ x1 = outChunkSize_ x) as Ho by done.
  assert (handled c sv x1 sv) as H1 by by apply Hsame.
  clearbody x1. cbv zeta. destruct (length (streamKey x1) =? 0); [by intros [= <- <- <-]|].
  destruct (authorizePlay _ _ _) eqn:Hauth; cbn [negb];
    [|intros [= <- <- <-]; by apply send_message_handled].
  unfold getOrCreateSession.
  destruct (getOrCreate (streamKey x1) (sessionManager_ sv)) as [p m] eqn:Eg.
  destruct (getOrCreate_ok c (connected sv) _ _ _ _ Hm Eg) as (Hm1 & (s & Hp & Hkey & _) & Hk1 & Hmono).
  cbn [sessionManager_ set_manager]. rewrite Hp.
  destruct (addPlayer_ok c (connected sv) s) as (Hok & Hk & Hin & _);
    [done|by apply (heap_sessions _ _ Hm1) in Hp|done|].
  rewrite set_manager_twice. intros [= <- <- <-].
  match goal with |- handled _ _ _ (send_all _ (sendOnStatus _ _ _ _ _ ?sv1)) =>
    apply handled_outputs with sv1; [done..|] end.
  eapply handled_session; try done. split_and!; [done| | |by cbn; rewrite Ho; apply Hb].
  - intros _ _. eexists p, _. cbn. rewrite lookup_alter_eq, Hp. auto.
  - eapply bind_authorized; [done|done|apply Hk|]. cbn. rewrite Hkey. by eapply Hsound.
Qed.

Lemma handleDeleteStream_ok command x sv ok x' sv' :
  manager_ok seen (sessionManager_ sv) -> bound_ok granted (sessionManager_ sv) (connected sv) c x ->
  handleDeleteStream true c command x sv = (ok, x', sv') -> handled c sv x' sv'.
Proof.
  intros Hm Hb. unfold handleDeleteStream. cbn [negb]. pose proof (handled_refl sv x Hm Hb) as Hh.
  destruct (_ || _); [by intros [= <- <- <-]|]. destruct (_ && _ && _); [by intros [= <- <- <-]|].
  destruct (detachConnectionFromSession c x sv) as [x1 sv1] eqn:E. intros [= <- <- <-].
  eapply detach_ok; [done| |done]. apply Hb.
Qed.

Lemma handleMessage_ok message x sv ok x' sv' :
  manager_ok seen (sessionManager_ sv) -> bound_ok granted (sessionManager_ sv) (connected sv) c x ->
  handleMessage auth true c message x sv = (ok, x', sv') -> handled c sv x' sv'.
Proof.
  intros Hm Hb. unfold handleMessage. pose proof (handled_refl sv x Hm Hb) as Hh.
  destruct (_ && _).
  { intros [= <- <- <-]. by eapply handled_context, Hh. }
  destruct (_ =? _)%Z.
  - destruct (DecodeCommandMessageAmf0 message) as [command| |]; try by intros [= <- <- <-].
    unfold handleCommandMessage. destruct (bool_decide _); [by apply handleConnect_ok|].
    destruct (bool_decide _).
    { unfold handleCreateStream. cbn. intros [= <- <- <-].
      eapply send_message_handled, handled_context, Hh; done. }
    destruct (bool_decide _); [by apply handlePublish_ok|].
    destruct (bool_decide _); [by apply handlePlay_ok|].
    destruct (bool_decide _ || _); [by apply handleDeleteStream_ok|by intros [= <- <- <-]].
  - destruct (_ || _); [|by intros [= <- <- <-]].
    intros E. by apply handleMediaMessage_ok in E as (_ & _ & ? & _).
Qed.

Lemma handleMessages_ok messages x sv ok x' sv' :
  manager_ok seen (sessionManager_ sv) -> bound_ok granted (sessionManager_ sv) (connected sv) c x ->
  handleMessages auth true c messages x sv = (ok, x', sv') -> handled c sv x' sv'.
Proof.
  revert x sv. induction messages as [|message messages IH]; intros x sv Hm Hb; cbn [handleMessages].
  { intros [= <- <- <-]. by apply handled_refl. }
  destruct (handleMessage auth true c message x sv) as [[ok1 x1] sv1] eqn:E.
  apply handleMessage_ok in E as Hh; [|done..]. destruct (negb ok1); [by intros [= <- <- <-]|].
  intros Hr. eapply handled_trans; [done|exact Hh|]. apply IH in Hr; [done|apply Hh..].
Qed.

End one_connection.

Lemma removeIfEmpty_sub key m p s :
  heap (removeIfEmpty key m) !! p = Some s -> heap m !! p = Some s.
Proof.
  unfold removeIfEmpty. repeat case_match; try done. cbn. by intros [_ ?]%lookup_delete_Some.
Qed.

Lemma removeIfEmpty_nonempty key m p s :
  sessions_ (removeIfEmpty key m) !! key = Some p ->
  heap (removeIfEmpty key m) !! p = Some s -> RtmpSession.empty s = false.
Proof.
  unfold removeIfEmpty. destruct (sessions_ m !! key) as [q|] eqn:E; [|congruence].
  destruct (heap m !! q) as [s0|] eqn:Es; [|congruence].
  destruct (RtmpSession.empty s0) eqn:Ee; [cbn; by rewrite lookup_delete_eq|congruence].
Qed.

End lemmas.

(** ** What the handlers leave alone: the parser's streams and the handler *)

Definition same_io (x x' : t) : Prop :=
  chunkParser_ x' = chunkParser_ x /\ handler_ x' = handler_ x /\ handshake_ x' = handshake_ x.

Lemma handleConnect_io c command x sv :
  same_io x (handleConnect c command x sv).1.2.
Proof. unfold handleConnect. repeat (case_match; try done). Qed.

Lemma handlePublish_io auth b c command x sv :
  same_io x (handlePublish auth b c command x sv).1.2.
Proof. unfold handlePublish, getOrCreateSession. repeat (case_match; simplify_eq/=; try done). Qed.

Lemma handlePlay_io auth b c command x sv :
  same_io x (handlePlay auth b c command x sv).1.2.
Proof. unfold handlePlay, getOrCreateSession. repeat (case_match; simplify_eq/=; try done). Qed.

Lemma handleDeleteStream_io b c command x sv :
  same_io x (handleDeleteStream b c command x sv).1.2.
Proof. unfold handleDeleteStream, detachConnectionFromSession. by repeat case_match. Qed.

Lemma handleMediaMessage_io c message x sv :
  same_io x (handleMediaMessage c message x sv).1.2.
Proof. unfold handleMediaMessage. by repeat (case_match; simplify_eq/=). Qed.

Lemma handleMessage_io auth c message x sv d :
  parser_inv (chunkParser_ x) d ->
  let x' := (handleMessage auth true c message x sv).1.2 in
  parser_inv (chunkParser_ x') d /\ handler_ x' = handler_ x /\ handshake_ x' = handshake_ x.
Proof.
  intros Hp. cbv zeta. unfold handleMessage. destruct (_ && _).
  { cbn. split; [|done]. split; [|apply Hp]. cbn. pose proof (ReadUint32BE_range (payload message)). lia. }
  assert (forall x', same_io x x' -> parser_inv (chunkParser_ x') d /\ handler_ x' = handler_ x /\ handshake_ x' = handshake_ x) as Hs.
  { intros x' (-> & -> & ->). done. }
  destruct (_ =? _)%Z.
  - destruct (DecodeCommandMessageAmf0 message); [|by apply Hs..]. apply Hs.
    unfold handleCommandMessage. destruct (bool_decide _); [apply handleConnect_io|].
    destruct (bool_decide _); [done|]. destruct (bool_decide _); [apply handlePublish_io|].
    destruct (bool_decide _); [apply handlePlay_io|].
    destruct (_ || _); [apply handleDeleteStream_io|done].
  - apply Hs. destruct (_ || _); [apply handleMediaMessage_io|done].
Qed.

Lemma handleMessages_io auth c messages x sv d ok x' sv' :
  parser_inv (chunkParser_ x) d ->
  handleMessages auth true c messages x sv = (ok, x', sv') ->
  parser_inv (chunkParser_ x') d /\ handler_ x' = handler_ x /\ handshake_ x' = handshake_ x.
Proof.
  revert x sv. induction messages as [|message messages IH]; intros x sv Hp; cbn [handleMessages].
  { by intros [= <- <- <-]. }
  pose proof (handleMessage_io auth c message x sv d Hp) as Hio.
  destruct (handleMessage auth true c message x sv) as [[ok1 x1] sv1]. cbn in Hio.
  destruct Hio as (Hp1 & Hh1 & Hs1). destruct (negb ok1); [by intros [= <- <- <-]|].
  intros Hr. apply IH in Hr as (? & ? & ?); [|done]. split_and!; [done|congruence..].
Qed.

(** ** Reading bytes *)

Section reading.
Context {B : Type} `{ByteBufferLaws B} (auth : option (bytes -> bytes -> bool -> bool)).
Context (granted : bool -> bytes -> Prop) (Hsound : sound auth granted).
Context (seen : gset conn_ptr) (Hnames : unique_names seen).

(** A connection's context and input buffer. *)
Definition io_ok (x : t) (buf : B) : Prop :=
  handler_ x = true /\ buf_wf buf /\
  (if RtmpHandshake.isDone (handshake_ x) then parser_inv (chunkParser_ x) (peek buf)
   else chunkParser_ x = RtmpChunkParser.initial).

Lemma onMessage_chunks_ok c (buf : B) x sv :
  c ∈ seen -> manager_ok seen (sessionManager_ sv) ->
  bound_ok granted (sessionManager_ sv) (connected sv) c x ->
  handler_ x = true -> RtmpHandshake.isDone (handshake_ x) = true -> buf_wf buf ->
  parser_inv (chunkParser_ x) (peek buf) ->
  exists ok x' sv' buf', onMessage_chunks auth true c buf x sv = Some (ok, x', sv', buf') /\
    handled granted seen c sv x' sv' /\ io_ok x' buf'.
Proof.
  intros Hc Hm Hb Hh Hd Hw Hp. unfold onMessage_chunks, io_ok.
  destruct (readableBytes buf =? 0).
  { eexists _, _, _, _. split; [done|]. split; [by apply handled_refl|]. by rewrite Hd. }
  destruct (parse_spec (chunkParser_ x) buf [] Hw Hp) as (st & p' & buf' & ms & -> & Hst & Hw' & Hp' & _);
    [apply Forall_nil_2|]. cbn [mbind option_bind].
  assert (handled granted seen c sv (setChunkParser p' x) sv) as Hx.
  { eapply handled_context; [done..|]. by apply handled_refl. }
  destruct st as [|e|]; [|eexists _, _, _, _; split; [done|]; cbn; by rewrite Hd|done].
  destruct (handleMessages auth true c ms (setChunkParser p' x) sv) as [[ok x'] sv'] eqn:E.
  eexists _, _, _, _. split; [done|].
  destruct (handleMessages_io auth c ms (setChunkParser p' x) sv (peek buf') ok x' sv' Hp' E) as (Hp2 & Hh2 & Hs2).
  split; [by eapply handleMessages_ok; [..|exact E]; [| | | |apply Hx]|].
  rewrite Hh2, Hs2. cbn. by rewrite Hd.
Qed.

Lemma onMessage_ok rd c (buf : B) x sv :
  c ∈ seen -> manager_ok seen (sessionManager_ sv) ->
  bound_ok granted (sessionManager_ sv) (connected sv) c x -> io_ok x buf ->
  exists ok x' sv' buf', onMessage auth true rd c buf x sv = Some (ok, x', sv', buf') /\
    handled granted seen c sv x' sv' /\ io_ok x' buf'.
Proof.
  intros Hc Hm Hb (Hh & Hw & Hp). unfold onMessage.
  set (x1 := addReceivedBytes _ x).
  assert (bound_ok granted (sessionManager_ sv) (connected sv) c x1) as Hb1 by by apply bound_context with x.
  assert (io_ok x1 buf) as Hio1 by done.
  change (handshake_ x) with (handshake_ x1) in Hp. change (handler_ x) with (handler_ x1) in Hh.
  change (chunkParser_ x) with (chunkParser_ x1) in Hp. clearbody x1.
  destruct (RtmpHandshake.isDone (handshake_ x1)) eqn:Hd; cbn [negb].
  { by apply onMessage_chunks_ok. }
  destruct (RtmpHandshake.process_safe rd (handshake_ x1) buf [] Hw)
    as (st & state1 & buf1 & response & -> & Hst & Hw1). cbn [mbind option_bind].
  set (x2 := setHandshake state1 x1).
  assert (bound_ok granted (sessionManager_ sv) (connected sv) c x2) as Hb2 by by apply bound_context with x1.
  destruct st as [|e|]; [| |done].
  - set (sv1 := if length response =? 0 then sv else send c response sv).
    assert (sessionManager_ sv1 = sessionManager_ sv /\ connected sv1 = connected sv) as [E1 E2]
      by (unfold sv1; by destruct (length response =? 0)).
    assert (handled granted seen c sv x2 sv1) as Hh2.
    { apply handled_outputs with sv; [done..|]. by apply handled_refl. }
    change (handshake_ x2) with state1. destruct (RtmpHandshake.isDone state1) eqn:Hd1; cbn [negb].
    + destruct (onMessage_chunks_ok c buf1 x2 sv1) as (ok & x' & sv' & buf' & -> & Hh3 & Hio);
        rewrite ?E1, ?E2; try done; [cbn; rewrite Hp; apply parser_inv_initial|].
      eexists _, _, _, _. split; [done|]. split; [|done].
      by eapply handled_trans; [|exact Hh2|exact Hh3].
    + eexists _, _, _, _. split; [done|]. split; [done|]. unfold io_ok. cbn. by rewrite Hd1.
  - eexists _, _, _, _. split; [done|]. split; [by apply handled_refl|]. unfold io_ok. cbn.
    destruct (RtmpHandshake.isDone state1); [|done]. rewrite Hp. split_and!; [done..|apply parser_inv_initial].
Qed.

End reading.
