(* ===== verification/RtmpServerSystem.v ===== *)
(** * The RTMP server under all interleavings

    Connections come up, bytes arrive on them in pieces, and they go down, in
    any order; [reachable] are the states this leads to from the empty server.
    The properties of the server as a whole are stated over these. *)

From S2P Require Import Prelude Bytes ByteBuffer StdMap Amf0 RtmpTypes ChunkWriter ChunkParser.
From S2P Require Import ChunkParserFacts RtmpHandshake RtmpCommand RtmpSession.
From S2P Require Import RtmpConnectionContext RtmpServer RtmpServerFacts.
Import RtmpSessionManager. Import RtmpConnectionContext.

Section system.
Context {B : Type} `{ByteBuffer B} (auth : option (bytes -> bytes -> bool -> bool)).

(** One event.  A new connection has a name that no earlier one had. *)
Inductive step (seen : gset conn_ptr) : world B -> world B -> gset conn_ptr -> Prop :=
  | step_connect c w :
      (forall c', c' ∈ seen -> conn_name c' <> conn_name c) ->
      step seen w (onConnected c w) ({[c]} ∪ seen)
  | step_bytes c rd data w w' :
      is_Some (contexts w !! c) -> onBytes auth true rd c data w = Some w' ->
      step seen w w' seen
  | step_disconnect c w :
      is_Some (contexts w !! c) -> step seen w (onDisconnected c w) seen.

Inductive reachable : world B -> gset conn_ptr -> Prop :=
  | reachable_initial : reachable initial_world ∅
  | reachable_step w seen w' seen' :
      reachable w seen -> step seen w w' seen' -> reachable w' seen'.

End system.

Section invariant.
Context {B : Type} `{ByteBufferLaws B} (granted : bool -> bytes -> Prop).

Record world_ok (seen : gset conn_ptr) (w : world B) : Prop := {
  w_server : server_ok granted seen (contexts w) (srv w);
  w_io c x : contexts w !! c = Some x -> exists buf, buffers w !! c = Some buf /\ io_ok x buf;
}.

Lemma world_ok_initial : world_ok ∅ initial_world.
Proof.
  split.
  - split; cbn.
    + intros c c' Hc. set_solver.
    + split; cbn; intros ? ? Hx; by rewrite lookup_empty in Hx.
    + intros c [x Hx]. by rewrite lookup_empty in Hx.
    + intros c x Hx. by rewrite lookup_empty in Hx.
  - intros c x Hx. cbn in Hx. by rewrite lookup_empty in Hx.
Qed.

Lemma manager_ok_mono seen seen' m :
  seen ⊆ seen' -> manager_ok seen m -> manager_ok seen' m.
Proof.
  intros Hsub []. split; try done. intros p s Hp.
  destruct (heap_sessions p s Hp) as (? & ? & ? & ?). unfold session_ok. split_and!; eauto.
Qed.

Lemma bound_fresh m conns c : bound_ok granted m conns c (bindHandler initial).
Proof. split_and!; done. Qed.

(** Fewer connections are up: less is promised. *)
Lemma bound_conns m conns conns' c x :
  (c ∈ conns' -> c ∈ conns) -> bound_ok granted m conns c x -> bound_ok granted m conns' c x.
Proof. intros Hsub (? & ? & ? & ?). split_and!; auto. Qed.

Lemma connect_ok seen w c :
  (forall c', c' ∈ seen -> conn_name c' <> conn_name c) ->
  world_ok seen w -> world_ok ({[c]} ∪ seen) (onConnected c w).
Proof.
  intros Hnew [Hsv Hio].
  assert (c ∉ seen) as Hc by (intros Hin; by apply (Hnew c Hin)).
  split.
  - split; cbn.
    + intros c1 c2 [E1%elem_of_singleton|H1]%elem_of_union [E2%elem_of_singleton|H2]%elem_of_union Hn;
        subst; [done| | |by apply (sv_names _ _ _ _ Hsv)].
      * by destruct (Hnew c2 H2).
      * by destruct (Hnew c1 H1).
    + eapply manager_ok_mono; [|apply Hsv]. set_solver.
    + intros c' [x [[<- _]|[_ Hx]]%lookup_insert_Some]; [set_solver|].
      apply elem_of_union_r, (sv_seen _ _ _ _ Hsv). by exists x.
    + intros c' x [[<- <-]|[Hne Hx]]%lookup_insert_Some; [apply bound_fresh|].
      apply (sv_bound _ _ _ _ Hsv) in Hx. eapply bound_conns, Hx. set_solver.
  - cbn. intros c' x [[<- <-]|[Hne Hx]]%lookup_insert_Some.
    + exists buf_new. rewrite lookup_insert_eq. split; [done|].
      split; [done|]. split; [apply wf_new|done].
    + destruct (Hio c' x Hx) as (buf & ? & ?). exists buf. by rewrite lookup_insert_ne.
Qed.

(** The others' part of the invariant after an operation of [c]. *)
Lemma others_ok seen w c m conns :
  world_ok seen w -> c ∈ seen -> manager_keeps c (connected (srv w)) (sessionManager_ (srv w)) m ->
  conns ⊆ connected (srv w) ->
  forall c' x, c' <> c -> contexts w !! c' = Some x -> bound_ok granted m conns c' x.
Proof.
  intros [Hsv _] Hc Hk Hsub c' x Hne Hx.
  assert (c' ∈ seen) as Hc' by (apply (sv_seen _ _ _ _ Hsv); by exists x).
  apply (sv_bound _ _ _ _ Hsv) in Hx. eapply bound_conns; [apply Hsub|].
  eapply bound_keeps; [done|done| |done]. intros Hn. apply Hne. by apply (sv_names _ _ _ _ Hsv).
Qed.

Lemma disconnect_ok seen w c :
  is_Some (contexts w !! c) -> world_ok seen w ->
  world_ok seen (onDisconnected c w) /\
  manager_keeps c (connected (srv w) ∖ {[c]}) (sessionManager_ (srv w))
    (sessionManager_ (srv (onDisconnected c w))).
Proof.
  intros [x Hx] Hw. pose proof Hw as [Hsv Hio].
  assert (c ∈ seen) as Hc by (apply (sv_seen _ _ _ _ Hsv); by exists x).
  unfold onDisconnected. rewrite Hx.
  set (sv1 := mkServer _ _ _).
  destruct (cleanup_ok seen c x sv1) as (Hm & Hk & Hconn); [apply Hsv|].
  split; [|done]. split.
  - split; cbn [contexts srv].
    + apply Hsv.
    + done.
    + intros c' [x' [_ Hx']%lookup_delete_Some]. apply (sv_seen _ _ _ _ Hsv). by exists x'.
    + intros c' x' [Hne Hx']%lookup_delete_Some. rewrite Hconn. cbn.
      assert (world_ok seen (mkWorld sv1 (delete c (contexts w)) (buffers w))) as Hw1.
      { split; cbn.
        - split; cbn; [apply Hsv|apply Hsv| |].
          + intros c0 [x0 [_ H1]%lookup_delete_Some]. apply (sv_seen _ _ _ _ Hsv). by exists x0.
          + intros c0 x0 [_ H1]%lookup_delete_Some. apply (sv_bound _ _ _ _ Hsv) in H1.
            eapply bound_conns, H1. set_solver.
        - intros c0 x0 [_ H1]%lookup_delete_Some. by apply Hio. }
      eapply (others_ok seen _ c _ _ Hw1); [done|done|done|done|].
      cbn. by rewrite lookup_delete_ne.
  - cbn. intros c' x' [Hne Hx']%lookup_delete_Some. destruct (Hio c' x' Hx') as (buf & ? & ?).
    exists buf. by rewrite lookup_delete_ne.
Qed.

(** The callback that the server has when the bytes arrive. *)
Context (auth : option (bytes -> bytes -> bool -> bool)) (Hsound : sound auth granted).

Lemma bytes_ok rd seen w c data :
  is_Some (contexts w !! c) -> world_ok seen w ->
  exists w', onBytes auth true rd c data w = Some w' /\ world_ok seen w' /\
    contexts w' !! c <> None /\ (forall c', c' <> c -> contexts w' !! c' = contexts w !! c') /\
    manager_keeps c (connected (srv w)) (sessionManager_ (srv w)) (sessionManager_ (srv w')).
Proof.
  intros [x Hx] Hw. pose proof Hw as [Hsv Hio].
  assert (c ∈ seen) as Hc by (apply (sv_seen _ _ _ _ Hsv); by exists x).
  destruct (Hio c x Hx) as (buf & Hbuf & Hh & Hbw & Hp).
  unfold onBytes, RtmpServer_onMessage. rewrite Hx, Hbuf, Hh. cbn [negb default from_option id].
  destruct (onMessage_ok auth granted Hsound seen (sv_names _ _ _ _ Hsv) rd c (append data buf) x (srv w))
    as (ok & x' & sv' & buf' & -> & [Hm Hk Hb Hconn] & Hio'); [done|apply Hsv| | |].
  - by apply (sv_bound _ _ _ _ Hsv).
  - split_and!; [done|auto|]. destruct (RtmpHandshake.isDone _); [|done].
    rewrite peek_append by done. by apply parser_inv_append.
  - cbn [mbind option_bind]. eexists. split; [done|].
    set (sv2 := if negb ok then shutdown c sv' else sv').
    assert (sessionManager_ sv2 = sessionManager_ sv') as E by (unfold sv2; by destruct ok).
    assert (connected sv2 ⊆ connected (srv w)) as Hsub.
    { unfold sv2. rewrite <- Hconn. destruct ok; cbn; set_solver. }
    split_and!; cbn [contexts srv].
    2: { by rewrite lookup_insert_eq. }
    2: { intros c' Hne. by rewrite lookup_insert_ne. }
    2: { by rewrite E. }
    split.
    + split; cbn [contexts srv]; rewrite ?E; [apply Hsv|done| |].
      * intros c' [y [[<- _]|[_ Hy]]%lookup_insert_Some]; [done|].
        apply (sv_seen _ _ _ _ Hsv). by exists y.
      * intros c' y [[<- <-]|[Hne Hy]]%lookup_insert_Some.
        -- eapply bound_conns, Hb. rewrite Hconn. apply Hsub.
        -- by eapply (others_ok seen w c).
    + cbn. intros c' y [[<- <-]|[Hne Hy]]%lookup_insert_Some.
      * exists buf'. by rewrite lookup_insert_eq.
      * destruct (Hio c' y Hy) as (b & ? & ?). exists b. by rewrite lookup_insert_ne.
Qed.

(** A dead connection that a session still has as its publisher stays there. *)
Lemma step_keeps_dead seen w w' seen' c p s :
  world_ok seen w -> c ∈ seen -> contexts w !! c = None -> step auth seen w w' seen' ->
  heap (sessionManager_ (srv w)) !! p = Some s -> RtmpSession.publisher_ s = Some c ->
  c ∈ seen' /\ contexts w' !! c = None /\
  exists s', heap (sessionManager_ (srv w')) !! p = Some s' /\
    RtmpSession.streamKey_ s' = RtmpSession.streamKey_ s /\ RtmpSession.publisher_ s' = Some c.
Proof.
  intros Hw Hc Hnone Hs Hp Hpub.
  assert (forall c0 conns m, c0 <> c -> manager_keeps c0 conns (sessionManager_ (srv w)) m ->
    exists s', heap m !! p = Some s' /\
      RtmpSession.streamKey_ s' = RtmpSession.streamKey_ s /\ RtmpSession.publisher_ s' = Some c) as Hk.
  { intros c0 conns m Hne (_ & _ & Hk).
    destruct (Hk p s Hp) as [(s' & Hp' & Hkey & Hpub' & _)|(_ & Hno & _)].
    - exists s'. split_and!; [done|done|]. by apply Hpub'.
    - by destruct (Hno c). }
  destruct Hs as [c0 w Hnew|c0 rd data w w' Hin Hb|c0 w Hin].
  - split_and!; [set_solver| |by exists s].
    cbn. rewrite lookup_insert_ne; [done|]. intros ->. by apply (Hnew c).
  - destruct (bytes_ok rd seen w c0 data Hin Hw) as (w1 & Hb1 & _ & _ & Hsame & Hkeep).
    assert (w1 = w') as -> by congruence.
    assert (c0 <> c) as Hne by (intros ->; by destruct Hin as [? ?]; congruence).
    split_and!; [done|by rewrite Hsame|by eapply Hk].
  - assert (c0 <> c) as Hne by (intros ->; by destruct Hin as [? ?]; congruence).
    destruct (disconnect_ok seen w c0 Hin Hw) as [_ Hkeep].
    split_and!; [done|by cbn; rewrite lookup_delete_ne|by eapply Hk].
Qed.

End invariant.

Lemma reachable_ok {B : Type} `{ByteBufferLaws B} auth (w : world B) seen :
  reachable auth w seen -> world_ok (allowed auth) seen w.
Proof.
  induction 1 as [|w seen w' seen' _ IH Hs]; [apply world_ok_initial|].
  destruct Hs as [c w Hnew|c rd data w w' Hin Hb|c w Hin].
  - by apply connect_ok.
  - destruct (bytes_ok _ auth (sound_allowed auth) rd seen w c data Hin IH) as (w1 & Hb1 & Hok & _). congruence.
  - by destruct (disconnect_ok _ seen w c Hin IH).
Qed.

(** ** Running a list of events *)

Inductive ev := Connect (c : conn_ptr) | Bytes (c : conn_ptr) (data : bytes) | Disconnect (c : conn_ptr).

Section run.
Context {B : Type} `{ByteBuffer B} (auth : option (bytes -> bytes -> bool -> bool)) (rd : nat -> Z).

Definition run_event (e : ev) (ws : world B * gset conn_ptr) : option (world B * gset conn_ptr) :=
  let '(w, seen) := ws in
  match e with
  | Connect c =>
      if forallb (fun c' => negb (bool_decide (conn_name c' = conn_name c))) (elements seen)
      then Some (onConnected c w, {[c]} ∪ seen) else None
  | Bytes c data =>
      _ ← contexts w !! c; w' ← onBytes auth true rd c data w; Some (w', seen)
  | Disconnect c => _ ← contexts w !! c; Some (onDisconnected c w, seen)
  end.

Fixpoint run_events (es : list ev) (ws : world B * gset conn_ptr)
    : option (world B * gset conn_ptr) :=
  match es with
  | [] => Some ws
  | e :: es' => ws' ← run_event e ws; run_events es' ws'
  end.

Lemma run_event_step e w seen w' seen' :
  run_event e (w, seen) = Some (w', seen') -> step auth seen w w' seen'.
Proof.
  destruct e as [c|c data|c]; cbn.
  - destruct (forallb _ _) eqn:E; [|done]. intros [= <- <-]. apply step_connect.
    intros c' Hin%elem_of_elements Heq. rewrite forallb_forall in E.
    apply list_elem_of_In in Hin. apply E, negb_true_iff, bool_decide_eq_false in Hin. done.
  - destruct (contexts w !! c) eqn:Ec; cbn; [|done].
    destruct (onBytes auth true rd c data w) as [w1|] eqn:Eb; cbn; [|done]. intros [= <- <-].
    eapply step_bytes; [by eexists|done].
  - destruct (contexts w !! c) eqn:Ec; cbn; [|done]. intros [= <- <-].
    apply step_disconnect. by eexists.
Qed.

Lemma run_events_reachable es w seen w' seen' :
  run_events es (w, seen) = Some (w', seen') -> reachable auth w seen -> reachable auth w' seen'.
Proof.
  revert w seen. induction es as [|e es IH]; intros w seen; cbn [run_events].
  { by intros [= <- <-]. }
  destruct (run_event e (w, seen)) as [[w1 seen1]|] eqn:E; cbn; [|done].
  intros Hr Hw. apply (IH w1 seen1); [done|]. eapply reachable_step; [done|].
  by eapply run_event_step.
Qed.

End run.

(** ** Samples: a client's bytes *)

Definition amf (vs : list Amf0Value) : bytes := encodeAll vs [].

Definition client_command (sid : Z) (vs : list Amf0Value) : bytes :=
  RtmpChunkWriter.EncodeMessage
    (mkMessage 0 (Z.of_nat (length (amf vs))) kMessageTypeCommandAmf0 sid 3 (amf vs)) 128.

Definition hello : bytes := chr 3 :: replicate (Z.to_nat 3072) Byte.x00.

Definition setup : bytes :=
  client_command 0 [String (str "connect"); Number 0; ObjectValue [(str "app", String (str "live"))]]
  ++ client_command 0 [String (str "createStream"); Number 0; Null].

Definition publish (stream : String.string) : bytes :=
  client_command 1 [String (str "publish"); Number 0; Null; String (str stream)].

Definition play (stream : String.string) : bytes :=
  client_command 1 [String (str "play"); Number 0; Null; String (str stream)].

Definition alice : conn_ptr := mkConn 1 (str "alice").
Definition bob : conn_ptr := mkConn 2 (str "bob").

Definition sample_events : list ev :=
  [Connect alice; Bytes alice hello; Bytes alice (setup ++ publish "a");
   Connect bob; Bytes bob hello; Bytes bob (setup ++ play "a")].

Definition sample_run : option (world bytes * gset conn_ptr) :=
  run_events None (fun _ => 0%Z) sample_events (initial_world, ∅).

Definition sample : world bytes * gset conn_ptr := default (initial_world, ∅) sample_run.

Lemma sample_reachable : reachable None sample.1 sample.2.
Proof.
  unfold sample. destruct sample_run as [[w seen]|] eqn:E; [|apply reachable_initial].
  eapply run_events_reachable; [exact E|apply reachable_initial].
Qed.

Definition context_of (c : conn_ptr) : t := default initial (contexts sample.1 !! c).

(** ** Properties *)

(** C5 The invariant of the server, whatever its clients send and however their
    events interleave: reading bytes never leaves a buffer or runs for ever; a
    connection in the publisher role is bound to a live session whose publisher
    it is; a player whose connection is up is bound to a live session that has
    it; the table and the sessions it owns agree; and every session's cache is
    the one its publications call for. *)
Theorem server_invariant {B : Type} `{ByteBufferLaws B}
    (auth : option (bytes -> bytes -> bool -> bool)) (w : world B) (seen : gset conn_ptr) :
  reachable auth w seen ->
  let m := sessionManager_ (srv w) in
  (forall c x rd data, contexts w !! c = Some x -> is_Some (onBytes auth true rd c data w)) /\
  (forall c x, contexts w !! c = Some x -> role_ x = kPublisher ->
     exists p s, session_ x = Some p /\ heap m !! p = Some s /\ RtmpSession.publisher_ s = Some c) /\
  (forall c x, contexts w !! c = Some x -> role_ x = kPlayer -> c ∈ connected (srv w) ->
     exists p s, session_ x = Some p /\ heap m !! p = Some s /\
       RtmpSession.players_ s !! conn_name c = Some c) /\
  (forall key p, sessions_ m !! key = Some p <->
     exists s, heap m !! p = Some s /\ RtmpSession.streamKey_ s = key) /\
  (forall p s, heap m !! p = Some s -> exists ms, RtmpSession.cache_of s = RtmpSession.cache_spec ms).
Proof.
  intros Hr m. apply reachable_ok in Hr as Hw. destruct Hw as [Hsv Hio] eqn:E. clear E.
  split_and!.
  - intros c x rd data Hx. destruct (bytes_ok _ auth (sound_allowed auth) rd seen w c data) as (w' & -> & _);
      [by exists x|by apply reachable_ok|by eexists].
  - intros c x Hx. apply (sv_bound _ _ _ _ Hsv) in Hx. apply Hx.
  - intros c x Hx. apply (sv_bound _ _ _ _ Hsv) in Hx. apply Hx.
  - intros key p. split; [apply Hsv|]. intros (s & Hp & <-). by apply (heap_table _ _ (sv_manager _ _ _ _ Hsv)).
  - intros p s Hp. apply (heap_sessions _ _ (sv_manager _ _ _ _ Hsv)) in Hp as ([ms [Hc _]] & _).
    by exists ms.
Qed.

Lemma server_invariant_witness :
  let m := sessionManager_ (srv sample.1) in
  (forall c x rd data, contexts sample.1 !! c = Some x ->
     is_Some (onBytes None true rd c data sample.1)) /\
  (forall c x, contexts sample.1 !! c = Some x -> role_ x = kPublisher ->
     exists p s, session_ x = Some p /\ heap m !! p = Some s /\ RtmpSession.publisher_ s = Some c) /\
  (forall c x, contexts sample.1 !! c = Some x -> role_ x = kPlayer -> c ∈ connected (srv sample.1) ->
     exists p s, session_ x = Some p /\ heap m !! p = Some s /\
       RtmpSession.players_ s !! conn_name c = Some c) /\
  (forall key p, sessions_ m !! key = Some p <->
     exists s, heap m !! p = Some s /\ RtmpSession.streamKey_ s = key) /\
  (forall p s, heap m !! p = Some s -> exists ms, RtmpSession.cache_of s = RtmpSession.cache_spec ms).
Proof. exact (server_invariant (B := bytes) None sample.1 sample.2 sample_reachable). Defined.

(** C7 One publisher per stream: in every reachable state two connections in the
    publisher role whose sessions have the same stream key are the same
    connection; and whoever publishes or plays a live session was granted its
    stream key, with some ticket, by the authorisation callback. *)
Theorem publisher_exclusive_and_authorized {B : Type} `{ByteBufferLaws B}
    (auth : option (bytes -> bytes -> bool -> bool)) (w : world B) (seen : gset conn_ptr) :
  reachable auth w seen ->
  let m := sessionManager_ (srv w) in
  (forall c1 c2 x1 x2 p1 p2 s1 s2,
     contexts w !! c1 = Some x1 -> contexts w !! c2 = Some x2 ->
     role_ x1 = kPublisher -> role_ x2 = kPublisher ->
     session_ x1 = Some p1 -> session_ x2 = Some p2 ->
     heap m !! p1 = Some s1 -> heap m !! p2 = Some s2 ->
     RtmpSession.streamKey_ s1 = RtmpSession.streamKey_ s2 -> c1 = c2) /\
  (forall c x p s, contexts w !! c = Some x -> session_ x = Some p -> heap m !! p = Some s ->
     (role_ x = kPublisher ->
        exists tk, authorizePublish auth (RtmpSession.streamKey_ s) tk = true) /\
     (role_ x = kPlayer ->
        exists tk, authorizePlay auth (RtmpSession.streamKey_ s) tk = true)).
Proof.
  intros Hr m. apply reachable_ok in Hr as [Hsv _]. pose proof (sv_manager _ _ _ _ Hsv) as Hm.
  split.
  - intros c1 c2 x1 x2 p1 p2 s1 s2 Hx1 Hx2 Hr1 Hr2 Hs1 Hs2 Hp1 Hp2 Hkey.
    apply (sv_bound _ _ _ _ Hsv) in Hx1 as [Hb1 _], Hx2 as [Hb2 _].
    destruct (Hb1 Hr1) as (q1 & t1 & Hq1 & Ht1 & Hc1), (Hb2 Hr2) as (q2 & t2 & Hq2 & Ht2 & Hc2).
    simplify_eq.
    apply (heap_table _ _ Hm) in Hp1 as Hk1. apply (heap_table _ _ Hm) in Hp2 as Hk2.
    rewrite Hkey in Hk1. by simplify_eq.
  - intros c x p s Hx Hs Hp. apply (sv_bound _ _ _ _ Hsv) in Hx as (_ & _ & Ha & _).
    destruct (Ha p Hs) as [_ Has]. apply Has in Hp.
    split; intros Hrole; by rewrite Hrole in Hp.
Qed.

Lemma publisher_exclusive_and_authorized_witness :
  let m := sessionManager_ (srv sample.1) in
  (forall c1 c2 x1 x2 p1 p2 s1 s2,
     contexts sample.1 !! c1 = Some x1 -> contexts sample.1 !! c2 = Some x2 ->
     role_ x1 = kPublisher -> role_ x2 = kPublisher ->
     session_ x1 = Some p1 -> session_ x2 = Some p2 ->
     heap m !! p1 = Some s1 -> heap m !! p2 = Some s2 ->
     RtmpSession.streamKey_ s1 = RtmpSession.streamKey_ s2 -> c1 = c2) /\
  (forall c x p s, contexts sample.1 !! c = Some x -> session_ x = Some p -> heap m !! p = Some s ->
     (role_ x = kPublisher ->
        exists tk, authorizePublish None (RtmpSession.streamKey_ s) tk = true) /\
     (role_ x = kPlayer ->
        exists tk, authorizePlay None (RtmpSession.streamKey_ s) tk = true)).
Proof.
  exact (publisher_exclusive_and_authorized (B := bytes) None sample.1 sample.2 sample_reachable).
Defined.

Lemma received_fmap c (sends : list (conn_ptr * bytes)) (outs : list (conn_ptr * output)) :
  outs = (fun '(c, d) => (c, Send d)) <$> sends ->
  (fun o => match o.2 with Send d => d | Shutdown => [] end) <$> filter (fun o => o.1 = c) outs =
  snd <$> filter (fun s => s.1 = c) sends.
Proof.
  intros ->. induction sends as [|[c' d] sends IH]; [done|]. rewrite fmap_cons, !filter_cons. cbn [fst].
  destruct (decide (c' = c)); [by rewrite !fmap_cons, IH|done].
Qed.

(** The bytes that a list of outputs sends to one connection. *)
Definition delivered (c : conn_ptr) (outs : list (conn_ptr * output)) : bytes :=
  concat ((fun o => match o.2 with Send d => d | Shutdown => [] end) <$>
          filter (fun o => o.1 = c) outs).

(** C19 Routing of media.  In every reachable state a media message of a
    connection is always handled; unless the connection publishes it changes
    nothing; if it does, every connected player of the session it is bound to,
    in particular every connection in the player role bound to this session,
    is sent exactly one copy, encoded with chunk size 128, everybody else
    nothing, and no other session changes. *)
Theorem media_routing {B : Type} `{ByteBufferLaws B}
    (auth : option (bytes -> bytes -> bool -> bool)) (w : world B) (seen : gset conn_ptr)
    (c : conn_ptr) (x x' : t) (message : RtmpMessage) (ok : bool) (sv' : server) :
  reachable auth w seen -> contexts w !! c = Some x ->
  handleMediaMessage c message x (srv w) = (ok, x', sv') ->
  ok = true /\ x' = x /\ (role_ x <> kPublisher -> sv' = srv w) /\
  (role_ x = kPublisher -> exists p s outs,
     session_ x = Some p /\ heap (sessionManager_ (srv w)) !! p = Some s /\
     RtmpSession.publisher_ s = Some c /\ outputs sv' = outputs (srv w) ++ outs /\
     (forall c', delivered c' outs =
        if decide (c' ∈ connected (srv w) /\ RtmpSession.players_ s !! conn_name c' = Some c')
        then RtmpChunkWriter.EncodeMessage message kDefaultChunkSize else []) /\
     (forall c' y, contexts w !! c' = Some y -> role_ y = kPlayer -> session_ y = Some p ->
        c' ∈ connected (srv w) ->
        delivered c' outs = RtmpChunkWriter.EncodeMessage message kDefaultChunkSize) /\
     (forall q, q <> p -> heap (sessionManager_ sv') !! q = heap (sessionManager_ (srv w)) !! q)).
Proof.
  intros Hr Hx Hh. apply reachable_ok in Hr as [Hsv _]. pose proof (sv_manager _ _ _ _ Hsv) as Hm.
  assert (c ∈ seen) as Hc by (apply (sv_seen _ _ _ _ Hsv); by exists x).
  destruct (handleMediaMessage_ok (allowed auth) seen c message x (srv w) ok x' sv' Hm
              (sv_bound _ _ _ _ Hsv c x Hx) Hh) as (-> & -> & _ & Hno & Hyes).
  split_and!; [done|done|done|]. intros Hrole.
  destruct (Hyes Hrole) as (p & s & s' & sends & Hs & Hp & Hpub & Hmedia & ->).
  exists p, s, ((fun '(c, d) => (c, Send d)) <$> sends).
  pose proof (heap_sessions _ _ Hm _ _ Hp) as (_ & Hwf & _).
  set (s1 := RtmpSession.cacheMediaMessage message s).
  assert (RtmpSession.players_ s1 = RtmpSession.players_ s) as Hpl
    by apply RtmpSession.cacheMediaMessage_players.
  assert (players_wf s1) as Hwf1 by (intros n c'; rewrite Hpl; apply Hwf).
  pose proof (broadcast_spec (connected (srv w)) message kDefaultChunkSize s1 Hwf1) as Hb.
  unfold RtmpSession.onMediaMessage in Hmedia. fold s1 in Hmedia. rewrite Hmedia in Hb.
  destruct Hb as (Hrec & _). rewrite Hpl in Hrec.
  assert (forall c', delivered c' ((fun '(c, d) => (c, Send d)) <$> sends) =
        if decide (c' ∈ connected (srv w) /\ RtmpSession.players_ s !! conn_name c' = Some c')
        then RtmpChunkWriter.EncodeMessage message kDefaultChunkSize else []) as Hdel.
  { intros c'. rewrite <- Hrec. unfold delivered, received. by rewrite (received_fmap c' sends). }
  split_and!; [done|done|done|done|exact Hdel| |].
  - intros c' y Hy Hry Hsy Hconn. rewrite Hdel, decide_True; [done|]. split; [done|].
    apply (sv_bound _ _ _ _ Hsv) in Hy as (_ & Hplay & _).
    destruct (Hplay Hry Hconn) as (q & s2 & Hq & Hp2 & Hin). by simplify_eq.
  - intros q Hne. cbn. by rewrite lookup_alter_ne.
Qed.

Definition sample_media : RtmpMessage :=
  mkMessage 0 3 kMessageTypeVideo 1 6 [Byte.x17; Byte.x01; Byte.x00].

Lemma media_routing_witness :
  let '(ok, x', sv') := handleMediaMessage alice sample_media (context_of alice) (srv sample.1) in
  ok = true /\ x' = context_of alice /\
  (role_ (context_of alice) <> kPublisher -> sv' = srv sample.1) /\
  (role_ (context_of alice) = kPublisher -> exists p s outs,
     session_ (context_of alice) = Some p /\ heap (sessionManager_ (srv sample.1)) !! p = Some s /\
     RtmpSession.publisher_ s = Some alice /\ outputs sv' = outputs (srv sample.1) ++ outs /\
     (forall c', delivered c' outs =
        if decide (c' ∈ connected (srv sample.1) /\ RtmpSession.players_ s !! conn_name c' = Some c')
        then RtmpChunkWriter.EncodeMessage sample_media kDefaultChunkSize else []) /\
     (forall c' y, contexts sample.1 !! c' = Some y -> role_ y = kPlayer -> session_ y = Some p ->
        c' ∈ connected (srv sample.1) ->
        delivered c' outs = RtmpChunkWriter.EncodeMessage sample_media kDefaultChunkSize) /\
     (forall q, q <> p -> heap (sessionManager_ sv') !! q = heap (sessionManager_ (srv sample.1)) !! q)).
Proof.
  destruct (handleMediaMessage alice sample_media (context_of alice) (srv sample.1))
    as [[ok x'] sv'] eqn:E.
  eapply (media_routing (B := bytes) None sample.1 sample.2 alice (context_of alice) x' sample_media);
    [exact sample_reachable|vm_compute; reflexivity|exact E].
Defined.

(** Every place of connection [c] in a session is the one its context names. *)
Definition attached_as_recorded (m : RtmpSessionManager.t) (c : conn_ptr) (x : t) : Prop :=
  forall p s, heap m !! p = Some s ->
    (RtmpSession.publisher_ s = Some c ->
       role_ x = kPublisher /\ RtmpSession.streamKey_ s = streamKey x) /\
    (RtmpSession.players_ s !! conn_name c = Some c ->
       role_ x = kPlayer /\ RtmpSession.streamKey_ s = streamKey x).

(** C24 Cleanup.  When a connection that is attached only where its context says
    goes down, no session of the server refers to it any more, and a session
    that this left without publisher and players is gone from the table. *)
Theorem cleanup_complete {B : Type} `{ByteBufferLaws B}
    (auth : option (bytes -> bytes -> bool -> bool)) (w : world B) (seen : gset conn_ptr)
    (c : conn_ptr) (x : t) :
  reachable auth w seen -> contexts w !! c = Some x -> streamKey x <> [] ->
  attached_as_recorded (sessionManager_ (srv w)) c x ->
  let m' := sessionManager_ (srv (onDisconnected c w)) in
  (forall p s, heap m' !! p = Some s ->
     RtmpSession.publisher_ s <> Some c /\ RtmpSession.players_ s !! conn_name c <> Some c) /\
  (forall p s, sessions_ m' !! streamKey x = Some p -> heap m' !! p = Some s ->
     RtmpSession.publisher_ s <> None \/ RtmpSession.players_ s <> ∅).
Proof.
  intros Hr Hx Hkey Hatt m'. apply reachable_ok in Hr as [Hsv _].
  pose proof (sv_manager _ _ _ _ Hsv) as Hm. subst m'. unfold onDisconnected, cleanupConnection, find.
  rewrite Hx. cbn [srv sessionManager_]. set (m := sessionManager_ (srv w)) in *. set (k := streamKey x) in *.
  rewrite (proj2 (Nat.eqb_neq _ 0)) by (by intros E%nil_length_inv).
  destruct (sessions_ m !! k) as [p|] eqn:Ek; cbn [set_manager sessionManager_].
  2: { split; [|congruence]. intros q s Hq. apply (heap_table _ _ Hm) in Hq as Ht.
       split; intros Hin; apply (Hatt q s Hq) in Hin as [_ E]; rewrite E in Ht; fold k in Ht; congruence. }
  split.
  - intros q s Hq%removeIfEmpty_sub.
    assert (forall s0, heap m !! q = Some s0 -> q <> p ->
              RtmpSession.publisher_ s0 <> Some c /\
              RtmpSession.players_ s0 !! conn_name c <> Some c) as Hother.
    { intros s0 Hp0 Hne. apply (heap_table _ _ Hm) in Hp0 as Ht.
      split; intros Hin; apply (Hatt q s0 Hp0) in Hin as [_ E]; rewrite E in Ht; fold k in Ht; congruence. }
    destruct (decide (q = p)) as [->|Hne].
    + destruct (role_ x) eqn:Er.
      * split; intros Hin; apply (Hatt p s Hq) in Hin as [E _]; congruence.
      * cbn in Hq. apply lookup_alter_Some in Hq as [(_ & s0 & Hp0 & ->)|[? _]]; [|done].
        unfold RtmpSession.clearPublisher. destruct (bool_decide _) eqn:E; bool_hyps; cbn.
        -- split; [done|]. intros Hin. apply (Hatt p s0 Hp0) in Hin as [? _]. congruence.
        -- split; [done|]. intros Hin. apply (Hatt p s0 Hp0) in Hin as [? _]. congruence.
      * cbn in Hq. apply lookup_alter_Some in Hq as [(_ & s0 & Hp0 & ->)|[? _]]; [|done].
        cbn. rewrite lookup_delete_eq. split; [|done].
        intros Hin. apply (Hatt p s0 Hp0) in Hin as [? _]. congruence.
    + apply Hother; [|done]. destruct (role_ x); [done|..]; cbn in Hq; by rewrite lookup_alter_ne in Hq.
  - intros q s Hq Hs. eapply removeIfEmpty_nonempty in Hs as He; [|exact Hq].
    destruct (RtmpSession.publisher_ s) eqn:Ep; [by left|right]. intros El.
    assert (RtmpSession.empty s = true) by by apply empty_spec. congruence.
Qed.

Lemma cleanup_complete_witness :
  let m' := sessionManager_ (srv (onDisconnected bob sample.1)) in
  (forall p s, heap m' !! p = Some s ->
     RtmpSession.publisher_ s <> Some bob /\ RtmpSession.players_ s !! conn_name bob <> Some bob) /\
  (forall p s, sessions_ m' !! streamKey (context_of bob) = Some p -> heap m' !! p = Some s ->
     RtmpSession.publisher_ s <> None \/ RtmpSession.players_ s <> ∅).
Proof.
  apply (cleanup_complete (B := bytes) None sample.1 sample.2 bob (context_of bob));
    [exact sample_reachable|vm_compute; reflexivity|vm_compute; congruence|].
  assert (map_Forall (fun _ s => RtmpSession.publisher_ s <> Some bob /\
            RtmpSession.streamKey_ s = streamKey (context_of bob))
            (heap (sessionManager_ (srv sample.1)))) as Hall.
  { apply (bool_decide_unpack _). vm_compute. exact I. }
  intros p s Hp. apply Hall in Hp as [Hpub Hkey]. split.
  - intros E. destruct (Hpub E).
  - intros _. split; [vm_compute; reflexivity|exact Hkey].
Defined.

(** Any number of further events. *)
Inductive later {B : Type} `{ByteBuffer B} (auth : option (bytes -> bytes -> bool -> bool)) :
    world B -> gset conn_ptr -> world B -> gset conn_ptr -> Prop :=
  | later_refl w seen : later auth w seen w seen
  | later_step w seen w1 seen1 w2 seen2 :
      step auth seen w w1 seen1 -> later auth w1 seen1 w2 seen2 -> later auth w seen w2 seen2.

Lemma later_keeps_dead {B : Type} `{ByteBufferLaws B} auth w seen w' seen' c p s :
  later auth w seen w' seen' -> world_ok (allowed auth) seen w -> c ∈ seen -> contexts w !! c = None ->
  heap (sessionManager_ (srv w)) !! p = Some s -> RtmpSession.publisher_ s = Some c ->
  exists s', heap (sessionManager_ (srv w')) !! p = Some s' /\
    sessions_ (sessionManager_ (srv w')) !! RtmpSession.streamKey_ s = Some p /\
    RtmpSession.publisher_ s' = Some c.
Proof.
  intros Hl. revert s. induction Hl as [w seen|w seen w1 seen1 w2 seen2 Hs _ IH];
    intros s Hw Hc Hnone Hp Hpub.
  - exists s. split_and!; [done| |done]. by apply (heap_table _ _ (sv_manager _ _ _ _ (w_server _ _ _ Hw))).
  - destruct (step_keeps_dead _ auth (sound_allowed auth) seen w w1 seen1 c p s Hw Hc Hnone Hs Hp Hpub)
      as (Hc1 & Hnone1 & s1 & Hp1 & Hkey & Hpub1).
    rewrite <- Hkey. apply (IH s1); try done.
    destruct Hs as [c0 w Hnew|c0 rd data w w1 Hin Hb|c0 w Hin].
    + by apply connect_ok.
    + destruct (bytes_ok _ auth (sound_allowed auth) rd seen w c0 data Hin Hw) as (w3 & Hb3 & ? & _). congruence.
    + by destruct (disconnect_ok (allowed auth) seen w c0 Hin Hw).
Qed.

Definition stale_run : option (world bytes * gset conn_ptr) :=
  run_events None (fun _ => 0%Z)
    [Connect alice; Bytes alice hello; Bytes alice (setup ++ publish "a" ++ publish "b");
     Disconnect alice] (initial_world, ∅).

Definition stale : world bytes * gset conn_ptr := default (initial_world, ∅) stale_run.

Lemma stale_reachable : reachable None stale.1 stale.2.
Proof.
  unfold stale. destruct stale_run as [[w seen]|] eqn:E; [|apply reachable_initial].
  eapply run_events_reachable; [exact E|apply reachable_initial].
Qed.

(** Cleanup needs its hypothesis: a client that publishes a second stream on
    the same connection overwrites the name of the first one, and when it
    disconnects only the second session is cleaned.  The first stays in the
    table with the dead connection as its publisher after every later event, so
    every other client that wants to publish that stream is refused for ever. *)
Theorem second_publish_leaks_session :
  exists (w : world bytes) (seen : gset conn_ptr) (c : conn_ptr) (key : bytes) (p : nat),
    reachable None w seen /\ contexts w !! c = None /\ (c ∉ connected (srv w)) /\
    forall w' seen', later None w seen w' seen' ->
      sessions_ (sessionManager_ (srv w')) !! key = Some p /\
      exists s, heap (sessionManager_ (srv w')) !! p = Some s /\
        forall c', c' <> c -> RtmpSession.setPublisher c' s = (false, s).
Proof.
  exists stale.1, stale.2, alice, (str "/live/a"), 0.
  pose proof (reachable_ok None _ _ stale_reachable) as Hw.
  assert (exists s, heap (sessionManager_ (srv stale.1)) !! 0 = Some s /\
            RtmpSession.publisher_ s = Some alice /\ RtmpSession.streamKey_ s = str "/live/a")
    as (s & Hp & Hpub & Hkey) by (vm_compute; eexists; split; [reflexivity|split; reflexivity]).
  assert (contexts stale.1 !! alice = None) as Hnone by (vm_compute; reflexivity).
  split; [exact stale_reachable|]. split; [exact Hnone|].
  split; [by apply (bool_decide_unpack _); vm_compute; exact I|].
  intros w' seen' Hl.
  assert (alice ∈ stale.2) as Hin by (apply (bool_decide_unpack _); vm_compute; exact I).
  destruct (later_keeps_dead None _ _ _ _ alice 0 s Hl Hw Hin Hnone Hp Hpub) as (s' & Hp' & Ht & Hpub').
  rewrite Hkey in Ht. split; [exact Ht|]. exists s'. split; [exact Hp'|]. intros c' Hne.
  rewrite (RtmpSession.setPublisher_taken alice) by done. by rewrite bool_decide_eq_false_2.
Qed.

(** A connection after the handshake reads segments one by one: whether it is
    still alive at the end (a failure shuts it down). *)
Definition ready : t := setHandshake kHandshakeDone (bindHandler initial).
Definition empty_server : server := mkServer RtmpSessionManager.initial {[alice]} [].

Fixpoint survives (segments : list bytes) (buf : bytes) (x : t) (sv : server) : option bool :=
  match segments with
  | [] => Some true
  | seg :: segments' =>
      '(ok, x, sv, buf) ← onMessage_chunks None true alice (buf ++ seg) x sv;
      if negb ok then Some false else survives segments' buf x sv
  end.

(** A chunk size announced by the client takes effect only with the next
    read: RtmpConnection::onMessage parses everything that has arrived before it
    handles the first message.  The same bytes are accepted when they come in two
    reads, and end the connection when they come in one. *)
Theorem chunk_size_change_late :
  exists segments1 segments2 : list bytes,
    concat segments1 = concat segments2 /\
    survives segments1 [] ready empty_server = Some true /\
    survives segments2 [] ready empty_server = Some false.
Proof.
  set (wire1 := RtmpChunkWriter.EncodeMessage (setChunkSize_message 4096) 128).
  set (wire2 := RtmpChunkWriter.EncodeMessage
    (mkMessage 0 200 kMessageTypeAudio 1 4 (replicate (Z.to_nat 200) Byte.xff)) 4096).
  exists [wire1; wire2], [wire1 ++ wire2].
  split; [reflexivity|]. split; vm_compute; reflexivity.
Qed.
