(* ===== verification/SessionRace.v ===== *)
(** * The loop of RtmpSession::broadcastMessage, and other loops in between

    src/rtmp/RtmpSession.cc iterates over [players_] and takes no lock, while
    addPlayer and removePlayer run in the loops of the players.  RtmpSession.v has
    the loop as a function on the map; here it goes node by node with its
    iterator: alone it is that function, and what is left of this when others
    change the map between two rounds is proved for every interleaving. *)

From S2P Require Import Prelude Bytes RtmpTypes ChunkWriter ChunkParser RtmpSession.

Module Broadcast.

(** ** The container

    A [std::unordered_map] as the nodes in the order of iteration; a node keeps
    its identity.  Where a new node comes depends on its hash; erasing a node
    invalidates the iterators to it, rehashing all iterators. *)
Record node := mk_node { id : nat; key : bytes; value : conn_ptr }.

(** An iterator: a node or [end()]. *)
Inductive iterator := At (n : nat) | End_.

Record t := mk {
  nodes : list node;
  next_id : nat;
  it : iterator;
  valid : bool;              (** no rehash since the loop began *)
  sent : list conn_ptr;      (** to whom the loop has called send(), in order *)
}.

Definition begin (l : list node) : iterator := match l with [] => End_ | n :: _ => At (id n) end.

(** [++it] *)
Fixpoint next (i : nat) (l : list node) : iterator :=
  match l with
  | [] => End_
  | n :: l => if (id n =? i)%nat then begin l else next i l
  end.

Definition lookup_node (i : nat) (l : list node) : option node := snd <$> list_find (fun n => id n = i) l.

Definition erase_node (i : nat) (l : list node) : list node := filter (fun n => id n <> i) l.

Inductive fault := Dangling.

(** [up]: what connected() answers. *)
Definition iterate (up : conn_ptr -> bool) (s : t) : fault + t :=
  match it s with
  | End_ => inr s
  | At i =>
      if valid s then
        match lookup_node i (nodes s) with
        | None => inl Dangling
        | Some n =>
            inr (if negb (up (value n)) then mk (erase_node i (nodes s)) (next_id s) (next i (nodes s)) true (sent s)
                 else mk (nodes s) (next_id s) (next i (nodes s)) true (sent s ++ [value n]))
        end
      else inl Dangling
  end.

Definition start (l : list node) (next_id : nat) : t := mk l next_id (begin l) true [].

(** RtmpSession::addPlayer in another loop; a new node comes to [place]. *)
Definition addPlayer (c : conn_ptr) (place : nat) (rehash : bool) (s : t) : t :=
  if bool_decide (Exists (fun n => key n = conn_name c) (nodes s)) then s
  else mk (take place (nodes s) ++ mk_node (next_id s) (conn_name c) c :: drop place (nodes s)) (S (next_id s)) (it s)
         (valid s && negb rehash) (sent s).

(** RtmpSession::removePlayer in another loop. *)
Definition removePlayer (c : conn_ptr) (s : t) : t :=
  mk (filter (fun n => key n <> conn_name c) (nodes s)) (next_id s) (it s) (valid s) (sent s).

Inductive event :=
| Iterate (up : conn_ptr -> bool)
| Add (c : conn_ptr) (place : nat) (rehash : bool)
| Remove (c : conn_ptr).

Definition step (e : event) (s : t) : fault + t :=
  match e with
  | Iterate up => iterate up s
  | Add c place rehash => inr (addPlayer c place rehash s)
  | Remove c => inr (removePlayer c s)
  end.

Fixpoint run (es : list event) (s : t) : fault + t :=
  match es with
  | [] => inr s
  | e :: es => match step e s with inl f => inl f | inr s => run es s end
  end.

(** ** Iterators *)

Record nodes_ok (l : list node) (fresh : nat) : Prop := {
  ids_nodup : NoDup (id <$> l);
  keys_nodup : NoDup (key <$> l);
  ids_old n : n ∈ l -> id n < fresh;
  keys_names n : n ∈ l -> key n = conn_name (value n);
}.

Lemma filter_all {A} (P : A -> Prop) `{!forall x, Decision (P x)} (l : list A) : (forall x, x ∈ l -> P x) -> filter P l = l.
Proof.
  induction l as [|x l IH]; intros Hl; [done|].
  rewrite filter_cons_True by (apply Hl, list_elem_of_here). f_equal. apply IH. intros y Hy. by apply Hl, list_elem_of_further.
Qed.

Lemma nodup_fmap_filter {A B} (f : A -> B) (P : A -> Prop) `{!forall x, Decision (P x)} (l : list A) :
  NoDup (f <$> l) -> NoDup (f <$> filter P l).
Proof.
  induction l as [|x l IH]; [done|]. rewrite fmap_cons. intros [Hx Hl]%NoDup_cons. destruct (decide (P x)).
  - rewrite filter_cons_True, fmap_cons by done. apply NoDup_cons. split; [|by apply IH].
    intros (y & Hxy & [_ Hy]%list_elem_of_filter)%list_elem_of_fmap. apply Hx. apply list_elem_of_fmap. by exists y.
  - rewrite filter_cons_False by done. by apply IH.
Qed.

Lemma next_at l1 n l2 : NoDup (id <$> l1 ++ n :: l2) -> next (id n) (l1 ++ n :: l2) = begin l2.
Proof.
  induction l1 as [|m l1 IH]; cbn; [by rewrite Nat.eqb_refl|]. intros [Hm Hnd]%NoDup_cons.
  destruct (Nat.eqb_spec (id m) (id n)) as [Heq|Hne]; [|by apply IH].
  destruct Hm. rewrite Heq, fmap_app. set_solver.
Qed.

Lemma lookup_node_at l1 n l2 : NoDup (id <$> l1 ++ n :: l2) -> lookup_node (id n) (l1 ++ n :: l2) = Some n.
Proof.
  unfold lookup_node. induction l1 as [|m l1 IH]; cbn.
  - by rewrite decide_True.
  - intros [Hm Hnd]%NoDup_cons. rewrite decide_False.
    + rewrite <- IH by done. by destruct (list_find _ _) as [[? ?]|].
    + intros Heq. destruct Hm. rewrite Heq, fmap_app. set_solver.
Qed.

Lemma lookup_node_none i l : i ∉ id <$> l -> lookup_node i l = None.
Proof.
  unfold lookup_node. intros Hi. rewrite (proj2 (list_find_None _ _)); [done|].
  apply Forall_forall. intros n Hn Heq. destruct Hi. apply list_elem_of_fmap. by exists n.
Qed.

Lemma erase_node_at l1 n l2 : NoDup (id <$> l1 ++ n :: l2) -> erase_node (id n) (l1 ++ n :: l2) = l1 ++ l2.
Proof.
  intros Hnd. unfold erase_node. rewrite fmap_app in Hnd. cbn in Hnd.
  apply NoDup_app in Hnd as (_ & Hd & [Hn _]%NoDup_cons).
  rewrite filter_app, filter_cons_False by (by intros []).
  rewrite !filter_all; [done| |].
  - intros m Hm Heq. destruct Hn. rewrite <- Heq. apply list_elem_of_fmap. by exists m.
  - intros m Hm Heq. apply (Hd (id m)); [apply list_elem_of_fmap; by exists m|]. rewrite Heq. by apply list_elem_of_here.
Qed.

(** ** The loop alone *)

Lemma loop_from up l1 l2 fresh out :
  NoDup (id <$> l1 ++ l2) ->
  run (replicate (length l2) (Iterate up)) (mk (l1 ++ l2) fresh (begin l2) true out) =
    inr (mk (l1 ++ filter (fun n => up (value n) = true) l2) fresh End_ true
           (out ++ (value <$> filter (fun n => up (value n) = true) l2))).
Proof.
  revert l1 out. induction l2 as [|n l2 IH]; intros l1 out Hnd; cbn [length replicate run step]; [by rewrite !app_nil_r|].
  unfold iterate. cbn [it valid nodes next_id begin sent].
  rewrite (lookup_node_at l1 n l2), (next_at l1 n l2), (erase_node_at l1 n l2) by done.
  destruct (up (value n)) eqn:Hup; cbn [negb].
  - rewrite filter_cons_True by done. rewrite (cons_middle n l1 l2), app_assoc in Hnd |- *.
    rewrite IH by done. cbn. by rewrite <- !app_assoc.
  - rewrite filter_cons_False by by rewrite Hup. rewrite IH; [done|].
    rewrite fmap_app in Hnd |- *. apply NoDup_app in Hnd as (? & ? & [_ ?]%NoDup_cons).
    apply NoDup_app. split_and!; [done|set_solver|done].
Qed.

Definition entries (l : list node) : list (bytes * conn_ptr) := (fun n => (key n, value n)) <$> l.

(** The nodes hold the map. *)
Definition represents (l : list node) (m : gmap bytes conn_ptr) : Prop :=
  NoDup (key <$> l) /\ list_to_map (entries l) = m.

Lemma entries_keys l : (entries l).*1 = key <$> l.
Proof. unfold entries. by rewrite <- list_fmap_compose. Qed.

Lemma entries_filter (conns : gset conn_ptr) l :
  entries (filter (fun n => bool_decide (value n ∈ conns) = true) l) =
    filter (fun '(_, player) => player ∈ conns) (entries l).
Proof.
  induction l as [|n l IH]; [done|]. cbn [entries fmap list_fmap]. fold (entries l).
  destruct (decide (value n ∈ conns)) as [Hin|Hout].
  - rewrite !filter_cons_True by (done || by apply bool_decide_eq_true). cbn [entries fmap list_fmap]. by f_equal.
  - rewrite !filter_cons_False; [done|done|by rewrite bool_decide_eq_true].
Qed.

Lemma represents_perm l m : represents l m -> map_to_list m ≡ₚ entries l.
Proof. intros [Hnd <-]. apply map_to_list_to_map. by rewrite entries_keys. Qed.

Lemma represents_filter (conns : gset conn_ptr) l m :
  represents l m ->
  represents (filter (fun n => bool_decide (value n ∈ conns) = true) l) (filter (fun '(_, player) => player ∈ conns) m).
Proof.
  intros Hr. pose proof (represents_perm l m Hr) as Hp. destruct Hr as [Hnd _].
  assert (NoDup (key <$> filter (fun n => bool_decide (value n ∈ conns) = true) l)) as Hnd' by (by apply nodup_fmap_filter).
  split; [done|]. rewrite map_filter_alt, entries_filter. symmetry. apply list_to_map_proper.
  - rewrite Hp, <- entries_filter, entries_keys. done.
  - by rewrite Hp.
Qed.

(** ** The loop with others in between *)

Lemma same_key l fresh n m : nodes_ok l fresh -> n ∈ l -> m ∈ l -> key n = key m -> n = m.
Proof.
  intros [_ Hk _ _] [i Hi]%list_elem_of_lookup [j Hj]%list_elem_of_lookup Heq.
  assert (i = j) as ->; [|congruence].
  apply (NoDup_lookup (key <$> l) i j (key n) Hk); rewrite list_lookup_fmap; [by rewrite Hi|by rewrite Hj, Heq].
Qed.

Lemma same_value l fresh n m : nodes_ok l fresh -> n ∈ l -> m ∈ l -> value n = value m -> n = m.
Proof.
  intros Hok Hn Hm Heq. apply (same_key l fresh); [done..|].
  rewrite (keys_names _ _ Hok n Hn), (keys_names _ _ Hok m Hm). by rewrite Heq.
Qed.

Lemma nodes_ok_filter (P : node -> Prop) `{!forall n, Decision (P n)} l fresh :
  nodes_ok l fresh -> nodes_ok (filter P l) fresh.
Proof.
  intros [H1 H2 H3 H4]. split; [by apply nodup_fmap_filter..|intros n [_ Hn]%list_elem_of_filter; auto|].
  intros n [_ Hn]%list_elem_of_filter. auto.
Qed.

Lemma insert_perm (m : node) place l : take place l ++ m :: drop place l ≡ₚ m :: l.
Proof. by rewrite <- Permutation_middle, take_drop. Qed.

Lemma nodes_ok_insert c place l fresh :
  nodes_ok l fresh -> ~ Exists (fun n => key n = conn_name c) l ->
  nodes_ok (take place l ++ mk_node fresh (conn_name c) c :: drop place l) (S fresh).
Proof.
  intros [H1 H2 H3 H4] Hnew. split.
  - rewrite insert_perm, fmap_cons. apply NoDup_cons. split; [|done]. cbn.
    intros (n & Hn & Hin)%list_elem_of_fmap. specialize (H3 n Hin). lia.
  - rewrite insert_perm, fmap_cons. apply NoDup_cons. split; [|done]. cbn.
    intros (n & Hn & Hin)%list_elem_of_fmap. apply Hnew, Exists_exists. by exists n.
  - intros n. rewrite insert_perm. intros [->|Hn]%elem_of_cons; cbn; [lia|]. specialize (H3 n Hn). lia.
  - intros n. rewrite insert_perm. intros [->|Hn]%elem_of_cons; [done|by apply H4].
Qed.

(** The loop has dealt with [before]; [after] is to come. *)
Definition at_split (before after : list node) (s : t) : Prop :=
  nodes s = before ++ after /\ it s = begin after /\ (after = [] \/ valid s = true).

(** The iterator is not valid any more; the loop will use it. *)
Definition lost (s : t) : Prop :=
  (valid s = false /\ it s <> End_) \/ exists i, it s = At i /\ i < next_id s /\ i ∉ id <$> nodes s.

Lemma lost_iterate up s : lost s -> iterate up s = inl Dangling.
Proof.
  unfold iterate. intros [[Hv Hi]|(i & Hi & _ & Hn)].
  - destruct (it s); [|done]. by rewrite Hv.
  - rewrite Hi, lookup_node_none by done. by destruct (valid s).
Qed.

Lemma lost_add c place rehash s : lost s -> lost (addPlayer c place rehash s).
Proof.
  intros Hl. unfold addPlayer. case_bool_decide; [done|]. destruct Hl as [[Hv Hi]|(i & Hi & Hlt & Hn)].
  - left. cbn. by rewrite Hv.
  - right. exists i. cbn. split_and!; [done|lia|]. rewrite insert_perm, fmap_cons, not_elem_of_cons. cbn. split; [lia|done].
Qed.

Lemma lost_remove c s : lost s -> lost (removePlayer c s).
Proof.
  intros [[Hv Hi]|(i & Hi & Hlt & Hn)]; [by left|]. right. exists i. split_and!; [done|done|].
  intros (n & -> & [_ Hin]%list_elem_of_filter)%list_elem_of_fmap. apply Hn, list_elem_of_fmap. by exists n.
Qed.

(** One round of the loop. *)
Lemma iterate_split up before n after s :
  nodes_ok (nodes s) (next_id s) -> at_split before (n :: after) s ->
  iterate up s = inr (if up (value n) then mk (before ++ n :: after) (next_id s) (begin after) true (sent s ++ [value n])
                      else mk (before ++ after) (next_id s) (begin after) true (sent s)).
Proof.
  intros [Hnd _ _ _] (Hn & Hi & [?|Hv]); [done|]. rewrite Hn in Hnd. unfold iterate. rewrite Hi, Hv, Hn. cbn [begin].
  rewrite lookup_node_at, next_at, erase_node_at by done. by destruct (up (value n)).
Qed.

(** A new node comes before the iterator or behind it. *)
Lemma insert_split (m : node) place before after :
  exists before' after', take place (before ++ after) ++ m :: drop place (before ++ after) = before' ++ after' /\
    begin after' = begin after /\ (after = [] -> after' = []) /\
    before ⊆ before' /\ after ⊆ after' /\ length after' <= S (length after).
Proof.
  destruct (decide (place <= length before)) as [Hle|Hgt].
  - exists (take place before ++ m :: drop place before), after.
    rewrite take_app_le, drop_app_le, <- app_assoc by done. split_and!; [done..| |done|lia].
    intros x Hx. rewrite insert_perm. by right.
  - destruct after as [|n after].
    { exists (before ++ [m]), []. rewrite !app_nil_r, take_ge, drop_ge by lia. split_and!; [done..| |done|lia]. set_solver. }
    exists before, (n :: take (place - length before - 1) after ++ m :: drop (place - length before - 1) after).
    rewrite take_app_ge, drop_app_ge by lia. replace (place - length before) with (S (place - length before - 1)) by lia.
    cbn [take drop]. rewrite Nat.sub_succ, Nat.sub_0_r, <- app_assoc. split_and!; [done..| |].
    + intros x [->|Hx]%elem_of_cons; [by left|]. right. rewrite insert_perm. by right.
    + cbn [length]. rewrite insert_perm. done.
Qed.

Lemma add_split c place rehash before after s :
  at_split before after s -> ~ Exists (fun n => key n = conn_name c) (nodes s) ->
  rehash = true /\ lost (addPlayer c place rehash s) \/
  exists before' after', at_split before' after' (addPlayer c place rehash s) /\
    before ⊆ before' /\ after ⊆ after' /\ length after' <= S (length after) /\ (after = [] -> after' = []).
Proof.
  intros (Hn & Hi & Hv) Hnew. unfold addPlayer. rewrite bool_decide_eq_false_2 by done. rewrite Hn.
  destruct (insert_split (mk_node (next_id s) (conn_name c) c) place before after) as (b' & a' & Heq & Hb & Hnil & H1 & H2 & H3).
  rewrite Heq. destruct (decide (after = [])) as [Ha|Ha].
  { right. exists b', a'. split_and!; [|done..]. split_and!; cbn; [done|by rewrite Hb|by left; apply Hnil]. }
  destruct Hv as [?|Hv]; [done|]. destruct rehash.
  - left. split; [done|]. left. cbn. rewrite Hv, Hi. split; [done|]. by destruct after.
  - right. exists b', a'. split_and!; [|done..]. split_and!; cbn; [done|by rewrite Hb|]. right. by rewrite Hv.
Qed.

Lemma remove_split c before after s :
  nodes_ok (nodes s) (next_id s) -> at_split before after s ->
  lost (removePlayer c s) \/
  at_split (filter (fun n => key n <> conn_name c) before) (filter (fun n => key n <> conn_name c) after) (removePlayer c s).
Proof.
  intros Hok (Hn & Hi & Hv). destruct after as [|n after].
  { right. split_and!; cbn; [by rewrite Hn, filter_app|done|by left]. }
  destruct (decide (key n = conn_name c)) as [Hk|Hk].
  - left. right. exists (id n). assert (n ∈ nodes s) as Hin by (rewrite Hn; set_solver).
    split_and!; [by cbn; rewrite Hi|by eapply ids_old|].
    intros (m & Hid & [Hm Hinm]%list_elem_of_filter)%list_elem_of_fmap. apply Hm.
    assert (n = m) as <-; [|done]. destruct Hok as [Hnd _ _ _].
    apply list_elem_of_lookup in Hin as [i Hl], Hinm as [j Hl'].
    assert (i = j) as ->; [|congruence].
    apply (NoDup_lookup (id <$> nodes s) i j (id n) Hnd); rewrite list_lookup_fmap; [by rewrite Hl|by rewrite Hl', Hid].
  - right. rewrite filter_cons_True by done. split_and!; cbn; [|done|by destruct Hv; auto].
    rewrite Hn, filter_app, filter_cons_True by done. done.
Qed.

(** What an event does to the nodes themselves. *)
Lemma step_nodes e s s' : nodes_ok (nodes s) (next_id s) -> step e s = inr s' -> nodes_ok (nodes s') (next_id s').
Proof.
  intros Hok. destruct e as [up|c place rehash|c]; cbn.
  - unfold iterate. destruct (it s); [|by intros [= <-]]. destruct (valid s); [|done].
    destruct (lookup_node n (nodes s)); [|done]. destruct (negb _); intros [= <-]; [|done]. by apply nodes_ok_filter.
  - intros [= <-]. unfold addPlayer. case_bool_decide; [done|]. by apply nodes_ok_insert.
  - intros [= <-]. by apply nodes_ok_filter.
Qed.

(** ** Who stays is sent the message once *)

(** [n] stays in the map, and its connection is up. *)
Definition undisturbed (n : node) (e : event) : Prop :=
  match e with Iterate up => up (value n) = true | Add _ _ _ => True | Remove c => conn_name c <> key n end.

Definition times (c : conn_ptr) (l : list conn_ptr) : nat := length (filter (fun c' => c' = c) l).

Definition served (n : node) (s : t) : Prop :=
  nodes_ok (nodes s) (next_id s) /\ n ∈ nodes s /\
  (lost s \/ exists before after, at_split before after s /\
     ((n ∈ after /\ times (value n) (sent s) = 0) \/ (n ∈ before /\ times (value n) (sent s) = 1))).

Lemma times_snoc c l c' : times c (l ++ [c']) = times c l + if decide (c' = c) then 1 else 0.
Proof.
  unfold times. rewrite filter_app, length_app. f_equal. destruct (decide (c' = c)).
  - by rewrite filter_cons_True.
  - by rewrite filter_cons_False.
Qed.

Lemma served_iterate n up s s' :
  served n s -> up (value n) = true -> iterate up s = inr s' -> served n s'.
Proof.
  intros (Hok & Hin & Hw) Hup Hit. pose proof (step_nodes (Iterate up) s s' Hok Hit) as Hok'.
  destruct Hw as [Hl|(before & after & Hs & Hw)]; [by rewrite lost_iterate in Hit|].
  destruct after as [|m after].
  { unfold iterate in Hit. destruct Hs as (Hn & Hi & Hv). rewrite Hi in Hit. injection Hit as <-.
    split_and!; [done..|]. right. by exists before, []. }
  assert (m ∈ nodes s) as Hm by (destruct Hs as (-> & _); set_solver).
  rewrite (iterate_split up before m after s Hok Hs) in Hit. destruct (up (value m)) eqn:Hupm; injection Hit as <-.
  - destruct Hs as (Hn & _). split_and!; [done|by rewrite Hn in Hin|]. right. exists (before ++ [m]), after.
    split; [split_and!; cbn; [by rewrite <- app_assoc|done|by right]|]. cbn [sent]. rewrite times_snoc.
    destruct (decide (value m = value n)) as [Heq|Hne].
    + assert (m = n) as -> by (by apply (same_value (nodes s) (next_id s))). right. destruct Hw as [[_ Ht]|[Hb _]]; [split; [set_solver|lia]|].
      destruct Hok as [Hnd _ _ _]. rewrite Hn, fmap_app in Hnd. apply NoDup_app in Hnd as (_ & Hd & _).
      destruct (Hd (id n)); [apply list_elem_of_fmap; by exists n|by apply list_elem_of_here].
    + rewrite Nat.add_0_r. assert (n <> m) by congruence. set_solver.
  - assert (n <> m) by congruence. destruct Hs as (Hn & _). split_and!; [done| |].
    + cbn. rewrite Hn in Hin. set_solver.
    + right. exists before, after. split; [split_and!; [done..|by right]|]. set_solver.
Qed.

Lemma served_step n e s s' : served n s -> undisturbed n e -> step e s = inr s' -> served n s'.
Proof.
  intros Hs He Hst. destruct e as [up|c place rehash|c]; [by eapply served_iterate| |]; cbn in Hst; injection Hst as <-;
    destruct Hs as (Hok & Hin & Hw).
  - unfold served. split; [by apply (step_nodes (Add c place rehash) s)|].
    destruct (decide (Exists (fun n => key n = conn_name c) (nodes s))) as [Hex|Hnew].
    { unfold addPlayer. by rewrite bool_decide_eq_true_2. }
    assert (sent (addPlayer c place rehash s) = sent s) as -> by (unfold addPlayer; by case_bool_decide).
    split. { unfold addPlayer. rewrite bool_decide_eq_false_2 by done. cbn. rewrite insert_perm. by right. }
    destruct Hw as [Hl|(before & after & Hs & Hw)]; [left; by apply lost_add|].
    destruct (add_split c place rehash before after s Hs Hnew) as [[_ Hl]|(b' & a' & Hs' & Hb & Ha & _)]; [by left|].
    right. exists b', a'. split; [done|]. destruct Hw as [[??]|[??]]; [left|right]; auto.
  - cbn in He. split; [by apply (step_nodes (Remove c) s)|].
    split; [cbn; apply list_elem_of_filter; split; [congruence|done]|].
    destruct Hw as [Hl|(before & after & Hs & Hw)]; [left; by apply lost_remove|].
    destruct (remove_split c before after s Hok Hs) as [Hl|Hs']; [by left|]. right. eexists _, _. split; [exact Hs'|].
    rewrite !list_elem_of_filter. assert (key n <> conn_name c) by congruence. cbn [sent removePlayer]. naive_solver.
Qed.

Lemma served_run n es s s' : served n s -> Forall (undisturbed n) es -> run es s = inr s' -> served n s'.
Proof.
  intros Hs Hes. revert s Hs. induction Hes as [|e es He _ IH]; intros s Hs; cbn; [by intros [= <-]|].
  destruct (step e s) as [f|s1] eqn:E; [done|]. apply IH. by eapply served_step.
Qed.

Lemma start_split l fresh : at_split [] l (start l fresh).
Proof. split_and!; [done..|by right]. Qed.

(** ** When the loop is sure to end *)

(** The others add players, without a rehash, and remove none. *)
Definition harmless (e : event) : bool :=
  match e with Iterate _ => true | Add _ _ rehash => negb rehash | Remove _ => false end.

(** The rounds of the loop among the events. *)
Fixpoint rounds (es : list event) : nat :=
  match es with [] => 0 | Iterate _ :: es => S (rounds es) | _ :: es => rounds es end.

Lemma harmless_step e before after s :
  harmless e = true -> nodes_ok (nodes s) (next_id s) -> at_split before after s ->
  exists s' before' after', step e s = inr s' /\ nodes_ok (nodes s') (next_id s') /\ at_split before' after' s' /\
    length after' <= match e with Iterate _ => pred (length after) | _ => S (length after) end /\
    (after = [] -> after' = []).
Proof.
  intros He Hok Hs. destruct e as [up|c place rehash|c]; [| |done]; cbn [step].
  - destruct after as [|n after].
    { exists s, before, []. unfold iterate. destruct Hs as (H1 & H2 & H3). rewrite H2. by split_and!. }
    pose proof (iterate_split up before n after s Hok Hs) as Hit.
    destruct (up (value n)); (eexists _, _, after; split_and!; [exact Hit|by eapply (step_nodes (Iterate up))| |done|done]).
    + instantiate (1 := before ++ [n]). split_and!; cbn; [by rewrite <- app_assoc|done|by right].
    + instantiate (1 := before). split_and!; [done..|by right].
  - exists (addPlayer c place rehash s). destruct (decide (Exists (fun n => key n = conn_name c) (nodes s))) as [Hex|Hnew].
    { exists before, after. unfold addPlayer. rewrite bool_decide_eq_true_2 by done. split_and!; [done..|lia|done]. }
    destruct (add_split c place rehash before after s Hs Hnew) as [[-> _]|(b' & a' & Hs' & _ & _ & Hlen & Hnil)]; [done|].
    exists b', a'. split_and!; [done|by apply (step_nodes (Add c place rehash) s)|done..].
Qed.

Lemma harmless_run es before after s :
  Forall (fun e => harmless e = true) es -> nodes_ok (nodes s) (next_id s) -> at_split before after s ->
  exists s' before' after', run es s = inr s' /\ at_split before' after' s' /\ (after = [] -> after' = []) /\
    (after' = [] \/ length after' + 2 * rounds es <= length after + length es).
Proof.
  intros Hes. revert before after s. induction Hes as [|e es He Hes IH]; intros before after s Hok Hs.
  { exists s, before, after. split_and!; [done..|right]. cbn. lia. }
  destruct (harmless_step e before after s He Hok Hs) as (s1 & b1 & a1 & Hst & Hok1 & Hs1 & Hlen & Hnil).
  destruct (IH b1 a1 s1 Hok1 Hs1) as (s' & b' & a' & Hrun & Hs' & Hn' & Hm).
  exists s', b', a'. cbn [run]. rewrite Hst. split_and!; [done|done|auto|].
  destruct Hm as [Hm|Hm]; [by left|]. destruct (decide (after = [])) as [Ha|Ha]; [left; auto|right].
  cbn [length rounds]. destruct after as [|n after]; [done|]. cbn [length] in *. destruct e; lia.
Qed.

(** ** The properties *)

(** C15  When no other loop interferes, the loop over the nodes ends after as many
    rounds as there are nodes, follows no dangling iterator, leaves the players
    that the function on the map leaves, and calls send() for the same
    connections with the same bytes. *)
Theorem broadcast_loop_exact (conns : gset conn_ptr) (message : RtmpMessage) (size : Z) (session : RtmpSession.t)
    (l : list node) (fresh : nat) :
  nodes_ok l fresh -> represents l (RtmpSession.players_ session) ->
  exists s, run (replicate (length l) (Iterate (fun c => bool_decide (c ∈ conns)))) (start l fresh) = inr s /\
    it s = End_ /\
    represents (nodes s) (RtmpSession.players_ (RtmpSession.broadcastMessage conns message size session).1) /\
    ((fun c => (c, RtmpChunkWriter.EncodeMessage message size)) <$> sent s) ≡ₚ
      (RtmpSession.broadcastMessage conns message size session).2.
Proof.
  intros Hok Hr. eexists. split; [apply (loop_from _ [] l fresh []), Hok|]. split; [done|].
  pose proof (represents_filter conns l _ Hr) as Hf. unfold RtmpSession.broadcastMessage.
  case_bool_decide as Hempty; cbn [fst snd nodes sent RtmpSession.players_ RtmpSession.set_players_ app].
  - rewrite Hempty in Hr. pose proof (represents_perm _ _ Hr) as Hp. rewrite map_to_list_empty in Hp.
    apply Permutation_nil_l in Hp. by destruct l; [rewrite Hempty|].
  - split; [done|]. rewrite (represents_perm _ _ Hf). unfold entries. by rewrite <- !list_fmap_compose.
Qed.

(** C10  Whatever other loops do to the players between the rounds of the loop:
    if it comes to its end, a player that was there at the beginning, whom nobody
    removed and whose connection was up, is still there and has been sent the
    message exactly once. *)
Theorem broadcast_reaches_stayers (l : list node) (fresh : nat) (n : node) (es : list event) (s : t) :
  nodes_ok l fresh -> n ∈ l -> Forall (undisturbed n) es ->
  run es (start l fresh) = inr s -> it s = End_ ->
  n ∈ nodes s /\ times (value n) (sent s) = 1.
Proof.
  intros Hok Hin Hes Hrun Hend. destruct (served_run n es (start l fresh) s) as (_ & Hn & Hw); [|done|done|].
  { split_and!; [done..|]. right. exists [], l. split; [apply start_split|]. by left. }
  split; [done|]. destruct Hw as [[[_ ?]|(i & Hi & _)]|(before & after & (_ & Hi & _) & Hw)]; [done|congruence|].
  destruct after; [|cbn in Hi; congruence]. destruct Hw as [[[]%elem_of_nil _]|[_ ?]]. done.
Qed.

(** Only a removal or a rehash can make the loop follow a dangling iterator, and
    otherwise it ends: each player that is added costs one more round at most. *)
Theorem broadcast_ends (l : list node) (fresh : nat) (es : list event) :
  nodes_ok l fresh -> Forall (fun e => harmless e = true) es ->
  exists s, run es (start l fresh) = inr s /\ (length l + length es <= 2 * rounds es -> it s = End_).
Proof.
  intros Hok Hes. destruct (harmless_run es [] l (start l fresh) Hes Hok (start_split l fresh))
    as (s & before & after & Hrun & (_ & Hi & _) & _ & Hm).
  exists s. split; [done|]. intros Hlen. destruct Hm as [->|Hm]; [done|]. destruct after; [done|]. cbn in Hm. lia.
Qed.

(** ** Samples *)

Definition player (i : nat) : conn_ptr := mkConn i [chr (48 + Z.of_nat i)].
Definition player_node (i : nat) : node := mk_node i (conn_name (player i)) (player i).
Definition three : list node := [player_node 0; player_node 1; player_node 2].

Lemma three_ok : nodes_ok three 3.
Proof.
  split; [apply (bool_decide_unpack _); vm_compute; exact I..| |].
  - intros n Hn. repeat (apply elem_of_cons in Hn as [->|Hn]; [cbn; lia|]). by apply elem_of_nil in Hn.
  - intros n Hn. repeat (apply elem_of_cons in Hn as [->|Hn]; [done|]). by apply elem_of_nil in Hn.
Qed.

Definition watched : RtmpSession.t :=
  RtmpSession.set_players_ (list_to_map (entries three)) (RtmpSession.make (str "/live/a")).

Definition some_message : RtmpMessage := mkMessage 0 1 kMessageTypeVideo 1 6 [Byte.x17].

Lemma broadcast_loop_exact_witness :
  exists s, run (replicate 3 (Iterate (fun c => bool_decide (c ∈ ({[player 0; player 2]} : gset conn_ptr))))) (start three 3) = inr s /\
    it s = End_.
Proof.
  destruct (broadcast_loop_exact {[player 0; player 2]} some_message 128 watched three 3 three_ok) as (s & Hrun & Hend & _).
  - split; [exact (keys_nodup _ _ three_ok)|reflexivity].
  - exists s. split; [exact Hrun|exact Hend].
Defined.

(** Player 0 leaves and player 3 comes while the loop is at player 1. *)
Definition crowd : list event :=
  [Iterate (fun _ => true); Remove (player 0); Add (player 3) 1 false; Iterate (fun _ => true); Iterate (fun _ => true);
   Iterate (fun _ => true)].

Lemma broadcast_reaches_stayers_witness :
  exists s, run crowd (start three 3) = inr s /\ player_node 2 ∈ nodes s /\ times (player 2) (sent s) = 1.
Proof.
  destruct (run crowd (start three 3)) as [f|s] eqn:E; [discriminate E|]. exists s. split; [reflexivity|].
  refine (broadcast_reaches_stayers three 3 (player_node 2) crowd s three_ok _ _ E _).
  - right. right. left.
  - repeat constructor; discriminate.
  - vm_compute in E. injection E as <-. reflexivity.
Defined.

(** The player at which the iterator is leaves: the next round follows a dangling
    iterator. *)
Example removal_crashes : run [Remove (player 0); Iterate (fun _ => true)] (start three 3) = inl Dangling.
Proof. reflexivity. Qed.

End Broadcast.
