(* ===== verification/JoinRace.v ===== *)
(** * A player joins while the publisher's loop goes on

    src/rtmp/RtmpConnection.cc adds the player to its session and then replays
    the cache to it, in the loop of the player and without a lock, while
    RtmpSession::onMediaMessage caches and broadcasts in the loop of the
    publisher.  Here the replay goes part by part and frame by frame, with the
    iterators of its loop over [gopCache_], and onMediaMessage is cut between its
    two calls.  Proved is what the player still gets under every interleaving. *)

From S2P Require Import Prelude Bytes RtmpTypes ChunkWriter ChunkParser RtmpSession.

Module Join.

(** ** The state of both loops *)

(** Where the loop of the player is: before [addPlayer], before the test of
    [connected()], before each part of the replay, and in the loop over the
    frames, at [i] of [n], with iterators from the time [epoch]. *)
Inductive pc := Looked | Added | Metadata | Audio | Video | Begin | Gop (epoch i n : nat) | Finished.

#[global] Instance pc_eq_dec : EqDecision pc.
Proof. solve_decision. Defined.

(** A call of send() for the player, by its own loop or by the broadcast. *)
Inductive sending := Replayed (message : RtmpMessage) | Live (message : RtmpMessage).

Definition message_of (x : sending) : RtmpMessage := match x with Replayed m | Live m => m end.

Record t := mk {
  session : RtmpSession.t;
  epoch : nat;                        (** counts what invalidates iterators to [gopCache_] *)
  capacity : nat;                     (** of the vector [gopCache_] *)
  publishing : option RtmpMessage;    (** cached, not broadcast yet *)
  at_ : pc;
  log : list sending;
}.

Inductive fault := Dangling.

Section join.
Context (connection : conn_ptr).

(** ** The loop of the publisher *)

(** cacheMediaMessage comes to [gopCache_.clear()]. *)
Definition clears (message : RtmpMessage) : bool :=
  negb (typeId message =? kMessageTypeDataAmf0)%Z && negb (RtmpSession.IsAacSequenceHeader message) &&
  negb (RtmpSession.IsAvcSequenceHeader message) &&
  ((typeId message =? kMessageTypeVideo)%Z && RtmpSession.IsVideoKeyFrame message).

(** The session becomes [s']; its vector is cleared before it grows if [cleared];
    [spare]: what push_back allocates beyond what it needs. *)
Definition set_session (s' : RtmpSession.t) (cleared : bool) (spare : nat) (s : t) : t :=
  let size' := length (RtmpSession.gopCache_ s') in
  let reallocated := capacity s <? size' in
  mk s' (if (cleared && (0 <? length (RtmpSession.gopCache_ (session s)))) || reallocated then S (epoch s) else epoch s)
     (if reallocated then size' + spare else capacity s) (publishing s) (at_ s) (log s).

(** Changes of the session that leave the vector alone. *)
Definition keep_vector (s' : RtmpSession.t) (s : t) : t :=
  mk s' (epoch s) (capacity s) (publishing s) (at_ s) (log s).

Definition set_publishing (v : option RtmpMessage) (s : t) : t :=
  mk (session s) (epoch s) (capacity s) v (at_ s) (log s).

Definition cacheMediaMessage (message : RtmpMessage) (spare : nat) (s : t) : t :=
  match publishing s with
  | Some _ => s
  | None =>
      set_publishing (Some message)
        (set_session (RtmpSession.cacheMediaMessage message (session s)) (clears message) spare s)
  end.

Definition broadcastMessage (connected : gset conn_ptr) (out_chunk_size : Z) (s : t) : t :=
  match publishing s with
  | None => s
  | Some message =>
      let '(s', sends) := RtmpSession.broadcastMessage connected message out_chunk_size (session s) in
      mk s' (epoch s) (capacity s) None (at_ s)
         (log s ++ ((fun _ => Live message) <$> filter (fun '(c, _) => c = connection) sends))
  end.

Definition setPublisher (c : conn_ptr) (s : t) : t :=
  set_session (RtmpSession.setPublisher c (session s)).2
    (bool_decide (RtmpSession.publisher_ (session s) = None)) 0 s.

(** ** The loop of the player *)

Definition goto (p : pc) (s : t) : t := mk (session s) (epoch s) (capacity s) (publishing s) p (log s).

Definition replay (part : option RtmpMessage) (p : pc) (s : t) : t :=
  mk (session s) (epoch s) (capacity s) (publishing s) p (log s ++ (Replayed <$> option_list part)).

(** [up]: what connected() answers. *)
Definition move (up : bool) (s : t) : fault + t :=
  match at_ s with
  | Looked => inr (goto Added (keep_vector (RtmpSession.addPlayer connection (session s)).2 s))
  | Added => inr (goto (if up then Metadata else Finished) s)
  | Metadata => inr (replay (RtmpSession.metadata_ (session s)) Audio s)
  | Audio => inr (replay (RtmpSession.audioSequenceHeader_ (session s)) Video s)
  | Video => inr (replay (RtmpSession.videoSequenceHeader_ (session s)) Begin s)
  | Begin => inr (goto (Gop (epoch s) 0 (length (RtmpSession.gopCache_ (session s)))) s)
  | Gop e i n =>
      if (i =? n)%nat then inr (goto Finished s)
      else if (e =? epoch s)%nat then
        match RtmpSession.gopCache_ (session s) !! i with
        | None => inl Dangling
        | Some m => inr (replay (Some m) (Gop e (S i) n) s)
        end
      else inl Dangling
  | Finished => inr s
  end.

(** ** All loops *)

Inductive event :=
| Move (up : bool)
| Cache (message : RtmpMessage) (spare : nat)
| Broadcast (connected : gset conn_ptr) (out_chunk_size : Z)
| SetPublisher (c : conn_ptr)
| ClearPublisher (c : conn_ptr)
| AddPlayer (c : conn_ptr)
| RemovePlayer (c : conn_ptr).

Definition step (e : event) (s : t) : fault + t :=
  match e with
  | Move up => move up s
  | Cache message spare => inr (cacheMediaMessage message spare s)
  | Broadcast connected out_chunk_size => inr (broadcastMessage connected out_chunk_size s)
  | SetPublisher c => inr (setPublisher c s)
  | ClearPublisher c => inr (keep_vector (RtmpSession.clearPublisher c (session s)) s)
  | AddPlayer c => inr (keep_vector (RtmpSession.addPlayer c (session s)).2 s)
  | RemovePlayer c => inr (keep_vector (RtmpSession.removePlayer c (session s)) s)
  end.

Fixpoint run (es : list event) (s : t) : fault + t :=
  match es with
  | [] => inr s
  | e :: es => match step e s with inl f => inl f | inr s => run es s end
  end.

(** The player's handler has its session; [publishing]: the publisher's loop may
    be between its two calls. *)
Definition start (s : RtmpSession.t) (capacity : nat) (publishing : option RtmpMessage) : t :=
  mk s 0 capacity publishing Looked [].

(** The player stays connected and in the session, and has its name alone. *)
Definition stays (e : event) : Prop :=
  match e with
  | Move up => up = true
  | Broadcast connected _ => connection ∈ connected
  | AddPlayer c => conn_name c = conn_name connection -> c = connection
  | RemovePlayer c => conn_name c <> conn_name connection
  | Cache _ _ | SetPublisher _ | ClearPublisher _ => True
  end.

(** ** The invariant *)

(** What the player got, or is about to get. *)
Definition reached (s : t) (m : RtmpMessage) : Prop := m ∈ message_of <$> log s \/ publishing s = Some m.

(** The parts of the cache in the order of the replay. *)
Definition part (k : nat) (s : t) : list RtmpMessage :=
  match k with
  | 0 => option_list (RtmpSession.metadata_ (session s))
  | 1 => option_list (RtmpSession.audioSequenceHeader_ (session s))
  | 2 => option_list (RtmpSession.videoSequenceHeader_ (session s))
  | _ => RtmpSession.gopCache_ (session s)
  end.

(** The parts that the replay has behind it. *)
Definition behind (p : pc) : nat :=
  match p with
  | Looked | Added | Metadata => 0 | Audio => 1 | Video => 2 | Begin | Gop _ _ _ => 3 | Finished => 4
  end.

Definition covered (k : nat) (s : t) : Prop := forall m, m ∈ part k s -> reached s m.

Definition in_session (s : t) : Prop :=
  RtmpSession.players_ (session s) !! conn_name connection = Some connection.

Definition may_join (s : t) : Prop :=
  forall c, RtmpSession.players_ (session s) !! conn_name connection = Some c -> c = connection.

(** In the loop over the frames: either the iterators are valid, and the frames
    before [i] and those that came later have been sent, or they are not valid
    and the loop is at its end, or it will use them. *)
Definition frames_ok (s : t) : Prop :=
  match at_ s with
  | Gop e i n =>
      i <= n /\
      (e = epoch s /\ n <= length (part 3 s) /\
       (forall j m, part 3 s !! j = Some m -> j < i \/ n <= j -> reached s m) \/
       e < epoch s /\ (i = n -> covered 3 s))
  | _ => True
  end.

Record inv (s : t) : Prop := {
  inv_player : match at_ s with Looked => may_join s | _ => in_session s end;
  inv_behind k : k < behind (at_ s) -> covered k s;
  inv_frames : frames_ok s;
}.

(** What others do to the state of a player that is in the session. *)
Record others (s s' : t) : Prop := {
  o_at : at_ s' = at_ s;
  o_in : in_session s';
  o_reached m : reached s m -> reached s' m;
  o_part k m : m ∈ part k s' -> m ∈ part k s \/ reached s' m;
  o_epoch : epoch s <= epoch s';
  o_frames : epoch s' = epoch s -> exists new, part 3 s' = part 3 s ++ new /\ forall m, m ∈ new -> reached s' m;
}.

Lemma covered_others k s s' : others s s' -> covered k s -> covered k s'.
Proof. intros Ho Hc m [Hm|Hm]%(o_part _ _ Ho); [|done]. by apply (o_reached _ _ Ho), Hc. Qed.

Lemma inv_others s s' : in_session s -> others s s' -> inv s -> inv s'.
Proof.
  intros Hin Ho [Hp Hb Hf]. split; [|intros k; rewrite (o_at _ _ Ho); intros Hk; by eapply covered_others, Hb|].
  { rewrite (o_at _ _ Ho). pose proof (o_in _ _ Ho) as Hin'. destruct (at_ s); try done.
    intros c Hc. unfold in_session in Hin'. congruence. }
  unfold frames_ok in *. rewrite (o_at _ _ Ho). destruct (at_ s) as [| | | | | |e i n|]; try done.
  destruct Hf as [Hle Hf]. split; [done|]. pose proof (o_epoch _ _ Ho) as Hepoch.
  destruct Hf as [(-> & Hlen & Hj)|[Hlt Hc]].
  - destruct (decide (epoch s' = epoch s)) as [Heq|Hne].
    + left. destruct (o_frames _ _ Ho Heq) as (new & Hnew & Hr). rewrite Hnew, length_app. split_and!; [done|lia|].
      intros j m [Hm|[_ Hm]]%lookup_app_Some Hjn; [by apply (o_reached _ _ Ho), (Hj j)|].
      by eapply Hr, list_elem_of_lookup_2.
    + right. split; [lia|]. intros ->. apply (covered_others 3 s); [done|]. intros m [j Hm]%list_elem_of_lookup.
      apply (Hj j); [done|lia].
  - right. split; [lia|]. intros Hi. eapply covered_others; [done|]. auto.
Qed.

(** ** The events *)

Lemma reached_live s m x : reached s m -> reached (mk (session s) (epoch s) (capacity s) (publishing s) (at_ s) (log s ++ x)) m.
Proof. intros [Hm|Hm]; [left|by right]. cbn. rewrite fmap_app. set_solver. Qed.

Lemma cache_parts message spare s k m :
  m ∈ part k (cacheMediaMessage message spare s) -> m ∈ part k s \/ publishing (cacheMediaMessage message spare s) = Some m.
Proof.
  unfold cacheMediaMessage. destruct (publishing s); [by left|]. cbn [publishing set_publishing].
  unfold part. cbn [session set_publishing set_session]. unfold RtmpSession.cacheMediaMessage.
  destruct k as [|[|[|k]]]; repeat case_match; cbn; set_solver.
Qed.

Lemma grown_by_nothing {A} (P : A -> Prop) l : exists new, l = l ++ new /\ forall m, m ∈ new -> P m.
Proof. exists []. rewrite app_nil_r. split; [done|]. by intros m ?%elem_of_nil. Qed.

Lemma grown_by_one {A} (P : A -> Prop) l (x : A) : P x -> exists new, l ++ [x] = l ++ new /\ forall m, m ∈ new -> P m.
Proof. exists [x]. split; [done|]. by intros m ->%list_elem_of_singleton. Qed.

#[local] Hint Resolve grown_by_nothing grown_by_one : core.

(** Without an invalidation the vector only grew. *)
Lemma cache_frames message spare s :
  epoch (cacheMediaMessage message spare s) = epoch s ->
  exists new, part 3 (cacheMediaMessage message spare s) = part 3 s ++ new /\
    forall m, m ∈ new -> publishing (cacheMediaMessage message spare s) = Some m.
Proof.
  unfold cacheMediaMessage. destruct (publishing s); [auto|].
  unfold part. cbn [session set_publishing set_session epoch publishing].
  destruct (_ || _) eqn:Hinv; [lia|]. intros _. apply orb_false_iff in Hinv as [Hclear _].
  unfold clears, RtmpSession.cacheMediaMessage in *.
  destruct (typeId message =? kMessageTypeDataAmf0)%Z; [auto|].
  destruct (RtmpSession.IsAacSequenceHeader message); [auto|].
  destruct (RtmpSession.IsAvcSequenceHeader message); [auto|].
  destruct ((typeId message =? kMessageTypeVideo)%Z && RtmpSession.IsVideoKeyFrame message).
  - cbn [negb andb] in Hclear. destruct (RtmpSession.gopCache_ (session s)); [|done].
    cbn. destruct (_ || _); [exists [message]|exists []]; (split; [done|]).
    + by intros m ->%list_elem_of_singleton.
    + by intros m ?%elem_of_nil.
  - clear Hclear. destruct (negb _); [auto|]. destruct (_ || _); cbn; auto.
Qed.

(** In each state in which the player is in the session: *)

Lemma others_cache message spare s : in_session s -> others s (cacheMediaMessage message spare s).
Proof.
  intros Hin. pose proof (cache_parts message spare s) as Hp. pose proof (cache_frames message spare s) as Hf.
  split.
  - unfold cacheMediaMessage. by destruct (publishing s).
  - unfold in_session, cacheMediaMessage in *. destruct (publishing s); [done|]. cbn.
    unfold RtmpSession.cacheMediaMessage. by repeat case_match.
  - intros m [Hm|Hm]; unfold reached, cacheMediaMessage; rewrite ?Hm; [|by right]. left. by destruct (publishing s).
  - intros k m Hm. destruct (Hp k m Hm); [by left|right; by right].
  - unfold cacheMediaMessage. destruct (publishing s); [done|]. cbn. destruct (_ || _); lia.
  - intros He. destruct (Hf He) as (new & Hn & Hm). exists new. split; [done|]. intros m Hin'. right. auto.
Qed.

(** The session stays as it was, up to its players and its publisher, or loses
    what it had cached. *)
Lemma others_simple s s' :
  at_ s' = at_ s -> in_session s' -> publishing s' = publishing s -> log s' = log s -> epoch s <= epoch s' ->
  (forall k, part k s' ⊆ part k s) -> (epoch s' = epoch s -> part 3 s' = part 3 s) -> others s s'.
Proof.
  intros Ha Hin Hp Hl He Hparts Hsame. split; try done.
  - intros m. unfold reached. by rewrite Hp, Hl.
  - intros k m Hm. left. by apply Hparts.
  - intros Heq. rewrite (Hsame Heq). apply grown_by_nothing.
Qed.

Lemma others_setPublisher c s : in_session s -> others s (setPublisher c s).
Proof.
  intros Hin. apply others_simple; try done; unfold setPublisher, RtmpSession.setPublisher.
  - unfold in_session in *. cbn. repeat case_match; done.
  - cbn. destruct (_ || _); lia.
  - intros k. unfold part. cbn. destruct k as [|[|[|k]]]; repeat case_match; cbn; set_solver.
  - unfold part. cbn. destruct (_ || _) eqn:E; [lia|]. intros _. apply orb_false_iff in E as [E _]. revert E.
    repeat case_bool_decide; cbn; try done; try congruence.
    destruct (RtmpSession.gopCache_ (session s)); [done|]. cbn.
    destruct (RtmpSession.publisher_ (session s)); naive_solver.
Qed.

Lemma others_keep_vector s' s :
  RtmpSession.players_ s' !! conn_name connection = Some connection ->
  RtmpSession.cache_of s' = RtmpSession.cache_of (session s) -> others s (keep_vector s' s).
Proof.
  unfold RtmpSession.cache_of. intros Hin Hc. injection Hc as H1 H2 H3 H4.
  apply others_simple; try done; unfold part; cbn.
  intros [|[|[|k]]]; by rewrite ?H1, ?H2, ?H3, ?H4.
Qed.

Lemma broadcast_reaches connected size s m :
  in_session s -> connection ∈ connected -> publishing s = Some m ->
  m ∈ message_of <$> log (broadcastMessage connected size s).
Proof.
  intros Hin Hc Hm. unfold broadcastMessage, RtmpSession.broadcastMessage. rewrite Hm.
  rewrite bool_decide_eq_false_2 by (intros He; unfold in_session in Hin; by rewrite He in Hin). cbn.
  rewrite fmap_app, elem_of_app. right. apply list_elem_of_fmap. exists (Live m). split; [done|].
  apply list_elem_of_fmap. eexists (connection, _). split; [done|]. apply list_elem_of_filter. split; [done|].
  apply list_elem_of_fmap. exists (conn_name connection, connection). split; [done|].
  apply elem_of_map_to_list, map_lookup_filter_Some. done.
Qed.

Lemma broadcast_keeps_cache connected m size s :
  RtmpSession.cache_of (RtmpSession.broadcastMessage connected m size s).1 = RtmpSession.cache_of s.
Proof. unfold RtmpSession.broadcastMessage. by case_bool_decide. Qed.

Lemma broadcast_stays connected m size s :
  RtmpSession.players_ s !! conn_name connection = Some connection -> connection ∈ connected ->
  RtmpSession.players_ (RtmpSession.broadcastMessage connected m size s).1 !! conn_name connection = Some connection.
Proof.
  intros Hin Hc. unfold RtmpSession.broadcastMessage. case_bool_decide; [done|]. cbn.
  by apply map_lookup_filter_Some.
Qed.

Lemma others_broadcast connected size s : in_session s -> connection ∈ connected -> others s (broadcastMessage connected size s).
Proof.
  intros Hin Hc. pose proof (broadcast_reaches connected size s) as Hr. revert Hr. unfold broadcastMessage.
  destruct (publishing s) as [message|] eqn:Hp.
  2: { intros _. apply others_simple; done. }
  pose proof (broadcast_keeps_cache connected message size (session s)) as Hcache.
  pose proof (broadcast_stays connected message size (session s) Hin Hc) as Hs.
  destruct (RtmpSession.broadcastMessage connected message size (session s)) as [s' sends]. cbn in Hcache, Hs.
  intros Hr. unfold RtmpSession.cache_of in Hcache. injection Hcache as H1 H2 H3 H4. split; try done.
  - intros m [Hm|Hm]; left; [cbn; rewrite fmap_app; set_solver|]. apply Hr; [done..|congruence].
  - intros k m Hm. left. revert Hm. unfold part. cbn. destruct k as [|[|[|k]]]; by rewrite ?H1, ?H2, ?H3, ?H4.
  - intros _. unfold part. cbn. rewrite H4. apply grown_by_nothing.
Qed.

(** The events of others than the loop of the player. *)
Definition foreign (e : event) : bool := match e with Move _ => false | _ => true end.

Lemma players_of_cache m s : RtmpSession.players_ (RtmpSession.cacheMediaMessage m s) = RtmpSession.players_ s.
Proof. unfold RtmpSession.cacheMediaMessage. by repeat case_match. Qed.

Lemma players_of_setPublisher c s : RtmpSession.players_ (RtmpSession.setPublisher c s).2 = RtmpSession.players_ s.
Proof. unfold RtmpSession.setPublisher. by repeat case_match. Qed.

Lemma players_of_clearPublisher c s : RtmpSession.players_ (RtmpSession.clearPublisher c s) = RtmpSession.players_ s.
Proof. unfold RtmpSession.clearPublisher. by case_bool_decide. Qed.

Lemma cache_of_clearPublisher c s : RtmpSession.cache_of (RtmpSession.clearPublisher c s) = RtmpSession.cache_of s.
Proof. unfold RtmpSession.clearPublisher. by case_bool_decide. Qed.

Lemma cache_of_addPlayer c s : RtmpSession.cache_of (RtmpSession.addPlayer c s).2 = RtmpSession.cache_of s.
Proof. unfold RtmpSession.addPlayer. by case_match. Qed.

Lemma addPlayer_lookup c s n d :
  RtmpSession.players_ (RtmpSession.addPlayer c s).2 !! n = Some d ->
  RtmpSession.players_ s !! n = Some d \/ n = conn_name c /\ d = c.
Proof.
  unfold RtmpSession.addPlayer. case_match; cbn; [by left|]. intros [[<- <-]|[_ ?]]%lookup_insert_Some; [by right|by left].
Qed.

Lemma addPlayer_keeps c s n d :
  RtmpSession.players_ s !! n = Some d -> RtmpSession.players_ (RtmpSession.addPlayer c s).2 !! n = Some d.
Proof.
  intros Hn. unfold RtmpSession.addPlayer. case_match eqn:E; cbn; [done|].
  rewrite lookup_insert_ne; [done|]. intros <-. congruence.
Qed.

(** Before it joins, nobody else takes its name. *)
Lemma may_join_foreign e s s' :
  foreign e = true -> stays e -> may_join s -> step e s = inr s' -> may_join s' /\ at_ s' = at_ s.
Proof.
  intros Hf Hs Hm. destruct e as [up|m spare|connected size|c|c|c|c]; [done|..]; cbn; intros [= <-]; unfold may_join in *; cbn.
  - unfold cacheMediaMessage. destruct (publishing s); [done|]. cbn. by rewrite players_of_cache.
  - unfold broadcastMessage. destruct (publishing s); [|done]. unfold RtmpSession.broadcastMessage.
    case_bool_decide; cbn; [done|]. split; [|done]. intros c [Hc _]%map_lookup_filter_Some. auto.
  - by rewrite players_of_setPublisher.
  - by rewrite players_of_clearPublisher.
  - split; [|done]. intros d [Hd|[Hn ->]]%addPlayer_lookup; auto.
  - split; [|done]. intros d [_ Hd]%lookup_delete_Some. auto.
Qed.

Lemma others_foreign e s s' :
  foreign e = true -> stays e -> in_session s -> step e s = inr s' -> others s s'.
Proof.
  intros Hf Hs Hin. destruct e as [up|m spare|connected size|c|c|c|c]; [done|..]; cbn in Hs |- *; intros [= <-].
  - by apply others_cache.
  - by apply others_broadcast.
  - by apply others_setPublisher.
  - apply others_keep_vector; [by rewrite players_of_clearPublisher|apply cache_of_clearPublisher].
  - apply others_keep_vector; [by apply addPlayer_keeps|apply cache_of_addPlayer].
  - apply others_keep_vector; [|done]. cbn. by rewrite lookup_delete_ne.
Qed.

(** A part is replayed. *)
Lemma reached_replayed s m x p : m ∈ option_list x \/ reached s m -> reached (replay x p s) m.
Proof.
  intros [Hm|[Hm|Hm]]; [left|left|by right]; cbn; rewrite fmap_app; [|set_solver].
  rewrite <- list_fmap_compose. destruct x; set_solver.
Qed.

Lemma replay_part s k p :
  inv s -> behind (at_ s) = k -> k < 3 -> behind p = S k -> (forall e i n, p <> Gop e i n) -> p <> Looked -> p <> Finished ->
  at_ s <> Looked -> forall x, part k s = option_list x -> inv (replay x p s).
Proof.
  intros [Hp Hb Hf] Hk Hk3 Hpk Hng Hnl Hnf Hl x Hx. split.
  - assert (in_session s) by (by destruct (at_ s)). cbn. by destruct p.
  - intros j Hj m Hm. change (part j (replay x p s)) with (part j s) in Hm. apply reached_replayed. cbn in Hj.
    destruct (decide (j = k)) as [->|Hne]; [left; by rewrite <- Hx|]. right. apply (Hb j); [lia|done].
  - unfold frames_ok. cbn. destruct p; try done. by destruct (Hng epoch0 i n).
Qed.

Lemma join_inv_move s s' : inv s -> move true s = inr s' -> inv s'.
Proof.
  intros Hi. pose proof Hi as [Hp Hb Hf]. unfold move. unfold frames_ok in Hf.
  destruct (at_ s) as [| | | | | |e i n|] eqn:E.
  - intros [= <-]. split; [|cbn; lia|done]. unfold goto, in_session, RtmpSession.addPlayer. cbn.
    destruct (RtmpSession.players_ (session s) !! conn_name connection) as [c|] eqn:Hc; cbn.
    + rewrite Hc. f_equal. by apply Hp.
    + by rewrite lookup_insert_eq.
  - intros [= <-]. split; [done|cbn; lia|done].
  - intros [= <-]. by apply (replay_part s 0 Audio); rewrite ?E; try done; lia.
  - intros [= <-]. by apply (replay_part s 1 Video); rewrite ?E; try done; lia.
  - intros [= <-]. by apply (replay_part s 2 Begin); rewrite ?E; try done; lia.
  - intros [= <-]. split; [done|exact Hb|]. unfold frames_ok. cbn. split; [lia|]. left. split_and!; [done..|].
    intros j m Hm%lookup_lt_Some. unfold part in Hm. cbn in Hm. lia.
  - destruct Hf as [Hle Hf]. destruct (Nat.eqb_spec i n) as [->|Hne].
    + intros [= <-]. split; [done| |done]. intros k Hk m Hm. cbn in Hk. change (reached s m).
      destruct (decide (k < 3)) as [Hlt|Hge]; [apply (Hb k Hlt m Hm)|]. assert (k = 3) as -> by lia.
      destruct Hf as [(_ & _ & Hj)|[_ Hc]]; [|by apply Hc]. apply list_elem_of_lookup in Hm as [j Hm].
      apply (Hj j); [done|lia].
    + destruct (Nat.eqb_spec e (epoch s)) as [->|He]; [|done].
      destruct Hf as [(_ & Hlen & Hj)|[Hlt _]]; [|lia].
      destruct (RtmpSession.gopCache_ (session s) !! i) as [m|] eqn:Hm; [|done]. intros [= <-]. split; [done| |].
      * intros k Hk m' Hm'. apply reached_replayed. right. by apply (Hb k).
      * unfold frames_ok. cbn. split; [lia|]. left. split_and!; [done..|]. intros j m' Hm' Hjn. apply reached_replayed.
        destruct (decide (j = i)) as [->|Hji]; [left; cbn in Hm'; cbn; assert (m = m') as -> by congruence; set_solver|].
        right. apply (Hj j); [done|lia].
  - intros [= <-]. split; [by rewrite E|by rewrite E|]. unfold frames_ok. by rewrite E.
Qed.

Lemma join_inv_step e s s' : inv s -> stays e -> step e s = inr s' -> inv s'.
Proof.
  intros Hi Hs Hst. destruct (foreign e) eqn:Hf.
  - pose proof Hi as [Hp _ _]. destruct (decide (at_ s = Looked)) as [Hl|Hl].
    + rewrite Hl in Hp. destruct (may_join_foreign e s s' Hf Hs Hp Hst) as [Hm Ha]. rewrite Hl in Ha.
      split; [by rewrite Ha|by rewrite Ha; cbn; lia|unfold frames_ok; by rewrite Ha].
    + assert (in_session s) as Hin by (by destruct (at_ s)). eapply inv_others; [done|by eapply others_foreign|done].
  - destruct e; try done. cbn in Hs. rewrite Hs in Hst. by eapply join_inv_move.
Qed.

Lemma join_inv_run es s s' : inv s -> Forall stays es -> run es s = inr s' -> inv s'.
Proof.
  intros Hi Hes. revert s Hi. induction Hes as [|e es He _ IH]; intros s Hi; cbn; [by intros [= <-]|].
  destruct (step e s) as [f|s1] eqn:E; [done|]. apply IH. by eapply join_inv_step.
Qed.

(** ** The replay alone *)

Lemma gop_alone rest : forall done_ s e,
  RtmpSession.gopCache_ (session s) = done_ ++ rest -> e = epoch s ->
  at_ s = Gop e (length done_) (length (done_ ++ rest)) ->
  run (replicate (S (length rest)) (Move true)) s =
    inr (mk (session s) (epoch s) (capacity s) (publishing s) Finished (log s ++ (Replayed <$> rest))).
Proof.
  induction rest as [|m rest IH]; intros done_ s e Hg -> Ha; cbn [length replicate run step]; unfold move; rewrite Ha.
  - rewrite app_nil_r, Nat.eqb_refl. by rewrite app_nil_r.
  - rewrite (proj2 (Nat.eqb_neq _ _)) by (rewrite length_app; cbn; lia).
    rewrite Nat.eqb_refl, Hg, list_lookup_middle by done.
    change (run (replicate (S (length rest)) (Move true)) (replay (Some m) (Gop (epoch s) (S (length done_)) (length (done_ ++ m :: rest))) s) =
      inr (mk (session s) (epoch s) (capacity s) (publishing s) Finished (log s ++ (Replayed <$> m :: rest)))).
    rewrite (IH (done_ ++ [m]) _ (epoch s)); cbn.
    + by rewrite <- app_assoc.
    + by rewrite Hg, <- app_assoc.
    + done.
    + rewrite <- app_assoc. cbn. f_equal. rewrite length_app. cbn. lia.
Qed.

Lemma join_run_app es1 es2 s : run (es1 ++ es2) s = match run es1 s with inl f => inl f | inr s => run es2 s end.
Proof. revert s. induction es1 as [|e es1 IH]; intros s; cbn; [done|]. by destruct (step e s). Qed.

(** ** The properties *)

(** When no other loop interferes, the steps of the player's loop end, follow no
    dangling iterator, and send what RtmpSession.replayCachedMessagesToPlayer
    sends. *)
Theorem replay_alone (s0 : RtmpSession.t) (reserved : nat) (out_chunk_size : Z) :
  let session' := (RtmpSession.addPlayer connection s0).2 in
  exists s, run (replicate (7 + length (RtmpSession.gopCache_ s0)) (Move true)) (start s0 reserved None) = inr s /\
    at_ s = Finished /\ session s = session' /\
    (fun x => (connection, RtmpChunkWriter.EncodeMessage (message_of x) out_chunk_size)) <$> log s =
      RtmpSession.replayCachedMessagesToPlayer {[connection]} connection out_chunk_size session'.
Proof.
  intros session'. set (before := option_list (RtmpSession.metadata_ session') ++
    option_list (RtmpSession.audioSequenceHeader_ session') ++ option_list (RtmpSession.videoSequenceHeader_ session')).
  assert (RtmpSession.gopCache_ session' = RtmpSession.gopCache_ s0) as Hg.
  { pose proof (cache_of_addPlayer connection s0) as Hc. unfold RtmpSession.cache_of in Hc. by injection Hc. }
  exists (mk session' 0 reserved None Finished (Replayed <$> before ++ RtmpSession.gopCache_ s0)). split.
  - assert (run (replicate 6 (Move true)) (start s0 reserved None) =
      inr (mk session' 0 reserved None (Gop 0 0 (length (RtmpSession.gopCache_ session'))) (Replayed <$> before))) as Hsix.
    { cbn. unfold before, replay, goto. cbn. by rewrite !fmap_app, <- !app_assoc. }
    replace (7 + length (RtmpSession.gopCache_ s0)) with (6 + S (length (RtmpSession.gopCache_ s0))) by lia.
    rewrite replicate_add, join_run_app, Hsix, Hg, (gop_alone (RtmpSession.gopCache_ s0) [] _ 0) by done.
    cbn [session epoch capacity publishing log]. by rewrite fmap_app.
  - split_and!; [done..|]. unfold RtmpSession.replayCachedMessagesToPlayer.
    rewrite bool_decide_eq_false_2 by set_solver. unfold RtmpSession.cachedMessages. rewrite Hg. cbn [log].
    unfold before. rewrite <- !app_assoc, <- list_fmap_compose. done.
Qed.

(** C11  Whatever the publisher's and other loops do while a player joins and
    after: if the replay ends, the player, as long as it stays in the session and
    connected, has been sent every message that the cache holds, by the replay or
    live, except the one that is just between cache and broadcast. *)
Theorem join_misses_nothing (s0 : RtmpSession.t) (reserved : nat) (pending : option RtmpMessage) (es : list event) (s : t) :
  (forall c, RtmpSession.players_ s0 !! conn_name connection = Some c -> c = connection) ->
  Forall stays es -> run es (start s0 reserved pending) = inr s -> at_ s = Finished ->
  forall m, m ∈ RtmpSession.cachedMessages (session s) -> m ∈ message_of <$> log s \/ publishing s = Some m.
Proof.
  intros Hj Hes Hrun Hend m Hm. destruct (join_inv_run es (start s0 reserved pending) s) as [_ Hb _]; [|done..|].
  { split; [done|cbn; lia|done]. }
  rewrite Hend in Hb. unfold RtmpSession.cachedMessages in Hm. rewrite !elem_of_app in Hm.
  destruct Hm as [Hm|[Hm|[Hm|Hm]]]; [apply (Hb 0)|apply (Hb 1)|apply (Hb 2)|apply (Hb 3)]; (cbn; lia) || exact Hm.
Qed.

End join.

(** ** Samples *)

Definition viewer : conn_ptr := mkConn 1 (str "viewer").
Definition frame (n : Z) (head : Byte.byte) : RtmpMessage := mkMessage n 2 kMessageTypeVideo 1 6 [head; Byte.x01].
Definition key_frame (n : Z) : RtmpMessage := frame n Byte.x17.
Definition inter_frame (n : Z) : RtmpMessage := frame n Byte.x27.

(** A stream whose cache holds one key frame. *)
Definition running : RtmpSession.t := RtmpSession.cacheMediaMessage (key_frame 0) (RtmpSession.make (str "/live/a")).

Definition moves (n : nat) : list event := replicate n (Move true).

(** Frame 1 comes while the player joins. *)
Definition busy : list event :=
  moves 2 ++ [Cache (inter_frame 1) 0; Broadcast {[viewer]} 128] ++ moves 8 ++ [Cache (inter_frame 2) 0].

Lemma join_misses_nothing_witness :
  exists s, run viewer busy (start running 4 None) = inr s /\
    inter_frame 1 ∈ message_of <$> log s.
Proof.
  destruct (run viewer busy (start running 4 None)) as [f|s] eqn:E; [discriminate E|]. exists s. split; [reflexivity|].
  destruct (join_misses_nothing viewer running 4 None busy s) with (m := inter_frame 1) as [Hm|Hm].
  - intros c Hc. discriminate Hc.
  - repeat constructor; set_solver.
  - exact E.
  - vm_compute in E. injection E as <-. reflexivity.
  - vm_compute in E. injection E as <-. right. left.
  - exact Hm.
  - vm_compute in E. injection E as <-. discriminate Hm.
Defined.

(** The frame that is cached before the player is added, and broadcast after, is
    sent twice. *)
Example frame_sent_twice :
  (fun s => log s) <$> (match run viewer (moves 1 ++ [Broadcast {[viewer]} 128] ++ moves 7) (start running 4 (Some (key_frame 0)))
     with inl _ => None | inr s => Some s end) = Some [Live (key_frame 0); Replayed (key_frame 0)].
Proof. vm_compute. reflexivity. Qed.

(** A frame that comes before the replay is seen before the key frame it needs. *)
Example live_before_replay :
  (fun s => log s) <$> (match run viewer busy (start running 4 None) with inl _ => None | inr s => Some s end) =
    Some [Live (inter_frame 1); Replayed (key_frame 0); Replayed (inter_frame 1)].
Proof. vm_compute. reflexivity. Qed.

(** The vector of the cache grows, or is cleared by the next key frame, while the
    loop of the player is in it. *)
Example replay_follows_dangling_iterator :
  run viewer (moves 6 ++ [Cache (inter_frame 1) 0] ++ moves 1) (start running 1 None) = inl Dangling /\
  run viewer (moves 6 ++ [Cache (key_frame 1) 0] ++ moves 1) (start running 4 None) = inl Dangling.
Proof. split; vm_compute; reflexivity. Qed.

End Join.
