(* ===== verification/RtmpConcurrency.v ===== *)
(** * src/rtmp/RtmpServer.cc and RtmpConnection.cc: handlers of several loops

    The connections of the RTMP server are spread over its I/O loops, and their
    handlers run at the same time.  mutex_ protects the table of sessions, but a
    handler of publish or play takes it only to get its session: when it then
    calls setPublisher or addPlayer, another loop may have run cleanupConnection
    in between.  Here the handlers are cut at that point, and what the whole
    handlers of RtmpServer.v guarantee is compared with what remains.  That of
    publish is cut once more in setPublisher, which takes no lock: between the
    test of publisher_ and the assignment, so that two handlers may both be past
    the test.

    Every other method of RtmpSession is one step, although nothing in the source
    makes it one; SessionRace.v and JoinRace.v cut the broadcast and the replay.
    The local [std::shared_ptr] of a handler that is cut keeps its session
    alive; what a connection gets is a sequence of messages, for the parser
    belongs to the connection. *)

From S2P Require Import Prelude Bytes StdMap Amf0 RtmpTypes ChunkWriter ChunkParser.
From S2P Require Import RtmpHandshake RtmpCommand RtmpSession RtmpConnectionContext RtmpServer RtmpServerFacts.
Import RtmpSessionManager. Import RtmpConnectionContext.

Module Concurrent.

(** ** Sessions that a handler holds *)

(** RtmpSessionManager::removeIfEmpty: the entry goes; the object goes with its
    last pointer. *)
Definition erase_if_empty (stream_key : bytes) (m : RtmpSessionManager.t) : RtmpSessionManager.t :=
  match sessions_ m !! stream_key with
  | Some p =>
      match heap m !! p with
      | Some s => if RtmpSession.empty s then RtmpSessionManager.mk (delete stream_key (sessions_ m)) (heap m) (next_ptr m) else m
      | None => m
      end
  | None => m
  end.

(** The strong pointers to a session are its entry and those of the handlers. *)
Definition referenced (held : gset nat) (m : RtmpSessionManager.t) (entry : nat * RtmpSession.t) : Prop :=
  sessions_ m !! RtmpSession.streamKey_ entry.2 = Some entry.1 \/ entry.1 ∈ held.

#[export] Instance referenced_dec held m entry : Decision (referenced held m entry).
Proof. unfold referenced. apply _. Defined.

Definition release (held : gset nat) (m : RtmpSessionManager.t) : RtmpSessionManager.t :=
  RtmpSessionManager.mk (sessions_ m) (filter (referenced held m) (heap m)) (next_ptr m).

(** ** The handlers, up to where they let go of the mutex *)

(** What a handler that was cut does next. *)
Inductive stage :=
| ToTest      (** the test of setPublisher *)
| ToAssign (tested : option conn_ptr)
              (** the rest of setPublisher and of handlePublish, once the test has
                  found [tested] in publisher_ *)
| ToPlay.     (** addPlayer and the rest of handlePlay *)

Definition role_of (st : stage) : ConnectionRole :=
  match st with ToTest | ToAssign _ => kPublisher | ToPlay => kPlayer end.

Inductive outcome :=
| Return (ok : bool) (context : t) (srv : server)
| Holds (st : stage) (session : nat) (context : t) (srv : server).

(** ** The two halves of RtmpSession::setPublisher *)

Definition may_publish (connection : conn_ptr) (s : RtmpSession.t) : bool :=
  negb (bool_decide (RtmpSession.publisher_ s <> None) && bool_decide (RtmpSession.publisher_ s <> Some connection)).

Definition become_publisher (connection : conn_ptr) (s : RtmpSession.t) : RtmpSession.t :=
  let s := if bool_decide (RtmpSession.publisher_ s <> Some connection)
           then RtmpSession.mk (RtmpSession.streamKey_ s) (RtmpSession.publisher_ s) (RtmpSession.players_ s)
                  None None None [] false
           else s in
  RtmpSession.set_publisher_ (Some connection) s.

Lemma setPublisher_halves connection s :
  RtmpSession.setPublisher connection s =
  if may_publish connection s then (true, become_publisher connection s) else (false, s).
Proof. unfold RtmpSession.setPublisher, may_publish. by destruct (_ && _). Qed.

Section handlers.
Context (auth : option (bytes -> bytes -> bool -> bool)) (server_ : bool).

(** handlePublish and handlePlay: until getOrCreateSession has returned. *)
Definition publish_lookup (conn : conn_ptr) (command : RtmpCommandMessage) (context : t) (srv : server) : outcome :=
  if negb server_ then Return false context srv
  else if (streamId_ context =? 0)%Z then Return false context srv
  else if negb (command_messageStreamId command =? streamId_ context)%Z then Return false context srv
  else match arguments command with
  | String raw_name :: more =>
      match ParseStreamTarget raw_name with
      | None => Return false context srv
      | Some target =>
          let context := setStreamName (target_streamName target) context in
          let context := match more with
                         | String publish_type :: _ => setPublishType publish_type context
                         | _ => context
                         end in
          let stream_key := streamKey context in
          if length stream_key =? 0 then Return false context srv
          else if negb (authorizePublish auth stream_key (ticket target)) then
            Return false context
              (sendOnStatus conn (streamId_ context) "NetStream.Publish.BadName" "Invalid RTMP ticket." true srv)
          else let '(session, srv) := getOrCreateSession stream_key srv in Holds ToTest session context srv
      end
  | _ => Return false context srv
  end.

Definition play_lookup (conn : conn_ptr) (command : RtmpCommandMessage) (context : t) (srv : server) : outcome :=
  if negb server_ then Return false context srv
  else if (streamId_ context =? 0)%Z then Return false context srv
  else if negb (command_messageStreamId command =? streamId_ context)%Z then Return false context srv
  else match arguments command with
  | String raw_name :: _ =>
      match ParseStreamTarget raw_name with
      | None => Return false context srv
      | Some target =>
          let context := setStreamName (target_streamName target) context in
          let stream_key := streamKey context in
          if length stream_key =? 0 then Return false context srv
          else if negb (authorizePlay auth stream_key (ticket target)) then
            Return false context
              (sendOnStatus conn (streamId_ context) "NetStream.Play.Failed" "Invalid RTMP ticket." true srv)
          else let '(session, srv) := getOrCreateSession stream_key srv in Holds ToPlay session context srv
      end
  | _ => Return false context srv
  end.

(** The rest of them, with the session they hold. *)
Definition publish_refused (conn : conn_ptr) : handler := fun context srv =>
  (true, context,
   sendOnStatus conn (streamId_ context) "NetStream.Publish.BadName" "Stream already publishing." true srv).

Definition publish_assign (conn : conn_ptr) (session : nat) : handler := fun context srv =>
  let m := sessionManager_ srv in
  match heap m !! session with
  | None => (false, context, srv)
  | Some s =>
      let srv := set_manager (update (fun _ => become_publisher conn s) session m) srv in
      let context := bindSession session (setRole kPublisher context) in
      (true, context,
       sendOnStatus conn (streamId_ context) "NetStream.Publish.Start" "Start publishing." false srv)
  end.

Definition play_attach (conn : conn_ptr) (session : nat) : handler := fun context srv =>
  let m := sessionManager_ srv in
  match heap m !! session with
  | None => (false, context, srv)
  | Some s =>
      let s := (RtmpSession.addPlayer conn s).2 in
      let srv := set_manager (update (fun _ => s) session m) srv in
      let context := bindSession session (setRole kPlayer context) in
      let srv := sendOnStatus conn (streamId_ context) "NetStream.Play.Start" "Start playing." false srv in
      (true, context,
       send_all (RtmpSession.replayCachedMessagesToPlayer (connected srv) conn (outChunkSize_ context) s) srv)
  end.

Definition returns (r : bool * t * server) : outcome := Return r.1.1 r.1.2 r.2.

(** A handler that was cut, up to its next cut or its end. *)
Definition goes_on (st : stage) (conn : conn_ptr) (session : nat) (context : t) (srv : server) : outcome :=
  match st with
  | ToTest =>
      match heap (sessionManager_ srv) !! session with
      | None => Return false context srv
      | Some s =>
          if may_publish conn s then Holds (ToAssign (RtmpSession.publisher_ s)) session context srv
          else returns (publish_refused conn context srv)
      end
  | ToAssign _ => returns (publish_assign conn session context srv)
  | ToPlay => returns (play_attach conn session context srv)
  end.

(** A handler that nobody interrupts. *)
Definition complete (conn : conn_ptr) (o : outcome) : bool * t * server :=
  match o with
  | Return ok context srv => (ok, context, srv)
  | Holds st session context srv =>
      match goes_on st conn session context srv with
      | Return ok context srv => (ok, context, srv)
      | Holds _ session context srv => publish_assign conn session context srv
      end
  end.

(** RtmpServer::cleanupConnection, under the mutex. *)
Definition cleanup (held : gset nat) (conn : conn_ptr) (context : t) (srv : server) : server :=
  let stream_key := streamKey context in
  if length stream_key =? 0 then srv
  else
    let m := sessionManager_ srv in
    match find stream_key m with
    | None => srv
    | Some session =>
        let m :=
          match role_ context with
          | kPublisher => update (RtmpSession.clearPublisher conn) session m
          | kPlayer => update (RtmpSession.removePlayer conn) session m
          | kUnknown => m
          end in
        set_manager (release held (erase_if_empty stream_key m)) srv
    end.

Definition detach (held : gset nat) (conn : conn_ptr) (context : t) (srv : server) : t * server :=
  let srv := cleanup held conn context srv in
  (setPublishType [] (setStreamName [] (setStreamId 0 (setRole kUnknown (clearSession context)))), srv).

Definition delete_stream (held : gset nat) (conn : conn_ptr) (command : RtmpCommandMessage) : handler :=
  fun context srv =>
  if negb server_ then (false, context, srv)
  else if bool_decide (role_ context = kUnknown) ||
          bool_decide (lock (session_ context) (sessionManager_ srv) = None)
  then (true, context, srv)
  else if negb (command_messageStreamId command =? 0)%Z && negb (streamId_ context =? 0)%Z &&
          negb (command_messageStreamId command =? streamId_ context)%Z
  then (false, context, srv)
  else let '(context, srv) := detach held conn context srv in (true, context, srv).

Definition command_lookup (held : gset nat) (conn : conn_ptr) (command : RtmpCommandMessage) (context : t)
    (srv : server) : outcome :=
  if bool_decide (name command = str "connect") then returns (handleConnect conn command context srv)
  else if bool_decide (name command = str "createStream") then returns (handleCreateStream conn command context srv)
  else if bool_decide (name command = str "publish") then publish_lookup conn command context srv
  else if bool_decide (name command = str "play") then play_lookup conn command context srv
  else if bool_decide (name command = str "deleteStream") || bool_decide (name command = str "closeStream")
  then returns (delete_stream held conn command context srv)
  else Return true context srv.

(** RtmpConnection::handleMessage, up to the cut. *)
Definition message_lookup (held : gset nat) (conn : conn_ptr) (message : RtmpMessage) (context : t)
    (srv : server) : outcome :=
  if (typeId message =? kMessageTypeSetChunkSize)%Z && (4 <=? length (payload message)) then
    let chunk_size := ReadUint32BE (payload message) in
    let context := setInChunkSize chunk_size context in
    Return true (setChunkParser (RtmpChunkParser.setInChunkSize chunk_size (chunkParser_ context)) context) srv
  else if (typeId message =? kMessageTypeCommandAmf0)%Z then
    match DecodeCommandMessageAmf0 message with
    | Ok command => command_lookup held conn command context srv
    | _ => Return false context srv
    end
  else if (typeId message =? kMessageTypeDataAmf0)%Z || (typeId message =? kMessageTypeAudio)%Z ||
          (typeId message =? kMessageTypeVideo)%Z
  then returns (handleMediaMessage conn message context srv)
  else Return true context srv.

(** ** Alone, they are the whole handlers *)

Lemma update_same p se sv :
  heap (sessionManager_ sv) !! p = Some se ->
  set_manager (update (fun _ => se) p (sessionManager_ sv)) sv = sv.
Proof.
  destruct sv as [[table objects next] conns outs]. unfold set_manager, update. cbn. intros Hp. do 2 f_equal.
  apply map_eq. intros q. destruct (decide (q = p)) as [->|]; [by rewrite lookup_alter_eq, Hp|by rewrite lookup_alter_ne].
Qed.

Lemma publish_split conn command x sv :
  complete conn (publish_lookup conn command x sv) = handlePublish auth server_ conn command x sv.
Proof.
  unfold publish_lookup, handlePublish.
  destruct (negb server_); [done|]. destruct (_ =? 0)%Z; [done|]. destruct (negb (_ =? _)%Z); [done|].
  destruct (arguments command) as [|[] more]; try done. destruct (ParseStreamTarget _) as [target|]; [|done].
  cbv zeta. destruct (_ =? 0); [done|]. destruct (negb _); [done|]. destruct (getOrCreateSession _ _) as [p sv'].
  unfold complete, goes_on, publish_assign, publish_refused. destruct (heap _ !! p) as [se|] eqn:Hse; [|done].
  rewrite setPublisher_halves. destruct (may_publish conn se); [by rewrite Hse|].
  cbn [negb returns fst snd]. by rewrite update_same.
Qed.

Lemma play_split conn command x sv :
  complete conn (play_lookup conn command x sv) = handlePlay auth server_ conn command x sv.
Proof.
  unfold play_lookup, handlePlay.
  destruct (negb server_); [done|]. destruct (_ =? 0)%Z; [done|]. destruct (negb (_ =? _)%Z); [done|].
  destruct (arguments command) as [|[] more]; try done. destruct (ParseStreamTarget _) as [target|]; [|done].
  cbv zeta. destruct (_ =? 0); [done|]. destruct (negb _); [done|]. destruct (getOrCreateSession _ _) as [p sv'].
  cbn [complete goes_on]. unfold play_attach. by destruct (heap _ !! p).
Qed.

Lemma complete_returns conn r : complete conn (returns r) = r.
Proof. by destruct r as [[? ?] ?]. Qed.

(** With no other handler at work, an object lives as long as its entry. *)
Lemma release_alone seen m : manager_ok seen m -> release ∅ m = m.
Proof.
  intros Hm. unfold release. destruct m as [table objects next]. cbn. f_equal.
  apply map_filter_id. intros p s Hp. left. by apply (heap_table _ _ Hm).
Qed.

Lemma release_erase_alone seen key m : manager_ok seen m -> release ∅ (erase_if_empty key m) = removeIfEmpty key m.
Proof.
  intros Hm. unfold erase_if_empty, removeIfEmpty.
  destruct (sessions_ m !! key) as [p|] eqn:E; [|by eapply release_alone].
  destruct (table_heap _ _ Hm _ _ E) as (s & Hs & Hkey). rewrite Hs.
  destruct (RtmpSession.empty s); [|by eapply release_alone]. unfold release. cbn. f_equal.
  apply map_eq. intros q. apply option_eq. intros s'. rewrite map_lookup_filter_Some, lookup_delete_Some.
  unfold referenced. cbn. rewrite lookup_delete_Some. split.
  - intros [Hq [[Hne Hk]|[]%not_elem_of_empty]]. split; [|done]. intros <-. congruence.
  - intros [Hne Hq]. split; [done|]. left. apply (heap_table _ _ Hm) in Hq as Hk. split; [|done].
    intros Heq. congruence.
Qed.

Lemma cleanup_alone seen conn x sv :
  manager_ok seen (sessionManager_ sv) -> cleanup ∅ conn x sv = cleanupConnection conn (Some x) sv.
Proof.
  intros Hm. unfold cleanup, cleanupConnection. destruct (_ =? 0); [done|]. unfold find.
  destruct (sessions_ _ !! _) as [p|] eqn:E; [|done]. destruct (table_heap _ _ Hm _ _ E) as (s & Hs & Hkey).
  f_equal. pose proof (heap_sessions _ _ Hm _ _ Hs) as Hok.
  apply (release_erase_alone seen). destruct (role_ x); [done|..]; eapply update_ok; try done.
  - unfold RtmpSession.clearPublisher. by case_bool_decide.
  - by apply (clearPublisher_ok seen conn ∅).
  - by apply (removePlayer_ok seen conn ∅).
Qed.

(** A message whose handler nobody interrupts: the whole handler. *)
Lemma message_split seen conn message x sv :
  manager_ok seen (sessionManager_ sv) ->
  complete conn (message_lookup ∅ conn message x sv) = handleMessage auth server_ conn message x sv.
Proof.
  intros Hm. unfold message_lookup, handleMessage. destruct (_ && _); [done|]. destruct (_ =? _)%Z.
  - destruct (DecodeCommandMessageAmf0 message) as [command| |]; [|done..].
    unfold command_lookup, handleCommandMessage.
    do 2 (destruct (bool_decide _); [by rewrite complete_returns|]).
    destruct (bool_decide _); [apply publish_split|]. destruct (bool_decide _); [apply play_split|].
    destruct (_ || _); [|done]. rewrite complete_returns. unfold delete_stream, handleDeleteStream.
    destruct (negb server_); [done|]. destruct (_ || _); [done|]. destruct (_ && _ && _); [done|].
    unfold detach, detachConnectionFromSession. by rewrite (cleanup_alone seen).
  - destruct (_ || _); [|done]. apply complete_returns.
Qed.

End handlers.

(** ** What an event of one connection may do to the sessions *)

Section lemmas.
Context (granted : bool -> bytes -> Prop) (seen : gset conn_ptr).
(** The sessions in which a handler past its test has replaced the publisher. *)
Context (R : gset nat).
Implicit Types (c : conn_ptr) (m : RtmpSessionManager.t) (conns : gset conn_ptr) (held : gset nat).

Record table_ok m : Prop := {
  t_table k p : sessions_ m !! k = Some p -> exists s, heap m !! p = Some s /\ RtmpSession.streamKey_ s = k;
  t_fresh p s : heap m !! p = Some s -> p < next_ptr m;
  t_sessions p s : heap m !! p = Some s -> session_ok seen s;
}.

(** Every object that is there has a pointer to it. *)
Definition shared_ok held m : Prop :=
  table_ok m /\ forall p s, heap m !! p = Some s -> referenced held m (p, s).

(** Somebody else is in the session [p], and will not be replaced. *)
Definition occupied p c conns (s : RtmpSession.t) : Prop :=
  ((p ∉ R) /\ exists c', c' <> c /\ RtmpSession.publisher_ s = Some c') \/
  (exists c', conn_name c' <> conn_name c /\ c' ∈ conns /\ RtmpSession.players_ s !! conn_name c' = Some c').

(** [keeps], but for the publisher of a session in [R]. *)
Definition keeps_in p c conns (s s' : RtmpSession.t) : Prop :=
  RtmpSession.streamKey_ s' = RtmpSession.streamKey_ s /\
  (p ∉ R -> forall c', c' <> c -> RtmpSession.publisher_ s = Some c' -> RtmpSession.publisher_ s' = Some c') /\
  (forall c', conn_name c' <> conn_name c -> c' ∈ conns ->
     RtmpSession.players_ s !! conn_name c' = Some c' -> RtmpSession.players_ s' !! conn_name c' = Some c').

Record evolves c conns held m m' : Prop := {
  e_next : next_ptr m <= next_ptr m';
  e_heap p s' : p < next_ptr m -> heap m' !! p = Some s' -> exists s, heap m !! p = Some s /\ keeps_in p c conns s s';
  e_held p s : p ∈ held -> heap m !! p = Some s -> is_Some (heap m' !! p);
  e_table k p s : sessions_ m !! k = Some p -> heap m !! p = Some s -> occupied p c conns s ->
    sessions_ m' !! k = Some p;
}.

Lemma keeps_keeps_in p c conns s s' : keeps c conns s s' -> keeps_in p c conns s s'.
Proof. by intros (? & ? & ?). Qed.

Lemma keeps_in_refl p c conns s : keeps_in p c conns s s.
Proof. by split_and!. Qed.

Lemma keeps_in_trans p c conns s1 s2 s3 :
  keeps_in p c conns s1 s2 -> keeps_in p c conns s2 s3 -> keeps_in p c conns s1 s3.
Proof. unfold keeps_in. intros (K1 & P1 & L1) (K2 & P2 & L2). split_and!; [congruence|auto|auto]. Qed.

Lemma occupied_keeps p c conns s s' : keeps_in p c conns s s' -> occupied p c conns s -> occupied p c conns s'.
Proof. intros (_ & Hp & Hl) [(? & c' & ? & ?)|(c' & ? & ? & ?)]; [left; split; [done|]|right]; exists c'; auto. Qed.

Lemma evolves_refl c conns held m : evolves c conns held m m.
Proof. split; [done| |by eexists|done]. intros p s' _ Hp. exists s'. split; [done|apply keeps_in_refl]. Qed.

Lemma evolves_trans c conns held m1 m2 m3 :
  table_ok m1 -> table_ok m2 -> evolves c conns held m1 m2 -> evolves c conns held m2 m3 ->
  evolves c conns held m1 m3.
Proof.
  intros T1 T2 [N1 H1 L1 E1] [N2 H2 L2 E2]. split; [lia|..].
  - intros p s3 Hlt Hs3. destruct (H2 p s3 ltac:(lia) Hs3) as (s2 & Hs2 & K2).
    destruct (H1 p s2 Hlt Hs2) as (s1 & Hs1 & K1). exists s1. split; [done|by eapply keeps_in_trans].
  - intros p s Hp Hs. destruct (L1 p s Hp Hs) as [s2 Hs2]. by eapply L2.
  - intros k p s Hk Hs Ho. pose proof (E1 k p s Hk Hs Ho) as Hk2.
    destruct (t_table _ T2 _ _ Hk2) as (s2 & Hs2 & _).
    destruct (H1 p s2 (t_fresh _ T1 _ _ Hs) Hs2) as (s0 & Hs0 & K). simplify_eq.
    by eapply E2, occupied_keeps.
Qed.

Lemma referenced_mono held held' m entry : held ⊆ held' -> referenced held m entry -> referenced held' m entry.
Proof. unfold referenced. set_solver. Qed.

Lemma getOrCreate_shared c conns held key m p m' :
  shared_ok held m -> getOrCreate key m = (p, m') ->
  shared_ok held m' /\ evolves c conns held m m' /\
  exists s, heap m' !! p = Some s /\ RtmpSession.streamKey_ s = key.
Proof.
  intros [T L]. unfold getOrCreate. destruct (sessions_ m !! key) as [q|] eqn:E; intros [= <- <-].
  { destruct (t_table _ T _ _ E) as (s & ? & ?). split_and!; [by split|apply evolves_refl|by exists s]. }
  assert (heap m !! next_ptr m = None) as Hnew.
  { destruct (heap m !! next_ptr m) eqn:E'; [|done]. apply (t_fresh _ T) in E'. lia. }
  split_and!; [split; [split; cbn|]|split; cbn|].
  - intros k q [[<- <-]|[Hne Hk]]%lookup_insert_Some; [eexists; by rewrite lookup_insert_eq|].
    destruct (t_table _ T _ _ Hk) as (s & Hs & ?). exists s. rewrite lookup_insert_ne; [done|congruence].
  - intros q s [[<- <-]|[Hne Hq]]%lookup_insert_Some; [lia|]. apply (t_fresh _ T) in Hq. lia.
  - intros q s [[<- <-]|[Hne Hq]]%lookup_insert_Some; [apply make_ok|by apply (t_sessions _ T) in Hq].
  - unfold referenced. cbn. intros q s [[<- <-]|[Hne Hq]]%lookup_insert_Some; cbn; [left; by rewrite lookup_insert_eq|].
    destruct (L q s Hq) as [Hl|Hl]; [|by right]. left. cbn in Hl. rewrite lookup_insert_ne; [done|congruence].
  - lia.
  - intros q s Hlt Hq. rewrite lookup_insert_ne in Hq by lia. exists s. split; [done|apply keeps_in_refl].
  - intros q s _ Hq. rewrite lookup_insert_ne; [done|congruence].
  - intros k q s Hk _ _. rewrite lookup_insert_ne; [done|congruence].
  - exists (RtmpSession.make key). cbn. by rewrite lookup_insert_eq.
Qed.

Lemma update_shared c conns held f p m s :
  shared_ok held m -> heap m !! p = Some s -> session_ok seen (f s) -> keeps_in p c conns s (f s) ->
  shared_ok held (update f p m) /\ evolves c conns held m (update f p m).
Proof.
  intros [T L] Hp Hok Hk. assert (forall q s', heap (update f p m) !! q = Some s' ->
    exists s0, heap m !! q = Some s0 /\ keeps_in q c conns s0 s' /\ session_ok seen s') as Hupd.
  { intros q s'. cbn. rewrite lookup_alter_Some. intros [[<- (s0 & H0 & ->)]|[Hne Hq]].
    - simplify_eq. by exists s.
    - exists s'. split_and!; [done|apply keeps_in_refl|by eapply (t_sessions _ T)]. }
  split; [split; [split|]|split].
  - intros k q Hq. destruct (t_table _ T _ _ Hq) as (s0 & Hs0 & Hkey). cbn.
    destruct (decide (q = p)) as [->|]; [|exists s0; by rewrite lookup_alter_ne].
    simplify_eq. exists (f s). rewrite lookup_alter_eq, Hp. split; [done|]. apply Hk.
  - intros q s' Hq. destruct (Hupd q s' Hq) as (s0 & H0 & _). by apply (t_fresh _ T) in H0.
  - intros q s' Hq. by destruct (Hupd q s' Hq) as (s0 & _ & _ & ?).
  - intros q s' Hq. destruct (Hupd q s' Hq) as (s0 & H0 & [Hkey _] & _). unfold referenced. cbn.
    rewrite Hkey. by apply (L q s0).
  - done.
  - intros q s' _ Hq. destruct (Hupd q s' Hq) as (s0 & ? & ? & _). by exists s0.
  - intros q s' _ Hq. cbn. destruct (decide (q = p)) as [->|]; [rewrite lookup_alter_eq|rewrite lookup_alter_ne by done]; by rewrite Hq.
  - done.
Qed.

Lemma release_shared c conns held m :
  table_ok m -> shared_ok held (release held m) /\ evolves c conns held m (release held m).
Proof.
  intros T. split; [split; [split; cbn|]|split; cbn].
  - intros k p Hk. destruct (t_table _ T _ _ Hk) as (s & Hs & <-). exists s. split; [|done].
    apply map_lookup_filter_Some. split; [done|by left].
  - intros p s [Hp _]%map_lookup_filter_Some. by apply (t_fresh _ T) in Hp.
  - intros p s [Hp _]%map_lookup_filter_Some. by apply (t_sessions _ T) in Hp.
  - intros p s. cbn. rewrite map_lookup_filter_Some. by intros [_ ?].
  - done.
  - intros p s _ [Hp _]%map_lookup_filter_Some. exists s. split; [done|apply keeps_in_refl].
  - intros p s Hp Hs. exists s. apply map_lookup_filter_Some. split; [done|by right].
  - done.
Qed.

Lemma erase_table c conns held key m :
  table_ok m -> table_ok (erase_if_empty key m) /\ evolves c conns held m (erase_if_empty key m).
Proof.
  intros T. unfold erase_if_empty. destruct (sessions_ m !! key) as [p|] eqn:E; [|split; [done|apply evolves_refl]].
  destruct (heap m !! p) as [s|] eqn:Es; [|split; [done|apply evolves_refl]].
  destruct (RtmpSession.empty s) eqn:Ee; [|split; [done|apply evolves_refl]].
  apply empty_spec in Ee as [E1 E2]. split; split; cbn.
  - intros k q [_ Hk]%lookup_delete_Some. by apply (t_table _ T).
  - apply (t_fresh _ T).
  - apply (t_sessions _ T).
  - done.
  - intros q s' _ Hq. exists s'. split; [done|apply keeps_in_refl].
  - intros q s' _ Hq. by eexists.
  - intros k q s' Hk Hs Ho. rewrite lookup_delete_ne; [done|]. intros <-. simplify_eq.
    destruct Ho as [(_ & c' & _ & Hc)|(c' & _ & _ & Hc)]; rewrite ?E1, ?E2 in Hc; [done|by rewrite lookup_empty in Hc].
Qed.

Lemma cleanup_shared held c x sv :
  shared_ok held (sessionManager_ sv) ->
  shared_ok held (sessionManager_ (cleanup held c x sv)) /\
  evolves c (connected sv) held (sessionManager_ sv) (sessionManager_ (cleanup held c x sv)) /\
  connected (cleanup held c x sv) = connected sv.
Proof.
  intros Hs. unfold cleanup. destruct (_ =? 0); [by auto using evolves_refl|]. unfold find.
  destruct (sessions_ _ !! _) as [p|] eqn:E; [|by auto using evolves_refl].
  set (m := match role_ x with kUnknown => _ | _ => _ end). cbn [sessionManager_ set_manager connected].
  assert (shared_ok held m /\ evolves c (connected sv) held (sessionManager_ sv) m) as [Hm Hev].
  { destruct Hs as [T L]. destruct (t_table _ T _ _ E) as (s & Hp & _). pose proof (t_sessions _ T _ _ Hp) as Hok.
    subst m. destruct (role_ x); [by split; [|apply evolves_refl]|..]; eapply update_shared; try done.
    - by apply (clearPublisher_ok seen c (connected sv)).
    - by apply keeps_keeps_in, (clearPublisher_ok seen c (connected sv)).
    - by apply (removePlayer_ok seen c (connected sv)).
    - by apply keeps_keeps_in, (removePlayer_ok seen c (connected sv)). }
  destruct (erase_table c (connected sv) held (streamKey x) m) as [Te Ee]; [apply Hm|].
  destruct (release_shared c (connected sv) held _ Te) as [Hr Er]. split_and!; [done| |done].
  eapply evolves_trans; [apply Hs|apply Hm|done|]. eapply evolves_trans; [apply Hm|done|done|done].
Qed.

(** ** The place of a connection in its session, while the session is there *)

Definition bound_live m conns c (x : t) : Prop :=
  (forall p, session_ x = Some p -> p < next_ptr m /\
     forall s, heap m !! p = Some s ->
       authorized granted (role_ x) s /\
       (role_ x = kPublisher -> p ∉ R -> RtmpSession.publisher_ s = Some c) /\
       (role_ x = kPlayer -> c ∈ conns -> RtmpSession.players_ s !! conn_name c = Some c)) /\
  outChunkSize_ x = kDefaultChunkSize.

Lemma bound_live_evolves c conns held m m' c' x :
  evolves c conns held m m' -> c' <> c -> conn_name c' <> conn_name c ->
  bound_live m conns c' x -> bound_live m' conns c' x.
Proof.
  intros [Hn Hh _ _] Hne Hname [Hb Ho]. split; [|done]. intros p Hp. destruct (Hb p Hp) as [Hlt Hs].
  split; [lia|]. intros s' Hs'. destruct (Hh p s' Hlt Hs') as (s & Hs0 & Hkey & Hpub & Hpl).
  destruct (Hs s Hs0) as (Ha & H1 & H2). split_and!; [by eapply authorized_key|auto|auto].
Qed.

Lemma bound_live_conns m conns conns' c x :
  (c ∈ conns' -> c ∈ conns) -> bound_live m conns c x -> bound_live m conns' c x.
Proof. intros Hsub [Hb Ho]. split; [|done]. intros p Hp. destruct (Hb p Hp) as [Hlt Hs]. split; [done|naive_solver]. Qed.

Lemma bound_live_context m conns c x x' :
  role_ x' = role_ x -> session_ x' = session_ x -> outChunkSize_ x' = outChunkSize_ x ->
  bound_live m conns c x -> bound_live m conns c x'.
Proof. unfold bound_live. by intros -> -> ->. Qed.

(** What a handler of [c] does, as far as the others are concerned. *)
Record advances c held (sv : server) (x' : t) (sv' : server) : Prop := {
  a_shared : shared_ok held (sessionManager_ sv');
  a_evolves : evolves c (connected sv) held (sessionManager_ sv) (sessionManager_ sv');
  a_bound : bound_live (sessionManager_ sv') (connected sv) c x';
  a_connected : connected sv' = connected sv;
}.

Section one_connection.
Context (auth : option (bytes -> bytes -> bool -> bool)) (Hsound : sound auth granted).
Context (Hnames : unique_names seen) (c : conn_ptr) (Hc : c ∈ seen) (held : gset nat).

Lemma advances_same sv x x' sv' :
  sessionManager_ sv' = sessionManager_ sv -> connected sv' = connected sv ->
  role_ x' = role_ x -> session_ x' = session_ x -> outChunkSize_ x' = outChunkSize_ x ->
  shared_ok held (sessionManager_ sv) -> bound_live (sessionManager_ sv) (connected sv) c x ->
  advances c held sv x' sv'.
Proof.
  intros Hm Hcn H1 H2 H3 Hs Hb. split; rewrite ?Hm; [done|apply evolves_refl| |done].
  by eapply bound_live_context.
Qed.

(** The session at [p] was replaced by what a method of it made of it. *)
Lemma advances_update sv p s s' x' sv' :
  sessionManager_ sv' = update (fun _ => s') p (sessionManager_ sv) -> connected sv' = connected sv ->
  shared_ok held (sessionManager_ sv) -> heap (sessionManager_ sv) !! p = Some s ->
  session_ok seen s' -> keeps_in p c (connected sv) s s' ->
  bound_live (update (fun _ => s') p (sessionManager_ sv)) (connected sv) c x' ->
  advances c held sv x' sv'.
Proof.
  intros Hm Hcn Hs Hp Hok Hk Hb.
  destruct (update_shared c (connected sv) held (fun _ => s') p _ s Hs Hp Hok Hk). split; by rewrite ?Hm.
Qed.

(** A connection that was bound to [p], and has its place there. *)
Lemma bound_here m conns p s s' x' :
  shared_ok held m -> heap m !! p = Some s ->
  session_ x' = Some p -> outChunkSize_ x' = kDefaultChunkSize -> authorized granted (role_ x') s' ->
  (role_ x' = kPublisher -> p ∉ R -> RtmpSession.publisher_ s' = Some c) ->
  (role_ x' = kPlayer -> c ∈ conns -> RtmpSession.players_ s' !! conn_name c = Some c) ->
  bound_live (update (fun _ => s') p m) conns c x'.
Proof.
  intros [T _] Hp Hx Ho Ha H1 H2. split; [|done]. rewrite Hx. intros q [= <-]. cbn.
  split; [by eapply (t_fresh _ T)|]. intros s0. rewrite lookup_alter_eq, Hp. by intros [= <-].
Qed.

Lemma media_advances message x sv ok x' sv' :
  shared_ok held (sessionManager_ sv) -> bound_live (sessionManager_ sv) (connected sv) c x ->
  handleMediaMessage c message x sv = (ok, x', sv') -> advances c held sv x' sv'.
Proof.
  intros Hs Hb. unfold handleMediaMessage.
  destruct (bool_decide (role_ x = kPublisher)) eqn:Hr; bool_hyps; cbn [negb];
    [|intros [= <- <- <-]; by eapply advances_same].
  unfold lock. destruct (session_ x) as [p|] eqn:Hp; cbn [mbind option_bind];
    [|intros [= <- <- <-]; by eapply advances_same].
  destruct (decide _) as [[s Hh]|]; [|intros [= <- <- <-]; by eapply advances_same]. rewrite Hh.
  destruct (RtmpSession.onMediaMessage _ _ _ _) as [s' sends] eqn:E. intros [= <- <- <-].
  pose proof (t_sessions _ (proj1 Hs) _ _ Hh) as Hok. destruct (proj1 Hb p Hp) as [_ Hl].
  destruct (Hl s Hh) as (Ha & H1 & _).
  destruct (onMediaMessage_ok seen c _ _ _ _ _ _ Hok E) as (Hok' & Hk & Hpub & _).
  eapply advances_update; [done..|by apply keeps_keeps_in|]. eapply bound_here; try done.
  - apply Hb.
  - eapply authorized_key; [apply Hk|done].
  - intros _. rewrite Hpub. by apply H1.
  - by rewrite Hr.
Qed.

(** A handler past the test found no other publisher. *)
Definition passed (st : stage) : Prop :=
  match st with ToAssign tested => tested = None \/ tested = Some c | _ => True end.

Lemma may_publish_spec s : may_publish c s = true <-> RtmpSession.publisher_ s = None \/ RtmpSession.publisher_ s = Some c.
Proof.
  unfold may_publish. rewrite negb_true_iff, andb_false_iff, !bool_decide_eq_false.
  destruct (RtmpSession.publisher_ s) as [c'|]; [|naive_solver]. destruct (decide (c' = c)); naive_solver.
Qed.

(** The steps up to the next cut. *)
Definition looked_up (sv : server) (o : outcome) : Prop :=
  match o with
  | Return _ x' sv' => advances c held sv x' sv'
  | Holds st p x' sv' =>
      advances c held sv x' sv' /\ passed st /\
      exists s, heap (sessionManager_ sv') !! p = Some s /\ authorized granted (role_of st) s
  end.

(** The second half of setPublisher. *)
Lemma become_publisher_ok conns p s :
  session_ok seen s -> (may_publish c s = false -> p ∈ R) ->
  session_ok seen (become_publisher c s) /\ keeps_in p c conns s (become_publisher c s).
Proof.
  intros Hok Hr. destruct (may_publish c s) eqn:Em.
  - pose proof (setPublisher_halves c s) as E. rewrite Em in E.
    destruct (setPublisher_ok seen c conns s _ _ Hok Hc E) as (Hok' & Hk & _). split; [done|by apply keeps_keeps_in].
  - unfold may_publish in Em. apply negb_false_iff, andb_true_iff in Em as [_ Hne].
    assert (become_publisher c s = RtmpSession.mk (RtmpSession.streamKey_ s) (Some c) (RtmpSession.players_ s)
      None None None [] false) as -> by (unfold become_publisher; by rewrite Hne).
    destruct Hok as ([ms Hms] & Hw & Hp & Hpl). split; [|by split_and!; [|intros []; auto|]].
    split_and!; [by exists []; eapply RtmpSession.cached_ext, (RtmpSession.cached_nil [])|done| |done]. cbn. by intros c' [= <-].
Qed.

(** A handler that goes on. *)
Lemma goes_on_looked_up st p s x sv :
  shared_ok held (sessionManager_ sv) -> bound_live (sessionManager_ sv) (connected sv) c x ->
  heap (sessionManager_ sv) !! p = Some s -> authorized granted (role_of st) s ->
  (forall tested, st = ToAssign tested -> may_publish c s = false -> p ∈ R) ->
  looked_up sv (goes_on st c p x sv).
Proof.
  intros Hs Hb Hp Ha HR. pose proof (t_sessions _ (proj1 Hs) _ _ Hp) as Hok.
  destruct st; cbn [goes_on]; unfold publish_assign, publish_refused, play_attach; rewrite ?Hp.
  - destruct (may_publish c s) eqn:Em; cbn; [|by eapply advances_same].
    split; [by eapply advances_same|]. split; [by apply may_publish_spec|by exists s].
  - destruct (become_publisher_ok (connected sv) p s Hok (HR _ eq_refl)) as [Hok' Hk].
    eapply advances_update; [done..|].
    eapply bound_here; try done; [apply Hb|]. eapply authorized_key; [apply Hk|done].
  - destruct (addPlayer_ok seen c (connected sv) s Hnames Hok Hc) as (Hok' & Hk & Hin & _).
    eapply advances_update; [done..|by apply keeps_keeps_in|].
    eapply bound_here; try done; [apply Hb|]. eapply authorized_key; [apply Hk|done].
Qed.

(** Where its connection is then. *)
Lemma goes_on_place st p s x sv :
  shared_ok held (sessionManager_ sv) -> heap (sessionManager_ sv) !! p = Some s ->
  match st with
  | ToTest =>
      may_publish c s = true /\ goes_on st c p x sv = Holds (ToAssign (RtmpSession.publisher_ s)) p x sv \/
      (exists sv', goes_on st c p x sv = Return true x sv') /\
      exists c', c' <> c /\ RtmpSession.publisher_ s = Some c'
  | ToAssign _ | ToPlay =>
      exists x' sv' s', goes_on st c p x sv = Return true x' sv' /\
        role_ x' = role_of st /\ session_ x' = Some p /\
        sessions_ (sessionManager_ sv') = sessions_ (sessionManager_ sv) /\
        heap (sessionManager_ sv') !! p = Some s' /\ RtmpSession.streamKey_ s' = RtmpSession.streamKey_ s /\
        match st with
        | ToAssign _ => RtmpSession.publisher_ s' = Some c
        | _ => RtmpSession.players_ s' !! conn_name c = Some c
        end
  end.
Proof.
  intros Hs Hp. pose proof (t_sessions _ (proj1 Hs) _ _ Hp) as Hok.
  assert (forall s', heap (update (fun _ => s') p (sessionManager_ sv)) !! p = Some s') as Hnow
    by (intros s'; cbn; by rewrite lookup_alter_eq, Hp).
  destruct st; cbn [goes_on]; unfold publish_assign, publish_refused, play_attach; rewrite ?Hp.
  - destruct (may_publish c s) eqn:Em; [by left|right]. split; [by eexists|]. unfold may_publish in Em. bool_hyps.
    destruct (RtmpSession.publisher_ s) as [c'|]; [|done]. exists c'. split; [congruence|done].
  - do 3 eexists. split_and!; [done..|apply Hnow| |done]. unfold become_publisher. by case_bool_decide.
  - destruct (addPlayer_ok seen c (connected sv) s Hnames Hok Hc) as (_ & Hk & Hin & _).
    do 3 eexists. split_and!; [done..|apply Hnow|apply Hk|done].
Qed.

Lemma session_looked_up st x x' sv key :
  passed st ->
  granted (bool_decide (role_of st = kPublisher)) key ->
  role_ x' = role_ x -> session_ x' = session_ x -> outChunkSize_ x' = outChunkSize_ x ->
  shared_ok held (sessionManager_ sv) -> bound_live (sessionManager_ sv) (connected sv) c x ->
  looked_up sv (let '(p, sv) := getOrCreateSession key sv in Holds st p x' sv).
Proof.
  intros Hps Hg H1 H2 H3 Hs Hb. unfold getOrCreateSession.
  destruct (getOrCreate key (sessionManager_ sv)) as [p m] eqn:E.
  destruct (getOrCreate_shared c (connected sv) held _ _ _ _ Hs E) as (Hs' & Hev & s & Hp & Hkey).
  split; [|split; [done|exists s; split; [done|unfold authorized; rewrite Hkey; by destruct st]]].
  split; cbn; try done. eapply bound_live_context; [done..|].
  destruct Hb as [Hb Ho]. split; [|done]. intros q Hq. destruct (Hb q Hq) as [Hlt Hl].
  split; [pose proof (e_next _ _ _ _ _ Hev); lia|]. intros s' Hs0.
  apply Hl. unfold getOrCreate in E. destruct (sessions_ _ !! key); injection E as <- <-; [done|].
  cbn in Hs0. rewrite lookup_insert_ne in Hs0 by lia. done.
Qed.

Lemma publish_looked_up command x sv :
  shared_ok held (sessionManager_ sv) -> bound_live (sessionManager_ sv) (connected sv) c x ->
  looked_up sv (publish_lookup auth true c command x sv).
Proof.
  intros Hs Hb. unfold publish_lookup. cbn [negb].
  destruct (_ =? 0)%Z; [by eapply advances_same|]. destruct (negb _); [by eapply advances_same|].
  destruct (arguments command) as [|[] more]; try by eapply advances_same.
  destruct (ParseStreamTarget _) as [target|]; [|by eapply advances_same]. cbv zeta.
  set (x1 := match more with String publish_type :: _ => _ | _ => _ end).
  assert (role_ x1 = role_ x /\ session_ x1 = session_ x /\ outChunkSize_ x1 = outChunkSize_ x)
    as (Hr & Hx & Ho) by by destruct more as [|[] ?].
  clearbody x1. destruct (length (streamKey x1) =? 0); [by eapply advances_same|].
  destruct (authorizePublish _ _ _) eqn:Ha; cbn [negb]; [|by eapply advances_same].
  eapply session_looked_up; try done. by eapply Hsound.
Qed.

Lemma play_looked_up command x sv :
  shared_ok held (sessionManager_ sv) -> bound_live (sessionManager_ sv) (connected sv) c x ->
  looked_up sv (play_lookup auth true c command x sv).
Proof.
  intros Hs Hb. unfold play_lookup. cbn [negb].
  destruct (_ =? 0)%Z; [by eapply advances_same|]. destruct (negb _); [by eapply advances_same|].
  destruct (arguments command) as [|[] more]; try by eapply advances_same.
  destruct (ParseStreamTarget _) as [target|]; [|by eapply advances_same]. cbv zeta.
  destruct (length (streamKey _) =? 0); [by eapply advances_same|].
  destruct (authorizePlay _ _ _) eqn:Ha; cbn [negb]; [|by eapply advances_same].
  eapply session_looked_up; try done. by eapply Hsound.
Qed.

Lemma connect_looked_up command x sv :
  shared_ok held (sessionManager_ sv) -> bound_live (sessionManager_ sv) (connected sv) c x ->
  looked_up sv (returns (handleConnect c command x sv)).
Proof.
  intros Hs Hb. unfold handleConnect. destruct (negb _); [by eapply advances_same|].
  destruct (StdMap.find (str "app") _) as [[]|]; try by eapply advances_same.
  destruct (StdMap.find (str "tcUrl") _) as [[]|], (StdMap.find (str "objectEncoding") _) as [[]|];
    by eapply advances_same.
Qed.

Lemma delete_looked_up command x sv :
  shared_ok held (sessionManager_ sv) -> bound_live (sessionManager_ sv) (connected sv) c x ->
  looked_up sv (returns (delete_stream true held c command x sv)).
Proof.
  intros Hs Hb. unfold delete_stream. cbn [negb]. destruct (_ || _); [by eapply advances_same|].
  destruct (_ && _ && _); [by eapply advances_same|].
  destruct (cleanup_shared held c x sv Hs) as (H1 & H2 & H3). split; [done|done| |done].
  split; [done|]. apply Hb.
Qed.

Lemma message_looked_up message x sv :
  shared_ok held (sessionManager_ sv) -> bound_live (sessionManager_ sv) (connected sv) c x ->
  looked_up sv (message_lookup auth true held c message x sv).
Proof.
  intros Hs Hb. unfold message_lookup. destruct (_ && _); [by eapply advances_same|]. destruct (_ =? _)%Z.
  - destruct (DecodeCommandMessageAmf0 message) as [command| |]; try by eapply advances_same.
    unfold command_lookup. destruct (bool_decide _); [by apply connect_looked_up|].
    destruct (bool_decide _); [by eapply advances_same|].
    destruct (bool_decide _); [by apply publish_looked_up|].
    destruct (bool_decide _); [by apply play_looked_up|].
    destruct (_ || _); [by apply delete_looked_up|by eapply advances_same].
  - destruct (_ || _); [|by eapply advances_same]. 
    destruct (handleMediaMessage c message x sv) as [[ok x'] sv'] eqn:E. by eapply media_advances.
Qed.

End one_connection.
End lemmas.

(** ** The system: connections whose handlers interleave *)

(** A connection in [running] has a handler that is cut, with the pointer it
    holds.  [seen]: the connections there ever were.  [raced]: the sessions whose
    publisher_ another loop changed between the test and the assignment of a
    handler of publish. *)
Record state := mkState {
  srv : server;
  contexts : gmap conn_ptr t;
  running : gmap conn_ptr (stage * nat);
  seen : gset conn_ptr;
  raced : gset nat;
}.

Definition empty_state : state := mkState (mkServer RtmpSessionManager.initial ∅ []) ∅ ∅ ∅ ∅.

Definition held_by (handlers : gmap conn_ptr (stage * nat)) : gset nat := map_img (snd <$> handlers).

(** The session, if publisher_ is not what the test of the handler has found. *)
Definition replaces (st : stage) (p : nat) (sv : server) : gset nat :=
  match st, heap (sessionManager_ sv) !! p with
  | ToAssign tested, Some se => if bool_decide (RtmpSession.publisher_ se = tested) then ∅ else {[p]}
  | _, _ => ∅
  end.

Inductive event :=
| Connect (c : conn_ptr)
| Message (c : conn_ptr) (message : RtmpMessage)
| Resume (c : conn_ptr)       (** the handler that was cut goes on *)
| Disconnect (c : conn_ptr).

Definition actor (e : event) : conn_ptr :=
  match e with Connect c | Message c _ | Resume c | Disconnect c => c end.

Section system.
Context (auth : option (bytes -> bytes -> bool -> bool)).

(** RtmpServer::onMessage, when the handler has returned. *)
Definition returned (ok : bool) (c : conn_ptr) (sv : server) : server := if ok then sv else shutdown c sv.

(** [None]: the event does not happen; a loop runs the handlers of a connection
    one after the other. *)
Definition step (e : event) (s : state) : option state :=
  match e with
  | Connect c =>
      if bool_decide (set_Forall (fun c' => conn_name c' <> conn_name c) (seen s)) then
        Some (mkState (mkServer (sessionManager_ (srv s)) ({[c]} ∪ connected (srv s)) (outputs (srv s)))
                (<[c := bindHandler initial]> (contexts s)) (running s) ({[c]} ∪ seen s) (raced s))
      else None
  | Message c message =>
      x ← contexts s !! c;
      match running s !! c with
      | Some _ => None
      | None =>
          match message_lookup auth true (held_by (running s)) c message x (srv s) with
          | Return ok x sv => Some (mkState (returned ok c sv) (<[c := x]> (contexts s)) (running s) (seen s) (raced s))
          | Holds st p x sv =>
              Some (mkState sv (<[c := x]> (contexts s)) (<[c := (st, p)]> (running s)) (seen s) (raced s))
          end
      end
  | Resume c =>
      x ← contexts s !! c;
      '(st, p) ← running s !! c;
      let races := replaces st p (srv s) ∪ raced s in
      match goes_on st c p x (srv s) with
      | Return ok x sv =>
          let rest := delete c (running s) in
          let sv := set_manager (release (held_by rest) (sessionManager_ sv)) sv in
          Some (mkState (returned ok c sv) (<[c := x]> (contexts s)) rest (seen s) races)
      | Holds st p x sv =>
          Some (mkState sv (<[c := x]> (contexts s)) (<[c := (st, p)]> (running s)) (seen s) races)
      end
  | Disconnect c =>
      x ← contexts s !! c;
      match running s !! c with
      | Some _ => None
      | None =>
          let sv := mkServer (sessionManager_ (srv s)) (connected (srv s) ∖ {[c]}) (outputs (srv s)) in
          Some (mkState (cleanup (held_by (running s)) c x sv) (delete c (contexts s)) (running s) (seen s) (raced s))
      end
  end.

Fixpoint run (es : list event) (s : state) : option state :=
  match es with [] => Some s | e :: es => s ← step e s; run es s end.

Definition reachable (s : state) : Prop := exists es, run es empty_state = Some s.

Lemma run_app es es' s : run (es ++ es') s = (s' ← run es s; run es' s').
Proof. revert s. induction es as [|e es IH]; intros s; [done|]. cbn. destruct (step e s); [apply IH|done]. Qed.

Lemma reachable_run es s s' : reachable s -> run es s = Some s' -> reachable s'.
Proof. intros [es0 H0] Hr. exists (es0 ++ es). rewrite run_app, H0. done. Qed.

(** ** The invariant *)

Context (granted : bool -> bytes -> Prop) (Hsound : sound auth granted).

Record ok (s : state) : Prop := {
  o_names : unique_names (seen s);
  o_seen c : is_Some (contexts s !! c) -> c ∈ seen s;
  o_shared : shared_ok (seen s) (held_by (running s)) (sessionManager_ (srv s));
  o_bound c x : contexts s !! c = Some x -> bound_live granted (raced s) (sessionManager_ (srv s)) (connected (srv s)) c x;
  o_running c st p : running s !! c = Some (st, p) -> is_Some (contexts s !! c) /\ passed c st /\
    exists se, heap (sessionManager_ (srv s)) !! p = Some se /\ authorized granted (role_of st) se;
}.

Lemma elem_of_held handlers p : p ∈ held_by handlers <-> exists c st, handlers !! c = Some (st, p).
Proof.
  unfold held_by. rewrite elem_of_map_img. split.
  - intros [c Hc]. apply lookup_fmap_Some in Hc as ([st q] & <- & Hc). eauto.
  - intros (c & st & Hc). exists c. by rewrite lookup_fmap, Hc.
Qed.

Lemma shared_mono sn held held' m : held ⊆ held' -> shared_ok sn held m -> shared_ok sn held' m.
Proof. intros Hsub [T L]. split; [done|]. intros p s Hp. eapply referenced_mono; [done|auto]. Qed.

Lemma evolves_mono R R' c conns held held' m m' :
  R ⊆ R' -> held' ⊆ held -> evolves R c conns held m m' -> evolves R' c conns held' m m'.
Proof.
  intros HR Hsub [H1 H2 H3 H4]. split; [done| |eauto|].
  - intros p s' Hlt Hs'. destruct (H2 p s' Hlt Hs') as (s & Hs & ? & Hp & ?). exists s. split; [done|]. split_and!; [done|intros Hn; apply Hp; set_solver|done].
  - intros k p s Hk Hs Ho. apply (H4 k p s Hk Hs). destruct Ho as [[? ?]|?]; [left; split; [set_solver|done]|by right].
Qed.

Lemma bound_live_mono R R' m conns c x :
  R ⊆ R' -> bound_live granted R m conns c x -> bound_live granted R' m conns c x.
Proof.
  intros HR [Hb Ho]. split; [|done]. intros p Hp. destruct (Hb p Hp) as [Hlt Hl]. split; [done|].
  intros s Hs. destruct (Hl s Hs) as (Ha & H1 & H2). split_and!; [done|intros Hr Hn; apply H1; set_solver|done].
Qed.

Lemma initial_state_ok : ok empty_state.
Proof.
  split; cbn.
  - intros c c' Hc. set_solver.
  - intros c [x Hx]. by rewrite lookup_empty in Hx.
  - split; [split|]; cbn; intros ? ? Hx; by rewrite lookup_empty in Hx.
  - intros c x Hx. by rewrite lookup_empty in Hx.
  - intros c st p Hx. by rewrite lookup_empty in Hx.
Qed.

(** A connection acted; what is left of its handler is in [handlers]. *)
Lemma acted_ok s c x sv handlers h conns races :
  ok s -> c ∈ seen s -> raced s ⊆ races ->
  shared_ok (seen s) (held_by handlers) (sessionManager_ sv) ->
  evolves races c conns h (sessionManager_ (srv s)) (sessionManager_ sv) ->
  connected sv ⊆ conns -> conns ⊆ connected (srv s) ->
  (forall x', x = Some x' -> bound_live granted races (sessionManager_ sv) (connected sv) c x') ->
  (forall st p, handlers !! c = Some (st, p) -> is_Some x /\ passed c st /\
    exists se, heap (sessionManager_ sv) !! p = Some se /\ authorized granted (role_of st) se) ->
  (forall c' st p, c' <> c -> handlers !! c' = Some (st, p) -> running s !! c' = Some (st, p) /\ p ∈ h) ->
  ok (mkState sv (partial_alter (fun _ => x) c (contexts s)) handlers (seen s) races).
Proof.
  intros Hok Hc Hraces Hs Hev Hsub Hconns Hx Hself Hothers.
  assert (forall c' x', c' <> c -> partial_alter (fun _ => x) c (contexts s) !! c' = Some x' ->
    contexts s !! c' = Some x') as Hold by (intros c' x' Hne; by rewrite lookup_partial_alter_ne by done).
  split; cbn; [apply Hok| |done| |].
  - intros c' [x' Hx']. destruct (decide (c' = c)) as [->|Hne]; [done|]. apply Hold in Hx'; [|done].
    eapply o_seen; [done|by eexists].
  - intros c' x' Hx'. destruct (decide (c' = c)) as [->|Hne].
    + rewrite lookup_partial_alter_eq in Hx'. by apply Hx.
    + apply Hold in Hx'; [|done]. apply (bound_live_conns granted _ _ conns); [apply Hsub|].
      eapply bound_live_evolves; [exact Hev|done| |].
      * intros Heq. apply (o_names _ Hok) in Heq; [done| |done]. eapply o_seen; [done|by eexists].
      * eapply bound_live_mono, bound_live_conns, o_bound; [done|apply Hconns|done..].
  - intros c' st p Hp. destruct (decide (c' = c)) as [->|Hne].
    + rewrite lookup_partial_alter_eq. by apply Hself.
    + destruct (Hothers c' st p Hne Hp) as [Hr Hin].
      destruct (o_running _ Hok _ _ _ Hr) as (H2 & H3 & se & Hse & Ha).
      rewrite lookup_partial_alter_ne by done. split; [done|]. split; [done|].
      destruct (e_held _ _ _ _ _ _ Hev p se Hin Hse) as [se' Hse']. exists se'. split; [done|].
      destruct (e_heap _ _ _ _ _ _ Hev p se') as (se0 & H0 & Hkey & _); [|done|].
      { eapply t_fresh; [apply Hok|done]. }
      simplify_eq. by eapply authorized_key.
Qed.

(** An event of [c], as the other connections see it. *)
Record acts c s s' : Prop := {
  act_evolves : exists conns, connected (srv s) ∖ {[c]} ⊆ conns /\
    evolves (raced s') c conns ∅ (sessionManager_ (srv s)) (sessionManager_ (srv s'));
  act_contexts c' : c' <> c -> contexts s' !! c' = contexts s !! c';
  act_connected : connected (srv s) ∖ {[c]} ⊆ connected (srv s');
  act_raced : raced s ⊆ raced s';
}.

Lemma acts_intro c x sv handlers sn conns h s races :
  evolves races c conns h (sessionManager_ (srv s)) (sessionManager_ sv) -> raced s ⊆ races ->
  connected (srv s) ∖ {[c]} ⊆ conns -> connected (srv s) ∖ {[c]} ⊆ connected sv ->
  acts c s (mkState sv (partial_alter (fun _ => x) c (contexts s)) handlers sn races).
Proof.
  intros Hev HR H1 H2. split; cbn; [|by intros; rewrite lookup_partial_alter_ne|done|done].
  exists conns. split; [done|]. eapply evolves_mono, Hev; set_solver.
Qed.

Lemma bound_fresh_live R m conns c : bound_live granted R m conns c (bindHandler initial).
Proof. by split. Qed.

Lemma connect_keeps_ok c s :
  ok s -> set_Forall (fun c' => conn_name c' <> conn_name c) (seen s) ->
  ok (mkState (mkServer (sessionManager_ (srv s)) ({[c]} ∪ connected (srv s)) (outputs (srv s)))
        (<[c := bindHandler initial]> (contexts s)) (running s) ({[c]} ∪ seen s) (raced s)).
Proof.
  intros Hok Hnew. split; cbn.
  - intros c1 c2 [->%elem_of_singleton|H1]%elem_of_union [->%elem_of_singleton|H2]%elem_of_union Heq; [done| | |].
    + by destruct (Hnew c2 H2).
    + by destruct (Hnew c1 H1).
    + by apply (o_names _ Hok).
  - intros c' [x [[<- _]|[_ Hx]]%lookup_insert_Some]; [set_solver|].
    apply elem_of_union_r. eapply o_seen; [done|by eexists].
  - destruct (o_shared _ Hok) as [[T1 T2 T3] L]. split; [split; try done|done].
    intros p se Hp. destruct (T3 p se Hp) as (? & ? & Hpub & Hpl). unfold session_ok. split_and!; [done|done| |].
    + intros c' Hc'. apply elem_of_union_r. by apply Hpub.
    + intros n c' Hc'. apply elem_of_union_r. by eapply Hpl.
  - intros c' x [[<- <-]|[Hne Hx]]%lookup_insert_Some; [apply bound_fresh_live|].
    eapply bound_live_conns, o_bound; [|done|done]. set_solver.
  - intros c' st p Hp. destruct (o_running _ Hok _ _ _ Hp) as ([x Hx] & H3). split; [|done].
    destruct (decide (c' = c)) as [->|Hne]; [by rewrite lookup_insert_eq|]. by rewrite lookup_insert_ne.
Qed.

Lemma returned_manager b c sv : sessionManager_ (returned b c sv) = sessionManager_ sv.
Proof. by destruct b. Qed.

Lemma returned_connected b c sv : connected (returned b c sv) ⊆ connected sv.
Proof. destruct b; cbn; set_solver. Qed.

Lemma returned_others b c sv : connected sv ∖ {[c]} ⊆ connected (returned b c sv).
Proof. destruct b; cbn; set_solver. Qed.

(** One part of a handler of [c], up to its next cut or its end, from [sv0], which
    is the state's; [rest]: the handlers of the others. *)
Lemma part_acts c s o rest races s' :
  ok s -> c ∈ seen s -> raced s ⊆ races -> looked_up granted (seen s) races c (held_by (running s)) (srv s) o ->
  (forall c', c' <> c -> rest !! c' = running s !! c') -> rest !! c = None ->
  match o with
  | Return ok x sv =>
      exists m, (m = sessionManager_ sv /\ rest = running s \/ m = release (held_by rest) (sessionManager_ sv)) /\
      s' = mkState (returned ok c (set_manager m sv)) (<[c := x]> (contexts s)) rest (seen s) races
  | Holds st p x sv =>
      (forall st0 q, running s !! c = Some (st0, q) -> q = p) /\
      s' = mkState sv (<[c := x]> (contexts s)) (<[c := (st, p)]> rest) (seen s) races
  end -> ok s' /\ acts c s s'.
Proof.
  intros Hok Hc HR Hl Hrest Hnone Hs'.
  assert (forall c' st p, c' <> c -> rest !! c' = Some (st, p) -> running s !! c' = Some (st, p)) as Hold
    by (intros c' st p Hne; by rewrite Hrest).
  assert (held_by rest ⊆ held_by (running s)) as Hsub.
  { intros q (c' & st & Hc')%elem_of_held. apply elem_of_held. exists c', st.
    apply Hold; [|done]. intros ->. congruence. }
  destruct o as [b x' sv|st p x' sv].
  - destruct Hl as [H1 H2 H3 H4]. destruct Hs' as (m & Hm & ->).
    assert (shared_ok (seen s) (held_by rest) m /\
      evolves races c (connected (srv s)) (held_by rest) (sessionManager_ (srv s)) m /\
      bound_live granted races m (connected (srv s)) c x') as (Hms & Hmev & Hmb).
    { destruct Hm as [[-> ->]| ->]; [done|].
      destruct (release_shared (seen s) races c (connected (srv s)) (held_by rest) (sessionManager_ sv)) as [Hrs Hre]; [apply H1|].
      split_and!; [done| |].
      - eapply evolves_trans; [apply (o_shared _ Hok)|apply H1|eapply (evolves_mono races races); [done|exact Hsub|exact H2]|done].
      - destruct H3 as [Hb Ho]. split; [|done]. intros q Hq. destruct (Hb q Hq) as [Hlt Hl]. split; [done|].
        intros s0 [Hs0 _]%map_lookup_filter_Some. by apply Hl. }
    assert (connected (returned b c (set_manager m sv)) ⊆ connected (srv s)) as Hcon
      by (rewrite <- H4; apply (returned_connected b c (set_manager m sv))).
    split; [|eapply (acts_intro c (Some x')); rewrite ?returned_manager; [exact Hmev|done|set_solver|rewrite <- H4; apply (returned_others b c (set_manager m sv))]].
    eapply (acted_ok s c (Some x')); rewrite ?returned_manager; try done.
    + intros y [= <-]. eapply bound_live_conns, Hmb. apply Hcon.
    + intros st p Hp. by rewrite Hnone in Hp.
    + intros c' st p Hne Hp. split; [by apply Hold|]. apply elem_of_held. eauto.
  - destruct Hl as ([H1 H2 H3 H4] & Hse). destruct Hs' as [Hsame ->].
    split; [|eapply (acts_intro c (Some x')); [exact H2|done|set_solver|rewrite H4; set_solver]].
    eapply (acted_ok s c (Some x')); try done.
    + eapply shared_mono, H1. intros q (c' & st' & Hc')%elem_of_held. apply elem_of_held.
      destruct (decide (c' = c)) as [->|Hne]; [exists c, st|exists c', st'; by rewrite lookup_insert_ne, Hrest].
      rewrite lookup_insert_eq. by rewrite (Hsame _ _ Hc').
    + by rewrite H4.
    + intros y [= <-]. by rewrite H4.
    + intros st' p'. rewrite lookup_insert_eq. by intros [= <- <-].
    + intros c' st' p' Hne. rewrite lookup_insert_ne by done. intros Hp%Hold; [|done]. split; [done|]. apply elem_of_held. eauto.
Qed.

Lemma message_acts c message s s' : ok s -> step (Message c message) s = Some s' -> ok s' /\ acts c s s'.
Proof.
  intros Hok. cbn. destruct (contexts s !! c) as [x|] eqn:Hx; [|done]. cbn [mbind option_bind].
  destruct (running s !! c) eqn:Hr; [done|]. intros Hs.
  assert (c ∈ seen s) as Hc by (eapply o_seen; [done|by eexists]).
  eapply (part_acts c s (message_lookup auth true (held_by (running s)) c message x (srv s)) (running s) (raced s));
    try done; [eapply message_looked_up; [done|apply Hok|by eapply o_bound]|].
  destruct (message_lookup _ _ _ _ _ _ _) as [b x' sv|st p x' sv]; injection Hs as <-; [|split; [congruence|done]].
  exists (sessionManager_ sv). split; [by left|]. by destruct sv.
Qed.

Lemma replaces_spec c p sv se tested :
  heap (sessionManager_ sv) !! p = Some se -> passed c (ToAssign tested) -> may_publish c se = false ->
  p ∈ replaces (ToAssign tested) p sv.
Proof.
  intros Hp Ht Hm. unfold replaces. rewrite Hp. case_bool_decide as Heq; [|set_solver]. exfalso.
  assert (may_publish c se = true); [|congruence]. apply may_publish_spec. by rewrite Heq.
Qed.

(** What a handler that goes on does. *)
Lemma resume_acts c s s' : ok s -> step (Resume c) s = Some s' -> ok s' /\ acts c s s'.
Proof.
  intros Hok. cbn. destruct (contexts s !! c) as [x|] eqn:Hx; [|done]. cbn [mbind option_bind].
  destruct (running s !! c) as [[st p]|] eqn:Hr; [|done]. cbn [mbind option_bind]. intros Hs.
  assert (c ∈ seen s) as Hc by (eapply o_seen; [done|by eexists]).
  destruct (o_running _ Hok _ _ _ Hr) as (_ & Hps & se & Hse & Ha).
  set (races := replaces st p (srv s) ∪ raced s) in *.
  assert (looked_up granted (seen s) races c (held_by (running s)) (srv s) (goes_on st c p x (srv s))) as Hl.
  { destruct (o_shared _ Hok) as [T L]. eapply goes_on_looked_up; [apply Hok|done|by split|..|done|done|].
    - eapply bound_live_mono, o_bound; [unfold races; set_solver|done|done].
    - intros tested -> Hm. unfold races. pose proof (replaces_spec c p (srv s) se tested Hse Hps Hm). set_solver. }
  eapply (part_acts c s (goes_on st c p x (srv s)) (delete c (running s)) races); try done.
  - unfold races. set_solver.
  - intros c' Hne. by rewrite lookup_delete_ne.
  - by rewrite lookup_delete_eq.
  - destruct (goes_on st c p x (srv s)) as [b x' sv|st' p' x' sv] eqn:E; injection Hs as <-.
    + eexists. split; [by right|done].
    + split; [|by rewrite insert_delete_eq].
      assert (p' = p) as -> by (unfold goes_on in E; destruct st; try done; rewrite Hse in E; by destruct (may_publish c se); simplify_eq).
      intros st0 q Hq. congruence.
Qed.

Lemma disconnect_acts c s s' : ok s -> step (Disconnect c) s = Some s' -> ok s' /\ acts c s s'.
Proof.
  intros Hok. cbn. destruct (contexts s !! c) as [x|] eqn:Hx; [|done]. cbn [mbind option_bind].
  destruct (running s !! c) eqn:Hr; [done|]. intros [= <-].
  set (sv := mkServer _ _ _).
  destruct (cleanup_shared (seen s) (raced s) (held_by (running s)) c x sv (o_shared _ Hok)) as (H1 & H2 & H3).
  split; [|eapply (acts_intro c None); [exact H2|done|cbn; set_solver|rewrite H3; cbn; set_solver]].
  eapply (acted_ok s c None _ _ (held_by (running s))); [done| |done|done|exact H2| | |done| |].
  - eapply o_seen; [done|by eexists].
  - by rewrite H3.
  - cbn. set_solver.
  - intros st p Hp. by rewrite Hr in Hp.
  - intros c' st p Hne Hp. split; [done|]. apply elem_of_held. eauto.
Qed.

Lemma step_acts e s s' : ok s -> step e s = Some s' -> ok s' /\ acts (actor e) s s'.
Proof.
  intros Hok. destruct e as [c|c message|c|c]; [|by apply message_acts|by apply resume_acts|by apply disconnect_acts].
  cbn. case_bool_decide; [|done]. intros [= <-]. split; [by apply connect_keeps_ok|].
  eapply (acts_intro c (Some (bindHandler initial))); [apply (evolves_refl (raced s) c (connected (srv s)) ∅)|done|cbn; set_solver..].
Qed.

Lemma interleaved_run_ok es s s' : ok s -> run es s = Some s' -> ok s'.
Proof.
  revert s. induction es as [|e es IH]; intros s Hok; cbn; [by intros [= <-]|].
  destruct (step e s) as [s1|] eqn:E; cbn; [|done]. apply IH. by eapply step_acts.
Qed.

Lemma interleaved_ok s : reachable s -> ok s.
Proof. intros [es Hes]. by eapply interleaved_run_ok, Hes; apply initial_state_ok. Qed.

(** A connection has its place in the session [p], which the table has for its
    stream. *)
Definition attached_at p s c role : Prop :=
  exists x se, contexts s !! c = Some x /\ role_ x = role /\ session_ x = Some p /\
    heap (sessionManager_ (srv s)) !! p = Some se /\
    sessions_ (sessionManager_ (srv s)) !! RtmpSession.streamKey_ se = Some p /\
    match role with
    | kPublisher => RtmpSession.publisher_ se = Some c
    | kPlayer => RtmpSession.players_ se !! conn_name c = Some c
    | kUnknown => False
    end.

(** Where the connection of a handler that went on is. *)
Lemma resume_place c s s1 st p se :
  ok s -> running s !! c = Some (st, p) -> heap (sessionManager_ (srv s)) !! p = Some se ->
  sessions_ (sessionManager_ (srv s)) !! RtmpSession.streamKey_ se = Some p ->
  step (Resume c) s = Some s1 ->
  match st with
  | ToTest =>
      running s1 !! c = Some (ToAssign (RtmpSession.publisher_ se), p) \/
      running s1 !! c = None /\ contexts s1 !! c = contexts s !! c /\
      exists c', c' <> c /\ RtmpSession.publisher_ se = Some c'
  | ToAssign _ | ToPlay => attached_at p s1 c (role_of st)
  end.
Proof.
  intros Hok Hrun Hse Ht Hstep. cbn in Hstep. rewrite Hrun in Hstep.
  destruct (contexts s !! c) as [x|] eqn:Hx; [|done]. cbn [mbind option_bind] in Hstep.
  assert (c ∈ seen s) as Hc by (eapply o_seen; [done|by eexists]).
  pose proof (goes_on_place (seen s) (o_names _ Hok) c Hc (held_by (running s)) st p se x (srv s) (o_shared _ Hok) Hse) as Hp.
  destruct st.
  - destruct Hp as [[_ E]|[[sv' E] Hother]]; rewrite E in Hstep; injection Hstep as <-; cbn; [left|right].
    + by rewrite lookup_insert_eq.
    + rewrite lookup_delete_eq, lookup_insert_eq. by split_and!.
  - destruct Hp as (x' & sv' & se' & E & H1 & H2 & H3 & H4 & H5 & H6). rewrite E in Hstep. injection Hstep as <-.
    exists x', se'. cbn. rewrite lookup_insert_eq, H3, H5. split_and!; try done.
    apply map_lookup_filter_Some. split; [done|]. left. cbn. by rewrite H5, H3.
  - destruct Hp as (x' & sv' & se' & E & H1 & H2 & H3 & H4 & H5 & H6). rewrite E in Hstep. injection Hstep as <-.
    exists x', se'. cbn. rewrite lookup_insert_eq, H3, H5. split_and!; try done.
    apply map_lookup_filter_Some. split; [done|]. left. cbn. by rewrite H5, H3.
Qed.

Lemma attached_step e s s' c role p :
  ok s -> step e s = Some s' -> actor e <> c -> c ∈ connected (srv s) ->
  (role = kPublisher -> p ∉ raced s') -> attached_at p s c role ->
  attached_at p s' c role /\ c ∈ connected (srv s').
Proof.
  intros Hok Hstep Hne Hcon HR (x & se & Hx & Hrole & Hp & Hse & Ht & Hpl).
  assert (is_Some (step e s)) as Hact by by eexists.
  destruct (step_acts e s s' Hok Hstep) as [Hok' [(conns & Hconns & Hev) Hctx Hcon' _]].
  split; [|set_solver].
  assert (forall c', c' ∈ seen s -> actor e ∈ seen s -> conn_name c' = conn_name (actor e) -> c' = actor e) as Hinj
    by (intros; by apply (o_names _ Hok)).
  assert (c ∈ seen s) as Hc by (eapply o_seen; [done|by eexists]).
  assert (conn_name c <> conn_name (actor e)) as Hname.
  { destruct e as [c0|c0 message|c0|c0]; cbn in *; [case_bool_decide as Hnew; [by apply Hnew|by destruct Hact]|..];
      intros Heq; destruct (contexts s !! c0) eqn:E0; try (by destruct Hact);
      (assert (c0 ∈ seen s) by (eapply o_seen; [done|by eexists])); by apply Hne; rewrite (Hinj c). }
  assert (occupied (raced s') p (actor e) conns se) as Hocc.
  { destruct role; [done|left; split; [by apply HR|]|right]; exists c; [done|]. split_and!; [done|set_solver|done]. }
  pose proof (e_table _ _ _ _ _ _ Hev _ p se Ht Hse Hocc) as Ht'.
  destruct (t_table _ _ (proj1 (o_shared _ Hok')) _ _ Ht') as (se' & Hse' & Hkey).
  destruct (e_heap _ _ _ _ _ _ Hev p se') as (se0 & H0 & _ & Hpub & Hplay); [|done|].
  { eapply t_fresh; [apply (o_shared _ Hok)|done]. }
  simplify_eq. exists x, se'. rewrite Hctx, Hkey by done. split_and!; try done.
  destruct (role_ x); [done|by apply Hpub; auto|by apply Hplay; [|set_solver|]].
Qed.

Lemma run_raced es s s' : ok s -> run es s = Some s' -> raced s ⊆ raced s'.
Proof.
  revert s. induction es as [|e es IH]; intros s Hok; cbn; [by intros [= <-]|].
  destruct (step e s) as [s1|] eqn:E; cbn; [|done]. intros Hrun.
  destruct (step_acts e s s1 Hok E) as [Hok1 Ha]. trans (raced s1); [apply Ha|by apply IH].
Qed.

Lemma attached_run es s s' c role p :
  ok s -> run es s = Some s' -> Forall (fun e => actor e <> c) es -> c ∈ connected (srv s) ->
  (role = kPublisher -> p ∉ raced s') -> attached_at p s c role -> attached_at p s' c role.
Proof.
  intros Hok Hrun Hes. revert s Hok Hrun. induction Hes as [|e es Hne _ IH]; intros s Hok; cbn; [by intros [= <-]|].
  destruct (step e s) as [s1|] eqn:E; cbn; [|done]. intros Hrun Hcon HR Hat.
  destruct (step_acts e s s1 Hok E) as [Hok1 _]. pose proof (run_raced es s1 s' Hok1 Hrun).
  destruct (attached_step e s s1 c role p) as [Hat1 Hcon1]; try done; [set_solver|].
  by eapply IH.
Qed.

End system.

(** C8.  Handlers of different loops interleave where they let go of the mutex and
    within setPublisher, between its test and its assignment; every other method
    of RtmpSession is one step.  However they do: a connection that publishes a
    stream was authorised for it, and two connections whose sessions are there
    publish different streams, with two exceptions: one of the sessions left the
    table and only a handler that was cut still holds it; or both are in one
    session, whose publisher_ changed between the test and the assignment of a
    handler ([raced]). *)
Theorem publishers_exclusive_interleaved (auth : option (bytes -> bytes -> bool -> bool)) (s : state)
    (c c' : conn_ptr) (x x' : t) (p p' : nat) (se se' : RtmpSession.t) :
  reachable auth s ->
  contexts s !! c = Some x -> role_ x = kPublisher -> session_ x = Some p ->
  heap (sessionManager_ (srv s)) !! p = Some se ->
  contexts s !! c' = Some x' -> role_ x' = kPublisher -> session_ x' = Some p' ->
  heap (sessionManager_ (srv s)) !! p' = Some se' ->
  allowed auth true (RtmpSession.streamKey_ se) /\
  (RtmpSession.streamKey_ se = RtmpSession.streamKey_ se' -> c = c' \/
   (exists c'' st q, running s !! c'' = Some (st, q) /\ (q = p \/ q = p') /\
     sessions_ (sessionManager_ (srv s)) !! RtmpSession.streamKey_ se <> Some q) \/
   p = p' /\ p ∈ raced s).
Proof.
  intros Hr Hx Hrole Hp Hse Hx' Hrole' Hp' Hse'.
  pose proof (interleaved_ok auth (allowed auth) (sound_allowed auth) s Hr) as Hok.
  destruct (proj1 (o_bound _ _ Hok _ _ Hx) p Hp) as [_ Hl]. destruct (Hl se Hse) as (Ha & Hpub & _).
  destruct (proj1 (o_bound _ _ Hok _ _ Hx') p' Hp') as [_ Hl']. destruct (Hl' se' Hse') as (_ & Hpub' & _).
  specialize (Hpub Hrole). specialize (Hpub' Hrole'). split; [by rewrite Hrole in Ha|]. intros Hkey.
  destruct (o_shared _ _ Hok) as [_ L].
  destruct (decide (sessions_ (sessionManager_ (srv s)) !! RtmpSession.streamKey_ se = Some p)) as [H1|H1].
  - destruct (decide (p = p')) as [->|Hne].
    + destruct (decide (p' ∈ raced s)) as [|Hn]; [by right; right|left].
      specialize (Hpub Hn). specialize (Hpub' Hn). congruence.
    + right; left. destruct (L p' se' Hse') as [H2|H2]; cbn in H2; [congruence|].
      apply elem_of_held in H2 as (c'' & st & Hc''). exists c'', st, p'. split_and!; [done|auto|congruence].
  - right; left. destruct (L p se Hse) as [H2|H2]; cbn in H2; [congruence|].
    apply elem_of_held in H2 as (c'' & st & Hc''). exists c'', st, p. auto.
Qed.

(** C9.  A handler of publish or play goes on while the table still has its session
    and its connection is up.  A publisher's test lets it pass, or refuses it
    because somebody else publishes; past the test its connection becomes the
    publisher, and a player's a player.  No events of other connections then
    detach a player that stays up, nor a publisher unless the publisher_ of its
    session changed between the test and the assignment of a handler ([raced]). *)
Theorem attachment_survives (auth : option (bytes -> bytes -> bool -> bool)) (s s1 s2 : state) (c : conn_ptr)
    (st : stage) (p : nat) (se : RtmpSession.t) (es : list event) :
  reachable auth s -> running s !! c = Some (st, p) ->
  heap (sessionManager_ (srv s)) !! p = Some se ->
  sessions_ (sessionManager_ (srv s)) !! RtmpSession.streamKey_ se = Some p ->
  step auth (Resume c) s = Some s1 -> c ∈ connected (srv s1) ->
  run auth es s1 = Some s2 -> Forall (fun e => actor e <> c) es ->
  match st with
  | ToTest =>
      running s1 !! c = Some (ToAssign (RtmpSession.publisher_ se), p) \/
      running s1 !! c = None /\ contexts s1 !! c = contexts s !! c /\
      exists c', c' <> c /\ RtmpSession.publisher_ se = Some c'
  | ToAssign _ | ToPlay =>
      attached_at p s1 c (role_of st) /\
      (attached_at p s2 c (role_of st) \/ role_of st = kPublisher /\ p ∈ raced s2)
  end.
Proof.
  intros Hr Hrun Hse Ht Hstep Hcon Hes Hne.
  pose proof (interleaved_ok auth (allowed auth) (sound_allowed auth) s Hr) as Hok.
  destruct (resume_acts auth (allowed auth) (sound_allowed auth) c s s1 Hok Hstep) as [Hok1 _].
  pose proof (resume_place auth (allowed auth) c s s1 st p se Hok Hrun Hse Ht Hstep) as Hplace.
  destruct st; [done|..]; (split; [done|]).
  - destruct (decide (p ∈ raced s2)) as [|Hn]; [by right|left].
    by eapply (attached_run auth (allowed auth) (sound_allowed auth) es s1).
  - left. by eapply (attached_run auth (allowed auth) (sound_allowed auth) es s1).
Qed.

(** ** Samples *)

Definition command_message (sid : Z) (vs : list Amf0Value) : RtmpMessage :=
  let body := encodeAll vs [] in mkMessage 0 (Z.of_nat (length body)) kMessageTypeCommandAmf0 sid 3 body.

Definition client (n : nat) : conn_ptr := mkConn n [chr (48 + Z.of_nat n)].

(** A client that connects and creates its stream. *)
Definition arrives (n : nat) : list event :=
  [Connect (client n);
   Message (client n) (command_message 0
     [String (str "connect"); Number 0; ObjectValue [(str "app", String (str "live"))]]);
   Message (client n) (command_message 0 [String (str "createStream"); Number 0; Null])].

Definition asks (what : String.string) (n : nat) : event :=
  Message (client n) (command_message 1 [String (str what); Number 0; Null; String (str "a")]).

(** Client 2 plays the stream and leaves while 1 is about to publish it and 3 to
    play it; 1 goes on, and 4 publishes the same stream. *)
Definition race : list event :=
  arrives 1 ++ arrives 2 ++ arrives 3 ++ arrives 4 ++
  [asks "play" 2; Resume (client 2); asks "publish" 1; asks "play" 3; Disconnect (client 2);
   Resume (client 1); Resume (client 1); asks "publish" 4; Resume (client 4); Resume (client 4)].

Definition after (es : list event) : state := default empty_state (run None es empty_state).

(** The events all happen. *)
Definition happens (es : list event) : bool := match run None es empty_state with Some _ => true | None => false end.

Lemma happens_run es : happens es = true -> run None es empty_state = Some (after es).
Proof. unfold happens, after. by destruct (run None es empty_state). Qed.

Lemma after_reachable es : happens es = true -> reachable None (after es).
Proof. intros Hes%happens_run. by exists es. Qed.

Lemma after_run es es' :
  happens es = true -> happens (es ++ es') = true -> run None es' (after es) = Some (after (es ++ es')).
Proof. intros H1%happens_run H2%happens_run. by rewrite run_app, H1 in H2. Qed.

(** A publisher's session. *)
Definition published (s : state) (c : conn_ptr) : option (nat * RtmpSession.t) :=
  x ← contexts s !! c; if decide (role_ x = kPublisher) then
    p ← session_ x; se ← heap (sessionManager_ (srv s)) !! p; Some (p, se)
  else None.

Lemma published_some s c p se :
  published s c = Some (p, se) -> exists x, contexts s !! c = Some x /\ role_ x = kPublisher /\
    session_ x = Some p /\ heap (sessionManager_ (srv s)) !! p = Some se.
Proof.
  unfold published. destruct (contexts s !! c) as [x|]; cbn; [|done]. destruct (decide _); [|done].
  destruct (session_ x) as [q|] eqn:Hq; cbn; [|done]. destruct (heap _ !! q) as [se'|] eqn:Hs; cbn; [|done].
  intros [= <- <-]. by exists x.
Qed.

(** Both publish; the session of 1 is held by the handler of 3 only. *)
Lemma publishers_exclusive_interleaved_witness :
  exists se se', published (after race) (client 1) = Some (0, se) /\ published (after race) (client 4) = Some (1, se') /\
    RtmpSession.streamKey_ se = RtmpSession.streamKey_ se' /\
    exists c'' st q, running (after race) !! c'' = Some (st, q) /\ (q = 0 \/ q = 1).
Proof.
  assert (reachable None (after race)) as Hr by (apply after_reachable; vm_compute; reflexivity).
  assert ((fun r => (r.1, RtmpSession.streamKey_ r.2)) <$> published (after race) (client 1) =
            Some (0, str "/live/a")) as H1 by (vm_compute; reflexivity).
  assert ((fun r => (r.1, RtmpSession.streamKey_ r.2)) <$> published (after race) (client 4) =
            Some (1, str "/live/a")) as H4 by (vm_compute; reflexivity).
  destruct (published (after race) (client 1)) as [[p se]|] eqn:E1; [|discriminate H1].
  destruct (published (after race) (client 4)) as [[p' se']|] eqn:E4; [|discriminate H4].
  injection H1 as -> Hk. injection H4 as -> Hk'.
  destruct (published_some _ _ _ _ E1) as (x & Hx & Hrole & Hp & Hse).
  destruct (published_some _ _ _ _ E4) as (x' & Hx' & Hrole' & Hp' & Hse').
  destruct (publishers_exclusive_interleaved None (after race) (client 1) (client 4) x x' 0 1 se se'
    Hr Hx Hrole Hp Hse Hx' Hrole' Hp' Hse') as [_ Hex].
  exists se, se'. split; [reflexivity|]. split; [reflexivity|]. split; [rewrite Hk, Hk'; reflexivity|].
  destruct Hex as [Heq|[(c'' & st & q & Hc'' & Hq & _)|[Heq _]]];
    [rewrite Hk, Hk'; reflexivity|discriminate Heq| |discriminate Heq].
  exists c'', st, q. split; [exact Hc''|exact Hq].
Defined.

(** Two clients are both past the test of setPublisher when they assign: both are
    told that they publish, in one session, which has the second only. *)
Definition two_publishers : list event :=
  arrives 1 ++ arrives 4 ++
  [asks "publish" 1; asks "publish" 4; Resume (client 1); Resume (client 4); Resume (client 1); Resume (client 4)].

Example both_publish :
  let s := after two_publishers in
  happens two_publishers = true /\
  (fst <$> published s (client 1)) = Some 0 /\ (fst <$> published s (client 4)) = Some 0 /\
  (snd <$> published s (client 1)) ≫= RtmpSession.publisher_ = Some (client 4) /\ raced s = {[0]}.
Proof. cbv zeta. split_and!; vm_compute; reflexivity. Qed.

(** When 3 goes on, it is told that it plays, and gets nothing of what 4 then
    publishes; 1 was told that it publishes and is cut off at its next frame. *)
Definition frame : RtmpMessage := mkMessage 0 3 kMessageTypeVideo 1 6 [Byte.x17; Byte.x01; Byte.x00].

Definition told (s s' : state) : list (conn_ptr * output) := drop (length (outputs (srv s))) (outputs (srv s')).

Example player_lost :
  let s := after (race ++ [Resume (client 3)]) in
  let s' := after (race ++ [Resume (client 3); Message (client 4) frame; Message (client 1) frame]) in
  (role_ <$> contexts s !! client 3) = Some kPlayer /\ client 3 ∈ connected (srv s') /\
  (fst <$> told (after race) s) = [client 3] /\ told s s' = [(client 1, Shutdown)].
Proof.
  cbv zeta. split; [vm_compute; reflexivity|]. split; [apply (bool_decide_unpack _); vm_compute; exact I|].
  split; vm_compute; reflexivity.
Qed.

(** Client 2 resumes in time, and stays attached while the others come and go. *)
Definition asked : list event := arrives 2 ++ [asks "play" 2].
Definition joined : list event := asked ++ [Resume (client 2)].
Definition meanwhile : list event := arrives 1 ++ [asks "publish" 1; Resume (client 1); Resume (client 1); Disconnect (client 1)].

Lemma attachment_survives_witness :
  attached_at 0 (after joined) (client 2) kPlayer /\ attached_at 0 (after (joined ++ meanwhile)) (client 2) kPlayer.
Proof.
  assert (happens asked = true) as H0 by (vm_compute; reflexivity).
  assert (happens joined = true) as H1 by (vm_compute; reflexivity).
  assert (happens (joined ++ meanwhile) = true) as H2 by (vm_compute; reflexivity).
  pose proof (after_reachable _ H0) as Hr. pose proof (after_run _ _ H1 H2) as Hs2.
  assert (step None (Resume (client 2)) (after asked) = Some (after joined)) as Hstep.
  { pose proof (after_run _ _ H0 H1) as Hs1. cbn [run] in Hs1.
    destruct (step None (Resume (client 2)) (after asked)); [exact Hs1|discriminate Hs1]. }
  assert (running (after asked) !! client 2 = Some (ToPlay, 0)) as Hrun by (vm_compute; reflexivity).
  assert (RtmpSession.streamKey_ <$> heap (sessionManager_ (srv (after asked))) !! 0 = Some (str "/live/a")) as Hh
    by (vm_compute; reflexivity).
  assert (sessions_ (sessionManager_ (srv (after asked))) !! str "/live/a" = Some 0) as Ht by (vm_compute; reflexivity).
  assert (client 2 ∈ connected (srv (after joined))) as Hcon by (apply (bool_decide_unpack _); vm_compute; exact I).
  assert (Forall (fun e => actor e <> client 2) meanwhile) as Hne by (repeat constructor; discriminate).
  destruct (heap (sessionManager_ (srv (after asked))) !! 0) as [se|] eqn:Hse; [|discriminate Hh].
  injection Hh as Hkey. rewrite <- Hkey in Ht.
  destruct (attachment_survives None _ _ _ (client 2) ToPlay 0 se meanwhile Hr Hrun Hse Ht Hstep Hcon Hs2 Hne)
    as [Hat [Hat2|[Hst _]]]; [split; [exact Hat|exact Hat2]|discriminate Hst].
Defined.

End Concurrent.
