(* ===== verification/TeacherBackend.v ===== *)
(** * src/example/login_server.cc as a whole

    main() runs two servers in one loop: the HTTP server with the routes of the
    backend, and the RTMP server, whose authorisation callback asks the backend
    for tickets.  LoginServer.v has the first and RtmpServerSystem.v the second,
    for a callback that does not change; here they run together, in any order of
    events, and the callback is what the backend answers at that moment. *)

From S2P Require Import Prelude Bytes ByteBuffer StdMap Amf0 HttpContext HttpServer Auth AuthFacts LoginServer LoginServerFacts.
From S2P Require Import RtmpTypes RtmpHandshake RtmpSession RtmpConnectionContext RtmpServer RtmpServerFacts RtmpServerSystem.
Import RtmpSessionManager. Import RtmpConnectionContext.

(** ** One moment *)

(** The lambda given to setAuthCallback, at a time. *)
Definition auth_at (now : Z) (st : LoginServer.backend) (key tk : bytes) (publish : bool) : bool :=
  (LoginServer.authCallback key tk publish now st).1.

Definition checks_at (now : Z) (checks : list (bytes * bytes * bool)) : list LoginServer.event :=
  (fun '(key, tk, publish) => LoginServer.Authorize key tk publish now) <$> checks.

Section backend.
Context (std_hash : bytes -> Z) (token_rng ticket_rng : random) (rtmpPort : Z).

#[local] Abbreviation run := (LoginServer.run std_hash token_rng ticket_rng rtmpPort).
#[local] Abbreviation tickets st := (RtmpTicketManager.tickets_ (LoginServer.rtmpTicketManager st)).

Lemma live_all (now : Z) (table : gmap bytes RtmpTicket) : live now table table.
Proof. by split. Qed.

(** A ticket check answers from the tickets that are good, and drops at most one
    that has expired. *)
Lemma check_live now issued key tk publish st b st' :
  live now issued (tickets st) -> LoginServer.authCallback key tk publish now st = (b, st') ->
  live now issued (tickets st') /\
  b = bool_decide (is_Some (issued !! tk ≫= TicketRuns.good now key (if publish then allowPublish else allowPlay))).
Proof.
  intros Hl. unfold LoginServer.authCallback, RtmpTicketManager.verifyPublish, RtmpTicketManager.verifyPlay.
  destruct publish;
    (destruct (RtmpTicketManager.verify _ _ _ _ _) as [r m] eqn:Ev; intros [= <- <-];
     by apply (TicketRuns.verify_good now issued) in Ev as (-> & ? & _)).
Qed.

Lemma checks_live now issued checks st answers st' :
  live now issued (tickets st) -> run (checks_at now checks) st = Some (answers, st') ->
  live now issued (tickets st').
Proof.
  revert st answers. induction checks as [|[[key tk] publish] checks IH]; intros st answers Hl.
  - by intros [= _ <-].
  - unfold checks_at. rewrite fmap_cons. fold (checks_at now checks). cbn [LoginServer.run LoginServer.exec].
    destruct (LoginServer.authCallback key tk publish now st) as [b st1] eqn:Ec. cbn [mbind option_bind].
    apply (check_live now issued) in Ec as [Hl1 _]; [|done]. fold (checks_at now checks).
    destruct (run (checks_at now checks) st1) as [[rest st2]|] eqn:Er; cbn [mbind option_bind]; [|done].
    intros [= _ <-]. by eapply IH.
Qed.

(** So the callback answers the same questions in the same way as long as the
    clock stands still: within one read it is a function. *)
Lemma auth_at_stable now checks st answers st' :
  run (checks_at now checks) st = Some (answers, st') ->
  forall key tk publish, auth_at now st' key tk publish = auth_at now st key tk publish.
Proof.
  intros Hrun key tk publish.
  assert (live now (tickets st) (tickets st')) as Hl
    by (eapply checks_live; [|exact Hrun]; by apply live_all).
  unfold auth_at.
  destruct (LoginServer.authCallback key tk publish now st) as [b1 st1] eqn:E1.
  destruct (LoginServer.authCallback key tk publish now st') as [b2 st2] eqn:E2.
  apply (check_live now (tickets st)) in E1 as [_ ->]; [|by apply live_all].
  by apply (check_live now (tickets st)) in E2 as [_ ->].
Qed.

(** ** The program *)

Section program.
Context {B : Type} `{ByteBufferLaws B}.

(** What main() keeps: the RTMP server, what the HTTP handlers share with the
    callback, and, as history, the requests and the ticket checks so far. *)
Record program := mkProgram {
  rtmp : world B;
  known : gset conn_ptr;
  http : LoginServer.backend;
  history : list LoginServer.event;
}.

Definition start : program := mkProgram initial_world ∅ (LoginServer.initial std_hash) [].

(** One event of the loop: an HTTP request; a connection to the RTMP server comes
    up, its bytes are read, or it goes down.  While bytes are handled the clock
    says [now], and the checks that the callback made are in the history. *)
Inductive program_step : program -> program -> Prop :=
| do_request clock request close answer st' s :
    LoginServer.exec std_hash token_rng ticket_rng rtmpPort (LoginServer.Http clock request close) (http s) =
      Some (answer, st') ->
    program_step s (mkProgram (rtmp s) (known s) st' (history s ++ [LoginServer.Http clock request close]))
| do_connect c s :
    (forall c', c' ∈ known s -> conn_name c' <> conn_name c) ->
    program_step s (mkProgram (onConnected c (rtmp s)) ({[c]} ∪ known s) (http s) (history s))
| do_read c rd data now checks answers st' w' s :
    is_Some (contexts (rtmp s) !! c) ->
    onBytes (Some (auth_at now (http s))) true rd c data (rtmp s) = Some w' ->
    run (checks_at now checks) (http s) = Some (answers, st') ->
    program_step s (mkProgram w' (known s) st' (history s ++ checks_at now checks))
| do_disconnect c s :
    is_Some (contexts (rtmp s) !! c) ->
    program_step s (mkProgram (onDisconnected c (rtmp s)) (known s) (http s) (history s)).

Inductive program_reachable : program -> Prop :=
| at_start : program_reachable start
| at_step s s' : program_reachable s -> program_step s s' -> program_reachable s'.

(** ** Access needs a login *)

(** A ticket for the stream and the action was granted to a user who had logged
    in. *)
Definition entitled (hist : list LoginServer.event) (publish : bool) (key : bytes) : Prop :=
  exists k, granted std_hash hist k /\ Auth.streamKey k = key /\
    (if publish then allowPublish k else allowPlay k) = true.

Lemma entitled_mono hist more publish key : entitled hist publish key -> entitled (hist ++ more) publish key.
Proof. intros (k & Hk & ?). exists k. split; [by apply granted_mono|done]. Qed.

(** What the callback grants now was granted by the backend before. *)
Lemma auth_at_sound hist now st : backend_ok std_hash hist st -> sound (Some (auth_at now st)) (entitled hist).
Proof.
  intros Hok. assert (forall key tk publish, auth_at now st key tk publish = true -> entitled hist publish key) as Hall.
  { intros key tk publish Ha. unfold auth_at in Ha. rewrite authCallback_spec in Ha. apply bool_decide_eq_true in Ha.
    destruct (tickets st !! tk) as [k|] eqn:E; [|by destruct Ha]. cbn [mbind option_bind] in Ha.
    apply good_some in Ha as (_ & Hkey & Hmay). destruct (ok_tickets _ _ _ Hok _ _ E) as [_ Hg].
    exists k. split_and!; [done|done|]. by destruct publish. }
  split; intros key tk; apply Hall.
Qed.

Lemma world_ok_mono (g g' : bool -> bytes -> Prop) seen (w : world B) :
  (forall publish key, g publish key -> g' publish key) -> world_ok g seen w -> world_ok g' seen w.
Proof.
  intros Hg [[N M S Bd] Hio]. split; [split; try done|done].
  intros c x Hx. destruct (Bd c x Hx) as (H1 & H2 & H3 & H4). split_and!; [done|done| |done].
  intros p Hp. destruct (H3 p Hp) as [Hlt Ha]. split; [done|]. intros s' Hs'. specialize (Ha s' Hs').
  unfold authorized in *. destruct (role_ x); auto.
Qed.

Record program_ok (s : program) : Prop := {
  prog_backend : backend_ok std_hash (history s) (http s);
  prog_world : world_ok (entitled (history s)) (known s) (rtmp s);
}.

Lemma program_step_ok s s' : program_ok s -> program_step s s' -> program_ok s'.
Proof.
  intros [Hb Hw] Hstep. destruct Hstep as [clock request close a st' s He|c s Hn|c rd data now checks ans st' w' s Hc Ho Hr|c s Hc].
  - split; cbn; [by eapply exec_ok|]. eapply world_ok_mono; [|exact Hw]. intros. by apply entitled_mono.
  - split; cbn; [done|]. by apply connect_ok.
  - destruct (bytes_ok (entitled (history s)) _ (auth_at_sound (history s) now (http s) Hb) rd (known s) (rtmp s) c data Hc Hw)
      as (w1 & Hw1 & Hok & _).
    rewrite Ho in Hw1. injection Hw1 as <-. split; cbn; [by eapply run_ok|].
    eapply world_ok_mono; [|exact Hok]. intros. by apply entitled_mono.
  - split; cbn; [done|]. by destruct (disconnect_ok (entitled (history s)) (known s) (rtmp s) c Hc Hw).
Qed.

Lemma program_invariant s : program_reachable s -> program_ok s.
Proof. induction 1; [|by eapply program_step_ok]. split; [apply backend_ok_initial|apply world_ok_initial]. Qed.

End program.
End backend.

(** C6  In the whole program, whatever requests and bytes come in and in
    whatever order: who publishes or plays a live stream does so by a ticket for
    this stream and this action, which the backend issued to somebody who had
    sent the right password of an enabled user in a login request before, in a
    session that had not expired. *)
Theorem stream_access_needs_login {B : Type} `{ByteBufferLaws B} (std_hash : bytes -> Z)
    (token_rng ticket_rng : random) (rtmpPort : Z) (s : program (B := B)) (c : conn_ptr) (x : t) (p : nat)
    (session : RtmpSession.t) :
  program_reachable std_hash token_rng ticket_rng rtmpPort s ->
  contexts (rtmp s) !! c = Some x -> session_ x = Some p ->
  heap (sessionManager_ (srv (rtmp s))) !! p = Some session -> role_ x <> kUnknown ->
  exists k, granted std_hash (history s) k /\ Auth.streamKey k = RtmpSession.streamKey_ session /\
    (if decide (role_ x = kPublisher) then allowPublish k else allowPlay k) = true.
Proof.
  intros Hr Hx Hs Hp Hrole. destruct (program_invariant _ _ _ _ s Hr) as [_ Hw].
  destruct (sv_bound _ _ _ _ (w_server _ _ _ Hw) c x Hx) as (_ & _ & Ha & _).
  apply (proj2 (Ha p Hs)) in Hp. unfold authorized in Hp. by destruct (role_ x).
Qed.

(** The student of the HTTP samples logs in, gets a ticket to publish "screen",
    connects to the RTMP server and publishes with it. *)
Definition sample_checks : list (bytes * bytes * bool) := [(str "/live/screen", candidate counting 0, true)].

Definition publish_with_ticket : bytes :=
  client_command 1 [String (str "publish"); Number 0; Null; String (str "screen?ticket=" ++ candidate counting 0)].

Section sample.

#[local] Abbreviation sample_state := (program (B := bytes)).
#[local] Abbreviation program_reachable := (program_reachable sample_hash counting counting 1935).

(** The events as data, and what they lead to. *)
Inductive input :=
| Request (clock : nat -> Z) (request : HttpRequest.t)
| Connected (c : conn_ptr)
| Read (c : conn_ptr) (data : bytes) (now : Z) (checks : list (bytes * bytes * bool)).

Definition feed (s : sample_state) (i : input) : option sample_state :=
  match i with
  | Request clock request =>
      '(_, st) ← LoginServer.exec sample_hash counting counting 1935 (LoginServer.Http clock request false) (http s);
      Some (mkProgram (rtmp s) (known s) st (history s ++ [LoginServer.Http clock request false]))
  | Connected c =>
      if bool_decide (set_Forall (fun c' => conn_name c' <> conn_name c) (known s))
      then Some (mkProgram (onConnected c (rtmp s)) ({[c]} ∪ known s) (http s) (history s)) else None
  | Read c data now checks =>
      if bool_decide (is_Some (contexts (rtmp s) !! c)) then
        w ← onBytes (Some (auth_at now (http s))) true (fun _ => 0%Z) c data (rtmp s);
        '(_, st) ← LoginServer.run sample_hash counting counting 1935 (checks_at now checks) (http s);
        Some (mkProgram w (known s) st (history s ++ checks_at now checks))
      else None
  end.

Lemma feed_reachable s i s' : program_reachable s -> feed s i = Some s' -> program_reachable s'.
Proof.
  intros Hr Hf. eapply at_step; [exact Hr|]. destruct i as [clock request|c|c data now checks]; cbn [feed] in Hf.
  - destruct (LoginServer.exec _ _ _ _ _ _) as [[a st]|] eqn:E; cbn in Hf; [|done]. injection Hf as <-. by eapply do_request.
  - case_bool_decide as Hn; [|done]. injection Hf as <-. by apply do_connect.
  - case_bool_decide as Hc; [|done].
    destruct (onBytes _ _ _ _ _ _) as [w|] eqn:Ew; cbn in Hf; [|done].
    destruct (LoginServer.run _ _ _ _ _ _) as [[a st]|] eqn:E; cbn in Hf; [|done]. injection Hf as <-. by eapply do_read.
Qed.

Fixpoint feeds (ins : list input) (s : sample_state) : option sample_state :=
  match ins with [] => Some s | i :: ins => s ← feed s i; feeds ins s end.

Lemma feeds_reachable ins s s' : program_reachable s -> feeds ins s = Some s' -> program_reachable s'.
Proof.
  revert s. induction ins as [|i ins IH]; intros s Hr; cbn; [by intros [= <-]|].
  destruct (feed s i) as [s1|] eqn:E; cbn; [|done]. apply IH. by eapply feed_reachable.
Qed.

Definition sample_inputs : list input :=
  match LoginServerFacts.sample_events with
  | [LoginServer.Http t1 r1 _; LoginServer.Http t2 r2 _] =>
      [Request t1 r1; Request t2 r2; Connected alice; Read alice hello 1100 []; Read alice setup 1100 [];
       Read alice publish_with_ticket 1100 sample_checks]
  | _ => []
  end.

Definition sample_program : option sample_state := feeds sample_inputs (start sample_hash).

(** Alice's place in the end. *)
Definition sample_place : option (ConnectionRole * option nat * option bytes) :=
  s ← sample_program; x ← contexts (rtmp s) !! alice;
  Some (role_ x, session_ x, p ← session_ x; RtmpSession.streamKey_ <$> heap (sessionManager_ (srv (rtmp s))) !! p).

Lemma stream_access_needs_login_witness :
  exists s k, program_reachable s /\ granted sample_hash (history s) k /\
    Auth.streamKey k = str "/live/screen" /\ allowPublish k = true.
Proof.
  assert (sample_place = Some (kPublisher, Some 0, Some (str "/live/screen"))) as Hplace by (vm_compute; reflexivity).
  unfold sample_place in Hplace. destruct sample_program as [s|] eqn:Es; cbn [mbind option_bind] in Hplace; [|discriminate Hplace].
  assert (program_reachable s) as Hr by (eapply feeds_reachable; [apply at_start|exact Es]).
  destruct (contexts (rtmp s) !! alice) as [x|] eqn:Hx; cbn [mbind option_bind] in Hplace; [|discriminate Hplace].
  injection Hplace as Hrole Hs Hp. rewrite Hs in Hp. cbn [mbind option_bind] in Hp.
  destruct (heap (sessionManager_ (srv (rtmp s))) !! 0) as [session|] eqn:Hh; [|discriminate Hp].
  injection Hp as Hkey.
  destruct (stream_access_needs_login sample_hash counting counting 1935 s alice x 0 session Hr Hx Hs Hh) as (k & Hg & Hk & Hmay).
  - rewrite Hrole. discriminate.
  - exists s, k. rewrite Hrole in Hmay. split; [exact Hr|]. split; [exact Hg|]. split; [by rewrite Hk|exact Hmay].
Defined.

End sample.
