(* ===== verification/Programs.v ===== *)
(** * The programs: src/example/rtmp_server_test.cc, login_server.cc,
      Httpserver_test.cc, echo_server.cc, test.cpp

    What main() makes of its arguments: which servers run, where they listen and
    in how many loops.  The servers themselves are the models of the other files. *)

From S2P Require Import Prelude Bytes Text ByteBuffer Acceptor TcpConnection TcpServer TcpServerFacts.

Local Open Scope Z_scope.

(** ** Arguments *)

Definition INT_MIN : Z := - 2 ^ 31.

(** [std::atoi]: spaces, a sign, digits; [None] where it is undefined because
    the number is no [int]. *)
Definition atoi (text : bytes) : option Z :=
  let l := ltrim text in
  let '(negative, l) :=
    match l with
    | c :: l' => if decide (c = chr 45) then (true, l') else if decide (c = chr 43) then (false, l') else (false, l)
    | [] => (false, [])
    end in
  let v := (read_digits l 0).1 in
  let v := if negative then - v else v in
  if (INT_MIN <=? v) && (v <=? TcpServer.INT_MAX) then Some v else None.

(** [static_cast<uint16_t>] *)
Definition uint16 (n : Z) : Z := n mod 2 ^ 16.

(** The text is never null: argv[i] with i < argc. *)
Definition ParseOrDefault (text : bytes) (default_value : Z) : option Z :=
  value ← atoi text; Some (if 0 <? value then value else default_value).

(** ** What runs *)

Section programs.
Context (inet_ntop : Z -> bytes) (htonl : Z -> Z).
Context {B U : Type} `{ByteBuffer B}.

(** A server that was constructed, given its threads and started, with the
    address it was told to listen at. *)
Definition launch (port : Z) (name : bytes) (threads : Z) : InetAddress.t * TcpServer.t B U :=
  let addr := InetAddress.of_port htonl port false in
  let server := TcpServer.make (InetAddress.toIpPort inet_ntop addr) name in
  (addr, TcpServer.start false (TcpServer.setThreadNum threads server)).

Inductive outcome :=
| Usage
| Undefined      (** an argument is a number that is no int *)
| Serving (servers : list (InetAddress.t * TcpServer.t B U)).

Definition serving (o : option (list (InetAddress.t * TcpServer.t B U))) : outcome :=
  match o with Some l => Serving l | None => Undefined end.

(** rtmp_server_test; the arguments without the name of the program. *)
Definition rtmp_server_test_main (argv : list bytes) : outcome :=
  if bool_decide (head argv = Some (str "--help")) then Usage
  else serving (
    port ← match argv with text :: _ => ParseOrDefault text 1935 | [] => Some 1935 end;
    threads ← match argv with _ :: text :: _ => ParseOrDefault text 2 | _ => Some 2 end;
    Some [launch (uint16 port) (str "RtmpServer-Test") threads]).

(** login_server: both servers run in the loop of main. *)
Definition login_server_main (argv : list bytes) : outcome :=
  serving (
    port ← match argv with text :: _ => p ← atoi text; Some (uint16 p) | [] => Some 8888 end;
    rtmpPort ← match argv with _ :: text :: _ => p ← atoi text; Some (uint16 p) | _ => Some 1935 end;
    Some [launch port (str "login_server") 0; launch rtmpPort (str "teacher_backend_rtmp") 0]).

Definition Httpserver_test_main (argv : list bytes) : outcome :=
  serving (
    numThreads ← match argv with text :: _ => atoi text | [] => Some 2 end;
    Some [launch 8087 (str "dummy") numThreads]).

Definition echo_server_main : outcome := Serving [launch 8888 (str "EchoServer") 5].

(** test.cpp; the thread pool of the logger apart. *)
Definition test_main : outcome := Serving [launch 8888 (str "EchoServer-Test") 5].

(** ** Lemmas *)

Lemma read_digits_format n : 0 <= n < 2 ^ 64 -> read_digits (format_dec n) 0 = (n, []).
Proof.
  intros Hn. pose proof (from_chars_format n [] Hn I) as Hf. rewrite app_nil_r in Hf. unfold from_chars in Hf.
  destruct (format_dec n) as [|c l]; [done|]. destruct (isdigit c); [|done].
  destruct (read_digits (c :: l) 0) as [v rest]. destruct (v <? 2 ^ 64); [|done]. by injection Hf as <- <-.
Qed.

Lemma isdigit_range c : isdigit c = true -> 48 <= byte.unsigned c <= 57.
Proof. unfold isdigit. by intros [?%Z.leb_le ?%Z.leb_le]%andb_true_iff. Qed.

(** A number in decimal is read back. *)
Lemma atoi_to_string n : 0 <= n <= TcpServer.INT_MAX -> atoi (to_string n) = Some n.
Proof.
  unfold TcpServer.INT_MAX. intros Hn. unfold to_string. destruct (Z.ltb_spec n 0); [lia|].
  pose proof (read_digits_format n ltac:(lia)) as Hr. destruct (format_dec_digits n) as [Hd Hne]; [lia|].
  destruct (format_dec n) as [|c l] eqn:E; [done|]. apply Forall_cons in Hd as [Hc _].
  pose proof (isdigit_range c (Is_true_true_1 _ Hc)) as Hc'. unfold atoi.
  assert (isspace c = false) as Hs.
  { unfold isspace. apply orb_false_iff. split; [apply Z.eqb_neq; lia|]. apply andb_false_iff. right. apply Z.leb_gt. lia. }
  cbn [ltrim]. rewrite Hs.
  rewrite !decide_False by (intros ->; destruct Hc' as [Hlo%Z.leb_le _]; vm_compute in Hlo; discriminate Hlo). rewrite Hr. cbn [fst].
  unfold INT_MIN, TcpServer.INT_MAX. by rewrite (proj2 (Z.leb_le _ _)), (proj2 (Z.leb_le _ _)) by lia.
Qed.

Lemma launch_port port name threads : 0 <= port < 2 ^ 16 -> InetAddress.toPort (launch port name threads).1 = port.
Proof. apply InetAddress.ntohs_htons. Qed.

Context (cbs : TcpConnection.callbacks B U).

Lemma launch_reachable port name threads : TcpServer.reachable cbs (launch port name threads).2.
Proof.
  unfold launch. cbn [snd]. set (server := TcpServer.make _ name).
  apply (TcpServer.reach_step cbs (TcpServer.Start false) (TcpServer.setThreadNum threads server)); [|done|done].
  apply (TcpServer.reach_step cbs (TcpServer.SetThreadNum threads) server); [apply TcpServer.reach_make|done|done].
Qed.

(** The loops of a server that was started: one per thread. *)
Lemma launch_loops port name threads :
  TcpServer.listening (launch port name threads).2 = true /\
  EventLoopThreadPool.loops_ (TcpServer.threadPool_ (launch port name threads).2) = seq 1 (Z.to_nat threads).
Proof.
  split; [done|]. cbn.
  assert (forall k p, EventLoopThreadPool.baseLoop_ p = 0%nat ->
    EventLoopThreadPool.loops_ (foldl EventLoopThreadPool.start_thread p (seq 0 k)) =
      EventLoopThreadPool.loops_ p ++ seq (S (length (EventLoopThreadPool.loops_ p))) k /\
    EventLoopThreadPool.baseLoop_ (foldl EventLoopThreadPool.start_thread p (seq 0 k)) = 0%nat) as Hfold.
  { intros k p Hp. induction k as [|k [IH IHb]]; [cbn; by rewrite app_nil_r|].
    rewrite seq_S, foldl_app. cbn [foldl EventLoopThreadPool.start_thread EventLoopThreadPool.loops_ EventLoopThreadPool.baseLoop_].
    split; [|done]. rewrite IH, IHb, length_app, length_seq, (seq_S k (S _)), <- app_assoc. done. }
  by apply Hfold.
Qed.

Lemma to_string_no_help n : 0 <= n < 10 ^ 20 -> to_string n <> str "--help".
Proof.
  intros Hn E. unfold to_string in E. destruct (Z.ltb_spec n 0); [lia|].
  destruct (format_dec_digits n Hn) as [Hd _]. rewrite E in Hd. by apply Forall_cons in Hd as [Hc _].
Qed.

(** The test program listens at the port it is told, up to multiples of 65536,
    and runs as many I/O loops as it is told. *)
Theorem rtmp_server_test_serves port threads :
  1 <= port <= TcpServer.INT_MAX -> 1 <= threads <= TcpServer.INT_MAX ->
  exists server,
    rtmp_server_test_main [to_string port; to_string threads] = Serving [server] /\
    InetAddress.toPort server.1 = port mod 2 ^ 16 /\ TcpServer.reachable cbs server.2 /\
    TcpServer.listening server.2 = true /\
    EventLoopThreadPool.loops_ (TcpServer.threadPool_ server.2) = seq 1 (Z.to_nat threads).
Proof.
  unfold TcpServer.INT_MAX. intros Hp Ht. exists (launch (uint16 port) (str "RtmpServer-Test") threads). split.
  - unfold rtmp_server_test_main. rewrite bool_decide_eq_false_2.
    2: { cbn. intros [= E]. by apply (to_string_no_help port) in E; [|lia]. }
    unfold ParseOrDefault. rewrite !atoi_to_string by (unfold TcpServer.INT_MAX; lia). cbn [mbind option_bind].
    by rewrite !(proj2 (Z.ltb_lt 0 _)) by lia.
  - split; [apply launch_port; by apply Z.mod_pos_bound|]. split; [apply launch_reachable|apply launch_loops].
Qed.

(** The backend: two servers, each with the loop of main only. *)
Theorem login_server_serves port rtmpPort :
  0 <= port < 2 ^ 16 -> 0 <= rtmpPort < 2 ^ 16 ->
  exists web rtmp,
    login_server_main [to_string port; to_string rtmpPort] = Serving [web; rtmp] /\
    InetAddress.toPort web.1 = port /\ InetAddress.toPort rtmp.1 = rtmpPort /\
    Forall (fun server => TcpServer.reachable cbs server.2 /\ TcpServer.listening server.2 = true /\
                          EventLoopThreadPool.loops_ (TcpServer.threadPool_ server.2) = []) [web; rtmp].
Proof.
  intros Hp Hr. exists (launch port (str "login_server") 0), (launch rtmpPort (str "teacher_backend_rtmp") 0).
  split.
  - unfold login_server_main. rewrite !atoi_to_string by (unfold TcpServer.INT_MAX; lia). cbn [mbind option_bind].
    unfold uint16. by rewrite !Z.mod_small by lia.
  - split; [by apply launch_port|]. split; [by apply launch_port|].
    repeat (apply Forall_cons; split); [..|apply Forall_nil_2]; (split; [apply launch_reachable|apply launch_loops]).
Qed.

End programs.

Example bad_arguments (inet_ntop : Z -> bytes) (htonl : Z -> Z) :
  option_map (fun p => InetAddress.toPort (launch inet_ntop htonl (B := bytes) (U := unit) (uint16 p) [] 1).1)
    (ParseOrDefault (str "67471") 1935) = Some 1935 /\
  ParseOrDefault (str "many") 2 = Some 2 /\ atoi (str "many") = Some 0 /\ uint16 (-1) = 65535.
Proof. by vm_compute. Qed.
