(* ===== verification/RtmpRelay.v ===== *)
(** * From the publisher to the players

    What becomes of the bytes of a publisher: RtmpServer::onMessage reads them in
    whatever pieces they arrive, RtmpConnection::onMessage cuts the chunks into
    messages, RtmpSession relays them, and the players' parsers get them back. *)

From S2P Require Import Prelude Bytes ByteBuffer RtmpTypes ChunkWriter ChunkParser ChunkParserFacts ChunkRoundtrip.
From S2P Require Import RtmpHandshake RtmpSession RtmpConnectionContext RtmpServer RtmpServerFacts RtmpServerSystem.
Import RtmpSessionManager. Import RtmpConnectionContext.

(** ** The parser adds to the messages it is given *)

Section accumulator.
Context {B : Type} `{ByteBuffer B}.

Definition add_front (acc : list RtmpMessage) (r : RtmpChunkParser.status * RtmpChunkParser.t * B * list RtmpMessage) :=
  let '(st, p, buf, ms) := r in (st, p, buf, acc ++ ms).

Lemma take_payload_acc csid offset s p (buf : B) acc :
  RtmpChunkParser.take_payload csid offset s p buf acc = add_front acc (RtmpChunkParser.take_payload csid offset s p buf []).
Proof.
  unfold RtmpChunkParser.take_payload, RtmpChunkParser.reads. cbv zeta. repeat case_match; cbn; by rewrite ?app_nil_r.
Qed.

Lemma parseOneChunk_acc p (buf : B) acc :
  RtmpChunkParser.parseOneChunk p buf acc = add_front acc (RtmpChunkParser.parseOneChunk p buf []).
Proof.
  unfold RtmpChunkParser.parseOneChunk. cbv zeta.
  destruct (RtmpChunkParser.parseBasicHeader _) as [[[fmt csid] bhs]|]; [|cbn; by rewrite app_nil_r]. destruct (bhs =? 0); [cbn; by rewrite app_nil_r|].
  destruct (RtmpChunkParser.parseMessageHeader _ _ _) as [[st s] mhs].
  destruct st; [|cbn; by rewrite app_nil_r..].
  destruct (_ && _); [cbn; by rewrite app_nil_r|]. destruct (negb _); [cbn; by rewrite app_nil_r|].
  apply take_payload_acc.
Qed.

Lemma parse_fuel_acc fuel p (buf : B) acc :
  RtmpChunkParser.parse_fuel fuel p buf acc = add_front acc <$> RtmpChunkParser.parse_fuel fuel p buf [].
Proof.
  revert p buf acc. induction fuel as [|fuel IH]; intros p buf acc; [done|]. cbn [RtmpChunkParser.parse_fuel].
  destruct (0 <? readableBytes buf); [|cbn; by rewrite app_nil_r]. rewrite parseOneChunk_acc.
  destruct (RtmpChunkParser.parseOneChunk p buf []) as [[[st p1] buf1] ms1]. cbn [add_front].
  destruct st; [|done..]. destruct (_ =? _); [done|]. rewrite IH, (IH _ _ ms1).
  destruct (RtmpChunkParser.parse_fuel fuel p1 buf1 []) as [[[[st2 p2] buf2] ms2]|]; cbn; [|done].
  by rewrite app_assoc.
Qed.

Lemma deliveries_acc evs p (buf : B) acc :
  RtmpChunkParser.deliveries evs p buf acc = add_front acc <$> RtmpChunkParser.deliveries evs p buf [].
Proof.
  revert p buf acc. induction evs as [|[data|n] evs IH]; intros p buf acc; cbn [RtmpChunkParser.deliveries].
  - cbn. by rewrite app_nil_r.
  - unfold RtmpChunkParser.parse. rewrite parse_fuel_acc.
    destruct (RtmpChunkParser.parse_fuel _ p _ []) as [[[[st p1] buf1] ms1]|]; cbn; [|done].
    destruct st; [|done..]. rewrite IH, (IH _ _ ms1).
    destruct (RtmpChunkParser.deliveries evs p1 buf1 []) as [[[[st2 p2] buf2] ms2]|]; cbn; [|done].
    by rewrite app_assoc.
  - apply IH.
Qed.

End accumulator.

(** ** The relay *)

Definition is_media (m : RtmpMessage) : bool :=
  (typeId m =? kMessageTypeDataAmf0)%Z || (typeId m =? kMessageTypeAudio)%Z || (typeId m =? kMessageTypeVideo)%Z.

(** The connection [c'] plays session [s]. *)
Definition plays (sv : server) (s : RtmpSession.t) (c' : conn_ptr) : Prop :=
  c' ∈ connected sv /\ RtmpSession.players_ s !! conn_name c' = Some c'.

#[global] Instance plays_dec sv s c' : Decision (plays sv s c').
Proof. unfold plays. apply _. Defined.

(** A context of the publisher of session [s], at address [p]. *)
Record publishes (sv : server) (x : t) (p : nat) (s : RtmpSession.t) : Prop := {
  pub_role : role_ x = kPublisher;
  pub_session : session_ x = Some p;
  pub_heap : heap (sessionManager_ sv) !! p = Some s;
  pub_size : outChunkSize_ x = kDefaultChunkSize;
  pub_players : players_wf s;
}.

Lemma delivered_app c a b : delivered c (a ++ b) = delivered c a ++ delivered c b.
Proof. unfold delivered. by rewrite filter_app, fmap_app, concat_app. Qed.

Section relay.
Context (auth : option (bytes -> bytes -> bool -> bool)).

(** What a handler did: it sent [outs], the sessions have the same players. *)
Record relayed (sv sv' : server) (x' : t) (p : nat) (s : RtmpSession.t) (ms : list RtmpMessage) : Prop := {
  rel_connected : connected sv' = connected sv;
  rel_publishes : exists s', publishes sv' x' p s' /\ forall c', plays sv' s' c' <-> plays sv s c';
  rel_outputs : exists outs, outputs sv' = outputs sv ++ outs /\
    forall c', delivered c' outs = if decide (plays sv s c') then stream kDefaultChunkSize ms else [];
}.

Lemma relayed_nil sv x p s : publishes sv x p s -> relayed sv sv x p s [].
Proof.
  intros Hp. split; [done|by exists s|]. exists []. split; [by rewrite app_nil_r|].
  intros c'. by destruct (decide _).
Qed.

Lemma relayed_trans sv1 sv2 sv3 x2 x3 p s ms1 ms2 :
  relayed sv1 sv2 x2 p s ms1 ->
  (forall s', publishes sv2 x2 p s' -> relayed sv2 sv3 x3 p s' ms2) ->
  relayed sv1 sv3 x3 p s (ms1 ++ ms2).
Proof.
  intros [C1 (s1 & P1 & E1) (o1 & O1 & D1)] H2. destruct (H2 s1 P1) as [C2 (s2 & P2 & E2) (o2 & O2 & D2)].
  split; [congruence|exists s2; split; [done|intros c'; by rewrite E2, E1]|].
  exists (o1 ++ o2). split; [by rewrite O2, O1, app_assoc|]. intros c'. rewrite delivered_app, D1, D2.
  unfold stream. rewrite map_app, concat_app. specialize (E1 c').
  destruct (decide (plays sv1 s c')), (decide (plays sv2 s1 c')); tauto.
Qed.

Lemma publishes_context sv x x' p s :
  publishes sv x p s -> role_ x' = role_ x -> session_ x' = session_ x -> outChunkSize_ x' = outChunkSize_ x ->
  publishes sv x' p s.
Proof. intros [R S H O P] E1 E2 E3. split; [by rewrite E1|by rewrite E2|done|by rewrite E3|done]. Qed.

Lemma relayed_context sv sv' x x' p s ms :
  relayed sv sv' x p s ms -> role_ x' = role_ x -> session_ x' = session_ x -> outChunkSize_ x' = outChunkSize_ x ->
  relayed sv sv' x' p s ms.
Proof.
  intros [C (s' & P & E) O] E1 E2 E3. split; [done| |done]. exists s'. split; [|done]. by eapply publishes_context.
Qed.

(** One media message. *)
Lemma relay_message c m x sv p s :
  publishes sv x p s -> is_media m = true ->
  exists sv', handleMessage auth true c m x sv = (true, x, sv') /\ relayed sv sv' x p s [m].
Proof.
  intros Hpub Hm. pose proof Hpub as [R S H O P]. unfold is_media in Hm.
  assert (handleMessage auth true c m x sv = handleMediaMessage c m x sv) as ->.
  { unfold handleMessage. unfold kMessageTypeDataAmf0, kMessageTypeAudio, kMessageTypeVideo in *.
    unfold kMessageTypeSetChunkSize, kMessageTypeCommandAmf0.
    rewrite (proj2 (Z.eqb_neq (typeId m) 1)), (proj2 (Z.eqb_neq (typeId m) 20)) by
      (apply orb_true_iff in Hm as [[?%Z.eqb_eq|?%Z.eqb_eq]%orb_true_iff|?%Z.eqb_eq]; lia).
    cbn [andb]. by rewrite Hm. }
  unfold handleMediaMessage. rewrite R, bool_decide_eq_true_2 by done. cbn [negb].
  unfold lock. rewrite S. cbn [mbind option_bind]. rewrite decide_True by (by rewrite H). rewrite H, O.
  unfold RtmpSession.onMediaMessage. set (s1 := RtmpSession.cacheMediaMessage m s).
  assert (RtmpSession.players_ s1 = RtmpSession.players_ s) as Hpl by apply RtmpSession.cacheMediaMessage_players.
  assert (players_wf s1) as Hwf1 by (intros n c'; rewrite Hpl; apply P).
  pose proof (broadcast_spec (connected sv) m kDefaultChunkSize s1 Hwf1) as Hb.
  destruct (RtmpSession.broadcastMessage _ _ _ _) as [s' sends]. destruct Hb as (Hrec & Hpl' & Hwf' & _ & _).
  eexists. split; [done|]. split; [done| |].
  - exists s'. split.
    + split; [done|done| |done|done]. cbn. by rewrite lookup_alter_eq, H.
    + intros c'. unfold plays. cbn. rewrite Hpl', Hpl. tauto.
  - exists ((fun '(c, d) => (c, Send d)) <$> sends). split; [done|]. intros c'. unfold stream. cbn [map concat].
    rewrite app_nil_r. specialize (Hrec c'). rewrite Hpl in Hrec.
    assert (delivered c' ((fun '(c, d) => (c, Send d)) <$> sends) = received c' sends) as ->
      by (unfold delivered, received; by rewrite (received_fmap c' sends)).
    rewrite Hrec. destruct (decide _) as [?|Hn], (decide (plays sv s c')) as [?|Hn']; done.
Qed.

Lemma relay_messages c ms x sv p s :
  publishes sv x p s -> Forall is_media ms ->
  exists sv', handleMessages auth true c ms x sv = (true, x, sv') /\ relayed sv sv' x p s ms.
Proof.
  intros Hpub Hms. revert sv s Hpub. induction Hms as [|m ms Hm _ IH]; intros sv s Hpub; cbn [handleMessages].
  - exists sv. split; [done|by apply relayed_nil].
  - destruct (relay_message c m x sv p s Hpub (Is_true_true_1 _ Hm)) as (sv1 & -> & H1). cbn [negb].
    pose proof H1 as [_ (s1 & P1 & _) _]. destruct (IH sv1 s1 P1) as (sv2 & E2 & _). exists sv2. split; [done|].
    change (m :: ms) with ([m] ++ ms). apply (relayed_trans sv sv1 sv2 x); [done|].
    intros s' Hs'. destruct (IH sv1 s' Hs') as (sv2' & E2' & H2). rewrite E2 in E2'. by injection E2' as <-.
Qed.

(** ** Reading *)

Section reading.
Context {B : Type} `{ByteBufferLaws B} (rd : nat -> Z).

(** The message callback runs for each piece that arrives. *)
Fixpoint reads (c : conn_ptr) (segments : list bytes) (w : world B) : option (world B) :=
  match segments with
  | [] => Some w
  | data :: segments => w ← onBytes auth true rd c data w; reads c segments w
  end.

(** The publisher [c] is past the handshake and has sent nothing that is not
    handled but what [buf] holds. *)
Record receiving (w : world B) (c : conn_ptr) (x : t) (buf : B) : Prop := {
  rc_context : contexts w !! c = Some x;
  rc_buffer : buffers w !! c = Some buf;
  rc_handler : handler_ x = true;
  rc_done : RtmpHandshake.isDone (handshake_ x) = true;
}.

Lemma parse_empty p (buf : B) : readableBytes buf = 0 -> RtmpChunkParser.parse p buf [] = Some (RtmpChunkParser.Done, p, buf, []).
Proof. intros Hz. unfold RtmpChunkParser.parse. rewrite Hz. cbn [RtmpChunkParser.parse_fuel]. by rewrite Hz. Qed.

Lemma relay_read c w x buf p s data p1 buf1 ms :
  receiving w c x buf -> publishes (srv w) x p s -> Forall is_media ms ->
  RtmpChunkParser.parse (chunkParser_ x) (append data buf) [] = Some (RtmpChunkParser.Done, p1, buf1, ms) ->
  exists w' x', onBytes auth true rd c data w = Some w' /\ receiving w' c x' buf1 /\ chunkParser_ x' = p1 /\
    relayed (srv w) (srv w') x' p s ms.
Proof.
  intros [Hx Hb Hh Hd] Hpub Hms Hparse. unfold onBytes, RtmpServer_onMessage. rewrite Hx, Hb.
  change (default buf_new (Some buf)) with buf.
  rewrite Hh. cbn [negb]. unfold onMessage. set (x1 := addReceivedBytes _ x).
  change (handshake_ x1) with (handshake_ x). rewrite Hd. cbn [negb]. unfold onMessage_chunks.
  change (chunkParser_ x1) with (chunkParser_ x).
  destruct (Nat.eqb_spec (readableBytes (append data buf)) 0) as [Hz|_].
  - rewrite parse_empty in Hparse by done. injection Hparse as <- <- <-. cbn [mbind option_bind negb].
    eexists _, x1. split; [done|]. split.
    { split; cbn; [apply lookup_insert_eq|apply lookup_insert_eq|done|done]. }
    split; [done|]. cbn. apply relayed_context with x; [by apply relayed_nil|done..].
  - rewrite Hparse. cbn [mbind option_bind].
    assert (publishes (srv w) (setChunkParser p1 x1) p s) as Hpub1 by (by eapply publishes_context).
    destruct (relay_messages c ms (setChunkParser p1 x1) (srv w) p s Hpub1 Hms) as (sv' & -> & Hrel). cbn [mbind option_bind negb].
    eexists _, (setChunkParser p1 x1). split; [done|]. split.
    { split; cbn; [apply lookup_insert_eq|apply lookup_insert_eq|done|done]. }
    by split.
Qed.

Lemma relay_reads c segments w x buf p s p1 buf1 ms :
  receiving w c x buf -> publishes (srv w) x p s -> Forall is_media ms ->
  RtmpChunkParser.deliveries (map RtmpChunkParser.Deliver segments) (chunkParser_ x) buf [] =
    Some (RtmpChunkParser.Done, p1, buf1, ms) ->
  exists w' x', reads c segments w = Some w' /\ receiving w' c x' buf1 /\ chunkParser_ x' = p1 /\
    relayed (srv w) (srv w') x' p s ms.
Proof.
  revert w x buf s ms. induction segments as [|data segments IH]; intros w x buf s ms Hr Hp Hms Hd;
    cbn [reads map RtmpChunkParser.deliveries] in *.
  - injection Hd as <- <- <-. exists w, x. split_and!; [done|done|done|by apply relayed_nil].
  - destruct (RtmpChunkParser.parse (chunkParser_ x) (append data buf) []) as [[[[st p2] buf2] ms2]|] eqn:Hparse; [|done].
    cbn in Hd. destruct st; [|done..]. rewrite deliveries_acc in Hd.
    destruct (RtmpChunkParser.deliveries _ p2 buf2 []) as [[[[st3 p3] buf3] ms3]|] eqn:Hrest; [|done].
    cbn in Hd. injection Hd as -> -> -> <-. apply Forall_app in Hms as [Hms2 Hms3].
    destruct (relay_read c w x buf p s data p2 buf2 ms2 Hr Hp Hms2 Hparse) as (w2 & x2 & -> & Hr2 & <- & Hrel2).
    cbn [mbind option_bind]. pose proof Hrel2 as [_ (s2 & P2 & _) _].
    destruct (IH w2 x2 buf2 s2 ms3 Hr2 P2 Hms3 Hrest) as (w3 & x3 & E3 & Hr3 & Hp3 & _).
    exists w3, x3. split_and!; [done..|]. apply (relayed_trans (srv w) (srv w2) (srv w3) x2); [done|].
    intros s' P'. destruct (IH w2 x2 buf2 s' ms3 Hr2 P' Hms3 Hrest) as (w3' & x3' & E3' & Hr3' & _ & Hrel3).
    rewrite E3 in E3'. injection E3' as <-. destruct Hr3 as [Hx3 _ _ _], Hr3' as [Hx3' _ _ _].
    rewrite Hx3 in Hx3'. by injection Hx3' as <-.
Qed.

End reading.
End relay.

(** ** From end to end *)

(** C1  What the publisher of a stream writes reaches every player of it.  Media
    messages of which each whose timestamp needs the extended field (0xFFFFFF ms
    and later) comes in one chunk ([writer_ok]: the writer's stream is not readable
    otherwise, see [extended_multichunk_lost]), written by RtmpChunkWriter with the
    chunk size the server expects and cut into reads in any way, are relayed to the
    last one: each player that is connected is sent exactly these messages, nobody
    else anything.  If they fulfil this condition with the chunk size of the
    player too, a player that parses what it was sent, cut in any way again, gets
    the very messages of the publisher, in order. *)
Theorem relay_end_to_end {B : Type} `{ByteBufferLaws B}
    (auth : option (bytes -> bytes -> bool -> bool)) (rd : nat -> Z) (w : world B) (seen : gset conn_ptr)
    (c : conn_ptr) (x : t) (buf : B) (size : Z) (ms : list RtmpMessage) (segments : list bytes) :
  reachable auth w seen -> receiving w c x buf -> role_ x = kPublisher ->
  peek buf = [] -> RtmpChunkParser.inChunkSize_ (chunkParser_ x) = size -> (0 < size)%Z ->
  Forall is_media ms -> Forall (writer_ok size) ms -> concat segments = stream size ms ->
  exists w' outs p s,
    reads auth rd c segments w = Some w' /\ outputs (srv w') = outputs (srv w) ++ outs /\
    session_ x = Some p /\ heap (sessionManager_ (srv w)) !! p = Some s /\
    (forall c', delivered c' outs = if decide (plays (srv w) s c') then stream kDefaultChunkSize ms else []) /\
    (forall c' pieces parser, plays (srv w) s c' -> Forall (writer_ok kDefaultChunkSize) ms ->
       RtmpChunkParser.inChunkSize_ parser = kDefaultChunkSize -> concat pieces = delivered c' outs ->
       exists parser' buf', RtmpChunkParser.deliveries (map RtmpChunkParser.Deliver pieces) parser ([] : bytes) [] =
         Some (RtmpChunkParser.Done, parser', buf', ms)).
Proof.
  intros Hr Hrc Hrole Hbuf Hin Hsize Hmedia Hms Hseg. apply reachable_ok in Hr as [Hsv Hio].
  pose proof Hrc as [Hx Hb _ _]. destruct (Hio c x Hx) as (buf0 & Hb0 & _ & Hwf & _). rewrite Hb in Hb0. injection Hb0 as <-.
  destruct (sv_bound _ _ _ _ Hsv c x Hx) as (Hpub & _ & _ & Hout). destruct (Hpub Hrole) as (p & s & Hs & Hp & _).
  pose proof (heap_sessions _ _ (sv_manager _ _ _ _ Hsv) _ _ Hp) as (_ & Hplayers & _).
  destruct (deliver_stream size ms segments (chunkParser_ x) buf) as (p1 & buf1 & Hd & _); [done..|].
  destruct (relay_reads auth rd c segments w x buf p s p1 buf1 ms) as (w' & x' & Hreads & _ & _ & [_ _ (outs & Ho & Hdel)]);
    [done|by split|done|done|].
  exists w', outs, p, s. split_and!; [done..|].
  intros c' pieces parser Hc' Hok Hpar Hcut. rewrite Hdel, decide_True in Hcut by done.
  destruct (deliver_stream kDefaultChunkSize ms pieces parser ([] : bytes)) as (parser' & buf' & E & _); [done..|].
  by exists parser', buf'.
Qed.

(** Alice publishes and Bob plays; two frames in three reads. *)
Definition sample_frames : list RtmpMessage := [sample_media; sample_media].

Definition sample_reads : list bytes :=
  let s := stream 128 sample_frames in [take 5 s; take 20 (drop 5 s); drop 25 s].

Definition plays_bound (sv : server) (x : t) (c' : conn_ptr) : bool :=
  match session_ x with
  | Some p => match heap (sessionManager_ sv) !! p with
              | Some s => bool_decide (plays sv s c')
              | None => false
              end
  | None => false
  end.

Lemma plays_bound_spec sv x p s c' :
  plays_bound sv x c' = true -> session_ x = Some p -> heap (sessionManager_ sv) !! p = Some s -> plays sv s c'.
Proof. unfold plays_bound. intros Hb Hs Hp. rewrite Hs, Hp in Hb. by apply bool_decide_eq_true in Hb. Qed.

Lemma relay_end_to_end_witness :
  exists w' outs, reads None (fun _ => 0%Z) alice sample_reads sample.1 = Some w' /\
    outputs (srv w') = outputs (srv sample.1) ++ outs /\ delivered bob outs = stream 128 sample_frames.
Proof.
  assert (writer_ok 128 sample_media) as Hm by (split; [unfold msg_wf; cbn; unfold kMessageTypeVideo; lia|by left]).
  assert (Forall is_media sample_frames) as Hmedia by (repeat (apply Forall_cons; split); done).
  assert (Forall (writer_ok 128) sample_frames) as Hok by (repeat (apply Forall_cons; split); done).
  assert (plays_bound (srv sample.1) (context_of alice) bob = true) as Hbob by (vm_compute; reflexivity).
  destruct (relay_end_to_end (B := bytes) None (fun _ => 0%Z) sample.1 sample.2 alice (context_of alice) [] 128
              sample_frames sample_reads sample_reachable) as (w' & outs & p & s & Hr & Ho & Hs & Hp & Hd & _);
    [split; vm_compute; reflexivity|vm_compute; reflexivity|done|vm_compute; reflexivity|lia|done|done|vm_compute; reflexivity|].
  exists w', outs. split; [exact Hr|]. split; [exact Ho|].
  pose proof (plays_bound_spec _ _ _ _ _ Hbob Hs Hp) as Hplays. specialize (Hd bob).
  destruct (decide (plays (srv sample.1) s bob)) as [_|Hno]; [exact Hd|destruct (Hno Hplays)].
Defined.
