(* ===== verification/RtmpTyping.v ===== *)
(** * The types of the RTMP server's state

    The model keeps the fields of src/rtmp/ that have a fixed width as plain
    integers.  Here is the typing that C++ gives them, and what it means for the
    protocol: in every reachable state each field is within the range of its
    type, every cached message fits the chunk format, and what a connection was
    sent is the answer to its handshake and then whole chunked messages. *)

From S2P Require Import Prelude Bytes ByteBuffer StdMap Amf0 RtmpTypes ChunkWriter ChunkParser.
From S2P Require Import ChunkParserFacts ChunkRoundtrip RtmpHandshake RtmpCommand RtmpSession.
From S2P Require Import RtmpConnectionContext RtmpServer RtmpServerFacts RtmpServerSystem.
Import RtmpSessionManager. Import RtmpConnectionContext.

Definition uint32 (v : Z) : Prop := (0 <= v < 2 ^ 32)%Z.
Definition uint64 (v : Z) : Prop := (0 <= v < 2 ^ 64)%Z.

(** The integer fields of a context; [objectEncoding_] is the pattern of a
    [double].  The two copies of the incoming chunk size agree; the outgoing one
    is never changed. *)
Record context_typed (x : t) : Prop := {
  ty_inChunkSize : uint32 (inChunkSize_ x);
  ty_outChunkSize : outChunkSize_ x = kDefaultChunkSize;
  ty_acknowledgementWindow : uint32 (acknowledgementWindow_ x);
  ty_peerBandwidth : uint32 (peerBandwidth_ x);
  ty_receivedBytes : uint64 (receivedBytes_ x);
  ty_objectEncoding : uint64 (objectEncoding_ x);
  ty_streamId : uint32 (streamId_ x);
  ty_nextStreamId : uint32 (nextStreamId_ x);
  ty_parser : RtmpChunkParser.inChunkSize_ (chunkParser_ x) = inChunkSize_ x;
}.

(** The messages a session keeps can be sent, and each is of its kind. *)
Record cache_typed (s : RtmpSession.t) : Prop := {
  ty_cached : Forall msg_wf (RtmpSession.cachedMessages s);
  ty_metadata m : RtmpSession.metadata_ s = Some m -> typeId m = kMessageTypeDataAmf0;
  ty_audio m : RtmpSession.audioSequenceHeader_ s = Some m -> RtmpSession.IsAacSequenceHeader m = true;
  ty_video m : RtmpSession.videoSequenceHeader_ s = Some m -> RtmpSession.IsAvcSequenceHeader m = true;
  ty_gop : Forall RtmpSession.is_frame (RtmpSession.gopCache_ s);
}.

(** Bytes that are one message in chunks of the default size. *)
Definition is_message (data : bytes) : Prop :=
  exists m, msg_wf m /\ data = RtmpChunkWriter.EncodeMessage m kDefaultChunkSize.

(** What the outputs send to a connection, call by call. *)
Definition sent_to (c : conn_ptr) (outs : list (conn_ptr * output)) : list bytes :=
  omap (fun o => if decide (o.1 = c) then match o.2 with Send d => Some d | Shutdown => None end else None) outs.

(** The answer to C0 and C1: 3073 bytes that start with the version. *)
Definition is_hello (data : bytes) : Prop :=
  length data = 1 + RtmpHandshake.kHandshakePacketSize + RtmpHandshake.kHandshakePacketSize /\ at8 data 0 = kVersion.

(** What a connection in handshake state [h] has been sent. *)
Definition greeted (h : HandshakeState) (sent : list bytes) : Prop :=
  match h with
  | kWaitC0C1 => sent = []
  | kSendS0S1S2 => False
  | kWaitC2 => exists hello, is_hello hello /\ sent = [hello]
  | kHandshakeDone => exists hello blocks, is_hello hello /\ Forall is_message blocks /\ sent = hello :: blocks
  end.

(** ** Messages that the server makes *)

Lemma control_replies_msg_wf v :
  msg_wf (windowAcknowledgementSize_message v) /\ msg_wf (setPeerBandwidth_message v) /\
  msg_wf (setChunkSize_message v).
Proof. destruct (control_replies_wf v) as ([? _] & [? _] & [? _]). done. Qed.

Lemma onStatus_msg_wf sid code description error :
  uint32 sid -> length code < 1000 -> length description < 1000 ->
  msg_wf (onStatus_message sid code description error).
Proof. intros. apply onStatus_wf; [done|unfold max_string; lia..]. Qed.

(** A command's object, when it was decoded, holds well-formed values. *)
Lemma decoded_object message command :
  DecodeCommandMessageAmf0 message = Ok command -> amf_wf (commandObject command).
Proof.
  unfold DecodeCommandMessageAmf0. destruct (negb _); [done|].
  destruct (decodeAll (payload message)) as [vs|e|] eqn:E; cbn [result_bind]; [|done..].
  apply amf0_decode_total in E. destruct vs as [|v0 [|v1 rest]]; [done..|].
  destruct (_ || _); [done|]. intros [= <-]. cbn [commandObject].
  destruct rest as [|v2 rest]; [done|]. by apply Forall_cons in E as [_ [_ [? _]%Forall_cons]%Forall_cons].
Qed.

Lemma find_all_entries (P : bytes -> Amf0Value -> Prop) k v (o : Object) :
  all_entries P o -> StdMap.find k o = Some v -> exists k', P k' v.
Proof.
  induction o as [|[k' v'] o IH]; cbn; [done|]. intros [H1 H2].
  destruct (decide (k = k')); [intros [= <-]; by exists k'|by apply IH].
Qed.

Lemma object_number k d v :
  amf_wf v -> isObjectLike v = true -> StdMap.find k (objectValue v) = Some (Number d) -> uint64 d.
Proof.
  intros Hv Ho Hf. destruct v as [| | |o|o|]; try done;
    destruct Hv as [_ Hv]; apply (find_all_entries _ _ _ _ Hv) in Hf as (? & _ & Hd); exact Hd.
Qed.

(** ** The cache *)

Lemma cache_typed_make key : cache_typed (RtmpSession.make key).
Proof. split; cbn; try done; apply Forall_nil_2. Qed.

(** Only the cache matters. *)
Lemma cache_typed_ext s s' : RtmpSession.cache_of s' = RtmpSession.cache_of s -> cache_typed s -> cache_typed s'.
Proof.
  intros E []. injection E as E1 E2 E3 E4.
  split; unfold RtmpSession.cachedMessages; by rewrite ?E1, ?E2, ?E3, ?E4.
Qed.

Lemma cachedMessages_wf s :
  Forall msg_wf (RtmpSession.cachedMessages s) <->
  (forall m, RtmpSession.metadata_ s = Some m -> msg_wf m) /\
  (forall m, RtmpSession.audioSequenceHeader_ s = Some m -> msg_wf m) /\
  (forall m, RtmpSession.videoSequenceHeader_ s = Some m -> msg_wf m) /\
  Forall msg_wf (RtmpSession.gopCache_ s).
Proof.
  assert (forall o : option RtmpMessage, Forall msg_wf (option_list o) <-> forall m, o = Some m -> msg_wf m) as Ho.
  { intros [m|]; cbn; rewrite ?Forall_singleton; naive_solver. }
  unfold RtmpSession.cachedMessages. by rewrite !Forall_app, !Ho.
Qed.

Lemma cache_typed_media m s : msg_wf m -> cache_typed s -> cache_typed (RtmpSession.cacheMediaMessage m s).
Proof.
  intros Hm [H1 H2 H3 H4 H5]. apply cachedMessages_wf in H1 as (W1 & W2 & W3 & W4).
  unfold RtmpSession.cacheMediaMessage.
  destruct (typeId m =? kMessageTypeDataAmf0)%Z eqn:E1.
  { split; [apply cachedMessages_wf|..]; cbn; try done; [by split_and!; [intros ? [= <-]|..]|].
    intros ? [= <-]. by apply Z.eqb_eq. }
  destruct (RtmpSession.IsAacSequenceHeader m) eqn:E2.
  { split; [apply cachedMessages_wf|..]; cbn; try done; [by split_and!; [|intros ? [= <-]|..]|].
    by intros ? [= <-]. }
  destruct (RtmpSession.IsAvcSequenceHeader m) eqn:E3.
  { split; [apply cachedMessages_wf|..]; cbn; try done; [by split_and!; [..|intros ? [= <-]|]|].
    by intros ? [= <-]. }
  set (s1 := if _ && _ then _ else s).
  assert (cache_typed s1) as Hs1.
  { unfold s1. destruct (_ && _); [|by split; [apply cachedMessages_wf|..]].
    split; [apply cachedMessages_wf|..]; cbn; try done; apply Forall_nil_2. }
  clearbody s1. destruct (negb _); [done|]. destruct (_ || _) eqn:E4; [|done].
  destruct Hs1 as [G1 G2 G3 G4 G5]. apply cachedMessages_wf in G1 as (V1 & V2 & V3 & V4).
  split; [apply cachedMessages_wf|..]; cbn; try done.
  - split_and!; [done..|]. apply Forall_app. split; [done|by apply Forall_singleton].
  - apply Forall_app. split; [done|]. apply Forall_singleton. unfold RtmpSession.is_frame.
    by rewrite E4, E2, E3.
Qed.

(** The parser leaves its chunk size alone. *)
Section chunk_size.
Context {B : Type} `{ByteBuffer B}.

Lemma take_payload_size csid offset s p (buf : B) ms :
  RtmpChunkParser.inChunkSize_ (RtmpChunkParser.take_payload csid offset s p buf ms).1.1.2 = RtmpChunkParser.inChunkSize_ p.
Proof. unfold RtmpChunkParser.take_payload, RtmpChunkParser.reads. by repeat case_match. Qed.

Lemma parseOneChunk_size p (buf : B) ms :
  RtmpChunkParser.inChunkSize_ (RtmpChunkParser.parseOneChunk p buf ms).1.1.2 = RtmpChunkParser.inChunkSize_ p.
Proof.
  unfold RtmpChunkParser.parseOneChunk. destruct (RtmpChunkParser.parseBasicHeader _) as [[[fmt csid] n]|]; [|done].
  destruct (n =? 0); [done|]. destruct (RtmpChunkParser.parseMessageHeader _ _ _) as [[st s] k].
  destruct st; [|done..]. destruct (_ && _); [done|]. destruct (negb _); [done|]. apply take_payload_size.
Qed.

Lemma parse_fuel_size fuel p (buf : B) ms st p' buf' ms' :
  RtmpChunkParser.parse_fuel fuel p buf ms = Some (st, p', buf', ms') ->
  RtmpChunkParser.inChunkSize_ p' = RtmpChunkParser.inChunkSize_ p.
Proof.
  revert p buf ms. induction fuel as [|fuel IH]; intros p buf ms; cbn [RtmpChunkParser.parse_fuel]; [done|].
  destruct (0 <? _); [|by intros [= <- <- <- <-]]. pose proof (parseOneChunk_size p buf ms) as E.
  destruct (RtmpChunkParser.parseOneChunk p buf ms) as [[[st1 p1] buf1] ms1]. cbn in E.
  destruct st1; [|by intros [= <- <- <- <-]..]. destruct (_ =? _); [by intros [= <- <- <- <-]|].
  intros Hr. apply IH in Hr. congruence.
Qed.

Lemma parse_inChunkSize p (buf : B) ms st p' buf' ms' :
  RtmpChunkParser.parse p buf ms = Some (st, p', buf', ms') ->
  RtmpChunkParser.inChunkSize_ p' = RtmpChunkParser.inChunkSize_ p.
Proof. apply parse_fuel_size. Qed.

End chunk_size.

Section handlers.
(** [G] are the connections that messages may be sent to. *)
Context (G : conn_ptr -> Prop).

Definition session_typed (s : RtmpSession.t) : Prop :=
  cache_typed s /\ forall n c, RtmpSession.players_ s !! n = Some c -> G c.

Definition sessions_typed (m : RtmpSessionManager.t) : Prop := map_Forall (fun _ s => session_typed s) (heap m).

Definition message_to (o : conn_ptr * output) : Prop :=
  G o.1 /\ match o.2 with Send data => is_message data | Shutdown => False end.

(** What a handler leaves behind. *)
Record typed_after (sv : server) (x' : t) (sv' : server) : Prop := {
  ta_context : context_typed x';
  ta_sessions : sessions_typed (sessionManager_ sv');
  ta_outputs : exists outs, outputs sv' = outputs sv ++ outs /\ Forall message_to outs;
}.

Lemma ta_refl sv x : context_typed x -> sessions_typed (sessionManager_ sv) -> typed_after sv x sv.
Proof. intros. split; [done..|]. exists []. by rewrite app_nil_r. Qed.

Lemma ta_trans sv1 x2 sv2 x3 sv3 : typed_after sv1 x2 sv2 -> typed_after sv2 x3 sv3 -> typed_after sv1 x3 sv3.
Proof.
  intros [_ _ (o1 & E1 & H1)] [Hx Hs (o2 & E2 & H2)]. split; [done..|].
  exists (o1 ++ o2). rewrite E2, E1, app_assoc. split; [done|by apply Forall_app].
Qed.

Lemma ta_send c m sv x sv' : G c -> msg_wf m -> typed_after sv x sv' -> typed_after sv x (send_message c m sv').
Proof.
  intros Hc Hm Ht. apply (ta_trans sv x sv'); [done|]. split; [apply Ht..|].
  exists [(c, Send (RtmpChunkWriter.EncodeMessage m kDefaultChunkSize))]. split; [done|].
  apply Forall_singleton. split; [done|by exists m].
Qed.

Lemma ta_context_change sv x x' sv' : context_typed x' -> typed_after sv x sv' -> typed_after sv x' sv'.
Proof. by intros ? []. Qed.

(** The manager changes. *)
Lemma ta_manager m sv x : context_typed x -> sessions_typed m -> typed_after sv x (set_manager m sv).
Proof. intros. split; [done..|]. exists []. by rewrite app_nil_r. Qed.

Lemma sessions_update f p m :
  (forall s, heap m !! p = Some s -> session_typed s -> session_typed (f s)) -> sessions_typed m ->
  sessions_typed (update f p m).
Proof.
  intros Hf Hm q s. cbn. intros [(<- & s0 & Hs0 & ->)|[Hne Hs]]%lookup_alter_Some.
  - by eapply Hf, Hm.
  - by eapply Hm.
Qed.

Lemma sessions_removeIfEmpty key m : sessions_typed m -> sessions_typed (removeIfEmpty key m).
Proof. intros Hm p s Hs%removeIfEmpty_sub. by eapply Hm. Qed.

Lemma sessions_getOrCreate key m : sessions_typed m -> sessions_typed (getOrCreate key m).2.
Proof.
  intros Hm. unfold getOrCreate. destruct (sessions_ m !! key); [done|].
  intros q s Hs. cbn in Hs. apply lookup_insert_Some in Hs as [[<- <-]|[_ Hs]]; [|by eapply Hm].
  split; [apply cache_typed_make|]. intros n c. cbn. by rewrite lookup_empty.
Qed.

(** The operations of a session. *)
Lemma session_clearPublisher c s : session_typed s -> session_typed (RtmpSession.clearPublisher c s).
Proof.
  intros [H1 H2]. unfold RtmpSession.clearPublisher. destruct (bool_decide _); [|done].
  split; [by eapply cache_typed_ext, H1|done].
Qed.

Lemma session_removePlayer c s : session_typed s -> session_typed (RtmpSession.removePlayer c s).
Proof.
  intros [H1 H2]. split; [by eapply cache_typed_ext, H1|]. intros n c' Hn. cbn in Hn. apply lookup_delete_Some in Hn as [_ Hn]. by eapply H2.
Qed.

Lemma session_setPublisher c s : session_typed s -> session_typed (RtmpSession.setPublisher c s).2.
Proof.
  intros [H1 H2]. unfold RtmpSession.setPublisher. destruct (_ && _); [done|].
  destruct (bool_decide _); (split; [|done]); [|by eapply cache_typed_ext, H1].
  eapply cache_typed_ext, (cache_typed_make []). done.
Qed.

Lemma session_addPlayer c s : G c -> session_typed s -> session_typed (RtmpSession.addPlayer c s).2.
Proof.
  intros Hc [H1 H2]. unfold RtmpSession.addPlayer. destruct (RtmpSession.players_ s !! conn_name c); [done|].
  split; [by eapply cache_typed_ext, H1|]. intros n c' Hn. cbn in Hn. apply lookup_insert_Some in Hn as [[_ <-]|[_ Hn]]; [done|by eapply H2].
Qed.

Lemma session_media conns m s :
  msg_wf m -> session_typed s ->
  let r := RtmpSession.onMediaMessage conns m kDefaultChunkSize s in
  session_typed r.1 /\ Forall message_to ((fun '(c, d) => (c, Send d)) <$> r.2).
Proof.
  intros Hm [H1 H2]. unfold RtmpSession.onMediaMessage, RtmpSession.broadcastMessage.
  apply (cache_typed_media m) in H1; [|done]. pose proof (RtmpSession.cacheMediaMessage_players m s) as Hp.
  set (s1 := RtmpSession.cacheMediaMessage m s) in *. rewrite <- Hp in H2. clearbody s1. clear Hp.
  destruct (bool_decide _); cbn; [by split|]. split.
  - split; [by eapply cache_typed_ext, H1|]. intros n c Hn. cbn in Hn. apply map_lookup_filter_Some in Hn as [Hn _]. by eapply H2.
  - rewrite !Forall_fmap. apply Forall_forall. intros [n c] [Hin _]%elem_of_map_to_list%map_lookup_filter_Some.
    split; cbn; [by eapply H2|by exists m].
Qed.

Lemma session_replay conns c s :
  G c -> cache_typed s ->
  Forall message_to ((fun '(c, d) => (c, Send d)) <$> RtmpSession.replayCachedMessagesToPlayer conns c kDefaultChunkSize s).
Proof.
  intros Hc [Hm _ _ _ _]. unfold RtmpSession.replayCachedMessagesToPlayer. destruct (bool_decide _); [apply Forall_nil_2|].
  rewrite !Forall_fmap. eapply Forall_impl; [exact Hm|]. intros m Hwf. split; [done|by exists m].
Qed.

(** ** The handlers *)

Section one_connection.
Context (auth : option (bytes -> bytes -> bool -> bool)) (c : conn_ptr) (Hc : G c).

Lemma typed_handleConnect message command x sv ok x' sv' :
  DecodeCommandMessageAmf0 message = Ok command -> context_typed x -> sessions_typed (sessionManager_ sv) ->
  handleConnect c command x sv = (ok, x', sv') -> typed_after sv x' sv'.
Proof using Hc.
  intros Hd Hx Hs. unfold handleConnect. destruct (isObjectLike (commandObject command)) eqn:Ho; cbn [negb];
    [|intros [= <- <- <-]; by apply ta_refl].
  destruct (StdMap.find (str "app") _) as [[]|]; try (intros [= <- <- <-]; by apply ta_refl).
  intros [= <- <- <-].
  apply ta_send; [done|exact (proj1 (connectSuccess_wf command))|].
  do 3 (apply ta_send; [done|apply control_replies_msg_wf|]).
  apply ta_refl; [|done].
  destruct (StdMap.find (str "objectEncoding") _) as [[]|] eqn:Ef, (StdMap.find (str "tcUrl") _) as [[]|];
    destruct Hx; split; try done; by eapply object_number; [eapply decoded_object|..].
Qed.

Lemma typed_handleCreateStream command x sv ok x' sv' :
  context_typed x -> sessions_typed (sessionManager_ sv) ->
  handleCreateStream c command x sv = (ok, x', sv') -> typed_after sv x' sv'.
Proof using Hc.
  intros Hx Hs. unfold handleCreateStream, allocateNextStreamId. intros [= <- <- <-].
  apply ta_send; [done|exact (proj1 (createStreamResult_wf command _))|]. apply ta_refl; [|done].
  destruct Hx. split; try done. apply u32_range.
Qed.

(** Fields that are strings, roles or references do not matter. *)
Lemma typed_context_same x x' :
  inChunkSize_ x' = inChunkSize_ x -> outChunkSize_ x' = outChunkSize_ x ->
  acknowledgementWindow_ x' = acknowledgementWindow_ x -> peerBandwidth_ x' = peerBandwidth_ x ->
  receivedBytes_ x' = receivedBytes_ x -> objectEncoding_ x' = objectEncoding_ x ->
  streamId_ x' = streamId_ x -> nextStreamId_ x' = nextStreamId_ x -> chunkParser_ x' = chunkParser_ x ->
  context_typed x -> context_typed x'.
Proof using. intros E1 E2 E3 E4 E5 E6 E7 E8 E9 []. split; by rewrite ?E1, ?E2, ?E3, ?E4, ?E5, ?E6, ?E7, ?E8, ?E9. Qed.

Ltac status_wf := apply onStatus_msg_wf; [by apply ty_streamId|cbn; lia..].

Lemma typed_handlePublish command x sv ok x' sv' :
  context_typed x -> sessions_typed (sessionManager_ sv) ->
  handlePublish auth true c command x sv = (ok, x', sv') -> typed_after sv x' sv'.
Proof using Hc.
  intros Hx Hs. unfold handlePublish. cbn [negb]. pose proof (ta_refl sv x Hx Hs) as Hr.
  destruct (_ =? 0)%Z; [by intros [= <- <- <-]|]. destruct (negb _); [by intros [= <- <- <-]|].
  destruct (arguments command) as [|[] more]; try by intros [= <- <- <-].
  destruct (ParseStreamTarget _) as [target|]; [|by intros [= <- <- <-]].
  set (x1 := match more with String publish_type :: _ => _ | _ => _ end).
  assert (context_typed x1) as Hx1
    by (unfold x1; destruct more as [|[] ?]; (eapply typed_context_same, Hx; reflexivity)).
  clearbody x1. cbv zeta. destruct (length (streamKey x1) =? 0); [intros [= <- <- <-]; by apply ta_refl|].
  destruct (authorizePublish _ _ _); cbn [negb];
    [|intros [= <- <- <-]; apply ta_send; [done|status_wf|by apply ta_refl]].
  unfold getOrCreateSession. pose proof (sessions_getOrCreate (streamKey x1) (sessionManager_ sv) Hs) as Hm.
  destruct (getOrCreate (streamKey x1) (sessionManager_ sv)) as [p m]. cbn in Hm.
  cbn [sessionManager_ set_manager].
  destruct (heap m !! p) as [s|] eqn:Ep; [|intros [= <- <- <-]; by apply ta_manager].
  pose proof (session_setPublisher c s (Hm p s Ep)) as Hs'.
  destruct (RtmpSession.setPublisher c s) as [b s']. cbn in Hs'. rewrite set_manager_twice.
  assert (sessions_typed (update (fun _ => s') p m)) as Hm' by (by apply sessions_update).
  destruct b; cbn [negb]; intros [= <- <- <-]; (apply ta_send; [done|status_wf|]); apply ta_manager; try done.
  by eapply typed_context_same, Hx1.
Qed.

Lemma typed_handlePlay command x sv ok x' sv' :
  context_typed x -> sessions_typed (sessionManager_ sv) ->
  handlePlay auth true c command x sv = (ok, x', sv') -> typed_after sv x' sv'.
Proof using Hc.
  intros Hx Hs. unfold handlePlay. cbn [negb]. pose proof (ta_refl sv x Hx Hs) as Hr.
  destruct (_ =? 0)%Z; [by intros [= <- <- <-]|]. destruct (negb _); [by intros [= <- <- <-]|].
  destruct (arguments command) as [|[] more]; try by intros [= <- <- <-].
  destruct (ParseStreamTarget _) as [target|]; [|by intros [= <- <- <-]].
  set (x1 := setStreamName _ x). assert (context_typed x1) as Hx1 by (by eapply typed_context_same, Hx).
  pose proof (ty_outChunkSize x1 Hx1) as Hout.
  clearbody x1. cbv zeta. destruct (length (streamKey x1) =? 0); [intros [= <- <- <-]; by apply ta_refl|].
  destruct (authorizePlay _ _ _); cbn [negb];
    [|intros [= <- <- <-]; apply ta_send; [done|status_wf|by apply ta_refl]].
  unfold getOrCreateSession. pose proof (sessions_getOrCreate (streamKey x1) (sessionManager_ sv) Hs) as Hm.
  destruct (getOrCreate (streamKey x1) (sessionManager_ sv)) as [p m]. cbn in Hm.
  cbn [sessionManager_ set_manager].
  destruct (heap m !! p) as [s|] eqn:Ep; [|intros [= <- <- <-]; by apply ta_manager].
  pose proof (session_addPlayer c s Hc (Hm p s Ep)) as Hs'.
  destruct (RtmpSession.addPlayer c s) as [b s']. cbn in Hs'. cbn [snd]. rewrite set_manager_twice.
  intros [= <- <- <-]. cbn [streamId_ outChunkSize_ bindSession setSession setRole]. rewrite Hout.
  set (sv1 := sendOnStatus _ _ _ _ _ _).
  assert (typed_after sv (bindSession p (setRole kPlayer x1)) sv1) as Ht.
  { apply ta_send; [done|status_wf|]. apply ta_manager; [by eapply typed_context_same, Hx1|]. by apply sessions_update. }
  eapply ta_trans; [exact Ht|]. split; [apply Ht..|]. eexists. split; [reflexivity|].
  apply session_replay; [done|apply Hs'].
Qed.

Lemma sessions_cleanup context sv :
  sessions_typed (sessionManager_ sv) -> sessions_typed (sessionManager_ (cleanupConnection c context sv)) /\
  outputs (cleanupConnection c context sv) = outputs sv.
Proof using.
  intros Hs. unfold cleanupConnection. destruct context as [x|]; [|done].
  destruct (_ =? 0); [done|]. destruct (find _ _) as [p|]; [|done]. cbn [sessionManager_ outputs set_manager].
  split; [|done]. apply sessions_removeIfEmpty. destruct (role_ x); [done|..]; apply sessions_update; try done; intros s _.
  - apply session_clearPublisher.
  - apply session_removePlayer.
Qed.

Lemma typed_handleDeleteStream command x sv ok x' sv' :
  context_typed x -> sessions_typed (sessionManager_ sv) ->
  handleDeleteStream true c command x sv = (ok, x', sv') -> typed_after sv x' sv'.
Proof using Hc.
  intros Hx Hs. unfold handleDeleteStream. cbn [negb]. pose proof (ta_refl sv x Hx Hs) as Hr.
  destruct (_ || _); [by intros [= <- <- <-]|]. destruct (_ && _ && _); [by intros [= <- <- <-]|].
  unfold detachConnectionFromSession. intros [= <- <- <-].
  destruct (sessions_cleanup (Some x) sv Hs) as [H1 H2]. split; [|done|].
  - destruct Hx. by split.
  - exists []. rewrite app_nil_r. split; [exact H2|done].
Qed.

Lemma typed_handleMediaMessage message x sv ok x' sv' :
  msg_wf message -> context_typed x -> sessions_typed (sessionManager_ sv) ->
  handleMediaMessage c message x sv = (ok, x', sv') -> typed_after sv x' sv'.
Proof using.
  intros Hw Hx Hs. unfold handleMediaMessage. pose proof (ta_refl sv x Hx Hs) as Hr.
  destruct (negb _); [by intros [= <- <- <-]|]. destruct (lock _ _) as [p|]; [|by intros [= <- <- <-]].
  destruct (heap (sessionManager_ sv) !! p) as [s|] eqn:Ep; [|by intros [= <- <- <-]]. rewrite (ty_outChunkSize x Hx).
  destruct (session_media (connected sv) message s Hw (Hs p s Ep)) as [H1 H2].
  destruct (RtmpSession.onMediaMessage _ _ _ _) as [s' sends]. cbn in H1, H2. intros [= <- <- <-].
  split; [done| |by eexists]. cbn. by apply sessions_update.
Qed.

Lemma typed_handleMessage message x sv ok x' sv' :
  msg_wf message -> context_typed x -> sessions_typed (sessionManager_ sv) ->
  handleMessage auth true c message x sv = (ok, x', sv') -> typed_after sv x' sv'.
Proof using Hc.
  intros Hw Hx Hs. unfold handleMessage. pose proof (ta_refl sv x Hx Hs) as Hr. destruct (_ && _).
  { intros [= <- <- <-]. eapply ta_context_change, Hr. destruct Hx. split; try done.
    cbn. pose proof (ReadUint32BE_range (payload message)). by unfold uint32. }
  destruct (_ =? _)%Z.
  - destruct (DecodeCommandMessageAmf0 message) as [command| |] eqn:Ed; try by intros [= <- <- <-].
    unfold handleCommandMessage. destruct (bool_decide _); [by eapply typed_handleConnect|].
    destruct (bool_decide _); [by apply typed_handleCreateStream|].
    destruct (bool_decide _); [by apply typed_handlePublish|].
    destruct (bool_decide _); [by apply typed_handlePlay|].
    destruct (bool_decide _ || _); [by apply typed_handleDeleteStream|by intros [= <- <- <-]].
  - destruct (_ || _); [by apply typed_handleMediaMessage|by intros [= <- <- <-]].
Qed.

Lemma typed_handleMessages messages x sv ok x' sv' :
  Forall msg_wf messages -> context_typed x -> sessions_typed (sessionManager_ sv) ->
  handleMessages auth true c messages x sv = (ok, x', sv') -> typed_after sv x' sv'.
Proof using Hc.
  intros Hw. revert x sv. induction Hw as [|m messages Hm _ IH]; intros x sv Hx Hs; cbn [handleMessages].
  { intros [= <- <- <-]. by apply ta_refl. }
  destruct (handleMessage auth true c m x sv) as [[ok1 x1] sv1] eqn:E.
  apply typed_handleMessage in E as Ht; [|done..]. destruct (negb ok1); [by intros [= <- <- <-]|].
  intros Hr. eapply ta_trans; [exact Ht|]. apply (IH x1 sv1); [apply Ht..|done].
Qed.

Context {B : Type} `{ByteBufferLaws B}.

Lemma typed_onMessage_chunks (buf : B) x sv ok x' sv' buf' :
  context_typed x -> sessions_typed (sessionManager_ sv) -> buf_wf buf ->
  parser_inv (chunkParser_ x) (peek buf) ->
  onMessage_chunks auth true c buf x sv = Some (ok, x', sv', buf') -> typed_after sv x' sv'.
Proof using All.
  intros Hx Hs Hw Hp. unfold onMessage_chunks. destruct (_ =? 0); [intros [= <- <- <- <-]; by apply ta_refl|].
  destruct (parse_spec (chunkParser_ x) buf [] Hw Hp) as (st & p' & buf1 & ms & E & Hst & _ & _ & Hms & _);
    [apply Forall_nil_2|]. rewrite E. cbn [mbind option_bind].
  assert (context_typed (setChunkParser p' x)) as Hx'.
  { destruct Hx. split; try done. cbn. by rewrite (parse_inChunkSize _ _ _ _ _ _ _ E). }
  destruct st; [|intros [= <- <- <- <-]; by apply ta_refl|done].
  destruct (handleMessages auth true c ms (setChunkParser p' x) sv) as [[ok1 x1] sv1] eqn:Eh.
  intros [= <- <- <- <-]. by eapply typed_handleMessages.
Qed.

End one_connection.

End handlers.

(** ** The handshake's answer *)

Lemma sent_to_app c o1 o2 : sent_to c (o1 ++ o2) = sent_to c o1 ++ sent_to c o2.
Proof. apply omap_app. Qed.

Lemma sent_to_messages G c outs : Forall (message_to G) outs -> Forall is_message (sent_to c outs).
Proof.
  induction 1 as [|[c' [d|]] outs [_ Hm] _ IH]; cbn in *; [apply Forall_nil_2| |done].
  destruct (decide (c' = c)); [by apply Forall_cons|done].
Qed.

Lemma sent_to_others G c outs : Forall (message_to G) outs -> ~ G c -> sent_to c outs = [].
Proof.
  intros Ho Hc. induction Ho as [|[c' o] outs [Hg _] _ IH]; cbn in *; [done|].
  destruct (decide (c' = c)); [by subst|done].
Qed.

Lemma greeted_done G c sent outs :
  greeted kHandshakeDone sent -> Forall (message_to G) outs -> greeted kHandshakeDone (sent ++ sent_to c outs).
Proof.
  intros (hello & blocks & H1 & H2 & ->) Ho. exists hello, (blocks ++ sent_to c outs).
  split_and!; [done| |done]. apply Forall_app. split; [done|by eapply sent_to_messages].
Qed.

(** What one connection is sent, as another sees it. *)
Lemma greeted_others (G : conn_ptr -> Prop) c c' h sent hello msgs :
  c' <> c -> (hello = [] \/ exists d, hello = [(c, Send d)]) -> Forall (message_to G) msgs ->
  (G c' -> h = kHandshakeDone) -> greeted h sent -> greeted h (sent ++ sent_to c' hello ++ sent_to c' msgs).
Proof.
  intros Hne Hh Hm Hg Hsent. assert (sent_to c' hello = []) as ->.
  { destruct Hh as [->|[d ->]]; [done|]. cbn. by rewrite decide_False. }
  cbn [app]. destruct (decide (h = kHandshakeDone)) as [->|Hnd]; [by eapply greeted_done|].
  rewrite (sent_to_others _ _ _ Hm), app_nil_r by auto. done.
Qed.

Lemma packet_hello rd c1 : RtmpHandshake.kHandshakePacketSize <= length c1 -> is_hello (RtmpHandshake.packet rd c1).
Proof.
  intros Hc. destruct (handshake_packet_layout rd c1 Hc) as (r & Hr & Hl & Hv & _).
  rewrite RtmpHandshake.buildS0S1S2_packet in Hr by done. injection Hr as <-. by split.
Qed.

(** Some bytes, or nothing. *)
Definition some_bytes (d : bytes) : list bytes := match d with [] => [] | _ => [d] end.

Section greeting.
Context {B : Type} `{ByteBufferLaws B}.

Lemma process_greets rd h (buf : B) sent st h' buf' response :
  buf_wf buf -> greeted h sent -> RtmpHandshake.process rd h buf [] = Some (st, h', buf', response) ->
  greeted h' (sent ++ some_bytes response).
Proof using All.
  intros Hw Hg. unfold RtmpHandshake.process. cbn [RtmpHandshake.process_fuel].
  destruct h; cbn [decide]; try done.
  - rewrite decide_True by done. destruct (Nat.ltb_spec (readableBytes buf) RtmpHandshake.kC0C1Size) as [|Hlong].
    { intros [= <- <- <- <-]. by rewrite app_nil_r. }
    destruct (negb _); [intros [= <- <- <- <-]; by rewrite app_nil_r|].
    rewrite readable_peek in Hlong by done.
    assert (RtmpHandshake.kHandshakePacketSize <= length (drop 1 (peek buf))) as Hl
      by (unfold RtmpHandshake.kC0C1Size in Hlong; len_lia).
    rewrite RtmpHandshake.buildS0S1S2_packet by done. cbn [app].
    pose proof (packet_hello rd _ Hl) as Hh. cbn in Hg. subst sent. cbn [app].
    assert (some_bytes (RtmpHandshake.packet rd (drop 1 (peek buf))) = [RtmpHandshake.packet rd (drop 1 (peek buf))]) as Hs.
    { destruct Hh as [Hlen _]. destruct (RtmpHandshake.packet _ _); [cbn in Hlen; lia|done]. }
    rewrite decide_False, decide_True by done.
    destruct (_ <? _); intros [= <- <- <- <-]; rewrite Hs.
    + by exists (RtmpHandshake.packet rd (drop 1 (peek buf))).
    + by exists (RtmpHandshake.packet rd (drop 1 (peek buf))), [].
  - rewrite decide_False, decide_True by done.
    destruct (_ <? _); intros [= <- <- <- <-]; rewrite app_nil_r; [done|].
    destruct Hg as (hello & ? & ->). by exists hello, [].
  - rewrite !decide_False by done. intros [= <- <- <- <-]. by rewrite app_nil_r.
Qed.

Lemma process_failed rd h (buf : B) st h' buf' response :
  buf_wf buf -> RtmpHandshake.process rd h buf [] = Some (st, h', buf', response) ->
  st <> RtmpHandshake.Done -> response = [].
Proof using All.
  intros Hw. unfold RtmpHandshake.process. cbn [RtmpHandshake.process_fuel].
  destruct (decide (h = kWaitC0C1)); [|destruct (decide (h = kWaitC2)); [destruct (_ <? _)|]; by intros [= <- <- <- <-]].
  destruct (Nat.ltb_spec (readableBytes buf) RtmpHandshake.kC0C1Size) as [|Hlong]; [by intros [= <- <- <- <-]|].
  destruct (negb _); [by intros [= <- <- <- <-]|]. rewrite readable_peek in Hlong by done.
  rewrite RtmpHandshake.buildS0S1S2_packet by (unfold RtmpHandshake.kC0C1Size in Hlong; len_lia).
  rewrite decide_False, decide_True by done. destruct (_ <? _); by intros [= <- <- <- <-].
Qed.

Lemma isDone_eq h : RtmpHandshake.isDone h = true <-> h = kHandshakeDone.
Proof. apply bool_decide_eq_true. Qed.

Context (auth : option (bytes -> bytes -> bool -> bool)).

Lemma onMessage_chunks_handshake c (buf : B) x sv ok x' sv' buf' :
  buf_wf buf -> parser_inv (chunkParser_ x) (peek buf) ->
  onMessage_chunks auth true c buf x sv = Some (ok, x', sv', buf') -> handshake_ x' = handshake_ x.
Proof using All.
  intros Hw Hp. unfold onMessage_chunks. destruct (_ =? 0); [by intros [= <- <- <- <-]|].
  destruct (parse_spec (chunkParser_ x) buf [] Hw Hp) as (st & p' & b1 & ms & -> & _ & _ & Hp' & _); [apply Forall_nil_2|].
  cbn [mbind option_bind]. destruct st; [|by intros [= <- <- <- <-]|done].
  destruct (handleMessages auth true c ms (setChunkParser p' x) sv) as [[o1 y1] s3] eqn:Eh.
  apply (handleMessages_io auth c ms (setChunkParser p' x) sv (peek b1)) in Eh as (_ & _ & Eh); [|done].
  intros [= <- <- <- <-]. by rewrite Eh.
Qed.

Lemma onMessage_keeps_done rd c (buf : B) x sv ok x' sv' buf' :
  io_ok x buf -> onMessage auth true rd c buf x sv = Some (ok, x', sv', buf') ->
  handshake_ x = kHandshakeDone -> handshake_ x' = kHandshakeDone.
Proof using All.
  intros (_ & Hw & Hp) Hrun Hd. rewrite (proj2 (isDone_eq _) Hd) in Hp. unfold onMessage in Hrun.
  change (handshake_ (addReceivedBytes _ x)) with (handshake_ x) in Hrun.
  rewrite (proj2 (isDone_eq _) Hd) in Hrun. apply onMessage_chunks_handshake in Hrun; [by etrans; [exact Hrun|]|done..].
Qed.

Context (G : conn_ptr -> Prop).

(** One read of a connection.  [G] is what holds afterwards. *)
Lemma typed_onMessage rd c (buf : B) x sv ok x' sv' buf' :
  context_typed x -> sessions_typed G (sessionManager_ sv) -> io_ok x buf ->
  (handshake_ x' = kHandshakeDone -> G c) ->
  onMessage auth true rd c buf x sv = Some (ok, x', sv', buf') ->
  context_typed x' /\ sessions_typed G (sessionManager_ sv') /\
  exists hello msgs, outputs sv' = outputs sv ++ hello ++ msgs /\ Forall (message_to G) msgs /\
    (hello = [] \/ exists d, hello = [(c, Send d)]) /\
    forall sent, greeted (handshake_ x) sent -> greeted (handshake_ x') (sent ++ sent_to c (hello ++ msgs)).
Proof using All.
  intros Hx Hs (_ & Hw & Hp) HG. unfold onMessage. set (x1 := addReceivedBytes _ x).
  assert (context_typed x1) as Hx1.
  { destruct Hx. split; try done. apply Z.mod_pos_bound. lia. }
  change (handshake_ x) with (handshake_ x1) in *. change (chunkParser_ x) with (chunkParser_ x1) in Hp.
  clearbody x1. clear Hx x.
  assert (forall (b : B) y s1 o y' s2 b2,
    context_typed y -> sessions_typed G (sessionManager_ s1) -> buf_wf b -> parser_inv (chunkParser_ y) (peek b) ->
    handshake_ y = kHandshakeDone -> (handshake_ y' = kHandshakeDone -> G c) ->
    onMessage_chunks auth true c b y s1 = Some (o, y', s2, b2) ->
    context_typed y' /\ sessions_typed G (sessionManager_ s2) /\ handshake_ y' = kHandshakeDone /\
    exists msgs, outputs s2 = outputs s1 ++ msgs /\ Forall (message_to G) msgs /\
      forall sent, greeted kHandshakeDone sent -> greeted kHandshakeDone (sent ++ sent_to c msgs)) as Hchunks.
  { intros b y s1 o y' s2 b2 Hy Hs1 Hwb Hpb Hhs HG1 Hrun.
    assert (handshake_ y' = kHandshakeDone) as Hdone by (rewrite <- Hhs; by eapply onMessage_chunks_handshake).
    apply (typed_onMessage_chunks G) in Hrun as [T1 T2 (msgs & T3 & T4)]; [|by apply HG1|done..].
    split_and!; [done..|]. exists msgs. split_and!; [done..|].
    intros sent Hg. by eapply greeted_done. }
  destruct (RtmpHandshake.isDone (handshake_ x1)) eqn:Hd; cbn [negb].
  - apply isDone_eq in Hd. intros Hrun. rewrite Hd in *.
    eapply Hchunks in Hrun as (T1 & T2 & T3 & msgs & T4 & T5 & T6); [|done..].
    split_and!; [done..|]. exists [], msgs. rewrite T3. by split_and!; [..|left|].
  - destruct (RtmpHandshake.process_safe rd (handshake_ x1) buf [] Hw)
      as (st & h' & buf1 & response & Epr & Hst & Hw1). rewrite Epr. cbn [mbind option_bind].
    assert (forall sent, greeted (handshake_ x1) sent -> greeted h' (sent ++ some_bytes response)) as Hgreet
      by (intros sent Hg; by eapply process_greets in Epr).
    pose proof (process_failed _ _ _ _ _ _ _ Hw Epr) as Efail.
    assert (context_typed (setHandshake h' x1)) as Hx2 by (by destruct Hx1).
    set (sv1 := if length response =? 0 then sv else send c response sv).
    set (hello := (fun d => (c, Send d)) <$> some_bytes response).
    assert (sessionManager_ sv1 = sessionManager_ sv /\ outputs sv1 = outputs sv ++ hello) as [E1 E2]
      by (unfold sv1, hello; destruct response; cbn; [by rewrite app_nil_r|done]).
    assert (sent_to c hello = some_bytes response) as E3
      by (unfold hello; destruct response; cbn; [done|by rewrite decide_True]).
    assert (hello = [] \/ exists d, hello = [(c, Send d)]) as E4
      by (unfold hello; destruct response; cbn; [by left|right; by eexists]).
    clearbody hello sv1. destruct st as [|e|]; [| |done].
    + change (handshake_ (setHandshake h' x1)) with h'. destruct (RtmpHandshake.isDone h') eqn:Hd1; cbn [negb].
      * apply isDone_eq in Hd1 as ->. intros Hrun.
        eapply Hchunks in Hrun as (T1 & T2 & T3 & msgs & T4 & T5 & T6);
          [|done|by rewrite E1|done|cbn; rewrite Hp; apply parser_inv_initial|done..].
        split_and!; [done..|]. exists hello, msgs.
        rewrite T3, T4, E2, <- !app_assoc. split_and!; [done..|].
        intros sent Hg%Hgreet. rewrite sent_to_app, E3, app_assoc. by apply T6.
      * intros [= <- <- <- <-]. rewrite E1. split_and!; [done..|]. exists hello, [].
        rewrite !app_nil_r, E3. by split_and!; [|apply Forall_nil_2|..].
    + intros [= <- <- <- <-]. split_and!; [done..|]. exists [], []. rewrite !app_nil_r.
      split_and!; [done|apply Forall_nil_2|by left|]. intros sent Hg%Hgreet. by rewrite Efail in Hg by done.
Qed.

End greeting.

(** ** Every reachable state *)

Section system.
Context {B : Type} `{ByteBufferLaws B} (auth : option (bytes -> bytes -> bool -> bool)).

(** The connections that messages may be sent to: those the server has seen
    whose handshake is complete. *)
Definition may_hear (seen : gset conn_ptr) (contexts : gmap conn_ptr t) (c : conn_ptr) : Prop :=
  c ∈ seen /\ forall x, contexts !! c = Some x -> handshake_ x = kHandshakeDone.

Record world_typed (seen : gset conn_ptr) (w : world B) : Prop := {
  wt_contexts c x : contexts w !! c = Some x -> context_typed x;
  wt_sessions : sessions_typed (may_hear seen (contexts w)) (sessionManager_ (srv w));
  wt_targets : Forall (fun o => o.1 ∈ seen) (outputs (srv w));
  wt_sent c x : contexts w !! c = Some x -> greeted (handshake_ x) (sent_to c (outputs (srv w)));
}.

Lemma session_typed_mono (G G' : conn_ptr -> Prop) m :
  (forall c, G c -> G' c) -> sessions_typed G m -> sessions_typed G' m.
Proof. intros HG Hm p s Hp. destruct (Hm p s Hp) as [H1 H2]. split; [done|]. intros n c Hn. by eapply HG, H2. Qed.

Lemma sent_to_unseen (seen : gset conn_ptr) c outs : Forall (fun o => o.1 ∈ seen) outs -> c ∉ seen -> sent_to c outs = [].
Proof.
  intros Ho Hc. induction Ho as [|[c' o] outs Hin _ IH]; cbn in *; [done|].
  destruct (decide (c' = c)); [by subst|done].
Qed.

Lemma world_typed_initial : world_typed ∅ initial_world.
Proof.
  split; cbn; try (intros *; by rewrite lookup_empty); [|apply Forall_nil_2].
  intros p s. cbn. by rewrite lookup_empty.
Qed.

Lemma world_typed_connect seen w c :
  c ∉ seen -> world_typed seen w -> world_typed ({[c]} ∪ seen) (onConnected c w).
Proof.
  intros Hc [H1 H2 H3 H4]. split; cbn.
  - intros c' x [[<- <-]|[_ Hx]]%lookup_insert_Some; [|by eapply H1]. split; cbn; done.
  - eapply session_typed_mono, H2. intros c' [Hin Hd]. split; [set_solver|].
    intros x [[<- _]|[_ Hx]]%lookup_insert_Some; [done|by apply Hd].
  - eapply Forall_impl; [exact H3|]. set_solver.
  - intros c' x [[<- <-]|[_ Hx]]%lookup_insert_Some; [|by apply H4]. cbn. by eapply sent_to_unseen.
Qed.

Lemma world_typed_disconnect seen w c : world_typed seen w -> world_typed seen (onDisconnected c w).
Proof.
  intros [H1 H2 H3 H4]. unfold onDisconnected. set (s := mkServer _ _ _).
  destruct (sessions_cleanup _ c (contexts w !! c) s H2) as [E1 E2]. split; cbn [contexts srv].
  - intros c' x [_ Hx]%lookup_delete_Some. by eapply H1.
  - eapply session_typed_mono, E1. intros c' [Hin Hd]. split; [done|].
    intros x [_ Hx]%lookup_delete_Some. by apply Hd.
  - by rewrite E2.
  - intros c' x [_ Hx]%lookup_delete_Some. rewrite E2. by apply H4.
Qed.

(** What one read adds to the outputs: the answer to the handshake or nothing,
    messages, and a shutdown when a handler failed. *)
Lemma world_typed_bytes rd seen w c data w' :
  is_Some (contexts w !! c) -> world_ok (allowed auth) seen w -> world_typed seen w ->
  onBytes auth true rd c data w = Some w' ->
  world_typed seen w' /\
  exists hello msgs last, outputs (srv w') = outputs (srv w) ++ (hello ++ msgs) ++ last /\
    (hello = [] \/ exists d, hello = [(c, Send d)]) /\ Forall (message_to (may_hear seen (contexts w'))) msgs /\
    ((last = [] /\ connected (srv w') = connected (srv w)) \/
     (last = [(c, Shutdown)] /\ connected (srv w') = connected (srv w) ∖ {[c]})) /\
    (forall x x' sent, contexts w !! c = Some x -> contexts w' !! c = Some x' ->
       greeted (handshake_ x) sent -> greeted (handshake_ x') (sent ++ sent_to c (hello ++ msgs))) /\
    is_Some (contexts w' !! c) /\ is_Some (buffers w' !! c) /\
    (forall c', c' <> c -> contexts w' !! c' = contexts w !! c' /\ buffers w' !! c' = buffers w !! c').
Proof.
  intros [x Hx] Hw [H1 H2 H3 H4]. pose proof Hw as [Hsv Hio].
  assert (c ∈ seen) as Hc by (apply (sv_seen _ _ _ _ Hsv); by exists x).
  destruct (Hio c x Hx) as (buf & Hbuf & Hh & Hbw & Hp).
  unfold onBytes, RtmpServer_onMessage. rewrite Hx, Hbuf, Hh. cbn [negb default from_option id].
  assert (io_ok x (append data buf)) as Hio'.
  { split_and!; [done|auto|]. destruct (RtmpHandshake.isDone _); [|done].
    rewrite peek_append by done. by apply parser_inv_append. }
  destruct (onMessage_ok auth _ (sound_allowed auth) seen (sv_names _ _ _ _ Hsv) rd c (append data buf) x (srv w))
    as (ok & x' & sv' & buf' & Erun & [_ _ _ Hconn] & _); [done|apply Hsv|by apply (sv_bound _ _ _ _ Hsv)|done|].
  rewrite Erun. cbn [mbind option_bind]. intros [= <-].
  set (ctxs := <[c:=x']> (contexts w)).
  assert (forall c', may_hear seen (contexts w) c' -> may_hear seen ctxs c') as Hmono.
  { intros c' [Hin Hd]. split; [done|]. intros y [[<- <-]|[_ Hy]]%lookup_insert_Some; [|by apply Hd].
    eapply (onMessage_keeps_done auth); [exact Hio'|exact Erun|by apply Hd]. }
  eapply (typed_onMessage auth (may_hear seen ctxs)) in Erun as (T1 & T2 & hello & msgs & T4 & T5 & T6 & T7);
    [|by eapply H1|by eapply session_typed_mono, H2|done|].
  2: { intros Hd. split; [done|]. by intros y [[_ <-]|[? _]]%lookup_insert_Some. }
  set (sv2 := if negb ok then shutdown c sv' else sv').
  set (last := if negb ok then [(c, Shutdown)] else []).
  assert (outputs sv2 = outputs (srv w) ++ (hello ++ msgs) ++ last) as Eout.
  { unfold sv2, last. destruct ok; cbn; rewrite T4, ?app_nil_r, <- ?app_assoc; done. }
  assert (forall c', sent_to c' last = []) as Elast
    by (intros c'; unfold last; destruct ok; cbn; [done|by destruct (decide (c = c'))]).
  assert (sessionManager_ sv2 = sessionManager_ sv') as Em by (unfold sv2; by destruct ok).
  split.
  - split; cbn [contexts srv].
    + intros c' y [[<- <-]|[_ Hy]]%lookup_insert_Some; [done|by eapply H1].
    + by rewrite Em.
    + rewrite Eout, !Forall_app. split_and!; [done| | |].
      * destruct T6 as [->|[d ->]]; [apply Forall_nil_2|by apply Forall_singleton].
      * eapply Forall_impl; [exact T5|]. by intros o [[? _] _].
      * unfold last. destruct ok; [apply Forall_nil_2|by apply Forall_singleton].
    + intros c' y. rewrite Eout, !sent_to_app, Elast, app_nil_r.
      intros [[<- <-]|[Hne Hy]]%lookup_insert_Some; [rewrite <- sent_to_app; by apply T7, H4|].
      eapply greeted_others; [exact (not_eq_sym Hne)|exact T6|exact T5| |by apply H4]. intros [_ Hd]. apply Hd.
      unfold ctxs. by rewrite lookup_insert_ne.
  - exists hello, msgs, last. cbn [contexts srv buffers]. split_and!; [done..| | | | |].
    + unfold last, sv2. destruct ok; cbn; rewrite Hconn; auto.
    + intros y y' sent Hy. unfold ctxs. rewrite lookup_insert_eq. intros [= <-] Hg. apply T7. by simplify_eq.
    + unfold ctxs. rewrite lookup_insert_eq. by eexists.
    + rewrite lookup_insert_eq. by eexists.
    + intros c' Hne. unfold ctxs. by rewrite !lookup_insert_ne.
Qed.

Lemma reachable_typed w seen : reachable auth w seen -> world_typed seen w.
Proof.
  induction 1 as [|w seen w' seen' Hr IH Hs]; [apply world_typed_initial|].
  pose proof (reachable_ok auth w seen Hr) as Hw.
  destruct Hs as [c w Hnew|c rd data w w' Hin Hb|c w Hin].
  - apply world_typed_connect; [|done]. intros Hin. by apply (Hnew c Hin).
  - by destruct (world_typed_bytes rd seen w c data w' Hin Hw IH Hb).
  - by apply world_typed_disconnect.
Qed.

End system.

(** ** Properties *)

(** C23 Types of the server's state.  In every reachable state every integer field
    of every connection is within the range of its C++ type, the two copies of
    the incoming chunk size agree and the outgoing chunk size is still 128, so
    that no encoding loops; so are the fields of its chunk streams; every message
    a session keeps fits the chunk format and is of the kind it is kept as; and
    what a connection was sent is what the state of its handshake says: nothing,
    one answer of 3073 bytes, or this answer and then whole messages. *)
Theorem server_well_typed {B : Type} `{ByteBufferLaws B}
    (auth : option (bytes -> bytes -> bool -> bool)) (w : world B) (seen : gset conn_ptr) :
  reachable auth w seen ->
  (forall c x, contexts w !! c = Some x ->
     context_typed x /\ greeted (handshake_ x) (sent_to c (outputs (srv w))) /\
     forall csid s, RtmpChunkParser.chunkStreams_ (chunkParser_ x) !! csid = Some s -> in_range s) /\
  (forall p s, heap (sessionManager_ (srv w)) !! p = Some s -> cache_typed s).
Proof.
  intros Hr. destruct (reachable_ok auth w seen Hr) as [_ Hio]. apply reachable_typed in Hr as [H1 H2 _ H4].
  split; [|intros p s Hp; apply (H2 p s Hp)].
  intros c x Hx. split_and!; [by eapply H1|by apply H4|]. intros csid s Hs.
  destruct (Hio c x Hx) as (buf & _ & _ & _ & Hp). destruct (RtmpHandshake.isDone _).
  - by apply (proj2 Hp csid s Hs).
  - rewrite Hp in Hs. cbn in Hs. by rewrite lookup_empty in Hs.
Qed.

Lemma server_well_typed_witness :
  is_Some (contexts sample.1 !! alice) /\
  (forall c x, contexts sample.1 !! c = Some x ->
     context_typed x /\ greeted (handshake_ x) (sent_to c (outputs (srv sample.1))) /\
     forall csid s, RtmpChunkParser.chunkStreams_ (chunkParser_ x) !! csid = Some s -> in_range s) /\
  (forall p s, heap (sessionManager_ (srv sample.1)) !! p = Some s -> cache_typed s).
Proof.
  split; [vm_compute; by eexists|]. exact (server_well_typed (B := bytes) None sample.1 sample.2 sample_reachable).
Defined.
