(* ===== verification/RtmpNetwork.v ===== *)
(** * The RTMP server on its TCP connections

    What src/rtmp/RtmpServer.cc, src/rtmp/RtmpSession.cc and
    src/net/TcpConnection.cc do together.  Every connection lives in an I/O
    loop; a handler runs in the loop of the connection it reads from and sends
    to connections of any loop: to those of its own at once, to the others by a
    functor that it posts.  What a client receives is then decided by three
    parts of the program and by the kernel; it is stated and proved here. *)

From S2P Require Import Prelude Bytes ByteBuffer NetBuffer Channel TcpConnection TcpConnectionFacts TcpApplication.
From S2P Require Import RtmpTypes ChunkWriter ChunkParser ChunkParserFacts ChunkRoundtrip RtmpHandshake.
From S2P Require Import RtmpSession RtmpConnectionContext RtmpServer RtmpServerFacts RtmpServerSystem RtmpTyping.

Import TcpConnection.

(** ** The system *)

(** The callbacks RtmpServer sets on a connection, as TcpConnection sees them:
    onConnection calls nothing on it, onMessage is [on_message]; no other
    callback is set. *)
Definition server_callbacks {B : Type} (on_message : unit -> B -> unit * B * list action) : callbacks B unit :=
  mkCallbacks (fun _ u => (u, [])) on_message None None.

Definition no_message {B : Type} : unit -> B -> unit * B * list action := fun u buf => (u, buf, []).

Section network.
Context {B : Type} `{ByteBuffer B} (auth : option (bytes -> bytes -> bool -> bool)).
(** The I/O loop of each connection. *)
Context (loop : conn_ptr -> nat).

Abbreviation tcp_conn := (TcpConnection.t B unit).
Abbreviation callbacks_ := (server_callbacks (B := B) no_message).

(** The state of RtmpServer, the TCP connections, and as history every call of
    [send] or [shutdown] with the loop it was made in. *)
Record net := mkNet {
  rtmp : world B;
  tcp : gmap conn_ptr tcp_conn;
  history : list (nat * (conn_ptr * output));
}.

Definition net_initial : net := mkNet initial_world ∅ [].

(** [connection->send(data)] or [connection->shutdown()] in loop [l]. *)
Definition deliver (l : nat) (conns : gmap conn_ptr tcp_conn) (o : conn_ptr * output) : gmap conn_ptr tcp_conn :=
  alter (fun tc => match o.2 with
                   | RtmpServer.Send data => send callbacks_ (bool_decide (l = loop o.1)) data tc
                   | RtmpServer.Shutdown => shutdown (bool_decide (l = loop o.1)) tc
                   end) o.1 conns.

Definition new_outputs (w w' : world B) : list (conn_ptr * output) :=
  drop (length (outputs (srv w))) (outputs (srv w')).

(** A connection is given: connectEstablished calls onConnection. *)
Definition net_connect (c : conn_ptr) (sockfd : Z) (kernel : list Buffer.write_result) (n : net) : net :=
  mkNet (onConnected c (rtmp n))
    (<[c := connectEstablished callbacks_ (make sockfd tt kernel)]> (tcp n)) (history n).

(** handleRead got [data]: the message callback runs on the input buffer, and
    what it sends is sent in its loop (see [net_read_handleRead]). *)
Definition net_read (rd : nat -> Z) (c : conn_ptr) (data : bytes) (n : net) : option net :=
  tc ← tcp n !! c;
  let buf := append data (inputBuffer_ tc) in
  w' ← RtmpServer_onMessage auth true rd c buf (rtmp n);
  let outs := new_outputs (rtmp n) w' in
  let tc1 := emit CalledMessage (set_input (default buf (buffers w' !! c)) tc) in
  Some (mkNet w' (foldl (deliver (loop c)) (<[c := tc1]> (tcp n)) outs)
          (history n ++ ((fun o => (loop c, o)) <$> outs))).

(** handleClose: the connection goes down and onConnection cleans up. *)
Definition net_close (c : conn_ptr) (n : net) : net :=
  mkNet (onDisconnected c (rtmp n)) (alter (handleClose callbacks_) c (tcp n)) (history n).

Definition on_tcp (f : tcp_conn -> tcp_conn) (c : conn_ptr) (n : net) : net :=
  mkNet (rtmp n) (alter f c (tcp n)) (history n).

(** One callback of the channel of [c]; [res] is what reading gives. *)
Definition net_callback (rd : nat -> Z) (res : Buffer.read_result) (c : conn_ptr) (n : net)
    (cb : Channel.callback) : option net :=
  match cb with
  | Channel.CloseCallback => Some (net_close c n)
  | Channel.ErrorCallback => Some n
  | Channel.WriteCallback => Some (on_tcp (handleWrite callbacks_) c n)
  | Channel.ReadCallback =>
      match res with
      | Buffer.ReadErr _ => Some n
      | Buffer.ReadData [] => Some (net_close c n)
      | Buffer.ReadData data => net_read rd c data n
      end
  end.

Fixpoint net_callbacks (rd : nat -> Z) (res : Buffer.read_result) (c : conn_ptr)
    (cbs : list Channel.callback) (n : net) : option net :=
  match cbs with
  | [] => Some n
  | cb :: cbs => n' ← net_callback rd res c n cb; net_callbacks rd res c cbs n'
  end.

(** The poller reported [revents] for the channel of [c]. *)
Definition net_poll (rd : nat -> Z) (revents : Z) (res : Buffer.read_result) (c : conn_ptr) (n : net) : option net :=
  tc ← tcp n !! c;
  let tc := set_channel (Channel.set_revents revents) tc in
  net_callbacks rd res c (Channel.handleEvent true (channel_ tc))
    (on_tcp (fun _ => tc) c n).

Inductive net_step : net -> net -> Prop :=
| net_step_connect c sockfd kernel n :
    (forall c', c' ∈ dom (tcp n) -> conn_name c' <> conn_name c) ->
    net_step n (net_connect c sockfd kernel n)
| net_step_poll rd revents res c tc n n' :
    tcp n !! c = Some tc -> enabled (Polled revents res) tc = true ->
    net_poll rd revents res c n = Some n' -> net_step n n'
| net_step_functor c n : net_step n (on_tcp (step callbacks_ RunFunctor) c n)
| net_step_destroyed c tc n :
    tcp n !! c = Some tc -> state_ tc = kDisconnected ->
    net_step n (on_tcp (connectDestroyed callbacks_) c n).

Inductive net_reachable : net -> Prop :=
| net_reach_initial : net_reachable net_initial
| net_reach_step n n' : net_reachable n -> net_step n n' -> net_reachable n'.

(** What was sent to [c] in its own loop, and what other loops posted to it. *)
Definition sent_from (own : bool) (c : conn_ptr) (hist : list (nat * (conn_ptr * output))) : list bytes :=
  sent_to c (snd <$> filter (fun e => bool_decide (e.1 = loop c) = own) hist).

End network.

Arguments net B : clear implicits.

(** [k] is a merge of [l] and [r]: all of both, each in its order. *)
Inductive merge {A : Type} : list A -> list A -> list A -> Prop :=
| merge_nil : merge [] [] []
| merge_left l r k x : merge l r k -> merge (l ++ [x]) r (k ++ [x])
| merge_right l r k x : merge l r k -> merge l (r ++ [x]) (k ++ [x]).

(** The messages that wait for their turn in the loop. *)
Definition waiting (queue : list functor) : list bytes :=
  omap (fun f => match f with SendInLoop d => Some d | _ => None end) queue.

Lemma waiting_sends queued : waiting (SendInLoop <$> queued) = queued.
Proof. induction queued as [|d queued IH]; cbn; [done|by f_equal]. Qed.

(** ** One connection *)

Section connection.
Context {B : Type} `{ByteBufferLaws B} (loop : conn_ptr -> nat).
Abbreviation tcp_conn := (TcpConnection.t B unit).
Abbreviation callbacks_ := (server_callbacks (B := B) no_message).
Implicit Types tc : tcp_conn.

(** A step in which sendInLoop is given [ds]; the rest is left alone. *)
Record accepts (ds : list bytes) tc tc' : Prop := {
  ac_state : state_ tc' = state_ tc;
  ac_input : inputBuffer_ tc' = inputBuffer_ tc;
  ac_queue : queue tc' = queue tc;
  ac_log : given (log tc') = given (log tc) ++ ds;
}.

Lemma quiet_accepts more ds tc tc' :
  quiet more tc tc' -> given (log tc') = given (log tc) ++ ds -> accepts ds tc tc'.
Proof. by intros []. Qed.

Lemma given_write data tc : given (log (write data tc).2) = given (log tc).
Proof.
  unfold write. destruct (kernel tc) as [|[e|n] ks]; cbn; [done|done|].
  rewrite given_app. cbn. by rewrite app_nil_r.
Qed.

Lemma given_save rest tc : given (log (saveRemaining callbacks_ rest tc)) = given (log tc).
Proof.
  unfold saveRemaining. change (has_high_water callbacks_) with false. rewrite andb_false_r. by destruct (negb _).
Qed.

Lemma accepts_sendInLoop data tc : state_ tc <> kDisconnected -> accepts [data] tc (sendInLoop callbacks_ data tc).
Proof.
  intros Hs. eapply quiet_accepts; [by apply quiet_sendInLoop|].
  unfold sendInLoop. rewrite bool_decide_eq_false_2 by done.
  assert (forall n (b : bool) tc1, given (log tc1) = given (log tc) ->
    let tc2 := emit (if b then Dropped data else Accepted data) tc1 in
    given (log (if negb b && (0 <? length data - n) then saveRemaining callbacks_ (drop n data) tc2 else tc2)) =
      given (log tc) ++ [data]) as Hrest.
  { intros n b tc1 E tc2. assert (given (log tc2) = given (log tc) ++ [data]) as E2
      by (cbn; rewrite given_app, E; by destruct b).
    destruct (_ && _); by rewrite ?given_save. }
  destruct (negb _ && _); [|by apply (Hrest 0 false)].
  pose proof (given_write data tc) as Hw.
  destruct (write data tc) as [[e|n] tc1]; cbn in Hw; [by apply (Hrest 0)|].
  apply (Hrest n false). by destruct (_ && _).
Qed.

Lemma accepts_refl tc : accepts [] tc tc.
Proof. split; try done. by rewrite app_nil_r. Qed.

Lemma accepts_shutdownInLoop tc : accepts [] tc (shutdownInLoop tc).
Proof.
  eapply quiet_accepts; [apply quiet_shutdownInLoop|]. unfold shutdownInLoop. rewrite app_nil_r.
  destruct (negb _); [|done]. cbn. by rewrite given_app, app_nil_r.
Qed.

Lemma accepts_handleWrite tc : accepts [] tc (handleWrite callbacks_ tc).
Proof.
  eapply quiet_accepts; [by apply quiet_handleWrite|]. rewrite app_nil_r. unfold handleWrite.
  destruct (Channel.isWriting _); [|done]. pose proof (given_write (peek (outputBuffer_ tc)) tc) as Hw.
  destruct (write _ tc) as [[e|n] tc1]; cbn in Hw; [done|]. destruct (0 <? n); [|done].
  destruct (_ =? 0); [|done]. cbn [has_write_complete writeCompleteCallback_ server_callbacks].
  destruct (bool_decide _); [|done].
  pose proof (ac_log _ _ _ (accepts_shutdownInLoop (set_channel Channel.disableWriting (set_output (retrieve n (outputBuffer_ tc1)) tc1)))) as E.
  by rewrite app_nil_r in E; rewrite E.
Qed.

(** The answer to the handshake comes first, then whole messages. *)
Definition hello_first (blocks : list bytes) : Prop :=
  blocks = [] \/ exists hello ms, is_hello hello /\ Forall is_message ms /\ blocks = hello :: ms.

(** What was promised to the connection and what it has or will take on: all
    of it while it is connected, a beginning of it afterwards. *)
Definition promised (s : StateE) (d r queued direct posted : list bytes) : Prop :=
  match s with
  | kConnecting => False
  | kConnected => d = direct /\ r ++ queued = posted
  | kDisconnecting => d `prefix_of` direct /\ r ++ queued `prefix_of` posted
  | kDisconnected => d `prefix_of` direct /\ r `prefix_of` posted
  end.

Record stream_inv (c : conn_ptr) (hist : list (nat * (conn_ptr * output))) tc : Prop := {
  si_first : hello_first (given (log tc));
  si_flow : exists queued d r,
    queue tc = SendInLoop <$> queued /\ Forall is_message queued /\
    (queued <> [] -> given (log tc) <> []) /\ merge d r (given (log tc)) /\
    promised (state_ tc) d r queued (sent_from loop true c hist) (sent_from loop false c hist);
}.

Lemma hello_first_message blocks d : hello_first blocks -> blocks <> [] -> is_message d -> hello_first (blocks ++ [d]).
Proof.
  intros [->|(hello & ms & H1 & H2 & ->)] Hne Hd; [done|]. right. exists hello, (ms ++ [d]).
  split_and!; [done| |done]. apply Forall_app. by rewrite Forall_singleton.
Qed.

Lemma sent_from_snoc own c hist l c' o :
  sent_from loop own c (hist ++ [(l, (c', o))]) =
  sent_from loop own c hist ++
  (if decide (c' = c /\ bool_decide (l = loop c) = own)
   then match o with RtmpServer.Send d => [d] | RtmpServer.Shutdown => [] end else []).
Proof.
  unfold sent_from. rewrite filter_app, fmap_app, sent_to_app. f_equal. rewrite filter_cons, filter_nil. cbn [fst].
  destruct (decide (bool_decide (l = loop c) = own)) as [E|E]; cbn.
  - destruct (decide (c' = c)) as [->|Hne]; [rewrite decide_True by done; by destruct o|].
    by rewrite decide_False by (by intros [? _]).
  - by rewrite decide_False by (by intros [_ ?]).
Qed.

(** What goes to others. *)
Lemma stream_other c hist tc l c' o :
  c' <> c -> stream_inv c hist tc -> stream_inv c (hist ++ [(l, (c', o))]) tc.
Proof.
  intros Hne [H2 H3]. split; [done..|]. rewrite !sent_from_snoc, !decide_False by (by intros [? _]).
  by rewrite !app_nil_r.
Qed.

(** Nothing is taken on. *)
Lemma stream_accepts c hist tc tc' : accepts [] tc tc' -> stream_inv c hist tc -> stream_inv c hist tc'.
Proof.
  intros [A1 A2 A3 A5] [H2 H3]. rewrite app_nil_r in A5. split; rewrite ?A1, ?A3, ?A5; auto.
Qed.

Lemma prefix_more {A} (l k m : list A) : l `prefix_of` k -> l `prefix_of` k ++ m.
Proof. intros [x ->]. exists (x ++ m). by rewrite app_assoc. Qed.

(** A message is sent to the connection from loop [l]. *)
Lemma stream_send c hist tc l d :
  stream_inv c hist tc ->
  (state_ tc = kConnected ->
     (is_message d /\ given (log tc) <> []) \/ (is_hello d /\ given (log tc) = [] /\ l = loop c)) ->
  stream_inv c (hist ++ [(l, (c, RtmpServer.Send d))]) (send callbacks_ (bool_decide (l = loop c)) d tc).
Proof.
  intros [H2 (queued & dd & r & Q1 & Q2 & Q3 & Q4 & Q5)] Hd. unfold send.
  destruct (decide (state_ tc = kConnected)) as [Hs|Hs].
  2: { rewrite bool_decide_eq_false_2 by done. split; [done..|]. exists queued, dd, r.
       split_and!; [done..|]. rewrite !sent_from_snoc.
       destruct (state_ tc); try done; destruct Q5; split; by apply prefix_more. }
  rewrite bool_decide_eq_true_2 by done. specialize (Hd Hs). rewrite Hs in Q5. destruct Q5 as [Q5 Q6].
  destruct (decide (l = loop c)) as [Hl|Hl].
  - rewrite (bool_decide_eq_true_2 (l = loop c)) by done.
    destruct (accepts_sendInLoop d tc) as [A1 A2 A3 A5]; [by rewrite Hs|].
    split; [auto|..]; rewrite A5.
    + destruct Hd as [[Hm Hne]|(Hh & -> & _)]; [by apply hello_first_message|].
      right. exists d, []. by split_and!; [|apply Forall_nil_2|].
    + exists queued, (dd ++ [d]), r. rewrite A1, A3, Hs. split_and!; [done|done| |by apply merge_left|].
      * intros _ [_ ?]%app_eq_nil. done.
      * rewrite !sent_from_snoc, bool_decide_eq_true_2 by done. rewrite decide_True by done.
        rewrite decide_False by (by intros [_ ?]). rewrite app_nil_r. split; congruence.
  - rewrite (bool_decide_eq_false_2 (l = loop c)) by done. destruct Hd as [[Hm Hne]|(_ & _ & ?)]; [|done].
    split; [done..|]. exists (queued ++ [d]), dd, r. cbn. rewrite Hs, Q1, fmap_app. split_and!; [done| |done|done|].
    + apply Forall_app. by rewrite Forall_singleton.
    + rewrite !sent_from_snoc, bool_decide_eq_false_2 by done. rewrite decide_False by (by intros [_ ?]).
      rewrite decide_True, app_nil_r by done. split; [done|]. rewrite app_assoc. congruence.
Qed.

Lemma promised_disconnecting d r queued direct posted :
  promised kConnected d r queued direct posted -> promised kDisconnecting d r queued direct posted.
Proof. intros [-> <-]. done. Qed.

(** The handler of the connection shuts it down. *)
Lemma stream_shutdown c hist tc :
  stream_inv c hist tc ->
  stream_inv c (hist ++ [(loop c, (c, RtmpServer.Shutdown))]) (shutdown (bool_decide (loop c = loop c)) tc).
Proof.
  rewrite bool_decide_eq_true_2 by done. intros Hi.
  assert (stream_inv c (hist ++ [(loop c, (c, RtmpServer.Shutdown))]) tc) as Hi'.
  { destruct Hi as [H2 (queued & d & r & Q)]. split; [done..|]. exists queued, d, r.
    rewrite !sent_from_snoc. by destruct (decide _), (decide _); rewrite !app_nil_r. }
  unfold shutdown. destruct (decide (state_ tc = kConnected)) as [Hs|Hs]; [|by rewrite bool_decide_eq_false_2].
  rewrite bool_decide_eq_true_2 by done. eapply stream_accepts; [apply accepts_shutdownInLoop|].
  destruct Hi' as [H2 (queued & d & r & Q1 & Q2 & Q3 & Q4 & Q5)]. split; [done..|].
  exists queued, d, r. rewrite Hs in Q5. split_and!; try done. by apply promised_disconnecting.
Qed.

(** A functor of the connection runs in its loop. *)
Lemma stream_functor c hist tc : stream_inv c hist tc -> stream_inv c hist (step callbacks_ RunFunctor tc).
Proof.
  intros Hi. pose proof Hi as [H2 (queued & d & r & Q1 & Q2 & Q3 & Q4 & Q5)]. cbn [step].
  destruct queued as [|m queued]; rewrite Q1; cbn [fmap list_fmap]; [done|]. cbn [run_functor].
  apply Forall_cons in Q2 as [Hm Q2]. specialize (Q3 ltac:(done)).
  set (tc1 := set_queue _ tc). destruct (decide (state_ tc = kDisconnected)) as [Hs|Hs].
  - assert (sendInLoop callbacks_ m tc1 = tc1) as -> by (unfold sendInLoop; by rewrite bool_decide_eq_true_2).
    split; [done..|]. exists queued, d, r. rewrite Hs in Q5. cbn. rewrite Hs. by split_and!.
  - destruct (accepts_sendInLoop m tc1) as [A1 A2 A3 A5]; [done..|].
    assert (given (log tc1) = given (log tc)) as A6 by done.
    split; rewrite A5, A6.
    + by apply hello_first_message.
    + exists queued, d, (r ++ [m]). rewrite A1, A3. split_and!; [done|done| |by apply merge_right|].
      * intros _ [_ ?]%app_eq_nil. done.
      * change (state_ tc1) with (state_ tc). unfold promised in *.
        destruct (state_ tc); rewrite <- ?app_assoc; try done.
Qed.

(** The connection goes down. *)
Lemma stream_down c hist u tc : state_ tc <> kConnecting -> stream_inv c hist tc -> stream_inv c hist (down u tc).
Proof.
  intros Hs [H2 (queued & d & r & Q1 & Q2 & Q3 & Q4 & Q5)].
  assert (given (log (down u tc)) = given (log tc)) as E by (cbn; by rewrite given_app, app_nil_r).
  split; rewrite ?E; [done..|]. exists queued, d, r. split_and!; try done. cbn.
  assert (forall (l k m : list bytes), l ++ k `prefix_of` m -> l `prefix_of` m) as Hp
    by (intros l k m [x ->]; exists (k ++ x); by rewrite <- app_assoc).
  destruct (state_ tc); cbn in Q5; try done; destruct Q5 as [Q5 Q6]; (split; [|eapply Hp]).
  - by rewrite Q5.
  - by rewrite Q6.
  - done.
  - done.
Qed.

Lemma stream_emit c hist e tc : (forall d, e <> Accepted d /\ e <> Dropped d) -> stream_inv c hist tc -> stream_inv c hist (emit e tc).
Proof.
  intros He. apply stream_accepts. split; try done. cbn. rewrite given_app.
  destruct e; try done; by destruct (He data).
Qed.

Lemma stream_handleClose c hist tc : up tc -> stream_inv c hist tc -> stream_inv c hist (handleClose callbacks_ tc).
Proof.
  intros Hup Hi. unfold handleClose. destruct (call_connection_down callbacks_ tc) as [u ->].
  apply stream_emit; [done|]. by apply stream_down; [apply not_up_down|].
Qed.

End connection.

(** ** The whole system *)

Lemma greeted_hello_first h blocks : greeted h blocks -> hello_first blocks.
Proof.
  destruct h; cbn; [by left|done| |].
  - intros (hello & ? & ->). right. exists hello, []. by split_and!; [|apply Forall_nil_2|].
  - intros (hello & ms & ? & ? & ->). right. by exists hello, ms.
Qed.

(** The next message of a connection, whatever follows. *)
Lemma greeted_next h acc d rest :
  greeted h (acc ++ d :: rest) -> (is_message d /\ acc <> []) \/ (is_hello d /\ acc = []).
Proof.
  intros [E|(hello & ms & Hh & Hms & E)]%greeted_hello_first; [by destruct acc|].
  destruct acc as [|a acc]; cbn in E; injection E as <- E; [by right|]. left. subst ms.
  by apply Forall_app in Hms as [_ [? _]%Forall_cons].
Qed.

Lemma greeted_move h acc q d rest :
  greeted h (acc ++ q ++ d :: rest) -> (q <> [] -> acc <> []) -> greeted h (acc ++ d :: q ++ rest).
Proof.
  intros Hg Hne. destruct q as [|b q]; [done|]. destruct acc as [|a acc]; [by destruct Hne|].
  destruct h; cbn in *; [done|done| |].
  - destruct Hg as (hello & _ & [= _ E]). by destruct acc.
  - destruct Hg as (hello & ms & Hh & Hms & [= -> <-]). exists hello, (acc ++ d :: b :: q ++ rest).
    split_and!; [done| |done]. revert Hms. rewrite !Forall_app, !Forall_cons, !Forall_app, !Forall_cons. tauto.
Qed.

Lemma sent_to_cons c c' o outs :
  sent_to c ((c', o) :: outs) =
  (if decide (c' = c) then match o with RtmpServer.Send d => [d] | RtmpServer.Shutdown => [] end else []) ++ sent_to c outs.
Proof. unfold sent_to. cbn. destruct (decide (c' = c)); [by destruct o|done]. Qed.

Section system.
Context {B : Type} `{ByteBufferLaws B} (auth : option (bytes -> bytes -> bool -> bool)) (loop : conn_ptr -> nat).
Abbreviation tcp_conn := (TcpConnection.t B unit).
Abbreviation callbacks_ := (server_callbacks (B := B) no_message).
Implicit Types (n : net B) (tc : tcp_conn).

(** The TCP connection and what the RTMP server has of it agree. *)
Definition in_step (w : world B) (c : conn_ptr) tc : Prop :=
  match contexts w !! c with
  | Some _ => up tc /\ buffers w !! c = Some (inputBuffer_ tc)
  | None => state_ tc = kDisconnected
  end.

(** What the connection has taken on and what still waits in its loop. *)
Definition due tc : list bytes := given (log tc) ++ waiting (queue tc).

Record conn_ok n (c : conn_ptr) tc : Prop := {
  co_inv : inv tc;
  co_stream : stream_inv loop c (history n) tc;
  co_connected : state_ tc = kConnected <-> c ∈ RtmpServer.connected (srv (rtmp n));
  co_in_step : in_step (rtmp n) c tc;
  co_greeted x : state_ tc = kConnected -> contexts (rtmp n) !! c = Some x ->
    greeted (RtmpConnectionContext.handshake_ x) (due tc);
}.

Record net_ok n : Prop := {
  no_reachable : RtmpServerSystem.reachable auth (rtmp n) (dom (tcp n));
  no_history : snd <$> history n = outputs (srv (rtmp n));
  no_conns c tc : tcp n !! c = Some tc -> conn_ok n c tc;
}.

(** *** Sending *)

Lemma send_state b d tc : inv tc -> state_ (send callbacks_ b d tc) = state_ tc.
Proof.
  intros Hi. unfold send. destruct (bool_decide _); [|done]. destruct b; [by apply sendInLoop_state|done].
Qed.

Lemma send_frame b d tc :
  inv tc ->
  inputBuffer_ (send callbacks_ b d tc) = inputBuffer_ tc /\
  given (log (send callbacks_ b d tc)) =
    given (log tc) ++ (if bool_decide (state_ tc = kConnected) && b then [d] else []) /\
  waiting (queue (send callbacks_ b d tc)) =
    waiting (queue tc) ++ (if bool_decide (state_ tc = kConnected) && negb b then [d] else []).
Proof.
  intros Hi. unfold send. destruct (decide (state_ tc = kConnected)) as [Hs|Hs].
  - rewrite bool_decide_eq_true_2 by done. destruct b; cbn [andb negb]; rewrite ?app_nil_r.
    + destruct (accepts_sendInLoop d tc) as [_ ? E ?]; [by rewrite Hs|]. by rewrite E.
    + split_and!; [done|done|]. cbn. unfold waiting. by rewrite omap_app.
  - rewrite bool_decide_eq_false_2 by done. by rewrite !app_nil_r.
Qed.

Lemma waiting_accepted c hist tc : stream_inv loop c hist tc -> waiting (queue tc) <> [] -> given (log tc) <> [].
Proof. intros [_ (queued & d & r & -> & _ & Hq & _)]. by rewrite waiting_sends. Qed.

(** While the calls [outs] of a handler of [c] are being made. *)
Definition during (w : world B) (c : conn_ptr) (outs : list (conn_ptr * output)) (conns : gset conn_ptr)
    (hist : list (nat * (conn_ptr * output))) (m : gmap conn_ptr tcp_conn) : Prop :=
  forall c' tc, m !! c' = Some tc ->
    inv tc /\ stream_inv loop c' hist tc /\ (state_ tc = kConnected <-> c' ∈ conns) /\ in_step w c' tc /\
    (state_ tc = kConnected ->
       (forall x, contexts w !! c' = Some x ->
          greeted (RtmpConnectionContext.handshake_ x) (due tc ++ sent_to c' outs)) /\
       (c' <> c -> sent_to c' outs <> [] -> given (log tc) <> [])).

Lemma during_send w c c0 d outs conns hist m :
  during w c ((c0, RtmpServer.Send d) :: outs) conns hist m ->
  during w c outs conns (hist ++ [(loop c, (c0, RtmpServer.Send d))])
    (deliver loop (loop c) m (c0, RtmpServer.Send d)).
Proof.
  intros Hd c' tc' Hl. unfold deliver in Hl. cbn [fst snd] in Hl.
  apply lookup_alter_Some in Hl as [(<- & tc & Hl & ->)|[Hne Hl]].
  - destruct (Hd c0 tc Hl) as (H1 & H2 & H3 & H4 & H5). rewrite sent_to_cons, decide_True in H5 by done. cbn in H5.
    assert (state_ tc = kConnected -> exists x, contexts w !! c0 = Some x) as Hx.
    { intros Hs. unfold in_step in H4. destruct (contexts w !! c0) as [x|]; [by exists x|congruence]. }
    assert (state_ tc = kConnected ->
      (is_message d /\ given (log tc) <> []) \/ (is_hello d /\ given (log tc) = [] /\ loop c = loop c0)) as Hd0.
    { intros Hs. destruct (H5 Hs) as [Hg Hne]. destruct (Hx Hs) as [x Hx0]. specialize (Hg x Hx0).
      assert (due tc <> [] -> given (log tc) <> []) as Hdue.
      { unfold due. intros Hn Ha. rewrite Ha in Hn. by apply (waiting_accepted _ _ _ H2). }
      apply greeted_next in Hg as [[? ?]|[? E]]; [by left; auto|].
      destruct (decide (c0 = c)) as [->|Hc]; [right; by apply app_eq_nil in E as [? _]|].
      left. apply app_eq_nil in E as [E _]. by specialize (Hne Hc ltac:(done)). }
    destruct (send_frame (bool_decide (loop c = loop c0)) d tc H1) as (F1 & F2 & F3).
    pose proof (send_state (bool_decide (loop c = loop c0)) d tc H1) as Hst.
    split_and!; [by apply inv_send|by apply stream_send|by rewrite Hst| |].
    + unfold in_step, up in *. by rewrite Hst, F1.
    + unfold due. rewrite Hst, F2, F3. intros Hs. rewrite (bool_decide_eq_true_2 (state_ tc = kConnected)) by done.
      cbn [andb]. destruct (H5 Hs) as [Hg Hne]. case_bool_decide as Hloop; cbn [negb]; rewrite app_nil_r.
      * split; [|intros _ _ [_ ?]%app_eq_nil; done]. intros x Hx0. rewrite <- !app_assoc. cbn [app].
        apply greeted_move; [|by eapply waiting_accepted]. rewrite app_assoc. by apply Hg.
      * split; [|intros Hc _; by apply Hne]. intros x Hx0. rewrite <- !app_assoc. cbn [app].
        rewrite app_assoc. by apply Hg.
  - destruct (Hd c' tc' Hl) as (H1 & H2 & H3 & H4 & H5). rewrite sent_to_cons, decide_False in H5 by done. cbn in H5.
    split_and!; [done|by apply stream_other|done..].
Qed.

Lemma during_sends w c outs rest conns hist m :
  Forall (fun o => exists d, o.2 = RtmpServer.Send d) outs ->
  during w c (outs ++ rest) conns hist m ->
  during w c rest conns (hist ++ ((fun o => (loop c, o)) <$> outs)) (foldl (deliver loop (loop c)) m outs).
Proof.
  intros Ho. revert hist m. induction Ho as [|[c0 o] outs [d Hd] _ IH]; intros hist m Hdur; cbn in *.
  - by rewrite app_nil_r.
  - subst o. rewrite cons_middle, app_assoc. by apply IH, during_send.
Qed.

(** The handler of [c] failed: it shuts the connection down. *)
Lemma during_shutdown w c conns hist m :
  during w c [(c, RtmpServer.Shutdown)] conns hist m ->
  during w c [] (conns ∖ {[c]}) (hist ++ [(loop c, (c, RtmpServer.Shutdown))])
    (deliver loop (loop c) m (c, RtmpServer.Shutdown)).
Proof.
  intros Hd c' tc' Hl. unfold deliver in Hl. cbn [fst snd] in Hl.
  apply lookup_alter_Some in Hl as [(<- & tc & Hl & ->)|[Hne Hl]].
  - destruct (Hd c tc Hl) as (H1 & H2 & H3 & H4 & H5).
    assert (state_ (shutdown (bool_decide (loop c = loop c)) tc) =
            match state_ tc with kConnected => kDisconnecting | s => s end) as Hst.
    { rewrite bool_decide_eq_true_2 by done. unfold shutdown. destruct (decide (state_ tc = kConnected)) as [E|E].
      - rewrite bool_decide_eq_true_2, E by done. unfold shutdownInLoop. by destruct (negb _).
      - rewrite bool_decide_eq_false_2 by done. by destruct (state_ tc). }
    split_and!; [by apply inv_shutdown|by apply stream_shutdown| | |].
    + rewrite Hst. split; [by destruct (state_ tc)|set_solver].
    + unfold in_step, up in *.
      assert (inputBuffer_ (shutdown (bool_decide (loop c = loop c)) tc) = inputBuffer_ tc) as ->.
      { rewrite bool_decide_eq_true_2 by done. unfold shutdown. destruct (bool_decide (state_ tc = kConnected)); [|reflexivity].
        unfold shutdownInLoop. by destruct (negb _). }
      rewrite Hst. destruct (contexts w !! c); destruct (state_ tc); naive_solver.
    + rewrite Hst. by destruct (state_ tc).
  - destruct (Hd c' tc' Hl) as (H1 & H2 & H3 & H4 & H5). rewrite sent_to_cons, decide_False in H5 by done. cbn in H5.
    split_and!; [done|by apply stream_other|set_solver|done|done].
Qed.

(** *** The steps *)

Lemma sent_from_unseen own (seen : gset conn_ptr) c hist :
  Forall (fun o => o.1 ∈ seen) (snd <$> hist) -> c ∉ seen -> sent_from loop own c hist = [].
Proof.
  intros Ho Hc. unfold sent_from. eapply sent_to_unseen; [|done].
  apply Forall_fmap. apply Forall_fmap in Ho. apply Forall_forall. intros e [_ He]%list_elem_of_filter.
  by apply (proj1 (Forall_forall _ _) Ho).
Qed.

(** A connection that a step does not concern. *)
Lemma conn_ok_other n n' c tc :
  history n' = history n -> contexts (rtmp n') !! c = contexts (rtmp n) !! c ->
  buffers (rtmp n') !! c = buffers (rtmp n) !! c ->
  (c ∈ RtmpServer.connected (srv (rtmp n')) <-> c ∈ RtmpServer.connected (srv (rtmp n))) ->
  conn_ok n c tc -> conn_ok n' c tc.
Proof.
  intros E1 E2 E3 E4 [H1 H2 H3 H4 H5]. split; rewrite ?E1, ?E2, ?E4; try done.
  unfold in_step. by rewrite E2, E3.
Qed.

Lemma net_connect_ok c sockfd ks n :
  (forall c', c' ∈ dom (tcp n) -> conn_name c' <> conn_name c) ->
  net_ok n -> net_ok (net_connect c sockfd ks n).
Proof.
  intros Hnew [H1 H2 H3].
  assert (c ∉ dom (tcp n)) as Hc by (intros Hin; by apply (Hnew c Hin)).
  split; cbn [rtmp tcp history net_connect].
  - rewrite dom_insert_L. eapply RtmpServerSystem.reachable_step; [exact H1|]. by apply step_connect.
  - done.
  - intros c' tc [[<- <-]|[Hne Hl]]%lookup_insert_Some.
    + pose proof (wt_targets _ _ (reachable_typed auth _ _ H1)) as Ht. rewrite <- H2 in Ht.
      pose proof (sent_from_unseen true _ c _ Ht Hc) as Hs1. pose proof (sent_from_unseen false _ c _ Ht Hc) as Hs2.
      split; cbn [rtmp history net_connect net_close on_tcp].
      * apply inv_connectEstablished; [done|apply inv_make].
      * split; [by left|]. exists [], [], []. rewrite Hs1, Hs2.
        split_and!; [done|apply Forall_nil_2|done|apply merge_nil|by split].
      * split; [intros _; cbn; set_solver|done].
      * unfold in_step. cbn. rewrite !lookup_insert_eq. split; [by left|done].
      * cbn. intros x _. rewrite lookup_insert_eq. by intros [= <-].
    + apply (conn_ok_other n); [done|cbn; by rewrite lookup_insert_ne..|cbn; set_solver|by apply H3].
Qed.

(** A step of a TCP connection alone. *)
Lemma on_tcp_ok f c n :
  net_ok n ->
  (forall tc, tcp n !! c = Some tc -> conn_ok n c tc ->
     inv (f tc) /\ stream_inv loop c (history n) (f tc) /\ state_ (f tc) = state_ tc /\
     inputBuffer_ (f tc) = inputBuffer_ tc /\ (state_ tc = kConnected -> due (f tc) = due tc)) ->
  net_ok (on_tcp f c n).
Proof.
  intros [H1 H2 H3] Hf. split; cbn [rtmp tcp history on_tcp]; [by rewrite dom_alter_L|done|].
  intros c' tc' [(<- & tc & Hl & ->)|[Hne Hl]]%lookup_alter_Some.
  - destruct (Hf tc Hl (H3 c tc Hl)) as (F1 & F2 & F3 & F4 & F5). destruct (H3 c tc Hl) as [G1 G2 G3 G4 G5].
    split; cbn [rtmp history net_connect net_close on_tcp]; [done|done|by rewrite F3| |].
    + unfold in_step, up in *. by rewrite F3, F4.
    + rewrite F3. intros x Hs Hx. rewrite F5 by done. by apply G5.
  - by apply (conn_ok_other n); [..|apply H3].
Qed.

Lemma accepts_due tc tc' : accepts [] tc tc' -> due tc' = due tc.
Proof. intros [_ _ E1 E2]. unfold due. by rewrite E1, E2, app_nil_r. Qed.

Lemma net_write_ok c n : net_ok n -> net_ok (on_tcp (handleWrite callbacks_) c n).
Proof.
  intros Hn. apply on_tcp_ok; [done|]. intros tc _ [G1 G2 _ _ _].
  pose proof (accepts_handleWrite tc) as Ha.
  split_and!; [by apply inv_handleWrite|by eapply stream_accepts|apply Ha|apply Ha|by intros _; apply accepts_due].
Qed.

Lemma net_revents_ok revents c tc n :
  tcp n !! c = Some tc -> net_ok n ->
  net_ok (on_tcp (fun _ => set_channel (Channel.set_revents revents) tc) c n).
Proof.
  intros Hl Hn. apply on_tcp_ok; [done|]. intros tc0 Hl0 [G1 G2 _ _ _]. assert (tc0 = tc) as -> by congruence.
  split_and!; [apply inv_set_channel; try done| |done..].
  - destruct G2 as [_ (? & ? & ? & _ & _ & _ & _ & Hp)]. by destruct (state_ tc).
  - eapply stream_accepts, G2. split; try done. by rewrite app_nil_r.
Qed.

Lemma net_functor_ok c n : net_ok n -> net_ok (on_tcp (step callbacks_ RunFunctor) c n).
Proof.
  intros Hn. apply on_tcp_ok; [done|]. intros tc _ [G1 G2 G3 _ _].
  assert (inv (step callbacks_ RunFunctor tc)) as Hi by (by apply inv_step).
  pose proof (stream_functor loop c _ tc G2) as Hs. split_and!; [done|done|..]; clear Hi Hs.
  all: pose proof G2 as [_ (queued & d & r & Q1 & _ & _ & _ & Hp)]; cbn [step]; rewrite Q1;
    destruct queued as [|m queued]; cbn [fmap list_fmap run_functor]; [done|].
  all: destruct (decide (state_ tc = kDisconnected)) as [Hs|Hs];
    [unfold sendInLoop; rewrite bool_decide_eq_true_2 by done; cbn; try congruence|].
  all: destruct (accepts_sendInLoop m (set_queue (SendInLoop <$> queued) tc)) as [A1 A2 A3 A5]; [done..|].
  - exact A1.
  - exact A2.
  - intros _. assert (waiting (queue tc) = m :: queued) as E by (rewrite Q1; apply (waiting_sends (m :: queued))).
    unfold due. rewrite A3, A5, E. cbn [queue set_queue log]. by rewrite (waiting_sends queued), <- app_assoc.
Qed.

Lemma net_destroyed_ok c tc n :
  tcp n !! c = Some tc -> state_ tc = kDisconnected -> net_ok n ->
  net_ok (on_tcp (connectDestroyed callbacks_) c n).
Proof.
  intros Hl Hs Hn. apply on_tcp_ok; [done|]. intros tc0 Hl0 [G1 G2 _ _ _]. assert (tc0 = tc) as -> by congruence.
  assert (connectDestroyed callbacks_ tc = set_channel Channel.remove tc) as ->.
  { unfold connectDestroyed. by rewrite bool_decide_eq_false_2 by (by rewrite Hs). }
  split_and!; [apply inv_set_channel; [by rewrite Hs|done|done]| |done..].
  eapply stream_accepts, G2. split; try done. by rewrite app_nil_r.
Qed.

Lemma net_close_ok c tc n : tcp n !! c = Some tc -> up tc -> net_ok n -> net_ok (net_close c n).
Proof.
  intros Hl Hup [H1 H2 H3]. pose proof (H3 c tc Hl) as [G1 G2 G3 G4 G5].
  assert (is_Some (contexts (rtmp n) !! c)) as Hx.
  { unfold in_step in G4. destruct (contexts (rtmp n) !! c); [by eexists|]. by destruct Hup; congruence. }
  assert (RtmpServer.connected (srv (onDisconnected c (rtmp n))) = RtmpServer.connected (srv (rtmp n)) ∖ {[c]} /\
          outputs (srv (onDisconnected c (rtmp n))) = outputs (srv (rtmp n))) as [Ec Eo].
  { unfold onDisconnected, cleanupConnection. cbn [srv]. destruct (contexts (rtmp n) !! c); [|done].
    destruct (_ =? 0); [done|]. by destruct (RtmpSessionManager.find _ _). }
  split; cbn [rtmp tcp history net_close].
  - rewrite dom_alter_L. eapply RtmpServerSystem.reachable_step; [exact H1|]. by apply step_disconnect.
  - by rewrite Eo.
  - intros c' tc' [(<- & tc0 & Hl0 & ->)|[Hne Hl0]]%lookup_alter_Some.
    + assert (tc0 = tc) as -> by congruence. split; cbn [rtmp history net_connect net_close on_tcp].
      * by apply inv_handleClose.
      * by apply stream_handleClose.
      * rewrite handleClose_down, Ec. split; [done|set_solver].
      * unfold in_step. cbn [contexts onDisconnected]. rewrite lookup_delete_eq. apply handleClose_down.
      * by rewrite handleClose_down.
    + apply (conn_ok_other n); [done|cbn; by rewrite lookup_delete_ne..|cbn -[onDisconnected]; rewrite Ec; set_solver|by apply H3].
Qed.

Lemma dom_delivers l outs (m : gmap conn_ptr tcp_conn) : dom (foldl (deliver loop l) m outs) = dom m.
Proof.
  revert m. induction outs as [|o outs IH]; intros m; cbn; [done|]. rewrite IH. apply dom_alter_L.
Qed.

Lemma sent_to_shutdown c c' outs : sent_to c (outs ++ [(c', RtmpServer.Shutdown)]) = sent_to c outs.
Proof. rewrite sent_to_app, sent_to_cons. destruct (decide _); by rewrite app_nil_r. Qed.

Lemma during_conn_ok w c hist m c' tc :
  during w c [] (RtmpServer.connected (srv w)) hist m -> m !! c' = Some tc ->
  conn_ok (mkNet w m hist) c' tc.
Proof.
  intros Hd Hl. destruct (Hd c' tc Hl) as (H1 & H2 & H3 & H4 & H5). split; try done.
  cbn. intros x Hs Hx. destruct (H5 Hs) as [Hg _]. specialize (Hg x Hx). cbn in Hg. by rewrite app_nil_r in Hg.
Qed.

(** The connections when the calls of a handler begin. *)
Lemma during_start n c tc w' buf' hello msgs last :
  net_ok n -> tcp n !! c = Some tc -> up tc -> is_Some (contexts (rtmp n) !! c) ->
  is_Some (contexts w' !! c) -> buffers w' !! c = Some buf' ->
  (forall c', c' <> c -> contexts w' !! c' = contexts (rtmp n) !! c' /\ buffers w' !! c' = buffers (rtmp n) !! c') ->
  (hello = [] \/ exists d, hello = [(c, RtmpServer.Send d)]) ->
  Forall (message_to (may_hear (dom (tcp n)) (contexts w'))) msgs -> (last = [] \/ last = [(c, RtmpServer.Shutdown)]) ->
  (forall x x' sent, contexts (rtmp n) !! c = Some x -> contexts w' !! c = Some x' ->
     greeted (RtmpConnectionContext.handshake_ x) sent ->
     greeted (RtmpConnectionContext.handshake_ x') (sent ++ sent_to c (hello ++ msgs))) ->
  during w' c ((hello ++ msgs) ++ last) (RtmpServer.connected (srv (rtmp n))) (history n)
    (<[c := emit CalledMessage (set_input buf' tc)]> (tcp n)).
Proof.
  intros [_ _ Hconns] Hl Hup [x Hx] [x' Hx'] Hbuf Hothers Hhello Hmsgs Hlast Hgr.
  assert (forall c', sent_to c' ((hello ++ msgs) ++ last) = sent_to c' (hello ++ msgs)) as Elast.
  { intros c'. destruct Hlast as [->| ->]; [by rewrite app_nil_r|apply sent_to_shutdown]. }
  intros c' tc' [[<- <-]|[Hne Hl']]%lookup_insert_Some.
  - destruct (Hconns c tc Hl) as [G1 G2 G3 G4 G5]. split_and!.
    + apply (inv_message (context_ tc) buf' tc Hup G1).
    + apply stream_emit; [done|]. by destruct G2; split.
    + exact G3.
    + unfold in_step. rewrite Hx'. split; [exact Hup|done].
    + intros Hs. split; [|done]. intros y Hy. simplify_eq. rewrite Elast.
      assert (due (emit CalledMessage (set_input buf' tc)) = due tc) as ->
        by (unfold due; cbn; by rewrite given_app, app_nil_r).
      eapply Hgr; [done..|]. by apply G5.
  - destruct (Hothers c' ltac:(done)) as [Ec Eb]. destruct (Hconns c' tc' Hl') as [G1 G2 G3 G4 G5].
    split_and!; [done..|unfold in_step; by rewrite Ec, Eb|]. intros Hs. rewrite Elast.
    assert (sent_to c' hello = []) as Eh by (destruct Hhello as [->|[d ->]]; [done|cbn; by rewrite decide_False]).
    rewrite sent_to_app, Eh. cbn [app]. rewrite Ec.
    assert (forall y, contexts (rtmp n) !! c' = Some y -> sent_to c' msgs <> [] ->
      RtmpConnectionContext.handshake_ y = RtmpTypes.kHandshakeDone) as Hdone.
    { intros y Hy Hn. destruct (decide (RtmpConnectionContext.handshake_ y = RtmpTypes.kHandshakeDone)) as [|Hnd]; [done|].
      destruct Hn. eapply sent_to_others; [exact Hmsgs|]. intros [_ Hd]. apply Hnd, Hd. by rewrite Ec. }
    split.
    + intros y Hy. specialize (G5 y Hs Hy). destruct (decide (sent_to c' msgs = [])) as [->|Hn]; [by rewrite app_nil_r|].
      rewrite (Hdone y Hy Hn) in *. by eapply greeted_done.
    + intros _ Hn. unfold in_step in G4. destruct (contexts (rtmp n) !! c') as [y|] eqn:Hy; [|congruence].
      specialize (G5 y Hs eq_refl). rewrite (Hdone y eq_refl Hn) in G5. destruct G5 as (hello0 & ms & _ & _ & Hdue).
      intros Ha. assert (waiting (queue tc') <> []) as Hw by (unfold due in Hdue; rewrite Ha in Hdue; cbn [app] in Hdue; by rewrite Hdue).
      by apply (waiting_accepted _ _ _ G2 Hw).
Qed.

Lemma net_read_ok rd c tc data n :
  tcp n !! c = Some tc -> up tc -> net_ok n ->
  exists n', net_read auth loop rd c data n = Some n' /\ net_ok n' /\ is_Some (tcp n' !! c).
Proof.
  intros Hl Hup Hn. pose proof Hn as [H1 H2 H3]. destruct (H3 c tc Hl) as [_ _ _ Hstep _]. unfold in_step in Hstep.
  destruct (contexts (rtmp n) !! c) as [x|] eqn:Hx; [|by destruct Hup; congruence]. destruct Hstep as [_ Hbuf].
  assert (is_Some (contexts (rtmp n) !! c)) as Hsome by (by exists x).
  pose proof (reachable_ok auth _ _ H1) as Hw. pose proof (reachable_typed auth _ _ H1) as Hty.
  destruct (bytes_ok _ auth (sound_allowed auth) rd _ _ c data Hsome Hw) as (w' & Hb & _).
  destruct (world_typed_bytes auth rd _ _ c data w' Hsome Hw Hty Hb)
    as (_ & hello & msgs & last & Eo & Hhello & Hmsgs & Hlast & Hgr & Hx' & [buf' Hbuf'] & Hothers).
  unfold net_read. rewrite Hl. cbn [mbind option_bind].
  assert (RtmpServer_onMessage auth true rd c (append data (inputBuffer_ tc)) (rtmp n) = Some w') as Er
    by (revert Hb; unfold onBytes; by rewrite Hbuf).
  rewrite Er. cbn [mbind option_bind]. unfold new_outputs. rewrite Eo, drop_app_length, Hbuf'. cbn [default from_option id].
  eexists. split; [done|]. set (m1 := <[c := _]> (tcp n)). set (outs := (hello ++ msgs) ++ last).
  assert (during w' c [] (RtmpServer.connected (srv w')) (history n ++ ((fun o => (loop c, o)) <$> outs))
            (foldl (deliver loop (loop c)) m1 outs)) as Hd.
  { pose proof (during_start n c tc w' buf' hello msgs last Hn Hl Hup Hsome Hx' Hbuf' Hothers Hhello Hmsgs
                  ltac:(destruct Hlast as [[? _]|[? _]]; auto) Hgr) as Hd. fold m1 in Hd.
    apply during_sends in Hd.
    2: { apply Forall_app. split; [destruct Hhello as [->|[d ->]]; [apply Forall_nil_2|apply Forall_singleton; by exists d]|].
         eapply Forall_impl; [exact Hmsgs|]. intros [c0 [d|]] [_ Hm]; [by exists d|done]. }
    unfold outs. rewrite fmap_app, app_assoc, foldl_app.
    destruct Hlast as [[-> ->]|[-> ->]]; [by rewrite app_nil_r|]. by apply during_shutdown in Hd. }
  assert (dom (foldl (deliver loop (loop c)) m1 outs) = dom (tcp n)) as Edom.
  { rewrite dom_delivers. unfold m1. rewrite dom_insert_L. apply elem_of_dom_2 in Hl. set_solver. }
  split; [split; cbn [rtmp tcp history]|].
  - rewrite Edom. eapply RtmpServerSystem.reachable_step; [exact H1|]. by eapply step_bytes.
  - rewrite fmap_app, H2, Eo, <- list_fmap_compose. f_equal. by rewrite list_fmap_id.
  - intros c' tc' Hl'. by eapply during_conn_ok.
  - cbn [tcp]. apply elem_of_dom. rewrite Edom. by apply elem_of_dom_2 in Hl.
Qed.

(** *** A report of the poller *)

Lemma net_callbacks_app rd res c cbs1 cbs2 n :
  net_callbacks auth loop rd res c (cbs1 ++ cbs2) n =
  n' ← net_callbacks auth loop rd res c cbs1 n; net_callbacks auth loop rd res c cbs2 n'.
Proof.
  revert n. induction cbs1 as [|cb cbs1 IH]; intros n; cbn; [done|].
  destruct (net_callback _ _ _ _ _ _ _) as [n1|]; cbn; [apply IH|done].
Qed.

Lemma net_poll_ok rd revents res c tc n :
  tcp n !! c = Some tc -> enabled (Polled revents res) tc = true -> net_ok n ->
  exists n', net_poll auth loop rd revents res c n = Some n' /\ net_ok n'.
Proof.
  intros Hl He Hn. pose proof (co_inv _ _ _ (no_conns _ Hn c tc Hl)) as Hi.
  pose proof (polled_up revents res tc He Hi) as Hup. unfold net_poll. rewrite Hl. cbn [mbind option_bind].
  set (tc1 := set_channel (Channel.set_revents revents) tc).
  pose proof (net_revents_ok revents c tc n Hl Hn) as Hn1. fold tc1 in Hn1.
  set (n1 := on_tcp (fun _ => tc1) c n) in *.
  assert (tcp n1 !! c = Some tc1) as Hl1 by (cbn; rewrite lookup_alter_eq; by rewrite Hl).
  assert (up tc1) as Hup1 by exact Hup.
  assert (exists n', net_callback auth loop rd res c n1 Channel.ReadCallback = Some n' /\ net_ok n') as Hread.
  { destruct res as [e|[|b data]]; cbn [net_callback].
    - by exists n1.
    - exists (net_close c n1). split; [done|by eapply net_close_ok].
    - destruct (net_read_ok rd c tc1 (b :: data) n1 Hl1 Hup1 Hn1) as (n' & ? & ? & _). by exists n'. }
  assert (Channel.handleEvent true (channel_ tc1) =
          Channel.handleEventWithGuard (Channel.set_revents revents (channel_ tc))) as -> by apply Channel.handleEvent_alive.
  apply andb_true_iff in He as [_ Hsane%negb_true_iff].
  unfold Channel.handleEventWithGuard. cbn [Channel.revents_ Channel.set_revents].
  rewrite !net_callbacks_app.
  assert (forall (b : bool) n0, net_ok n0 -> exists n',
    net_callbacks auth loop rd res c (if b then [Channel.WriteCallback] else []) n0 = Some n' /\ net_ok n') as Hwrite.
  { intros [] n0 Hn0; cbn; [|by exists n0]. eexists. split; [done|by apply net_write_ok]. }
  destruct (has revents EPOLLHUP && negb (has revents EPOLLIN)) eqn:Eclose.
  - assert (has revents (Z.lor EPOLLIN EPOLLPRI) = false) as ->.
    { apply andb_true_iff in Eclose as [_ Ein%negb_true_iff]. cbn [andb] in Hsane.
      unfold has in *. apply negb_false_iff, Z.eqb_eq. apply negb_false_iff, Z.eqb_eq in Ein, Hsane.
      by rewrite Z.land_lor_distr_r, Ein, Hsane. }
    pose proof (net_close_ok c tc1 n1 Hl1 Hup1 Hn1) as Hc.
    destruct (has revents EPOLLERR); cbn; by apply Hwrite.
  - assert (net_callback auth loop rd res c n1 Channel.ErrorCallback = Some n1) as Ee by done.
    destruct Hread as (n' & Er & Hn'). destruct (has revents EPOLLERR), (has revents (Z.lor EPOLLIN EPOLLPRI));
      do 3 (cbn [net_callbacks app mbind option_bind]; rewrite ?Ee, ?Er); by apply Hwrite.
Qed.

Lemma net_reachable_ok n : net_reachable auth loop n -> net_ok n.
Proof.
  induction 1 as [|n n' _ IH Hs].
  - split; cbn; [rewrite dom_empty_L; apply RtmpServerSystem.reachable_initial|done|].
    intros c tc. by rewrite lookup_empty.
  - destruct Hs as [c sockfd ks n Hnew|rd revents res c tc n n' Hl He Hp|c n|c tc n Hl Hs].
    + by apply net_connect_ok.
    + destruct (net_poll_ok rd revents res c tc n Hl He IH) as (n1 & E & ?). congruence.
    + by apply net_functor_ok.
    + by eapply net_destroyed_ok.
Qed.

End system.

(** ** The client's side *)

Section client.
Import RtmpChunkParser.
Context {B : Type} `{ByteBuffer B}.

(** The parser only adds messages. *)
Lemma parseOneChunk_grows p (buf : B) ms : ms `prefix_of` (parseOneChunk p buf ms).2.
Proof.
  unfold parseOneChunk. destruct (parseBasicHeader _) as [[[fmt csid] n]|]; [|done]. destruct (n =? 0); [done|].
  destruct (parseMessageHeader _ _ _) as [[st s] k]. destruct st; [|done..]. destruct (_ && _); [done|].
  destruct (negb _); [done|]. unfold take_payload, reads. destruct (_ <? _); [done|]. destruct (_ <? _); [done|].
  destruct (copy_into _ _ _); [|done]. destruct (_ =? _)%Z; [by eexists|done].
Qed.

Lemma parse_grows p (buf : B) ms st p' buf' ms' : parse p buf ms = Some (st, p', buf', ms') -> ms `prefix_of` ms'.
Proof.
  unfold parse. generalize (S (readableBytes buf)) as fuel. intros fuel. revert p buf ms.
  induction fuel as [|fuel IH]; intros p buf ms; cbn [parse_fuel]; [done|].
  destruct (0 <? _); [|by intros [= <- <- <- <-]]. pose proof (parseOneChunk_grows p buf ms) as Hg.
  destruct (parseOneChunk p buf ms) as [[[st1 p1] buf1] ms1]. cbn in Hg.
  destruct st1; [|by intros [= <- <- <- <-]..]. destruct (_ =? _); [by intros [= <- <- <- <-]|].
  intros Hr%IH. by etrans.
Qed.

Lemma deliveries_app evs1 evs2 p (buf : B) ms :
  deliveries (evs1 ++ evs2) p buf ms =
  r ← deliveries evs1 p buf ms;
  match r with (Done, p1, buf1, ms1) => deliveries evs2 p1 buf1 ms1 | _ => Some r end.
Proof.
  revert p buf ms. induction evs1 as [|[data|size] evs1 IH]; intros p buf ms; cbn [app deliveries]; [done| |apply IH].
  destruct (parse p (append data buf) ms) as [[[[st p1] buf1] ms1]|]; cbn; [|done]. destruct st; [apply IH|done..].
Qed.

End client.

(** A client that has received a part of a stream has decoded a part of its
    messages, and all of them when it has received everything. *)
Lemma deliver_part (ms : list RtmpTypes.RtmpMessage) (segments : list bytes) (rest : bytes) :
  Forall (writer_ok RtmpTypes.kDefaultChunkSize) ms -> concat segments ++ rest = stream RtmpTypes.kDefaultChunkSize ms ->
  exists p' buf' got,
    RtmpChunkParser.deliveries (map RtmpChunkParser.Deliver segments) RtmpChunkParser.initial ([] : bytes) [] =
      Some (RtmpChunkParser.Done, p', buf', got) /\
    got `prefix_of` ms /\ (rest = [] -> got = ms).
Proof.
  intros Hms Hs. assert (0 < RtmpTypes.kDefaultChunkSize)%Z as Hsize by done.
  destruct (decide (rest = [])) as [->|Hrest].
  { rewrite app_nil_r in Hs.
    destruct (deliver_stream (B := bytes) RtmpTypes.kDefaultChunkSize ms segments RtmpChunkParser.initial [])
      as (p' & buf' & Hd & _); [done..|]. by exists p', buf', ms. }
  destruct (deliver_stream (B := bytes) RtmpTypes.kDefaultChunkSize ms (segments ++ [rest]) RtmpChunkParser.initial [])
    as (p' & buf' & Hd & _); [done..|by rewrite concat_app; cbn; rewrite app_nil_r|].
  rewrite map_app, deliveries_app in Hd.
  destruct (RtmpChunkParser.deliveries (map RtmpChunkParser.Deliver segments) _ _ _) as [[[[st p1] buf1] got]|];
    cbn [mbind option_bind] in Hd; [|done].
  destruct st; [|done..]. exists p1, buf1, got. split; [done|]. split; [|done].
  cbn [map RtmpChunkParser.deliveries] in Hd.
  destruct (RtmpChunkParser.parse p1 _ got) as [[[[st2 p2] buf2] ms2]|] eqn:Ep; cbn [mbind option_bind] in Hd; [|done].
  assert (ms2 = ms) as -> by (by destruct st2; simplify_eq). exact (parse_grows _ _ _ _ _ _ _ Ep).
Qed.

Lemma messages_encoded blocks :
  Forall is_message blocks ->
  exists ms, Forall msg_wf ms /\ blocks = (fun m => RtmpChunkWriter.EncodeMessage m RtmpTypes.kDefaultChunkSize) <$> ms.
Proof.
  induction 1 as [|d blocks (m & Hm & ->) _ (ms & Hw & ->)]; [by exists []|].
  exists (m :: ms). split; [by apply Forall_cons|done].
Qed.

(** What was received of an answer and encoded messages, [rest] being still on
    its way. *)
Lemma received_decodes answer ms segments received rest :
  received ++ rest =
    concat (some_bytes answer ++ ((fun m => RtmpChunkWriter.EncodeMessage m RtmpTypes.kDefaultChunkSize) <$> ms)) ->
  concat segments = drop (length answer) received -> Forall (writer_ok RtmpTypes.kDefaultChunkSize) ms ->
  exists p' buf' got,
    RtmpChunkParser.deliveries (map RtmpChunkParser.Deliver segments) RtmpChunkParser.initial ([] : bytes) [] =
      Some (RtmpChunkParser.Done, p', buf', got) /\
    got `prefix_of` ms /\ (rest = [] -> got = ms).
Proof.
  intros Hb Hseg Hw. assert (received ++ rest = answer ++ stream RtmpTypes.kDefaultChunkSize ms) as Hb'.
  { rewrite Hb, concat_app. unfold stream. f_equal. destruct answer; cbn; [done|by rewrite app_nil_r]. }
  destruct (decide (length answer <= length received)) as [Hle|Hgt].
  - destruct (deliver_part ms segments rest Hw) as (p' & buf' & got & ? & ? & ?); [|by exists p', buf', got].
    rewrite Hseg, <- drop_app_le, Hb' by done. by apply drop_app_length.
  - destruct (deliver_part ms segments (stream RtmpTypes.kDefaultChunkSize ms) Hw) as (p' & buf' & got & Hd & Hp & _).
    { rewrite Hseg, drop_ge by lia. done. }
    exists p', buf', got. split_and!; [done..|]. intros ->. rewrite app_nil_r in Hb'. subst received.
    rewrite length_app in Hgt. lia.
Qed.

(** ** The read callback as TcpConnection makes it *)

(** The calls that a handler makes on its own connection. *)
Definition own_calls (c : conn_ptr) (outs : list (conn_ptr * output)) : list action :=
  omap (fun o => if decide (o.1 = c)
                 then Some match o.2 with RtmpServer.Send d => Send d | RtmpServer.Shutdown => Shutdown end
                 else None) outs.

Section read_callback.
Context {B : Type} `{ByteBuffer B} (auth : option (bytes -> bytes -> bool -> bool)) (loop : conn_ptr -> nat).

(** RtmpServer::onMessage as the message callback of [c]. *)
Definition message_callback (rd : nat -> Z) (c : conn_ptr) (w : world B) : unit -> B -> unit * B * list action :=
  fun u buf =>
  match RtmpServer_onMessage auth true rd c buf w with
  | Some w' => (u, default buf (buffers w' !! c), own_calls c (new_outputs w w'))
  | None => (u, buf, [])
  end.

Lemma delivers_own c outs (m : gmap conn_ptr (TcpConnection.t B unit)) f :
  foldl (deliver loop (loop c)) m outs !! c = perform (server_callbacks f) (own_calls c outs) <$> m !! c.
Proof.
  revert m. induction outs as [|[c0 o] outs IH]; intros m; cbn [foldl own_calls omap list_omap].
  { cbn. by destruct (m !! c). }
  rewrite IH. unfold deliver. cbn [fst snd]. destruct (decide (c0 = c)) as [->|Hne].
  - rewrite lookup_alter_eq. rewrite bool_decide_eq_true_2 by done. by destruct (m !! c), o.
  - by rewrite lookup_alter_ne.
Qed.

(** [net_read] is TcpConnection::handleRead with this callback, on the
    connection that reads. *)
Lemma net_read_handleRead rd c data tc n n' :
  data <> [] -> tcp n !! c = Some tc -> net_read auth loop rd c data n = Some n' ->
  tcp n' !! c = Some (handleRead (server_callbacks (message_callback rd c (rtmp n))) (Buffer.ReadData data) tc).
Proof.
  intros Hd Hl. unfold net_read. rewrite Hl. cbn [mbind option_bind].
  destruct (RtmpServer_onMessage _ _ _ _ _ _) as [w'|] eqn:Er; cbn [mbind option_bind]; [|done].
  intros [= <-]. cbn [tcp]. rewrite (delivers_own c _ _ (message_callback rd c (rtmp n))).
  rewrite lookup_insert_eq. cbn [fmap option_fmap option_map]. f_equal.
  destruct data as [|b data]; [done|]. unfold handleRead.
  cbn [messageCallback_ server_callbacks context_ set_input inputBuffer_]. unfold message_callback at 2. by rewrite Er.
Qed.

End read_callback.

(** ** Samples *)

Inductive net_event :=
| NConnect (c : conn_ptr) (sockfd : Z) (kernel : list Buffer.write_result)
| NPoll (c : conn_ptr) (revents : Z) (res : Buffer.read_result)
| NFunctor (c : conn_ptr).

Section run.
Context {B : Type} `{ByteBuffer B} (auth : option (bytes -> bytes -> bool -> bool)) (loop : conn_ptr -> nat) (rd : nat -> Z).

Definition net_event_step (e : net_event) (n : net B) : option (net B) :=
  match e with
  | NConnect c sockfd ks =>
      if forallb (fun c' => negb (bool_decide (conn_name c' = conn_name c))) (elements (dom (tcp n)))
      then Some (net_connect c sockfd ks n) else None
  | NPoll c revents res =>
      tc ← tcp n !! c;
      if enabled (B := B) (U := unit) (Polled revents res) tc then net_poll auth loop rd revents res c n else None
  | NFunctor c => Some (on_tcp (step (server_callbacks no_message) RunFunctor) c n)
  end.

Definition net_events (es : list net_event) : option (net B) :=
  foldl (fun n e => n ← n; net_event_step e n) (Some net_initial) es.

Lemma net_event_reachable e n n' :
  net_event_step e n = Some n' -> net_reachable auth loop n -> net_reachable auth loop n'.
Proof.
  intros He Hn. apply (net_reach_step _ _ n); [done|]. destruct e as [c sockfd ks|c revents res|c]; cbn in He.
  - destruct (forallb _ _) eqn:E; [|done]. injection He as <-. rewrite !forallb_forall in *. apply net_step_connect.
    intros c' Hin%elem_of_elements%list_elem_of_In. by apply E, negb_true_iff, bool_decide_eq_false in Hin.
  - destruct (tcp n !! c) as [tc|] eqn:Hl; cbn in He; [|done].
    match goal with H : (if ?b then _ else _) = _ |- _ => destruct b eqn:E; [|done] end. by eapply net_step_poll.
  - injection He as <-. apply net_step_functor.
Qed.

Lemma net_events_reachable es n : net_events es = Some n -> net_reachable auth loop n.
Proof.
  unfold net_events. assert (forall n0 : net B, Some net_initial = Some n0 -> net_reachable auth loop n0) as Hi
    by (intros n0 [= <-]; apply net_reach_initial).
  revert Hi. generalize (Some (net_initial (B := B))) as o. induction es as [|e es IH]; intros o Hi; cbn; [by apply Hi|].
  apply IH. intros n1. destruct o as [n0|]; cbn; [|done]. intros He. by eapply net_event_reachable, Hi.
Qed.

End run.

(** Alice publishes in one loop, Bob plays in another; Bob's frames are posted
    to his loop, and one has been sent there. *)
Definition frame (payload : bytes) : bytes :=
  RtmpChunkWriter.EncodeMessage (RtmpTypes.mkMessage 0 (Z.of_nat (length payload)) RtmpTypes.kMessageTypeVideo 1 6 payload) 128.

Definition read_event (c : conn_ptr) (data : bytes) : net_event := NPoll c EPOLLIN (Buffer.ReadData data).

Definition sample_net_events : list net_event :=
  [NConnect alice 7 (replicate 9 (Buffer.Written 5000)); read_event alice hello; read_event alice (setup ++ publish "a");
   NConnect bob 8 (replicate 9 (Buffer.Written 5000)); read_event bob hello; read_event bob (setup ++ play "a");
   read_event alice (frame [Byte.x17; Byte.x01]); read_event alice (frame [Byte.x27; Byte.x01]); NFunctor bob].

Definition sample_net : net bytes :=
  default net_initial (net_events None conn_id (fun _ => 0%Z) sample_net_events).

Lemma sample_net_reachable : net_reachable None conn_id sample_net.
Proof.
  unfold sample_net. destruct (net_events _ _ _ _) as [n|] eqn:E; cbn; [|apply net_reach_initial].
  by eapply net_events_reachable.
Qed.

(** ** Properties *)

(** C3 The RTMP server on its connections is the RTMP server of
    RtmpServerSystem, while handlers take turns (a report of the poller, a
    functor and a new connection are one step each; what happens when handlers of
    different loops overlap is RtmpConcurrency).  In whatever order these steps
    come, in however many loops, and whatever the kernel answers, the state of
    the server is one that connections coming up, bytes arriving and connections
    going down lead to; its connections are those that are in state kConnected; a
    connection has a context exactly while it is up, and then its input buffer is
    the one the handlers work on; and every report of the poller is handled. *)
Theorem network_refines_server {B : Type} `{ByteBufferLaws B}
    (auth : option (bytes -> bytes -> bool -> bool)) (loop : conn_ptr -> nat) (n : net B) :
  net_reachable auth loop n ->
  RtmpServerSystem.reachable auth (rtmp n) (dom (tcp n)) /\
  snd <$> history n = outputs (srv (rtmp n)) /\
  forall c tc, tcp n !! c = Some tc ->
    (state_ tc = kConnected <-> c ∈ RtmpServer.connected (srv (rtmp n))) /\
    (up tc <-> is_Some (contexts (rtmp n) !! c)) /\
    (up tc -> buffers (rtmp n) !! c = Some (inputBuffer_ tc)) /\
    (forall rd revents res, enabled (Polled revents res) tc = true ->
       is_Some (net_poll auth loop rd revents res c n)).
Proof.
  intros Hr. apply net_reachable_ok in Hr as Hn. pose proof Hn as [H1 H2 H3]. split_and!; [done..|].
  intros c tc Hl. destruct (H3 c tc Hl) as [G1 G2 G3 G4 _]. unfold in_step in G4. split_and!; [done|..].
  - destruct (contexts (rtmp n) !! c) as [x|].
    + destruct G4 as [? _]. split; [by eexists|done].
    + split; [|by intros [? ?]]. intros Hup. by destruct Hup; congruence.
  - intros Hup. destruct (contexts (rtmp n) !! c); [apply G4|]. by destruct Hup; congruence.
  - intros rd revents res He. destruct (net_poll_ok auth loop rd revents res c tc n Hl He Hn) as (n' & -> & _). by eexists.
Qed.

Lemma network_refines_server_witness :
  RtmpServerSystem.reachable None (rtmp sample_net) (dom (tcp sample_net)) /\
  snd <$> history sample_net = outputs (srv (rtmp sample_net)) /\
  forall c tc, tcp sample_net !! c = Some tc ->
    (state_ tc = kConnected <-> c ∈ RtmpServer.connected (srv (rtmp sample_net))) /\
    (up tc <-> is_Some (contexts (rtmp sample_net) !! c)) /\
    (up tc -> buffers (rtmp sample_net) !! c = Some (inputBuffer_ tc)) /\
    (forall rd revents res, enabled (B := bytes) (U := unit) (Polled revents res) tc = true ->
       is_Some (net_poll None conn_id rd revents res c sample_net)).
Proof. exact (network_refines_server (B := bytes) None conn_id sample_net sample_net_reachable). Defined.

(** C22 Nothing is repeated, reordered or torn between the handlers and the wire,
    and nothing is lost but what the kernel refused: in every reachable state,
    handlers taking turns, what sendInLoop was given are whole calls of [send], a
    merge of those made in the connection's own loop and of those other loops
    posted, each in its order; while the connection is in state kConnected these
    are all the calls there were, except those that still wait in the loop's
    queue, which are the last of the posted ones; after a shutdown or a close they
    are a beginning.  What the kernel took followed by the output buffer is all of
    them, in order, but those whose write failed at once with EPIPE or ECONNRESET,
    which sendInLoop drops silently. *)
Theorem network_delivers {B : Type} `{ByteBufferLaws B}
    (auth : option (bytes -> bytes -> bool -> bool)) (loop : conn_ptr -> nat) (n : net B)
    (c : conn_ptr) (tc : TcpConnection.t B unit) :
  net_reachable auth loop n -> tcp n !! c = Some tc ->
  TcpConnectionFacts.wire (log tc) ++ peek (outputBuffer_ tc) = concat (accepted (log tc)) /\
  accepted (log tc) `sublist_of` given (log tc) /\
  (dropped (log tc) = [] -> accepted (log tc) = given (log tc)) /\
  queue tc = SendInLoop <$> waiting (queue tc) /\
  exists direct posted, merge direct posted (given (log tc)) /\
    direct `prefix_of` sent_from loop true c (history n) /\
    posted `prefix_of` sent_from loop false c (history n) /\
    (state_ tc = kConnected ->
       direct = sent_from loop true c (history n) /\
       posted ++ waiting (queue tc) = sent_from loop false c (history n)).
Proof.
  intros Hr Hl. destruct (no_conns auth loop n (net_reachable_ok auth loop n Hr) c tc Hl) as [[Hcore _] [_ Hf] _ _ _].
  destruct Hf as (queued & d & r & Q1 & _ & _ & Q4 & Q5). split; [apply (core_flow _ Hcore)|].
  split; [apply accepted_given|]. split; [by intros ?%given_accepted|].
  split; [by rewrite Q1, waiting_sends|]. exists d, r. split; [done|].
  rewrite Q1, waiting_sends. destruct (state_ tc); cbn in Q5; [|done|..].
  - destruct Q5. split_and!; done.
  - destruct Q5 as [-> <-]. split_and!; [done|by exists queued|done].
  - destruct Q5 as [? [k ->]]. split_and!; [done| |done]. exists (queued ++ k). by rewrite app_assoc.
Qed.

(** C2 The client decodes what was sent to it.  In every reachable state, handlers
    taking turns, what sendInLoop was given for a client is the server's answer to its
    handshake, if anything, and encoded messages.  If no write of the connection
    failed with EPIPE or ECONNRESET, and each message whose timestamp needs the extended
    field fits one chunk ([writer_ok]; the writer's stream is not readable otherwise), the bytes
    the client received after the answer, cut into reads in any way and given to a chunk parser,
    yield these messages in order: a beginning of them, and all of them when nothing is left in
    the output buffer. *)
Theorem client_decodes {B : Type} `{ByteBufferLaws B}
    (auth : option (bytes -> bytes -> bool -> bool)) (loop : conn_ptr -> nat) (n : net B)
    (c : conn_ptr) (tc : TcpConnection.t B unit) :
  net_reachable auth loop n -> tcp n !! c = Some tc ->
  exists (answer : bytes) (ms : list RtmpTypes.RtmpMessage),
    (answer = [] /\ ms = [] \/ is_hello answer) /\ Forall msg_wf ms /\
    given (log tc) = some_bytes answer ++ ((fun m => RtmpChunkWriter.EncodeMessage m RtmpTypes.kDefaultChunkSize) <$> ms) /\
    forall segments, dropped (log tc) = [] ->
      concat segments = drop (length answer) (TcpConnectionFacts.wire (log tc)) ->
      Forall (writer_ok RtmpTypes.kDefaultChunkSize) ms ->
      exists p' buf' got,
        RtmpChunkParser.deliveries (map RtmpChunkParser.Deliver segments) RtmpChunkParser.initial ([] : bytes) [] =
          Some (RtmpChunkParser.Done, p', buf', got) /\
        got `prefix_of` ms /\ (peek (outputBuffer_ tc) = [] -> got = ms).
Proof.
  intros Hr Hl. destruct (no_conns auth loop n (net_reachable_ok auth loop n Hr) c tc Hl) as [[Hcore _] [Hfirst _] _ _ _].
  assert (exists answer ms, (answer = [] /\ ms = [] \/ is_hello answer) /\ Forall msg_wf ms /\
    given (log tc) = some_bytes answer ++ ((fun m => RtmpChunkWriter.EncodeMessage m RtmpTypes.kDefaultChunkSize) <$> ms))
    as (answer & ms & Ha & Hms & E).
  { destruct Hfirst as [E|(hello & blocks & Hh & Hms & E)].
    - exists [], []. split_and!; [by left|apply Forall_nil_2|done].
    - destruct (messages_encoded blocks Hms) as (ms & Hw & ->).
      exists hello, ms. split_and!; [by right|done|]. rewrite E.
      destruct Hh as [Hlen _]. by destruct hello. }
  exists answer, ms. split_and!; [done..|]. intros segments Hdrop Hseg Hw.
  pose proof (flow_bytes _ (core_flow _ Hcore)) as Hb. unfold taken in Hb. rewrite <- given_accepted, E in Hb by done.
  by apply (received_decodes answer ms segments (TcpConnectionFacts.wire (log tc))).
Qed.

Definition sample_bob : TcpConnection.t bytes unit := default (make 0 tt []) (tcp sample_net !! bob).

Lemma network_delivers_witness :
  tcp sample_net !! bob = Some sample_bob /\ dropped (log sample_bob) = [] /\
  TcpConnectionFacts.wire (log sample_bob) ++ peek (outputBuffer_ sample_bob) = concat (given (log sample_bob)) /\
  exists direct posted, merge direct posted (given (log sample_bob)) /\
    direct = sent_from conn_id true bob (history sample_net) /\
    posted ++ waiting (queue sample_bob) = sent_from conn_id false bob (history sample_net).
Proof.
  assert (tcp sample_net !! bob = Some sample_bob) as Hl by (vm_compute; reflexivity).
  assert (dropped (log sample_bob) = []) as Hd by (vm_compute; reflexivity).
  assert (bool_decide (state_ sample_bob = kConnected) = true) as Hs by (vm_compute; reflexivity).
  apply bool_decide_eq_true in Hs.
  destruct (network_delivers (B := bytes) None conn_id sample_net bob sample_bob sample_net_reachable Hl)
    as (Hw & _ & Ha & _ & direct & posted & Hm & _ & _ & Hall).
  split; [exact Hl|]. split; [exact Hd|]. split; [rewrite Hw, (Ha Hd); reflexivity|].
  exists direct, posted. split; [exact Hm|]. exact (Hall Hs).
Defined.

Lemma client_decodes_witness :
  exists (answer : bytes) (ms : list RtmpTypes.RtmpMessage),
    given (log sample_bob) = some_bytes answer ++ ((fun m => RtmpChunkWriter.EncodeMessage m RtmpTypes.kDefaultChunkSize) <$> ms) /\
    (Forall (writer_ok RtmpTypes.kDefaultChunkSize) ms ->
     exists p' buf' got,
       RtmpChunkParser.deliveries
         (map RtmpChunkParser.Deliver [drop (length answer) (TcpConnectionFacts.wire (log sample_bob))])
         RtmpChunkParser.initial ([] : bytes) [] = Some (RtmpChunkParser.Done, p', buf', got) /\
       got `prefix_of` ms /\ (peek (outputBuffer_ sample_bob) = [] -> got = ms)).
Proof.
  assert (tcp sample_net !! bob = Some sample_bob) as Hl by (vm_compute; reflexivity).
  assert (dropped (log sample_bob) = []) as Hd by (vm_compute; reflexivity).
  destruct (client_decodes (B := bytes) None conn_id sample_net bob sample_bob sample_net_reachable Hl)
    as (answer & ms & _ & _ & Hg & Hdec).
  exists answer, ms. split; [exact Hg|]. intros Hw. apply Hdec; [exact Hd|cbn [concat]; apply app_nil_r|exact Hw].
Defined.

(** What Bob's parser makes of his wire: four answers to connect, two
    to createStream and play, and Alice's first frame. *)
Example bob_sees :
  match RtmpChunkParser.deliveries [RtmpChunkParser.Deliver (drop 3073 (TcpConnectionFacts.wire (log sample_bob)))]
          RtmpChunkParser.initial ([] : bytes) [] with
  | Some (_, _, _, ms) => ((fun m => RtmpTypes.typeId m) <$> ms, RtmpTypes.payload <$> last ms)
  | None => ([], None)
  end = ([5; 6; 1; 20; 20; 20; 9]%Z, Some [Byte.x17; Byte.x01]).
Proof. vm_compute. reflexivity. Qed.
